(** * newpachinko: the physics engine and the pachinko machine

    A shallow embedding of [src/physics.js] (class [Physics], class
    [PhysicsBody]) and of [src/pachinko.js] (class [PachinkoMachine]: slot
    layout, ball launch, per-frame scoring and removal), with the properties of
    the collision resolvers, the integrator and the scoring logic.

    JavaScript numbers are IEEE 754 binary64 values.  The code is embedded once,
    over an interface [Number] of the operations it uses, and read at two
    instances: [R] (exact arithmetic, in which the geometric and algebraic
    properties are stated) and the kernel's primitive [float] (binary64, on
    which the embedding runs by [vm_compute]).

    The development also covers the game logic of [src/main.js] (class
    [PachinkoGame]), the matrix and vector functions of [src/math.js], the
    camera of [src/camera.js] and the meshes of [src/geometry.js]. *)

From Stdlib Require Import Reals Lra Lia ZArith List Bool String Floats.
Import ListNotations.

Set Implicit Arguments.

(** ** Numbers *)

Declare Scope num_scope.
Delimit Scope num_scope with num.

(** The arithmetic of the source: [+ - * /], unary minus, [Math.sqrt],
    [Math.abs], [Math.min], [Math.max], the comparisons [<], [<=] and [===],
    and integer literals.  [a > b] is [b < a] and [a >= b] is [b <= a]. *)
Class Number (T : Type) : Type := {
  ofZ : Z -> T;
  add : T -> T -> T;
  sub : T -> T -> T;
  mul : T -> T -> T;
  div : T -> T -> T;
  neg : T -> T;
  Math_sqrt : T -> T;
  Math_abs : T -> T;
  Math_min : T -> T -> T;
  Math_max : T -> T -> T;
  ltb : T -> T -> bool;
  leb : T -> T -> bool;
  eqb : T -> T -> bool
}.

Notation "a + b" := (add a b) : num_scope.
Notation "a - b" := (sub a b) : num_scope.
Notation "a * b" := (mul a b) : num_scope.
Notation "a / b" := (div a b) : num_scope.
Notation "- a" := (neg a) : num_scope.
Notation "a <? b" := (ltb a b) (at level 70, no associativity) : num_scope.
Notation "a >? b" := (ltb b a) (at level 70, no associativity) : num_scope.
Notation "a <=? b" := (leb a b) (at level 70, no associativity) : num_scope.
Notation "a >=? b" := (leb b a) (at level 70, no associativity) : num_scope.
Notation "a =? b" := (eqb a b) (at level 70, no associativity) : num_scope.

(** A decimal literal [n / 10^k] of the source, written [dec n d] with
    [d = 10^k]: the quotient of two integers, which on binary64 is the double
    nearest to the decimal, as the literal is. *)
Definition dec {T} `{Number T} (n d : Z) : T := (ofZ n / ofZ d)%num.

(** *** Exact arithmetic *)

Definition Rltb (a b : R) : bool := if Rlt_dec a b then true else false.
Definition Rleb (a b : R) : bool := if Rle_dec a b then true else false.
Definition Reqb (a b : R) : bool := if Req_dec_T a b then true else false.

#[export] Instance RNumber : Number R := {|
  ofZ := IZR;
  add := Rplus;
  sub := Rminus;
  mul := Rmult;
  div := Rdiv;
  neg := Ropp;
  Math_sqrt := R_sqrt.sqrt;
  Math_abs := Rabs;
  Math_min := Rmin;
  Math_max := Rmax;
  ltb := Rltb;
  leb := Rleb;
  eqb := Reqb
|}.

(** *** binary64 *)

Definition float_ofZ (z : Z) : float :=
  match z with
  | Z0 => PrimFloat.of_uint63 (Uint63.of_Z 0)
  | Zpos _ => PrimFloat.of_uint63 (Uint63.of_Z z)
  | Zneg p => PrimFloat.opp (PrimFloat.of_uint63 (Uint63.of_Z (Zpos p)))
  end.

(** [Math.min]: NaN if an argument is NaN, and [-0] is below [+0]. *)
Definition float_min (a b : float) : float :=
  if PrimFloat.is_nan a || PrimFloat.is_nan b then PrimFloat.nan
  else if PrimFloat.ltb a b then a
  else if PrimFloat.ltb b a then b
  else if PrimFloat.get_sign a then a else b.

(** [Math.max]: NaN if an argument is NaN, and [+0] is above [-0]. *)
Definition float_max (a b : float) : float :=
  if PrimFloat.is_nan a || PrimFloat.is_nan b then PrimFloat.nan
  else if PrimFloat.ltb b a then a
  else if PrimFloat.ltb a b then b
  else if PrimFloat.get_sign a then b else a.

#[export] Instance FloatNumber : Number float := {|
  ofZ := float_ofZ;
  add := PrimFloat.add;
  sub := PrimFloat.sub;
  mul := PrimFloat.mul;
  div := PrimFloat.div;
  neg := PrimFloat.opp;
  Math_sqrt := PrimFloat.sqrt;
  Math_abs := PrimFloat.abs;
  Math_min := float_min;
  Math_max := float_max;
  ltb := PrimFloat.ltb;
  leb := PrimFloat.leb;
  eqb := PrimFloat.eqb
|}.


(** ** Objects

    A [PhysicsBody] is a mutable object shared by reference between the
    [Physics] instance (its [bodies] and [staticBodies] arrays) and the balls
    of the machine ([ball.body]).  Bodies live in a store indexed by [ref];
    the arrays hold references. *)

Definition ref := nat.

(** A callback is known by a name: calling it is recorded, not interpreted. *)
Definition handler := nat.

Section Objects.
Context {T : Type}.

(** A three-element array [[a0, a1, a2]]. *)
Record Vec3 : Type := vec3 { at0 : T; at1 : T; at2 : T }.

(** [class PhysicsBody].  [min] and [max] are present only when the
    constructor was given both; [onScore] and [userData] are never read by
    the engine and are left out. *)
Record PhysicsBody : Type := {
  position : Vec3;
  velocity : Vec3;
  radius : T;
  mass : T;
  isStatic : bool;
  type : string;
  onCollision : option handler;
  min : option Vec3;
  max : option Vec3;
  height : T
}.

(** The argument [options] of [new PhysicsBody(options)]. *)
Record Options : Type := {
  o_position : option Vec3;
  o_velocity : option Vec3;
  o_radius : option T;
  o_mass : option T;
  o_isStatic : option bool;
  o_type : option string;
  o_min : option Vec3;
  o_max : option Vec3;
  o_height : option T
}.

(** A slot of [PachinkoMachine.slots]: [{x, minX, maxX, points}], the field
    [x] being [slot_x]. *)
Record Slot : Type := {
  slot_x : T;
  minX : T;
  maxX : T;
  points : Z
}.

(** A ball object of [PachinkoMachine.balls].  [ballId] is the identity of
    the object; the fields used for drawing are left out. *)
Record Ball : Type := {
  ballId : nat;
  body : ref;
  scored : bool;
  onScore : option handler
}.

(** A call made to a callback: [ball.onCollision(other)] with the state of
    the obstacle at the call, or [ball.onScore(points)]. *)
Inductive Call : Type :=
| CallOnCollision (h : handler) (other : PhysicsBody)
| CallOnScore (h : handler) (ball : nat) (pts : Z).

(** The fields of the [Physics] instance. *)
Record PhysicsFields : Type := {
  gravity : T;
  restitution : T;
  friction : T;
  bodies : list ref;
  staticBodies : list ref
}.

(** The fields of the [PachinkoMachine] instance that the game logic uses
    ([mheight] is its field [height]); its [physics] is the [Physics]
    instance of [State]. *)
Record MachineFields : Type := {
  width : T;
  mheight : T;
  depth : T;
  balls : list Ball;
  slots : list Slot
}.

(** The program state: the store of bodies, the two instances, the identity
    of the next ball object, the values [Math.random()] returns ([entropy],
    each in [[0, 1)]) with the number of draws so far, and the calls made to
    callbacks, latest first. *)
Record State : Type := {
  heap : ref -> PhysicsBody;
  nextRef : ref;
  physics : PhysicsFields;
  machine : MachineFields;
  nextBall : nat;
  entropy : nat -> T;
  draws : nat;
  calls : list Call
}.
End Objects.

Arguments Vec3 : clear implicits.
Arguments PhysicsBody : clear implicits.
Arguments Options : clear implicits.
Arguments Slot : clear implicits.
Arguments Ball : clear implicits.
Arguments Call : clear implicits.
Arguments PhysicsFields : clear implicits.
Arguments MachineFields : clear implicits.
Arguments State : clear implicits.

(** ** The store and the effects of a method

    A method is a function of the state that returns a value and a new state,
    or [None] when it throws (a [TypeError] on a missing [min] or [max]). *)

Section Effects.
Context {T : Type}.

Definition M (A : Type) : Type := State T -> option (A * State T).

Definition ret {A} (a : A) : M A := fun s => Some (a, s).

Definition bind {A B} (m : M A) (k : A -> M B) : M B :=
  fun s => match m s with
           | Some (a, s') => k a s'
           | None => None
           end.

Definition throw {A} : M A := fun _ => None.

Definition get : M (State T) := fun s => Some (s, s).

Definition load (r : ref) : M (PhysicsBody T) := fun s => Some (heap s r, s).

Definition setHeap (s : State T) (h : ref -> PhysicsBody T) : State T :=
  {| heap := h; nextRef := nextRef s; physics := physics s;
     machine := machine s; nextBall := nextBall s; entropy := entropy s;
     draws := draws s; calls := calls s |}.

Definition setPhysics (s : State T) (p : PhysicsFields T) : State T :=
  {| heap := heap s; nextRef := nextRef s; physics := p;
     machine := machine s; nextBall := nextBall s; entropy := entropy s;
     draws := draws s; calls := calls s |}.

Definition setMachine (s : State T) (m : MachineFields T) : State T :=
  {| heap := heap s; nextRef := nextRef s; physics := physics s;
     machine := m; nextBall := nextBall s; entropy := entropy s;
     draws := draws s; calls := calls s |}.

Definition update_heap (h : ref -> PhysicsBody T) (r : ref) (b : PhysicsBody T)
  : ref -> PhysicsBody T :=
  fun r' => if Nat.eqb r' r then b else h r'.

Definition store (r : ref) (b : PhysicsBody T) : M unit :=
  fun s => Some (tt, setHeap s (update_heap (heap s) r b)).

(** [new PhysicsBody(...)]: a fresh reference holding [b]. *)
Definition alloc (b : PhysicsBody T) : M ref :=
  fun s => Some (nextRef s,
    {| heap := update_heap (heap s) (nextRef s) b; nextRef := S (nextRef s);
       physics := physics s; machine := machine s; nextBall := nextBall s;
       entropy := entropy s; draws := draws s; calls := calls s |}).

(** [Math.random()]. *)
Definition random : M T :=
  fun s => Some (entropy s (draws s),
    {| heap := heap s; nextRef := nextRef s; physics := physics s;
       machine := machine s; nextBall := nextBall s; entropy := entropy s;
       draws := S (draws s); calls := calls s |}).

(** Record the calls [cs] (latest first) after those already made. *)
Definition emit (cs : list (Call T)) : M unit :=
  fun s => Some (tt,
    {| heap := heap s; nextRef := nextRef s; physics := physics s;
       machine := machine s; nextBall := nextBall s; entropy := entropy s;
       draws := draws s; calls := cs ++ calls s |}).

(** [for (const a of l) f(a)]. *)
Fixpoint forEach {A} (l : list A) (f : A -> M unit) : M unit :=
  match l with
  | [] => ret tt
  | a :: l' => bind (f a) (fun _ => forEach l' f)
  end.
End Effects.

Notation "x <- m ;; k" := (bind m (fun x => k))
  (at level 61, m at next level, right associativity).
Notation "m ;;; k" := (bind m (fun _ => k))
  (at level 61, right associativity).

(** ** [class PhysicsBody] *)

Section PhysicsBodyClass.
Context {T : Type} `{Number T}.
Local Open Scope num_scope.

(** Whether a number is truthy: neither [0], [-0] nor [NaN]. *)
Definition truthy (v : T) : bool := (v =? v) && negb (v =? ofZ 0).

(** [o || d] for a number that may be absent. *)
Definition orNumber (o : option T) (d : T) : T :=
  match o with
  | Some v => if truthy v then v else d
  | None => d
  end.

Definition orElse {A} (o : option A) (d : A) : A :=
  match o with Some v => v | None => d end.

Definition newPhysicsBody (options : Options T) : PhysicsBody T :=
  let both := match o_min options, o_max options with
              | Some _, Some _ => true
              | _, _ => false
              end in
  {| position := orElse (o_position options) (vec3 (ofZ 0) (ofZ 0) (ofZ 0));
     velocity := orElse (o_velocity options) (vec3 (ofZ 0) (ofZ 0) (ofZ 0));
     radius := orNumber (o_radius options) (dec 2 10);
     mass := orNumber (o_mass options) (ofZ 1);
     isStatic := orElse (o_isStatic options) false;
     type := match o_type options with
             | Some t => if String.eqb t EmptyString then "sphere"%string else t
             | None => "sphere"%string
             end;
     onCollision := None;
     min := if both then o_min options else None;
     max := if both then o_max options else None;
     height := orNumber (o_height options) (ofZ 1) |}.

Definition noOptions : Options T :=
  {| o_position := None; o_velocity := None; o_radius := None;
     o_mass := None; o_isStatic := None; o_type := None; o_min := None;
     o_max := None; o_height := None |}.

Definition setPosition (b : PhysicsBody T) (p : Vec3 T) : PhysicsBody T :=
  {| position := p; velocity := velocity b; radius := radius b;
     mass := mass b; isStatic := isStatic b; type := type b;
     onCollision := onCollision b; min := min b; max := max b;
     height := height b |}.

Definition setVelocity (b : PhysicsBody T) (v : Vec3 T) : PhysicsBody T :=
  {| position := position b; velocity := v; radius := radius b;
     mass := mass b; isStatic := isStatic b; type := type b;
     onCollision := onCollision b; min := min b; max := max b;
     height := height b |}.

Definition setOnCollision (b : PhysicsBody T) (h : option handler)
  : PhysicsBody T :=
  {| position := position b; velocity := velocity b; radius := radius b;
     mass := mass b; isStatic := isStatic b; type := type b;
     onCollision := h; min := min b; max := max b; height := height b |}.
End PhysicsBodyClass.

(** ** [class Physics] *)

Module Physics.
Section PhysicsClass.
Context {T : Type} `{Number T}.
Local Open Scope num_scope.

Definition constructor : PhysicsFields T :=
  {| gravity := - ofZ 15;
     restitution := dec 6 10;
     friction := dec 98 100;
     bodies := [];
     staticBodies := [] |}.

Definition setBodies (p : PhysicsFields T) (l : list ref) : PhysicsFields T :=
  {| gravity := gravity p; restitution := restitution p;
     friction := friction p; bodies := l; staticBodies := staticBodies p |}.

Definition setStaticBodies (p : PhysicsFields T) (l : list ref)
  : PhysicsFields T :=
  {| gravity := gravity p; restitution := restitution p;
     friction := friction p; bodies := bodies p; staticBodies := l |}.

Definition addBody (body : ref) : M ref :=
  fun s => Some (body,
    setPhysics s (setBodies (physics s) (bodies (physics s) ++ [body]))).

Definition addStaticBody (body : ref) : M ref :=
  fun s => Some (body,
    setPhysics s
      (setStaticBodies (physics s) (staticBodies (physics s) ++ [body]))).

(** [indexOf] then [splice(index, 1)]: the first occurrence goes. *)
Fixpoint removeFirst (body : ref) (l : list ref) : list ref :=
  match l with
  | [] => []
  | r :: l' => if Nat.eqb r body then l' else r :: removeFirst body l'
  end.

Definition removeBody (body : ref) : M unit :=
  fun s => Some (tt,
    setPhysics s
      (setBodies (physics s) (removeFirst body (bodies (physics s))))).

Definition clearBodies : M unit :=
  fun s => Some (tt, setPhysics s (setBodies (physics s) [])).

(** [if (ball.onCollision) ball.onCollision(other)]. *)
Definition callOnCollision (ball other : PhysicsBody T) : list (Call T) :=
  match onCollision ball with
  | Some h => [CallOnCollision h other]
  | None => []
  end.

(** The resolvers read the obstacle, which is an object other than the
    ball, and update the ball: each returns the ball after the call and the
    callbacks it called. *)

Definition sphereVsSphere (this : PhysicsFields T) (ball pin : PhysicsBody T)
  : PhysicsBody T * list (Call T) :=
  let dx := at0 (position ball) - at0 (position pin) in
  let dy := at1 (position ball) - at1 (position pin) in
  let dz := at2 (position ball) - at2 (position pin) in
  let distance := Math_sqrt (dx * dx + dy * dy + dz * dz) in
  let minDist := radius ball + radius pin in
  if (distance <? minDist) && (distance >? ofZ 0) then
    let nx := dx / distance in
    let ny := dy / distance in
    let nz := dz / distance in
    let overlap := minDist - distance in
    let ball1 := setPosition ball
      (vec3 (at0 (position ball) + nx * overlap)
            (at1 (position ball) + ny * overlap)
            (at2 (position ball) + nz * overlap)) in
    let dot := at0 (velocity ball1) * nx + at1 (velocity ball1) * ny
               + at2 (velocity ball1) * nz in
    let ball2 := setVelocity ball1
      (vec3 (at0 (velocity ball1) - ofZ 2 * dot * nx * restitution this)
            (at1 (velocity ball1) - ofZ 2 * dot * ny * restitution this)
            (at2 (velocity ball1) - ofZ 2 * dot * nz * restitution this)) in
    (ball2, callOnCollision ball2 pin)
  else (ball, []).

Definition sphereVsCylinder (this : PhysicsFields T)
    (ball cylinder : PhysicsBody T) : PhysicsBody T * list (Call T) :=
  let dx := at0 (position ball) - at0 (position cylinder) in
  let dz := at2 (position ball) - at2 (position cylinder) in
  let horizontalDistance := Math_sqrt (dx * dx + dz * dz) in
  let minDist := radius ball + radius cylinder in
  let withinHeight :=
    (at1 (position ball) >=? at1 (position cylinder) - height cylinder / ofZ 2)
    && (at1 (position ball)
          <=? at1 (position cylinder) + height cylinder / ofZ 2) in
  if (horizontalDistance <? minDist) && withinHeight
     && (horizontalDistance >? ofZ 0) then
    let nx := dx / horizontalDistance in
    let nz := dz / horizontalDistance in
    let overlap := minDist - horizontalDistance in
    let ball1 := setPosition ball
      (vec3 (at0 (position ball) + nx * overlap)
            (at1 (position ball))
            (at2 (position ball) + nz * overlap)) in
    let dot := at0 (velocity ball1) * nx + at2 (velocity ball1) * nz in
    let ball2 := setVelocity ball1
      (vec3 (at0 (velocity ball1) - ofZ 2 * dot * nx * restitution this)
            (at1 (velocity ball1))
            (at2 (velocity ball1) - ofZ 2 * dot * nz * restitution this)) in
    (ball2, callOnCollision ball2 cylinder)
  else (ball, []).

(** [box.min[0]] throws when the box has no [min]; likewise [max]. *)
Definition sphereVsBox (this : PhysicsFields T) (ball box : PhysicsBody T)
  : option (PhysicsBody T * list (Call T)) :=
  match min box, max box with
  | Some bmin, Some bmax =>
    let closestX :=
      Math_max (at0 bmin) (Math_min (at0 (position ball)) (at0 bmax)) in
    let closestY :=
      Math_max (at1 bmin) (Math_min (at1 (position ball)) (at1 bmax)) in
    let closestZ :=
      Math_max (at2 bmin) (Math_min (at2 (position ball)) (at2 bmax)) in
    let dx := at0 (position ball) - closestX in
    let dy := at1 (position ball) - closestY in
    let dz := at2 (position ball) - closestZ in
    let distance := Math_sqrt (dx * dx + dy * dy + dz * dz) in
    if (distance <? radius ball) && (distance >? ofZ 0) then
      let nx := dx / distance in
      let ny := dy / distance in
      let nz := dz / distance in
      let overlap := radius ball - distance in
      let ball1 := setPosition ball
        (vec3 (at0 (position ball) + nx * overlap)
              (at1 (position ball) + ny * overlap)
              (at2 (position ball) + nz * overlap)) in
      let dot := at0 (velocity ball1) * nx + at1 (velocity ball1) * ny
                 + at2 (velocity ball1) * nz in
      let ball2 := setVelocity ball1
        (vec3 (at0 (velocity ball1) - ofZ 2 * dot * nx * restitution this)
              (at1 (velocity ball1) - ofZ 2 * dot * ny * restitution this)
              (at2 (velocity ball1) - ofZ 2 * dot * nz * restitution this)) in
      Some (ball2, callOnCollision ball2 box)
    else if distance =? ofZ 0 then
      let ball1 := setPosition ball
        (vec3 (at0 (position ball))
              (at1 (position ball) + radius ball)
              (at2 (position ball))) in
      Some (setVelocity ball1
              (vec3 (at0 (velocity ball1))
                    (Math_abs (at1 (velocity ball1)) * restitution this)
                    (at2 (velocity ball1))), [])
    else Some (ball, [])
  | _, _ => None
  end.

Definition checkCollision (this : PhysicsFields T)
    (ball staticBody : PhysicsBody T)
  : option (PhysicsBody T * list (Call T)) :=
  if String.eqb (type staticBody) "sphere" then
    Some (sphereVsSphere this ball staticBody)
  else if String.eqb (type staticBody) "box" then
    sphereVsBox this ball staticBody
  else if String.eqb (type staticBody) "cylinder" then
    Some (sphereVsCylinder this ball staticBody)
  else Some (ball, []).

(** [this.checkCollision(body, staticBody)] on the objects of the store. *)
Definition collide (body staticBody : ref) : M unit :=
  s <- get ;;
  match checkCollision (physics s) (heap s body) (heap s staticBody) with
  | Some (ball', cs) => store body ball' ;;; emit cs
  | None => throw
  end.

(** The first statements of the body of the loop of [update]: gravity,
    friction, position. *)
Definition integrate (this : PhysicsFields T) (fixedDelta : T)
    (b : PhysicsBody T) : PhysicsBody T :=
  let v1 := at1 (velocity b) + gravity this * fixedDelta in
  let v0 := at0 (velocity b) * friction this in
  let v2 := at2 (velocity b) * friction this in
  setPosition (setVelocity b (vec3 v0 v1 v2))
    (vec3 (at0 (position b) + v0 * fixedDelta)
          (at1 (position b) + v1 * fixedDelta)
          (at2 (position b) + v2 * fixedDelta)).

(** The end of the body of the loop: the random perturbation. *)
Definition perturb (body : ref) : M unit :=
  b <- load body ;;
  if (Math_abs (at0 (velocity b)) >? dec 1 10)
     || (Math_abs (at1 (velocity b)) >? dec 1 10) then
    r <- random ;;
    store body
      (setVelocity b
         (vec3 (at0 (velocity b) + (r - dec 5 10) * dec 1 10)
               (at1 (velocity b))
               (at2 (velocity b))))
  else ret tt.

(** The body of the loop for a body that is not static, up to the
    perturbation. *)
Definition moveBody (fixedDelta : T) (body : ref) : M unit :=
  b <- load body ;;
  s <- get ;;
  store body (integrate (physics s) fixedDelta b) ;;;
  forEach (staticBodies (physics s))
    (fun staticBody => collide body staticBody).

Definition updateBody (fixedDelta : T) (body : ref) : M unit :=
  b <- load body ;;
  if isStatic b then ret tt
  else moveBody fixedDelta body ;;; perturb body.

Definition update (deltaTime : T) : M unit :=
  let fixedDelta := Math_min deltaTime (ofZ 1 / ofZ 60) in
  s <- get ;;
  forEach (bodies (physics s)) (updateBody fixedDelta).
End PhysicsClass.
End Physics.

(** ** [class PachinkoMachine]

    The geometry handed to the renderer ([createBackBoard], [createLauncher],
    the visual boxes of [createFrame] and [createSlots], [getRenderables]) has
    no part in the game logic and is left out. *)

Module PachinkoMachine.
Section PachinkoMachineClass.
Context {T : Type} `{Number T}.
Local Open Scope num_scope.

Definition constructor : MachineFields T :=
  {| width := ofZ 6; mheight := ofZ 12; depth := dec 8 10;
     balls := []; slots := [] |}.

Definition setBalls (m : MachineFields T) (l : list Ball) : MachineFields T :=
  {| width := width m; mheight := mheight m; depth := depth m;
     balls := l; slots := slots m |}.

Definition setSlots (m : MachineFields T) (l : list (Slot T))
  : MachineFields T :=
  {| width := width m; mheight := mheight m; depth := depth m;
     balls := balls m; slots := l |}.

(** [this.physics.addStaticBody(new PhysicsBody({type: 'box', isStatic: true,
    min, max}))]. *)
Definition addStaticBox (bmin bmax : Vec3 T) : M unit :=
  r <- alloc (newPhysicsBody
                {| o_position := None; o_velocity := None; o_radius := None;
                   o_mass := None; o_isStatic := Some true;
                   o_type := Some "box"%string; o_min := Some bmin;
                   o_max := Some bmax; o_height := None |}) ;;
  (Physics.addStaticBody r ;;; ret tt).

(** The physics walls of [createFrame]. *)
Definition createFrame : M unit :=
  s <- get ;;
  let this := machine s in
  let wallThickness := dec 5 10 in
  addStaticBox
    (vec3 (- width this / ofZ 2 - wallThickness) (ofZ 0) (- depth this))
    (vec3 (- width this / ofZ 2) (mheight this) (depth this)) ;;;
  addStaticBox
    (vec3 (width this / ofZ 2) (ofZ 0) (- depth this))
    (vec3 (width this / ofZ 2 + wallThickness) (mheight this) (depth this)) ;;;
  addStaticBox
    (vec3 (- width this / ofZ 2) (ofZ 0) (- depth this - wallThickness))
    (vec3 (width this / ofZ 2) (mheight this) (- depth this / ofZ 2)) ;;;
  addStaticBox
    (vec3 (- width this / ofZ 2) (ofZ 0) (depth this / ofZ 2))
    (vec3 (width this / ofZ 2) (mheight this) (depth this)).

Definition numSlots : nat := 7.
Definition pointValues : list Z := [10; 50; 100; 500; 100; 50; 10]%Z.

(** The slot that iteration [i] of the loop of [createSlots] records, for
    a machine of width [w]. *)
Definition slotAt (w : T) (i : nat) : Slot T :=
  let slotWidth := w / ofZ (Z.of_nat numSlots) in
  let x := - w / ofZ 2 + slotWidth / ofZ 2 + ofZ (Z.of_nat i) * slotWidth in
  {| slot_x := x;
     minX := x - slotWidth / ofZ 2;
     maxX := x + slotWidth / ofZ 2;
     points := nth i pointValues 0%Z |}.

(** Iteration [i] of the loop of [createSlots]: the divider to the right of
    the slot, except after the last one, then the slot. *)
Definition createSlot (i : nat) : M unit :=
  s <- get ;;
  let this := machine s in
  let slotWidth := width this / ofZ (Z.of_nat numSlots) in
  let slotHeight := dec 15 10 in
  let dividerWidth := dec 1 10 in
  let x := - width this / ofZ 2 + slotWidth / ofZ 2
           + ofZ (Z.of_nat i) * slotWidth in
  (if Nat.ltb i (numSlots - 1) then
     addStaticBox
       (vec3 (x + slotWidth / ofZ 2 - dividerWidth / ofZ 2) (ofZ 0)
             (- depth this))
       (vec3 (x + slotWidth / ofZ 2 + dividerWidth / ofZ 2) slotHeight
             (depth this))
   else ret tt) ;;;
  fun s' => Some (tt,
    setMachine s'
      (setSlots (machine s') (slots (machine s') ++ [slotAt (width this) i]))).

Definition createSlots : M unit :=
  forEach (seq 0 numSlots) createSlot ;;;
  s <- get ;;
  let this := machine s in
  addStaticBox
    (vec3 (- width this / ofZ 2) (- ofZ 1) (- depth this))
    (vec3 (width this / ofZ 2) (ofZ 0) (depth this)).

(** [launchBall(power)]: the new ball object is returned by its identity. *)
Definition launchBall (power : T) : M nat :=
  s <- get ;;
  let this := machine s in
  let ballRadius := dec 18 100 in
  let launchX := width this / ofZ 2 - dec 5 10 in
  let launchY := mheight this - dec 5 10 in
  let launchZ := ofZ 0 in
  let baseVelocity := ofZ 5 + power * ofZ 10 in
  r <- random ;;
  let velocityX := - baseVelocity * dec 5 10 + (r - dec 5 10) * ofZ 2 in
  let velocityY := baseVelocity * dec 3 10 in
  let velocityZ := ofZ 0 in
  ballBody <- alloc (newPhysicsBody
                {| o_position := Some (vec3 launchX launchY launchZ);
                   o_velocity := Some (vec3 velocityX velocityY velocityZ);
                   o_radius := Some ballRadius; o_mass := Some (ofZ 1);
                   o_isStatic := None; o_type := Some "sphere"%string;
                   o_min := None; o_max := None; o_height := None |}) ;;
  b <- load ballBody ;;
  store ballBody (setOnCollision b (Some 0%nat)) ;;;
  Physics.addBody ballBody ;;;
  fun s' =>
    let ball := {| ballId := nextBall s'; body := ballBody; scored := false;
                   onScore := None |} in
    Some (nextBall s',
      {| heap := heap s'; nextRef := nextRef s'; physics := physics s';
         machine := setBalls (machine s') (balls (machine s') ++ [ball]);
         nextBall := S (nextBall s'); entropy := entropy s';
         draws := draws s'; calls := calls s' |}).

(** [ball.onScore = f], by a holder of the ball object. *)
Definition setOnScore (id : nat) (h : option handler) : M unit :=
  fun s => Some (tt,
    setMachine s (setBalls (machine s)
      (map (fun b => if Nat.eqb (ballId b) id
                     then {| ballId := ballId b; body := body b;
                             scored := scored b; onScore := h |}
                     else b)
           (balls (machine s))))).

(** The loop over [this.slots] with its [break]: the first slot whose
    closed range holds [x]. *)
Fixpoint firstSlot (x : T) (l : list (Slot T)) : option (Slot T) :=
  match l with
  | [] => None
  | slot :: l' =>
      if (x >=? minX slot) && (x <=? maxX slot) then Some slot
      else firstSlot x l'
  end.

(** [l[i] = v]. *)
Fixpoint setNth {A} (i : nat) (v : A) (l : list A) : list A :=
  match l, i with
  | [], _ => []
  | _ :: l', O => v :: l'
  | a :: l', S i' => a :: setNth i' v l'
  end.

(** [l.splice(i, 1)]. *)
Fixpoint splice1 {A} (i : nat) (l : list A) : list A :=
  match l, i with
  | [], _ => []
  | _ :: l', O => l'
  | a :: l', S i' => a :: splice1 i' l'
  end.

(** The scoring check of iteration [i]. *)
Definition checkScore (i : nat) (ball : Ball) : M unit :=
  p <- load (body ball) ;;
  if negb (scored ball) && (at1 (position p) <? dec 5 10) then
    let x := at0 (position p) in
    s <- get ;;
    match firstSlot x (slots (machine s)) with
    | Some slot =>
        (fun s' => Some (tt,
           setMachine s' (setBalls (machine s')
             (setNth i {| ballId := ballId ball; body := body ball;
                          scored := true; onScore := onScore ball |}
                     (balls (machine s')))))) ;;;
        match onScore ball with
        | Some h => emit [CallOnScore h (ballId ball) (points slot)]
        | None => ret tt
        end
    | None => ret tt
    end
  else ret tt.

(** The removal check of iteration [i]. *)
Definition checkRemove (i : nat) (ball : Ball) : M unit :=
  p <- load (body ball) ;;
  if at1 (position p) <? - ofZ 2 then
    Physics.removeBody (body ball) ;;;
    fun s' => Some (tt,
      setMachine s' (setBalls (machine s') (splice1 i (balls (machine s')))))
  else ret tt.

(** Iteration [i] of the loop of [update]: [this.balls[i]] is read once.
    The first two statements of the iteration,
    [mat4.identity(ball.modelMatrix)] and
    [mat4.translate(ball.modelMatrix, ball.modelMatrix, ball.body.position)],
    are not part of this definition: they write the model matrix of the
    ball, an array that only the renderer reads and that [State] does not
    hold.  They are embedded, over the store of arrays, as [mat4.identity]
    and [mat4.translate] below.  What is stated of [update] on [State] is
    therefore stated of the game logic, not of the model matrices. *)
Definition updateBall (i : nat) : M unit :=
  s <- get ;;
  match nth_error (balls (machine s)) i with
  | Some ball => checkScore i ball ;;; checkRemove i ball
  | None => throw
  end.

(** [for (let i = n - 1; i >= 0; i--)]. *)
Fixpoint updateFrom (n : nat) : M unit :=
  match n with
  | O => ret tt
  | S i => updateBall i ;;; updateFrom i
  end.

Definition update (deltaTime : T) : M unit :=
  s <- get ;;
  updateFrom (List.length (balls (machine s))).

Definition reset : M unit :=
  s <- get ;;
  forEach (balls (machine s)) (fun ball => Physics.removeBody (body ball)) ;;;
  fun s' => Some (tt, setMachine s' (setBalls (machine s') [])).
End PachinkoMachineClass.
End PachinkoMachine.

(** ** The program

    [PachinkoGame.init] builds one [Physics] and one [PachinkoMachine] and
    calls [PachinkoMachine.init]; of the latter, [setup] runs the two methods
    that register the walls, the dividers, the floor and the slots
    ([createPins] adds only cylinders to the static bodies). *)

Section Program.
Context {T : Type} `{Number T}.

Definition initial (rnd : nat -> T) : State T :=
  {| heap := fun _ => newPhysicsBody noOptions;
     nextRef := 0;
     physics := Physics.constructor;
     machine := PachinkoMachine.constructor;
     nextBall := 0;
     entropy := rnd;
     draws := 0;
     calls := [] |}.

Definition setup : M unit :=
  PachinkoMachine.createFrame ;;; PachinkoMachine.createSlots.

(** What the program does between two frames or in a frame. *)
Inductive Action : Type :=
| Launch (power : T)
| SetOnScore (ball : nat) (h : option handler)
| PhysicsUpdate (deltaTime : T)
| MachineUpdate (deltaTime : T)
| Reset.

Definition perform (a : Action) : M unit :=
  match a with
  | Launch power => PachinkoMachine.launchBall power ;;; ret tt
  | SetOnScore ball h => PachinkoMachine.setOnScore ball h
  | PhysicsUpdate deltaTime => Physics.update deltaTime
  | MachineUpdate deltaTime => PachinkoMachine.update deltaTime
  | Reset => PachinkoMachine.reset
  end.

Definition run (l : list Action) : M unit := forEach l perform.

(** The number of calls [ball.onScore(points)] made for the ball [id]. *)
Fixpoint scoreCount (id : nat) (cs : list (Call T)) : nat :=
  match cs with
  | [] => 0
  | CallOnScore _ b _ :: cs' =>
      (if Nat.eqb b id then 1 else 0) + scoreCount id cs'
  | CallOnCollision _ _ :: cs' => scoreCount id cs'
  end.

(** A step that leaves the machine, the ball identities and the score calls
    as they were. *)
Definition quiet (s s' : State T) : Prop :=
  machine s' = machine s /\ nextBall s' = nextBall s
  /\ forall id, scoreCount id (calls s') = scoreCount id (calls s).

(** [ball.scored = true]. *)
Definition markScored (ball : Ball) : Ball :=
  {| ballId := ballId ball; body := body ball; scored := true;
     onScore := onScore ball |}.

(** The invariant of the lifecycle: the balls of the machine are distinct
    objects created so far, no ball has had more than one score call, and a
    ball that has had one is marked as scored as long as it is in play. *)
Definition scoredOnce (s : State T) : Prop :=
  NoDup (map ballId (balls (machine s)))
  /\ (forall b, In b (balls (machine s)) -> (ballId b < nextBall s)%nat)
  /\ (forall id, (scoreCount id (calls s) <= 1)%nat)
  /\ (forall id, (1 <= scoreCount id (calls s))%nat ->
        (id < nextBall s)%nat
        /\ forall b, In b (balls (machine s)) -> ballId b = id ->
                     scored b = true).
End Program.

(** ** The geometry of a contact

    The quantities that the resolvers compute in their local variables, as
    functions of the ball and the obstacle. *)

Section Geometry.
Context {T : Type} `{Number T}.
Local Open Scope num_scope.

Definition plus3 (u v : Vec3 T) : Vec3 T :=
  vec3 (at0 u + at0 v) (at1 u + at1 v) (at2 u + at2 v).

Definition minus3 (u v : Vec3 T) : Vec3 T :=
  vec3 (at0 u - at0 v) (at1 u - at1 v) (at2 u - at2 v).

Definition scale3 (k : T) (u : Vec3 T) : Vec3 T :=
  vec3 (k * at0 u) (k * at1 u) (k * at2 u).

Definition over3 (u : Vec3 T) (k : T) : Vec3 T :=
  vec3 (at0 u / k) (at1 u / k) (at2 u / k).

Definition dot3 (u v : Vec3 T) : T :=
  at0 u * at0 v + at1 u * at1 v + at2 u * at2 v.

Definition norm3 (u : Vec3 T) : T := Math_sqrt (dot3 u u).

(** The part of [v] along the unit vector [n], and the rest of [v]. *)
Definition normalPart (v n : Vec3 T) : T := dot3 v n.
Definition tangentialPart (v n : Vec3 T) : Vec3 T :=
  minus3 v (scale3 (dot3 v n) n).

(** Sphere against sphere: the distance of the centres ([distance]) and the
    unit vector from the obstacle to the ball ([nx], [ny], [nz]). *)
Definition sphereDistance (ball pin : PhysicsBody T) : T :=
  norm3 (minus3 (position ball) (position pin)).

Definition sphereNormal (ball pin : PhysicsBody T) : Vec3 T :=
  over3 (minus3 (position ball) (position pin)) (sphereDistance ball pin).

(** Sphere against vertical cylinder: the same in the XZ plane
    ([horizontalDistance], [nx], [nz]). *)
Definition cylinderDistance (ball cylinder : PhysicsBody T) : T :=
  let dx := at0 (position ball) - at0 (position cylinder) in
  let dz := at2 (position ball) - at2 (position cylinder) in
  Math_sqrt (dx * dx + dz * dz).

Definition cylinderNormal (ball cylinder : PhysicsBody T) : Vec3 T :=
  vec3 ((at0 (position ball) - at0 (position cylinder))
        / cylinderDistance ball cylinder)
       (ofZ 0)
       ((at2 (position ball) - at2 (position cylinder))
        / cylinderDistance ball cylinder).

(** The ends of the height band of a cylinder. *)
Definition bandLow (cylinder : PhysicsBody T) : T :=
  at1 (position cylinder) - height cylinder / ofZ 2.

Definition bandHigh (cylinder : PhysicsBody T) : T :=
  at1 (position cylinder) + height cylinder / ofZ 2.

(** Sphere against box: the point of the box closest to the centre of the
    ball ([closestX], [closestY], [closestZ]), its distance ([distance]), and
    the unit vector from it to the ball. *)
Definition closestPoint (p bmin bmax : Vec3 T) : Vec3 T :=
  vec3 (Math_max (at0 bmin) (Math_min (at0 p) (at0 bmax)))
       (Math_max (at1 bmin) (Math_min (at1 p) (at1 bmax)))
       (Math_max (at2 bmin) (Math_min (at2 p) (at2 bmax))).

Definition boxDistance (ball : PhysicsBody T) (bmin bmax : Vec3 T) : T :=
  norm3 (minus3 (position ball) (closestPoint (position ball) bmin bmax)).

Definition boxNormal (ball : PhysicsBody T) (bmin bmax : Vec3 T) : Vec3 T :=
  over3 (minus3 (position ball) (closestPoint (position ball) bmin bmax))
    (boxDistance ball bmin bmax).

(** The response to a contact of unit normal [n] and depth [depth]: the
    ball is moved by [depth] along [n], and [2 * restitution * (v . n)] times
    [n] is taken from its velocity [v]. *)
Definition respond (this : PhysicsFields T) (ball : PhysicsBody T)
    (n : Vec3 T) (depth : T) : PhysicsBody T :=
  setVelocity
    (setPosition ball (plus3 (position ball) (scale3 depth n)))
    (minus3 (velocity ball)
       (scale3 (ofZ 2 * restitution this * dot3 (velocity ball) n) n)).

(** The ball raised by its radius, with the vertical velocity
    [|v_y| * restitution]: the answer of [sphereVsBox] to a centre inside the
    box. *)
Definition recover (this : PhysicsFields T) (ball : PhysicsBody T)
  : PhysicsBody T :=
  setVelocity
    (setPosition ball
       (vec3 (at0 (position ball)) (at1 (position ball) + radius ball)
             (at2 (position ball))))
    (vec3 (at0 (velocity ball))
          (Math_abs (at1 (velocity ball)) * restitution this)
          (at2 (velocity ball))).
End Geometry.

(** In exact arithmetic, the height of the ball is within the band of the
    cylinder. *)
Definition inBand (ball cylinder : PhysicsBody R) : Prop :=
  (bandLow cylinder <= at1 (position ball) <= bandHigh cylinder)%R.

(** ** Sample objects *)

Section Samples.
Local Open Scope R_scope.

(** A body of type [ty] at [p] with velocity [v], radius [r] and height [h],
    with the callback [1] on collisions. *)
Definition sampleBody (ty : string) (p v : Vec3 R) (r h : R) : PhysicsBody R :=
  {| position := p; velocity := v; radius := r; mass := 1;
     isStatic := false; type := ty; onCollision := Some 1%nat;
     min := None; max := None; height := h |}.

(** A static box from [bmin] to [bmax]. *)
Definition sampleBox (bmin bmax : Vec3 R) : PhysicsBody R :=
  {| position := vec3 0 0 0; velocity := vec3 0 0 0; radius := 2 / 10;
     mass := 1; isStatic := true; type := "box"; onCollision := None;
     min := Some bmin; max := Some bmax; height := 1 |}.

(** A ball of radius 1/2 falling at speed 1, one unit above the origin. *)
Definition fallingBall : PhysicsBody R :=
  sampleBody "sphere" (vec3 0 1 0) (vec3 0 (-1) 0) (1 / 2) 1.

(** A ball of radius 1/2 one unit above the origin, moving up and away
    from it at speed 1. *)
Definition risingBall : PhysicsBody R :=
  sampleBody "sphere" (vec3 0 1 0) (vec3 0 1 0) (1 / 2) 1.

(** A static sphere of radius 1 at the origin. *)
Definition unitPin : PhysicsBody R :=
  sampleBody "sphere" (vec3 0 0 0) (vec3 0 0 0) 1 1.

(** A ball of radius 1/2 at height 0, one unit from the axis, moving
    towards it and falling. *)
Definition sideBall : PhysicsBody R :=
  sampleBody "sphere" (vec3 1 0 0) (vec3 (-1) (-3) 0) (1 / 2) 1.

(** The same ball moving away from the axis. *)
Definition leavingBall : PhysicsBody R :=
  sampleBody "sphere" (vec3 1 0 0) (vec3 1 (-3) 0) (1 / 2) 1.

(** The same ball, five units up. *)
Definition highBall : PhysicsBody R :=
  sampleBody "sphere" (vec3 1 5 0) (vec3 (-1) (-3) 0) (1 / 2) 1.

(** A vertical cylinder of radius 1 and height 2 on the axis, centred at
    the origin. *)
Definition unitCylinder : PhysicsBody R :=
  sampleBody "cylinder" (vec3 0 0 0) (vec3 0 0 0) 1 2.

(** The floor of the machine: the box from (-3, -1, -4/5) to (3, 0, 4/5). *)
Definition floorMin : Vec3 R := vec3 (-3) (-1) (-8 / 10).
Definition floorMax : Vec3 R := vec3 3 0 (8 / 10).
Definition floorBox : PhysicsBody R := sampleBox floorMin floorMax.

(** A ball of radius 1/2 whose centre is 1/4 above the floor, falling. *)
Definition landingBall : PhysicsBody R :=
  sampleBody "sphere" (vec3 0 (1 / 4) 0) (vec3 1 (-2) 0) (1 / 2) 1.

(** The same ball, rising. *)
Definition bouncingBall : PhysicsBody R :=
  sampleBody "sphere" (vec3 0 (1 / 4) 0) (vec3 1 2 0) (1 / 2) 1.

(** A moving ball of radius 1/2 whose centre is the origin. *)
Definition centredBall : PhysicsBody R :=
  sampleBody "sphere" (vec3 0 0 0) (vec3 1 (-2) 0) (1 / 2) 1.

(** A ball whose centre is inside the floor, falling. *)
Definition sunkBall : PhysicsBody R :=
  sampleBody "sphere" (vec3 0 (-1 / 2) 0) (vec3 1 (-2) 0) (1 / 2) 1.


(** A world with no static body whose only body, at reference [0], is
    [fallingBall]; every [Math.random()] returns 9/10. *)
Definition dropState : State R :=
  setPhysics (setHeap (initial (fun _ => 9 / 10)) (fun _ => fallingBall))
    (Physics.setBodies Physics.constructor [0%nat]).

(** The same on binary64. *)
Definition sampleBody64 (ty : string) (p v : Vec3 float) (r h : float)
  : PhysicsBody float :=
  {| position := p; velocity := v; radius := r; mass := 1%float;
     isStatic := false; type := ty; onCollision := Some 1%nat;
     min := None; max := None; height := h |}.

Definition fallingBall64 : PhysicsBody float :=
  sampleBody64 "sphere" (vec3 0 1 0)%float (vec3 0 (-1) 0)%float 0.5%float
    1%float.

Definition unitPin64 : PhysicsBody float :=
  sampleBody64 "sphere" (vec3 0 0 0)%float (vec3 0 0 0)%float 1%float 1%float.

Definition restingBall64 : PhysicsBody float :=
  sampleBody64 "sphere" (vec3 0 (-0.5) 0)%float (vec3 1 0 0)%float 0.5%float
    1%float.

Definition floorBox64 : PhysicsBody float :=
  newPhysicsBody
    {| o_position := None; o_velocity := None; o_radius := None;
       o_mass := None; o_isStatic := Some true; o_type := Some "box"%string;
       o_min := Some (vec3 (-3) (-1) (- dec 8 10))%float;
       o_max := Some (vec3 3 0 (dec 8 10))%float; o_height := None |}.

Definition dropState64 : State float :=
  setPhysics
    (setHeap (initial (fun _ => dec 9 10)) (fun _ => fallingBall64))
    (Physics.setBodies Physics.constructor [0%nat]).

(** On binary64: the board after [setup], every [Math.random()] being 1/2. *)
Definition board : State float :=
  match setup (initial (fun _ => dec 1 2)) with
  | Some (_, s) => s
  | None => initial (fun _ => dec 1 2)
  end.

(** One frame of the game loop at 60 frames per second, and [n] of them. *)
Definition frame : list (@Action float) :=
  [PhysicsUpdate (dec 1 60); MachineUpdate (dec 1 60)].

Fixpoint frames (n : nat) : list (@Action float) :=
  match n with
  | O => []
  | S n' => frame ++ frames n'
  end.

(** A ball launched at full power with the score callback [7], followed
    for [n] frames. *)
Definition game (n : nat) : list (@Action float) :=
  Launch (ofZ 1) :: SetOnScore 0 (Some 7%nat) :: frames n.
End Samples.

(** ** What a resolver does to a ball that penetrates *)

Section Resolved.
Context {T : Type} `{Number T}.
Local Open Scope num_scope.

(** The two updates of a resolver that has found a penetration, as the code
    computes them, for the normal [n] and the depth [overlap]:
    [position += n * overlap] and
    [velocity -= 2 * dot * n * restitution], [dot] being the velocity along
    [n]. *)
Definition separated (p n : Vec3 T) (overlap : T) : Vec3 T :=
  vec3 (at0 p + at0 n * overlap) (at1 p + at1 n * overlap)
       (at2 p + at2 n * overlap).

Definition reflected (this : PhysicsFields T) (v n : Vec3 T) : Vec3 T :=
  let dot := at0 v * at0 n + at1 v * at1 n + at2 v * at2 n in
  vec3 (at0 v - ofZ 2 * dot * at0 n * restitution this)
       (at1 v - ofZ 2 * dot * at1 n * restitution this)
       (at2 v - ofZ 2 * dot * at2 n * restitution this).

(** The same for a cylinder, whose resolver leaves the vertical components
    alone. *)
Definition separatedXZ (p n : Vec3 T) (overlap : T) : Vec3 T :=
  vec3 (at0 p + at0 n * overlap) (at1 p) (at2 p + at2 n * overlap).

Definition reflectedXZ (this : PhysicsFields T) (v n : Vec3 T) : Vec3 T :=
  let dot := at0 v * at0 n + at2 v * at2 n in
  vec3 (at0 v - ofZ 2 * dot * at0 n * restitution this)
       (at1 v)
       (at2 v - ofZ 2 * dot * at2 n * restitution this).
End Resolved.

Section GameSamples.
(** On binary64: a pin of the game (radius 0.12, height 0.4) at
    [x = -2.3], and a ball of radius 0.18 to its left, at
    [x = -2.5999999999999996], that moves away from it at speed 2. *)
Definition gamePin64 : PhysicsBody float :=
  newPhysicsBody
    {| o_position := Some (vec3 (-0x1.2666666666666p+1) 5 0)%float;
       o_velocity := None; o_radius := Some 0x1.eb851eb851eb8p-4%float;
       o_mass := None; o_isStatic := Some true;
       o_type := Some "cylinder"%string; o_min := None; o_max := None;
       o_height := Some 0x1.999999999999ap-2%float |}.

Definition awayBall64 : PhysicsBody float :=
  sampleBody64 "sphere" (vec3 (-0x1.4ccccccccccccp+1) 5 0)%float
    (vec3 (-2) 0 0)%float 0x1.70a3d70a3d70ap-3%float 1%float.

(** The same ball moving towards the pin at speed 2. *)
Definition towardBall64 : PhysicsBody float :=
  sampleBody64 "sphere" (vec3 (-0x1.4ccccccccccccp+1) 5 0)%float
    (vec3 2 0 0)%float 0x1.70a3d70a3d70ap-3%float 1%float.
End GameSamples.

(** ** The tests of a slot *)

Section SlotTests.
Context {T : Type} `{Number T}.
Local Open Scope num_scope.

(** The test of the scoring loop, [x >= slot.minX && x <= slot.maxX], and
    the test of a half-open range, [minX <= x < maxX]. *)
Definition inClosedRange (x : T) (slot : Slot T) : bool :=
  (x >=? minX slot) && (x <=? maxX slot).

Definition inHalfOpenRange (x : T) (slot : Slot T) : bool :=
  (x >=? minX slot) && (x <? maxX slot).
End SlotTests.

Section StorePredicates.
Context {T : Type}.

Definition sameShape (b b' : PhysicsBody T) : Prop :=
  radius b' = radius b /\ mass b' = mass b /\ isStatic b' = isStatic b
  /\ type b' = type b /\ onCollision b' = onCollision b
  /\ min b' = min b /\ max b' = max b /\ height b' = height b.

Definition hasCorners (b : PhysicsBody T) : bool :=
  match min b, max b with
  | Some _, Some _ => true
  | _, _ => false
  end.

Definition boxOk (b : PhysicsBody T) : bool :=
  negb (String.eqb (type b) "box") || hasCorners b.

Definition moving (s : State T) (r : ref) : bool := negb (isStatic (heap s r)).

Definition badBox (s : State T) (r : ref) : bool := negb (boxOk (heap s r)).

Definition physFrame (s s' : State T) : Prop :=
  physics s' = physics s /\ machine s' = machine s
  /\ nextRef s' = nextRef s /\ nextBall s' = nextBall s
  /\ entropy s' = entropy s
  /\ forall r, sameShape (heap s r) (heap s' r).
End StorePredicates.

Section MoreDefs.
Context {T : Type}.
(** An obstacle that [checkCollision] hands to [sphereVsCylinder] or to no
    resolver: such as a pin. *)
Definition pinLike (b : PhysicsBody T) : bool :=
  negb (String.eqb (type b) "sphere") && negb (String.eqb (type b) "box").
End MoreDefs.

Section MachinePredicates.
Context {T : Type} `{Number T}.
Local Open Scope num_scope.

(** The removal test of [PachinkoMachine.update], negated: the ball stays in
    play. *)
Definition keeps (s : State T) (b : Ball) : bool :=
  negb (at1 (position (heap s (body b))) <? - ofZ 2).

(** The simulated bodies are the bodies of the balls in play, in the same
    order, and they are distinct objects created so far. *)
Definition inSync (s : State T) : Prop :=
  bodies (physics s) = map body (balls (machine s))
  /\ NoDup (bodies (physics s))
  /\ forall r, In r (bodies (physics s)) -> (r < nextRef s)%nat.

(** Every static body is an object created so far, and is a box only with
    both corners. *)
Definition ready (s : State T) : bool :=
  forallb (fun r => Nat.ltb r (nextRef s) && boxOk (heap s r))
    (staticBodies (physics s)).

(** What the machine-level methods leave alone: the store, the static bodies,
    the slots and the dimensions. *)
Definition machineFrame (s s' : State T) : Prop :=
  heap s' = heap s /\ nextRef s' = nextRef s
  /\ staticBodies (physics s') = staticBodies (physics s)
  /\ gravity (physics s') = gravity (physics s)
  /\ restitution (physics s') = restitution (physics s)
  /\ friction (physics s') = friction (physics s)
  /\ slots (machine s') = slots (machine s)
  /\ width (machine s') = width (machine s)
  /\ mheight (machine s') = mheight (machine s)
  /\ depth (machine s') = depth (machine s)
  /\ entropy s' = entropy s /\ draws s' = draws s.
End MachinePredicates.

(** ** [class PachinkoGame] ([src/main.js])

    The fields of the game that its logic uses, and the program state
    [world] that holds its [Physics] and its [PachinkoMachine].  [score] and
    [ballsRemaining] hold integers. *)
Section GameObjects.
Context {T : Type}.

Record Game : Type := {
  score : Z;
  ballsRemaining : Z;
  launchPower : T;
  isCharging : bool;
  lastTime : T;
  isRunning : bool;
  world : State T
}.
End GameObjects.
Arguments Game : clear implicits.

Module PachinkoGame.
Section PachinkoGameClass.
Context {T : Type} `{Number T}.
Local Open Scope num_scope.

(** A method of the game: it returns a value and the game after the call,
    or [None] when a method of the machine or of the engine throws. *)
Definition G (A : Type) : Type := Game T -> option (A * Game T).

Definition setScore (g : Game T) (v : Z) : Game T :=
  {| score := v; ballsRemaining := ballsRemaining g;
     launchPower := launchPower g; isCharging := isCharging g;
     lastTime := lastTime g; isRunning := isRunning g; world := world g |}.

Definition setBallsRemaining (g : Game T) (v : Z) : Game T :=
  {| score := score g; ballsRemaining := v;
     launchPower := launchPower g; isCharging := isCharging g;
     lastTime := lastTime g; isRunning := isRunning g; world := world g |}.

Definition setLaunchPower (g : Game T) (v : T) : Game T :=
  {| score := score g; ballsRemaining := ballsRemaining g;
     launchPower := v; isCharging := isCharging g;
     lastTime := lastTime g; isRunning := isRunning g; world := world g |}.

Definition setIsCharging (g : Game T) (v : bool) : Game T :=
  {| score := score g; ballsRemaining := ballsRemaining g;
     launchPower := launchPower g; isCharging := v;
     lastTime := lastTime g; isRunning := isRunning g; world := world g |}.

Definition setLastTime (g : Game T) (v : T) : Game T :=
  {| score := score g; ballsRemaining := ballsRemaining g;
     launchPower := launchPower g; isCharging := isCharging g;
     lastTime := v; isRunning := isRunning g; world := world g |}.

Definition setWorld (g : Game T) (w : State T) : Game T :=
  {| score := score g; ballsRemaining := ballsRemaining g;
     launchPower := launchPower g; isCharging := isCharging g;
     lastTime := lastTime g; isRunning := isRunning g; world := w |}.

(** The game of the constructor, around the program state [w]. *)
Definition constructor (w : State T) : Game T :=
  {| score := 0; ballsRemaining := 10; launchPower := ofZ 0;
     isCharging := false; lastTime := ofZ 0; isRunning := false;
     world := w |}.

(** The game after [init] has succeeded and [start] has read the time
    [now], [w] being the program state after the set-up of the machine. *)
Definition started (w : State T) (now : T) : Game T :=
  {| score := 0; ballsRemaining := 10; launchPower := ofZ 0;
     isCharging := false; lastTime := now; isRunning := true;
     world := w |}.

(** The name of the callback [(points) => { this.addScore(points); }]. *)
Definition addScoreHandler : handler := 1%nat.

Definition startCharging : G unit :=
  fun g =>
    if (ballsRemaining g <=? 0)%Z then Some (tt, g)
    else Some (tt, setLaunchPower (setIsCharging g true) (ofZ 0)).

(** [launchBall(power)]: the ball object that the machine returns is
    truthy. *)
Definition launchBall (power : T) : G unit :=
  fun g =>
    if (ballsRemaining g <=? 0)%Z then Some (tt, g)
    else
      match PachinkoMachine.launchBall power (world g) with
      | Some (ball, w1) =>
          match PachinkoMachine.setOnScore ball (Some addScoreHandler) w1 with
          | Some (_, w2) =>
              Some (tt,
                setWorld (setBallsRemaining g (ballsRemaining g - 1)%Z) w2)
          | None => None
          end
      | None => None
      end.

Definition releaseBall : G unit :=
  fun g =>
    if negb (isCharging g) then Some (tt, g)
    else
      match launchBall (launchPower g) (setIsCharging g false) with
      | Some (_, g1) => Some (tt, setLaunchPower g1 (ofZ 0))
      | None => None
      end.

Definition addScore (points : Z) (g : Game T) : Game T :=
  setScore g (score g + points)%Z.

Definition resetGame : G unit :=
  fun g =>
    let g1 := setBallsRemaining (setScore g 0%Z) 10%Z in
    match PachinkoMachine.reset (world g1) with
    | Some (_, w1) => Some (tt, setWorld g1 w1)
    | None => None
    end.

(** The calls recorded in [after] that were not yet in [before], latest
    first. *)
Definition callsSince (before after : State T) : list (Call T) :=
  firstn (List.length (calls after) - List.length (calls before))
    (calls after).

(** The callbacks of the game run: each call of a score callback is a call
    of [addScore]; the collision callback of a ball has an empty body.  The
    calls [cs] are latest first. *)
Definition runCallbacks (cs : list (Call T)) (g : Game T) : Game T :=
  fold_right
    (fun c g' =>
       match c with
       | CallOnScore h _ pts =>
           if Nat.eqb h addScoreHandler then addScore pts g' else g'
       | CallOnCollision _ _ => g'
       end)
    g cs.

(** [update(deltaTime)].  The score callbacks that [this.pachinko.update]
    calls change the field [score] only, which the machine does not read:
    they are run on the game after the call. *)
Definition update (deltaTime : T) : G unit :=
  fun g =>
    if negb (isRunning g) then Some (tt, g)
    else
      let g1 :=
        if isCharging g then
          setLaunchPower g
            (Math_min (ofZ 1) (launchPower g + deltaTime * dec 5 10))
        else g in
      match Physics.update deltaTime (world g1) with
      | Some (_, w1) =>
          match PachinkoMachine.update deltaTime w1 with
          | Some (_, w2) =>
              Some (tt, runCallbacks (callsSince w1 w2) (setWorld g1 w2))
          | None => None
          end
      | None => None
      end.

(** [gameLoop(currentTime)], up to the rendering. *)
Definition gameLoop (currentTime : T) : G unit :=
  fun g =>
    let deltaTime :=
      Math_min ((currentTime - lastTime g) / ofZ 1000) (dec 1 10) in
    update deltaTime (setLastTime g currentTime).

(** The events that [setupControls] listens to, the camera apart: a click
    on the launch button, a key pressed or released, and an animation
    frame. *)
Inductive Event : Type :=
| Click
| KeyDown (code : string) (repeat : bool)
| KeyUp (code : string)
| AnimationFrame (currentTime : T).

Definition handle (e : Event) : G unit :=
  fun g =>
    match e with
    | Click => launchBall (dec 5 10) g
    | KeyDown code repeat =>
        match
          (if String.eqb code "Space" && negb (isCharging g) && negb repeat
           then startCharging g else Some (tt, g))
        with
        | Some (_, g1) =>
            if String.eqb code "KeyR" then resetGame g1 else Some (tt, g1)
        | None => None
        end
    | KeyUp code =>
        if String.eqb code "Space" && isCharging g then releaseBall g
        else Some (tt, g)
    | AnimationFrame currentTime => gameLoop currentTime g
    end.

Fixpoint play (es : list Event) : G unit :=
  fun g =>
    match es with
    | [] => Some (tt, g)
    | e :: es' =>
        match handle e g with
        | Some (_, g1) => play es' g1
        | None => None
        end
    end.
End PachinkoGameClass.
End PachinkoGame.

Section GamePredicates.
Context {T : Type}.

(** The points of every slot are between 0 and 500. *)
Definition slotsPay (s : State T) : bool :=
  forallb (fun slot => (0 <=? points slot)%Z && (points slot <=? 500)%Z)
    (slots (machine s)).

(** The number of balls of [l] that have not scored. *)
Definition unscored (l : list Ball) : Z :=
  Z.of_nat (List.length (filter (fun b => negb (scored b)) l)).

(** The points that the calls [cs] add to the score of the game. *)
Fixpoint earned (cs : list (Call T)) : Z :=
  match cs with
  | [] => 0
  | CallOnScore h _ pts :: cs' =>
      ((if Nat.eqb h PachinkoGame.addScoreHandler then pts else 0)
       + earned cs')%Z
  | CallOnCollision _ _ :: cs' => earned cs'
  end.

(** The invariant of the game: the balls launched since the last reset,
    [10 - ballsRemaining] of them, are at most ten; each has earned at most
    500 points, and those in play that have not scored have earned none. *)
Definition fair (g : Game T) : Prop :=
  (0 <= ballsRemaining g <= 10)%Z
  /\ (0 <= score g)%Z
  /\ (score g + 500 * unscored (balls (machine (world g)))
      <= 500 * (10 - ballsRemaining g))%Z
  /\ (Z.of_nat (List.length (balls (machine (world g))))
      <= 10 - ballsRemaining g)%Z
  /\ slotsPay (world g) = true.
End GamePredicates.

Section MoreSamples.
(** On binary64: a ball at reference [0] that falls past a pin, the
    cylinder at reference [1]; every [Math.random()] is 9/10. *)
Definition pin64 : PhysicsBody float :=
  newPhysicsBody
    {| o_position := Some (vec3 0 0 0)%float; o_velocity := None;
       o_radius := Some (dec 12 100); o_mass := None;
       o_isStatic := Some true; o_type := Some "cylinder"%string;
       o_min := None; o_max := None; o_height := Some (dec 4 10) |}.

Definition pinState64 : State float :=
  setPhysics
    (setHeap (initial (fun _ => dec 9 10))
       (fun r => if Nat.eqb r 0 then fallingBall64 else pin64))
    (Physics.setStaticBodies (Physics.setBodies Physics.constructor [0%nat])
       [1%nat]).

(** On binary64: the board with one ball, launched at full power. *)
Definition launched : State float :=
  match run [Launch (ofZ 1)] board with
  | Some (_, s) => s
  | None => board
  end.

(** In exact arithmetic: the machine of the constructor, before set-up;
    every [Math.random()] is 1/2. *)
Definition bare : State R := initial (fun _ => 1 / 2)%R.

Fixpoint animation (n : nat) (t : Z) : list (@PachinkoGame.Event float) :=
  match n with
  | O => []
  | S n' => PachinkoGame.AnimationFrame (ofZ t) :: animation n' (t + 17)
  end.

(** On binary64: the space bar is held for 30 frames of 17 ms and released,
    the launch button is clicked, and [n] more frames follow. *)
Definition session (n : nat) : list (@PachinkoGame.Event float) :=
  PachinkoGame.KeyDown "Space" false
  :: animation 30 17
  ++ PachinkoGame.KeyUp "Space" :: PachinkoGame.Click
  :: animation n (17 * 31).

(** In exact arithmetic: the space bar is held over two frames, at 1000 ms
    and at 1050 ms, of a game started at 1000 ms. *)
Definition charging : list (@PachinkoGame.Event R) :=
  [PachinkoGame.KeyDown "Space" false;
   PachinkoGame.AnimationFrame 1000%R;
   PachinkoGame.AnimationFrame 1050%R].
End MoreSamples.

Section Timely.
(** The animation frames of [es] come at times that do not decrease, from
    [last] on. *)
Fixpoint timely (last : R) (es : list (@PachinkoGame.Event R)) : Prop :=
  match es with
  | [] => True
  | PachinkoGame.AnimationFrame t :: es' => (last <= t)%R /\ timely t es'
  | _ :: es' => timely last es'
  end.
End Timely.

Section ExactSamples.
Local Open Scope R_scope.
(** In exact arithmetic: [dropState] with its body as the body of a ball in
    play that has not scored, one unit above the floor. *)
Definition hovering : State R :=
  setMachine dropState
    (PachinkoMachine.setBalls PachinkoMachine.constructor
       [{| ballId := 0%nat; body := 0%nat; scored := false; onScore := None |}]).
End ExactSamples.

(** ** Arrays of numbers ([src/math.js])

    The functions of [mat4] and [vec3] read and write arrays that the caller
    passes by reference, and the same array may be passed twice
    ([mat4.translate(m, m, v)]).  The arrays live in a store indexed by [ref];
    an array is known by its elements, by index.  Elements are numbers of
    the interface [Number]: the rounding of a store into a [Float32Array] is
    not modelled, and an index beyond the length is never read.  The arrays
    that the program makes with [mat4.create] and [vec3.create] are
    [Float32Array]s, whose stores round to single precision, so the
    properties of these functions are stated in exact arithmetic, where
    nothing is rounded.

    A function body is a sequence of statements, each a function of the
    statements that follow it. *)

Section ArrayStore.
Context {T : Type}.

Definition Arrays : Type := ref -> nat -> T.

(** [a[i] = v]. *)
Definition setAt (h : Arrays) (a : ref) (i : nat) (v : T) : Arrays :=
  fun a' i' => if Nat.eqb a' a && Nat.eqb i' i then v else h a' i'.

(** The rest of a function body, as a function of the arrays. *)
Definition Code : Type := Arrays -> Arrays.

(** [out[i] = e; k], the expression [e] being evaluated on the arrays as
    they are at this statement. *)
Definition assign (out : ref) (i : nat) (e : Arrays -> T) (k : Code) : Code :=
  fun h => k (setAt h out i (e h)).

(** [const x = e; k] or [x = e; k]. *)
Definition local {A} (e : Arrays -> A) (k : A -> Code) : Code :=
  fun h => k (e h) h.

(** [return out]. *)
Definition done : Code := fun h => h.

(** The three elements of an array as a vector. *)
Definition vectorAt (a : nat -> T) : Vec3 T :=
  vec3 (a 0%nat) (a 1%nat) (a 2%nat).

(** The array [[x, y, z]]. *)
Definition arrayOf (v : Vec3 T) : nat -> T :=
  fun i =>
    match i with
    | 0%nat => at0 v
    | 1%nat => at1 v
    | _ => at2 v
    end.

(** The arrays after the first [k] elements of [out] have been given the
    values [spec]. *)
Definition written (h : Arrays) (out : ref) (k : nat) (spec : nat -> T)
  : Arrays :=
  fun r j => if Nat.eqb r out && Nat.ltb j k then spec j else h r j.
End ArrayStore.

Arguments Arrays : clear implicits.
Arguments Code : clear implicits.

Notation "x <~ e >> k" := (local e (fun x => k))
  (at level 61, e at next level, right associativity, only parsing).
Notation "c >> k" := (c k)
  (at level 61, right associativity, only parsing).

(** [Math.sin], [Math.cos], [Math.tan] and [Math.PI]. *)
Class Trig (T : Type) : Type := {
  Math_sin : T -> T;
  Math_cos : T -> T;
  Math_tan : T -> T;
  Math_PI : T
}.

#[export] Instance RTrig : Trig R := {|
  Math_sin := sin;
  Math_cos := cos;
  Math_tan := tan;
  Math_PI := PI
|}.

Module mat4.
Section Mat4.
Context {T : Type} `{Number T}.
Local Open Scope num_scope.

Definition identity (out : ref) : Code T :=
  assign out 0 (fun _ => ofZ 1) >>
  assign out 1 (fun _ => ofZ 0) >>
  assign out 2 (fun _ => ofZ 0) >>
  assign out 3 (fun _ => ofZ 0) >>
  assign out 4 (fun _ => ofZ 0) >>
  assign out 5 (fun _ => ofZ 1) >>
  assign out 6 (fun _ => ofZ 0) >>
  assign out 7 (fun _ => ofZ 0) >>
  assign out 8 (fun _ => ofZ 0) >>
  assign out 9 (fun _ => ofZ 0) >>
  assign out 10 (fun _ => ofZ 1) >>
  assign out 11 (fun _ => ofZ 0) >>
  assign out 12 (fun _ => ofZ 0) >>
  assign out 13 (fun _ => ofZ 0) >>
  assign out 14 (fun _ => ofZ 0) >>
  assign out 15 (fun _ => ofZ 1) >>
  done.

Definition multiply (out a b : ref) : Code T :=
  a00 <~ (fun h => h a 0%nat) >> a01 <~ (fun h => h a 1%nat) >>
  a02 <~ (fun h => h a 2%nat) >> a03 <~ (fun h => h a 3%nat) >>
  a10 <~ (fun h => h a 4%nat) >> a11 <~ (fun h => h a 5%nat) >>
  a12 <~ (fun h => h a 6%nat) >> a13 <~ (fun h => h a 7%nat) >>
  a20 <~ (fun h => h a 8%nat) >> a21 <~ (fun h => h a 9%nat) >>
  a22 <~ (fun h => h a 10%nat) >> a23 <~ (fun h => h a 11%nat) >>
  a30 <~ (fun h => h a 12%nat) >> a31 <~ (fun h => h a 13%nat) >>
  a32 <~ (fun h => h a 14%nat) >> a33 <~ (fun h => h a 15%nat) >>
  b0 <~ (fun h => h b 0%nat) >> b1 <~ (fun h => h b 1%nat) >>
  b2 <~ (fun h => h b 2%nat) >> b3 <~ (fun h => h b 3%nat) >>
  assign out 0 (fun _ => b0 * a00 + b1 * a10 + b2 * a20 + b3 * a30) >>
  assign out 1 (fun _ => b0 * a01 + b1 * a11 + b2 * a21 + b3 * a31) >>
  assign out 2 (fun _ => b0 * a02 + b1 * a12 + b2 * a22 + b3 * a32) >>
  assign out 3 (fun _ => b0 * a03 + b1 * a13 + b2 * a23 + b3 * a33) >>
  b0 <~ (fun h => h b 4%nat) >> b1 <~ (fun h => h b 5%nat) >>
  b2 <~ (fun h => h b 6%nat) >> b3 <~ (fun h => h b 7%nat) >>
  assign out 4 (fun _ => b0 * a00 + b1 * a10 + b2 * a20 + b3 * a30) >>
  assign out 5 (fun _ => b0 * a01 + b1 * a11 + b2 * a21 + b3 * a31) >>
  assign out 6 (fun _ => b0 * a02 + b1 * a12 + b2 * a22 + b3 * a32) >>
  assign out 7 (fun _ => b0 * a03 + b1 * a13 + b2 * a23 + b3 * a33) >>
  b0 <~ (fun h => h b 8%nat) >> b1 <~ (fun h => h b 9%nat) >>
  b2 <~ (fun h => h b 10%nat) >> b3 <~ (fun h => h b 11%nat) >>
  assign out 8 (fun _ => b0 * a00 + b1 * a10 + b2 * a20 + b3 * a30) >>
  assign out 9 (fun _ => b0 * a01 + b1 * a11 + b2 * a21 + b3 * a31) >>
  assign out 10 (fun _ => b0 * a02 + b1 * a12 + b2 * a22 + b3 * a32) >>
  assign out 11 (fun _ => b0 * a03 + b1 * a13 + b2 * a23 + b3 * a33) >>
  b0 <~ (fun h => h b 12%nat) >> b1 <~ (fun h => h b 13%nat) >>
  b2 <~ (fun h => h b 14%nat) >> b3 <~ (fun h => h b 15%nat) >>
  assign out 12 (fun _ => b0 * a00 + b1 * a10 + b2 * a20 + b3 * a30) >>
  assign out 13 (fun _ => b0 * a01 + b1 * a11 + b2 * a21 + b3 * a31) >>
  assign out 14 (fun _ => b0 * a02 + b1 * a12 + b2 * a22 + b3 * a32) >>
  assign out 15 (fun _ => b0 * a03 + b1 * a13 + b2 * a23 + b3 * a33) >>
  done.

Definition translate (out a v : ref) : Code T :=
  x <~ (fun h => h v 0%nat) >>
  y <~ (fun h => h v 1%nat) >>
  z <~ (fun h => h v 2%nat) >>
  assign out 0 (fun h => h a 0%nat) >>
  assign out 1 (fun h => h a 1%nat) >>
  assign out 2 (fun h => h a 2%nat) >>
  assign out 3 (fun h => h a 3%nat) >>
  assign out 4 (fun h => h a 4%nat) >>
  assign out 5 (fun h => h a 5%nat) >>
  assign out 6 (fun h => h a 6%nat) >>
  assign out 7 (fun h => h a 7%nat) >>
  assign out 8 (fun h => h a 8%nat) >>
  assign out 9 (fun h => h a 9%nat) >>
  assign out 10 (fun h => h a 10%nat) >>
  assign out 11 (fun h => h a 11%nat) >>
  assign out 12
    (fun h => h a 0%nat * x + h a 4%nat * y + h a 8%nat * z + h a 12%nat) >>
  assign out 13
    (fun h => h a 1%nat * x + h a 5%nat * y + h a 9%nat * z + h a 13%nat) >>
  assign out 14
    (fun h => h a 2%nat * x + h a 6%nat * y + h a 10%nat * z + h a 14%nat) >>
  assign out 15
    (fun h => h a 3%nat * x + h a 7%nat * y + h a 11%nat * z + h a 15%nat) >>
  done.

Definition perspective `{Trig T} (out : ref) (fovy aspect near far : T)
  : Code T :=
  f <~ (fun _ => ofZ 1 / Math_tan (fovy / ofZ 2)) >>
  assign out 0 (fun _ => f / aspect) >>
  assign out 1 (fun _ => ofZ 0) >>
  assign out 2 (fun _ => ofZ 0) >>
  assign out 3 (fun _ => ofZ 0) >>
  assign out 4 (fun _ => ofZ 0) >>
  assign out 5 (fun _ => f) >>
  assign out 6 (fun _ => ofZ 0) >>
  assign out 7 (fun _ => ofZ 0) >>
  assign out 8 (fun _ => ofZ 0) >>
  assign out 9 (fun _ => ofZ 0) >>
  assign out 10 (fun _ => (far + near) / (near - far)) >>
  assign out 11 (fun _ => - ofZ 1) >>
  assign out 12 (fun _ => ofZ 0) >>
  assign out 13 (fun _ => ofZ 0) >>
  assign out 14 (fun _ => (ofZ 2 * far * near) / (near - far)) >>
  assign out 15 (fun _ => ofZ 0) >>
  done.

(** [if (len) { len = 1 / len; x *= len; y *= len; z *= len; }] on the
    three variables [v]: a number is truthy unless it is zero or NaN. *)
Definition normalizeIf (len : T) (v : Vec3 T) : Vec3 T :=
  if truthy len then
    let len := ofZ 1 / len in
    vec3 (at0 v * len) (at1 v * len) (at2 v * len)
  else v.

Definition lookAt (out eye center up : ref) : Code T :=
  x0 <~ (fun h => h eye 0%nat) >> y0 <~ (fun h => h eye 1%nat) >>
  z0 <~ (fun h => h eye 2%nat) >>
  x1 <~ (fun h => h center 0%nat) >> y1 <~ (fun h => h center 1%nat) >>
  z1 <~ (fun h => h center 2%nat) >>
  upx <~ (fun h => h up 0%nat) >> upy <~ (fun h => h up 1%nat) >>
  upz <~ (fun h => h up 2%nat) >>
  zx <~ (fun _ => x0 - x1) >>
  zy <~ (fun _ => y0 - y1) >>
  zz <~ (fun _ => z0 - z1) >>
  len <~ (fun _ => ofZ 1 / Math_sqrt (zx * zx + zy * zy + zz * zz)) >>
  zx <~ (fun _ => zx * len) >> zy <~ (fun _ => zy * len) >>
  zz <~ (fun _ => zz * len) >>
  xx <~ (fun _ => upy * zz - upz * zy) >>
  xy <~ (fun _ => upz * zx - upx * zz) >>
  xz <~ (fun _ => upx * zy - upy * zx) >>
  len <~ (fun _ => Math_sqrt (xx * xx + xy * xy + xz * xz)) >>
  x <~ (fun _ => normalizeIf len (vec3 xx xy xz)) >>
  xx <~ (fun _ => at0 x) >> xy <~ (fun _ => at1 x) >>
  xz <~ (fun _ => at2 x) >>
  yx <~ (fun _ => zy * xz - zz * xy) >>
  yy <~ (fun _ => zz * xx - zx * xz) >>
  yz <~ (fun _ => zx * xy - zy * xx) >>
  len <~ (fun _ => Math_sqrt (yx * yx + yy * yy + yz * yz)) >>
  y <~ (fun _ => normalizeIf len (vec3 yx yy yz)) >>
  yx <~ (fun _ => at0 y) >> yy <~ (fun _ => at1 y) >>
  yz <~ (fun _ => at2 y) >>
  assign out 0 (fun _ => xx) >>
  assign out 1 (fun _ => yx) >>
  assign out 2 (fun _ => zx) >>
  assign out 3 (fun _ => ofZ 0) >>
  assign out 4 (fun _ => xy) >>
  assign out 5 (fun _ => yy) >>
  assign out 6 (fun _ => zy) >>
  assign out 7 (fun _ => ofZ 0) >>
  assign out 8 (fun _ => xz) >>
  assign out 9 (fun _ => yz) >>
  assign out 10 (fun _ => zz) >>
  assign out 11 (fun _ => ofZ 0) >>
  assign out 12 (fun _ => - (xx * x0 + xy * y0 + xz * z0)) >>
  assign out 13 (fun _ => - (yx * x0 + yy * y0 + yz * z0)) >>
  assign out 14 (fun _ => - (zx * x0 + zy * y0 + zz * z0)) >>
  assign out 15 (fun _ => ofZ 1) >>
  done.
End Mat4.
End mat4.

Module vec3.
Section Vec3Functions.
Context {T : Type} `{Number T}.
Local Open Scope num_scope.

Definition add (out a b : ref) : Code T :=
  assign out 0 (fun h => h a 0%nat + h b 0%nat) >>
  assign out 1 (fun h => h a 1%nat + h b 1%nat) >>
  assign out 2 (fun h => h a 2%nat + h b 2%nat) >>
  done.

Definition subtract (out a b : ref) : Code T :=
  assign out 0 (fun h => h a 0%nat - h b 0%nat) >>
  assign out 1 (fun h => h a 1%nat - h b 1%nat) >>
  assign out 2 (fun h => h a 2%nat - h b 2%nat) >>
  done.

Definition scale (out a : ref) (s : T) : Code T :=
  assign out 0 (fun h => h a 0%nat * s) >>
  assign out 1 (fun h => h a 1%nat * s) >>
  assign out 2 (fun h => h a 2%nat * s) >>
  done.

Definition normalize (out a : ref) : Code T :=
  len <~ (fun h => Math_sqrt (h a 0%nat * h a 0%nat + h a 1%nat * h a 1%nat
                               + h a 2%nat * h a 2%nat)) >>
  if len >? ofZ 0 then
    assign out 0 (fun h => h a 0%nat / len) >>
    assign out 1 (fun h => h a 1%nat / len) >>
    assign out 2 (fun h => h a 2%nat / len) >>
    done
  else done.

Definition length (a : ref) (h : Arrays T) : T :=
  Math_sqrt (h a 0%nat * h a 0%nat + h a 1%nat * h a 1%nat
             + h a 2%nat * h a 2%nat).

Definition dot (a b : ref) (h : Arrays T) : T :=
  h a 0%nat * h b 0%nat + h a 1%nat * h b 1%nat + h a 2%nat * h b 2%nat.

Definition cross (out a b : ref) : Code T :=
  assign out 0 (fun h => h a 1%nat * h b 2%nat - h a 2%nat * h b 1%nat) >>
  assign out 1 (fun h => h a 2%nat * h b 0%nat - h a 0%nat * h b 2%nat) >>
  assign out 2 (fun h => h a 0%nat * h b 1%nat - h a 1%nat * h b 0%nat) >>
  done.

Definition distance (a b : ref) (h : Arrays T) : T :=
  let dx := h b 0%nat - h a 0%nat in
  let dy := h b 1%nat - h a 1%nat in
  let dz := h b 2%nat - h a 2%nat in
  Math_sqrt (dx * dx + dy * dy + dz * dz).
End Vec3Functions.
End vec3.

(** ** The matrices that the functions of [mat4] compute

    Sixteen elements, column after column: element [4 * c + r] is at row
    [r] of column [c]. *)

Section Matrices.
Context {T : Type} `{Number T}.
Local Open Scope num_scope.

(** [uniforms.model * vec4(position, 1.0)] of the vertex shader
    ([src/shaders.js]), for the sixteen elements [m] of the matrix: its
    first three components, and the fourth. *)
Definition transformPoint (m : nat -> T) (p : Vec3 T) : Vec3 T :=
  vec3 (m 0%nat * at0 p + m 4%nat * at1 p + m 8%nat * at2 p + m 12%nat)
       (m 1%nat * at0 p + m 5%nat * at1 p + m 9%nat * at2 p + m 13%nat)
       (m 2%nat * at0 p + m 6%nat * at1 p + m 10%nat * at2 p + m 14%nat).

Definition transformW (m : nat -> T) (p : Vec3 T) : T :=
  m 3%nat * at0 p + m 7%nat * at1 p + m 11%nat * at2 p + m 15%nat.

(** The identity matrix. *)
Definition identityMatrix : nat -> T :=
  fun i =>
    match i with
    | 0%nat | 5%nat | 10%nat | 15%nat => ofZ 1
    | _ => ofZ 0
    end.

(** The product of [a] and [b]: column [c] of the product is [a] applied to
    column [c] of [b]. *)
Definition product (a b : nat -> T) : nat -> T :=
  fun i =>
    let c := Nat.div i 4 in
    let r := Nat.modulo i 4 in
    b (4 * c)%nat * a r + b (4 * c + 1)%nat * a (4 + r)%nat
    + b (4 * c + 2)%nat * a (8 + r)%nat + b (4 * c + 3)%nat * a (12 + r)%nat.

(** [a] with its last column replaced by [a] applied to [(x, y, z, 1)]. *)
Definition translated (a : nat -> T) (v : Vec3 T) : nat -> T :=
  fun i =>
    match i with
    | 12%nat | 13%nat | 14%nat | 15%nat =>
        a (i - 12)%nat * at0 v + a (i - 8)%nat * at1 v
        + a (i - 4)%nat * at2 v + a i
    | _ => a i
    end.

(** The matrix of the translation by [v]. *)
Definition translation (v : Vec3 T) : nat -> T :=
  fun i =>
    match i with
    | 12%nat => at0 v
    | 13%nat => at1 v
    | 14%nat => at2 v
    | _ => identityMatrix i
    end.

(** The cross product. *)
Definition cross3 (u v : Vec3 T) : Vec3 T :=
  vec3 (at1 u * at2 v - at2 u * at1 v)
       (at2 u * at0 v - at0 u * at2 v)
       (at0 u * at1 v - at1 u * at0 v).

(** The axes of the view of [lookAt]: [zAxis] from the centre towards the
    eye, [xAxis] to the right and [yAxis] upwards, as [lookAt] computes
    them. *)
Definition zAxis (eye center : Vec3 T) : Vec3 T :=
  let d := minus3 eye center in
  let len :=
    ofZ 1 / Math_sqrt (at0 d * at0 d + at1 d * at1 d + at2 d * at2 d) in
  vec3 (at0 d * len) (at1 d * len) (at2 d * len).

Definition xAxis (eye center up : Vec3 T) : Vec3 T :=
  let x := cross3 up (zAxis eye center) in
  mat4.normalizeIf
    (Math_sqrt (at0 x * at0 x + at1 x * at1 x + at2 x * at2 x)) x.

Definition yAxis (eye center up : Vec3 T) : Vec3 T :=
  let y := cross3 (zAxis eye center) (xAxis eye center up) in
  mat4.normalizeIf
    (Math_sqrt (at0 y * at0 y + at1 y * at1 y + at2 y * at2 y)) y.

(** The matrix that [lookAt] writes. *)
Definition viewOf (eye center up : Vec3 T) : nat -> T :=
  let x := xAxis eye center up in
  let y := yAxis eye center up in
  let z := zAxis eye center in
  fun i =>
    match i with
    | 0%nat => at0 x | 1%nat => at0 y | 2%nat => at0 z
    | 4%nat => at1 x | 5%nat => at1 y | 6%nat => at1 z
    | 8%nat => at2 x | 9%nat => at2 y | 10%nat => at2 z
    | 12%nat => - (at0 x * at0 eye + at1 x * at1 eye + at2 x * at2 eye)
    | 13%nat => - (at0 y * at0 eye + at1 y * at1 eye + at2 y * at2 eye)
    | 14%nat => - (at0 z * at0 eye + at1 z * at1 eye + at2 z * at2 eye)
    | 15%nat => ofZ 1
    | _ => ofZ 0
    end.

(** The matrix that [perspective] writes, [f] being
    [1 / tan(fovy / 2)]. *)
Definition projectionOf (f aspect near far : T) : nat -> T :=
  fun i =>
    match i with
    | 0%nat => f / aspect
    | 5%nat => f
    | 10%nat => (far + near) / (near - far)
    | 11%nat => - ofZ 1
    | 14%nat => (ofZ 2 * far * near) / (near - far)
    | _ => ofZ 0
    end.
End Matrices.

(** ** [class Camera] ([src/camera.js])

    The camera orbits its target: [radius], [theta] and [phi] are its
    spherical coordinates around [target].  The arrays that it holds
    ([target], [viewMatrix], [projectionMatrix]) and those that its methods
    create live in the store of arrays; the size of its canvas is read from
    the page. *)

Module Camera.
Section CameraClass.
Context {T : Type} `{Number T} `{Trig T}.
Local Open Scope num_scope.

Record Fields : Type := {
  radius : T;
  theta : T;
  phi : T;
  target : ref;
  viewMatrix : ref;
  projectionMatrix : ref;
  minRadius : T;
  maxRadius : T;
  minPhi : T;
  maxPhi : T
}.

(** The arrays of the program and the reference of the next new array. *)
Record Memory : Type := {
  arrays : Arrays T;
  nextArray : ref
}.

(** The camera [this], the arrays, and [canvas.clientWidth] and
    [canvas.clientHeight]. *)
Record State : Type := {
  this : Fields;
  memory : Memory;
  clientWidth : T;
  clientHeight : T
}.

(** A new array with the elements [content]: an array literal, or
    [mat4.create()]. *)
Definition newArray (content : nat -> T) (m : Memory) : ref * Memory :=
  (nextArray m,
   {| arrays := fun r i =>
        if Nat.eqb r (nextArray m) then content i else arrays m r i;
      nextArray := S (nextArray m) |}).

Definition setThis (s : State) (f : Fields) : State :=
  {| this := f; memory := memory s; clientWidth := clientWidth s;
     clientHeight := clientHeight s |}.

Definition setMemory (s : State) (m : Memory) : State :=
  {| this := this s; memory := m; clientWidth := clientWidth s;
     clientHeight := clientHeight s |}.

Definition setArrays (m : Memory) (h : Arrays T) : Memory :=
  {| arrays := h; nextArray := nextArray m |}.

(** The offset of the camera from its target: [x], [y] and [z] of
    [getPosition]. *)
Definition offset (f : Fields) : Vec3 T :=
  vec3 (radius f * Math_cos (phi f) * Math_sin (theta f))
       (radius f * Math_sin (phi f))
       (radius f * Math_cos (phi f) * Math_cos (theta f)).

(** [getPosition()]: a new array. *)
Definition getPosition (s : State) : ref * State :=
  let x := at0 (offset (this s)) in
  let y := at1 (offset (this s)) in
  let z := at2 (offset (this s)) in
  let tg := arrays (memory s) (target (this s)) in
  let (position, m) :=
    newArray (arrayOf (vec3 (tg 0%nat + x) (tg 1%nat + y) (tg 2%nat + z)))
      (memory s) in
  (position, setMemory s m).

Definition updateMatrices (s : State) : State :=
  let (position, s1) := getPosition s in
  let (up, m2) := newArray (arrayOf (vec3 (ofZ 0) (ofZ 1) (ofZ 0)))
                    (memory s1) in
  let m3 :=
    setArrays m2
      (mat4.lookAt (viewMatrix (this s1)) position (target (this s1)) up
         (arrays m2)) in
  let aspect := clientWidth s1 / clientHeight s1 in
  let fov := Math_PI / ofZ 4 in
  setMemory s1
    (setArrays m3
       (mat4.perspective (projectionMatrix (this s1)) fov aspect (dec 1 10)
          (ofZ 100) (arrays m3))).

(** [new Camera(canvas)], for a canvas of the size [width] by [height], in
    the memory [m]. *)
Definition constructor (width height : T) (m : Memory) : State :=
  let (tg, m1) := newArray (arrayOf (vec3 (ofZ 0) (ofZ 3) (ofZ 0))) m in
  let (vm, m2) := newArray identityMatrix m1 in
  let (pm, m3) := newArray identityMatrix m2 in
  updateMatrices
    {| this := {| radius := ofZ 15; theta := ofZ 0; phi := dec 3 10;
                  target := tg; viewMatrix := vm; projectionMatrix := pm;
                  minRadius := ofZ 5; maxRadius := ofZ 30;
                  minPhi := - Math_PI / ofZ 3;
                  maxPhi := Math_PI / dec 25 10 |};
       memory := m3; clientWidth := width; clientHeight := height |}.

Definition rotate (deltaTheta deltaPhi : T) (s : State) : State :=
  let f := this s in
  updateMatrices
    (setThis s
       {| radius := radius f; theta := theta f + deltaTheta;
          phi := Math_max (minPhi f) (Math_min (maxPhi f) (phi f + deltaPhi));
          target := target f; viewMatrix := viewMatrix f;
          projectionMatrix := projectionMatrix f;
          minRadius := minRadius f; maxRadius := maxRadius f;
          minPhi := minPhi f; maxPhi := maxPhi f |}).

Definition zoom (delta : T) (s : State) : State :=
  let f := this s in
  updateMatrices
    (setThis s
       {| radius :=
            Math_max (minRadius f) (Math_min (maxRadius f) (radius f + delta));
          theta := theta f; phi := phi f;
          target := target f; viewMatrix := viewMatrix f;
          projectionMatrix := projectionMatrix f;
          minRadius := minRadius f; maxRadius := maxRadius f;
          minPhi := minPhi f; maxPhi := maxPhi f |}).

Definition setTarget (x y z : T) (s : State) : State :=
  let f := this s in
  let (tg, m) := newArray (arrayOf (vec3 x y z)) (memory s) in
  updateMatrices
    (setMemory
       (setThis s
          {| radius := radius f; theta := theta f; phi := phi f;
             target := tg; viewMatrix := viewMatrix f;
             projectionMatrix := projectionMatrix f;
             minRadius := minRadius f; maxRadius := maxRadius f;
             minPhi := minPhi f; maxPhi := maxPhi f |})
       m).

Definition getViewMatrix (s : State) : ref := viewMatrix (this s).

Definition getProjectionMatrix (s : State) : ref * State :=
  let s1 := updateMatrices s in
  (projectionMatrix (this s1), s1).

(** What happens to a camera: the calls of [src/main.js] ([rotate] on a
    drag, [zoom] on the wheel, [getProjectionMatrix] at each frame), a call
    of [setTarget], and a change of the size of the canvas. *)
Inductive Op : Type :=
| Rotate (deltaTheta deltaPhi : T)
| Zoom (delta : T)
| SetTarget (x y z : T)
| Render
| Resize (width height : T).

Definition perform (o : Op) (s : State) : State :=
  match o with
  | Rotate deltaTheta deltaPhi => rotate deltaTheta deltaPhi s
  | Zoom delta => zoom delta s
  | SetTarget x y z => setTarget x y z s
  | Render => snd (getProjectionMatrix s)
  | Resize width height =>
      {| this := this s; memory := memory s; clientWidth := width;
         clientHeight := height |}
  end.

Definition run (l : list Op) (s : State) : State :=
  fold_left (fun s o => perform o s) l s.

(** The position of the camera and of its target, as vectors, and the
    elements of its view matrix. *)
Definition targetOf (s : State) : Vec3 T :=
  vectorAt (arrays (memory s) (target (this s))).

Definition eyeOf (s : State) : Vec3 T :=
  plus3 (targetOf s) (offset (this s)).

Definition viewOfCamera (s : State) : nat -> T :=
  arrays (memory s) (viewMatrix (this s)).
End CameraClass.

Arguments Fields : clear implicits.
Arguments Memory : clear implicits.
Arguments State : clear implicits.
Arguments Op : clear implicits.
End Camera.

(** The direction [up] of the camera. *)
Definition cameraUp : Vec3 R := vec3 0%R 1%R 0%R.

(** What the methods of the camera keep: the limits are those of the
    constructor, [radius] and [phi] are within them, the three arrays of the
    camera are distinct arrays that exist, and the view matrix is the view
    from the position of the camera towards its target. *)
Definition steady (s : Camera.State R) : Prop :=
  let f := Camera.this s in
  Camera.minRadius f = 5%R /\ Camera.maxRadius f = 30%R
  /\ Camera.minPhi f = (- PI / 3)%R /\ Camera.maxPhi f = (PI / (25 / 10))%R
  /\ (5 <= Camera.radius f <= 30)%R
  /\ (- PI / 3 <= Camera.phi f <= PI / (25 / 10))%R
  /\ Camera.viewMatrix f <> Camera.projectionMatrix f
  /\ Camera.target f <> Camera.viewMatrix f
  /\ Camera.target f <> Camera.projectionMatrix f
  /\ (Camera.target f < Camera.nextArray (Camera.memory s))%nat
  /\ (Camera.viewMatrix f < Camera.nextArray (Camera.memory s))%nat
  /\ (Camera.projectionMatrix f < Camera.nextArray (Camera.memory s))%nat
  /\ forall i, (i < 16)%nat ->
       Camera.viewOfCamera s i
       = viewOf (Camera.eyeOf s) (Camera.targetOf s) cameraUp i.

(** The rows of the rotation of a matrix: the axes of the view. *)
Definition axis {T} (m : nat -> T) (k : nat) : Vec3 T :=
  vec3 (m k) (m (4 + k)%nat) (m (8 + k)%nat).

(** Arrays for a scene: an eye at [(0, 0, 5)] that looks at the origin with
    [up] along [y], a translation by [(1, 2, 3)], and identity matrices
    elsewhere. *)
Definition scene : Arrays R :=
  fun r =>
    match r with
    | 0%nat => arrayOf (vec3 0 0 5)%R
    | 1%nat => arrayOf (vec3 0 0 0)%R
    | 2%nat => arrayOf (vec3 0 1 0)%R
    | 3%nat => translation (vec3 1 2 3)%R
    | _ => identityMatrix
    end.

(** ** [class Geometry] ([src/geometry.js])

    A mesh is an array of numbers, nine for each vertex: the position, the
    normal and the colour.  [segments] and [rings] are counts: the callers
    pass the integers 12 and 16. *)

Module Geometry.
Section GeometryClass.
Context {T : Type} `{Number T} `{Trig T}.
Local Open Scope num_scope.

(** A loop counter as a number. *)
Definition ofNat (n : nat) : T := ofZ (Z.of_nat n).

(** [vertices.push(...)]. *)
Definition push (vertices values : list T) : list T := vertices ++ values.

Definition createBox (width height depth : T) (color : Vec3 T) : list T :=
  let hw := width / ofZ 2 in
  let hh := height / ofZ 2 in
  let hd := depth / ofZ 2 in
  let r := at0 color in
  let g := at1 color in
  let b := at2 color in
  let o := ofZ 0 in
  let i := ofZ 1 in
  [ - hw; - hh; hd;  o; o; i;  r; g; b;
    hw; - hh; hd;  o; o; i;  r; g; b;
    hw; hh; hd;  o; o; i;  r; g; b;
    - hw; - hh; hd;  o; o; i;  r; g; b;
    hw; hh; hd;  o; o; i;  r; g; b;
    - hw; hh; hd;  o; o; i;  r; g; b;

    hw; - hh; - hd;  o; o; - i;  r; g; b;
    - hw; - hh; - hd;  o; o; - i;  r; g; b;
    - hw; hh; - hd;  o; o; - i;  r; g; b;
    hw; - hh; - hd;  o; o; - i;  r; g; b;
    - hw; hh; - hd;  o; o; - i;  r; g; b;
    hw; hh; - hd;  o; o; - i;  r; g; b;

    - hw; hh; hd;  o; i; o;  r; g; b;
    hw; hh; hd;  o; i; o;  r; g; b;
    hw; hh; - hd;  o; i; o;  r; g; b;
    - hw; hh; hd;  o; i; o;  r; g; b;
    hw; hh; - hd;  o; i; o;  r; g; b;
    - hw; hh; - hd;  o; i; o;  r; g; b;

    - hw; - hh; - hd;  o; - i; o;  r; g; b;
    hw; - hh; - hd;  o; - i; o;  r; g; b;
    hw; - hh; hd;  o; - i; o;  r; g; b;
    - hw; - hh; - hd;  o; - i; o;  r; g; b;
    hw; - hh; hd;  o; - i; o;  r; g; b;
    - hw; - hh; hd;  o; - i; o;  r; g; b;

    hw; - hh; hd;  i; o; o;  r; g; b;
    hw; - hh; - hd;  i; o; o;  r; g; b;
    hw; hh; - hd;  i; o; o;  r; g; b;
    hw; - hh; hd;  i; o; o;  r; g; b;
    hw; hh; - hd;  i; o; o;  r; g; b;
    hw; hh; hd;  i; o; o;  r; g; b;

    - hw; - hh; - hd;  - i; o; o;  r; g; b;
    - hw; - hh; hd;  - i; o; o;  r; g; b;
    - hw; hh; hd;  - i; o; o;  r; g; b;
    - hw; - hh; - hd;  - i; o; o;  r; g; b;
    - hw; hh; hd;  - i; o; o;  r; g; b;
    - hw; hh; - hd;  - i; o; o;  r; g; b ].

Definition spherePoint (radius theta phi : T) : Vec3 T :=
  vec3 (radius * Math_sin theta * Math_cos phi)
       (radius * Math_cos theta)
       (radius * Math_sin theta * Math_sin phi).

Definition normalize (v : Vec3 T) : Vec3 T :=
  let len := Math_sqrt (at0 v * at0 v + at1 v * at1 v + at2 v * at2 v) in
  vec3 (at0 v / len) (at1 v / len) (at2 v / len).

(** [...p, ...n, r, g, b]. *)
Definition vertex (p n color : Vec3 T) : list T :=
  [at0 p; at1 p; at2 p; at0 n; at1 n; at2 n;
   at0 color; at1 color; at2 color].

Definition createSphere (radius : T) (segments rings : nat) (color : Vec3 T)
  : list T :=
  fold_left
    (fun vertices ring =>
       let theta1 := ofNat ring / ofNat rings * Math_PI in
       let theta2 := (ofNat ring + ofZ 1) / ofNat rings * Math_PI in
       fold_left
         (fun vertices seg =>
            let phi1 := ofNat seg / ofNat segments * Math_PI * ofZ 2 in
            let phi2 :=
              (ofNat seg + ofZ 1) / ofNat segments * Math_PI * ofZ 2 in
            let p1 := spherePoint radius theta1 phi1 in
            let p2 := spherePoint radius theta1 phi2 in
            let p3 := spherePoint radius theta2 phi1 in
            let p4 := spherePoint radius theta2 phi2 in
            let n1 := normalize p1 in
            let n2 := normalize p2 in
            let n3 := normalize p3 in
            let n4 := normalize p4 in
            let vertices :=
              push vertices
                (vertex p1 n1 color ++ vertex p3 n3 color
                 ++ vertex p2 n2 color) in
            push vertices
              (vertex p2 n2 color ++ vertex p3 n3 color
               ++ vertex p4 n4 color))
         (seq 0 segments) vertices)
    (seq 0 rings) [].

Definition createCylinder (radius height : T) (segments : nat)
    (color : Vec3 T) : list T :=
  let halfHeight := height / ofZ 2 in
  let o := ofZ 0 in
  fold_left
    (fun vertices i =>
       let angle1 := ofNat i / ofNat segments * Math_PI * ofZ 2 in
       let angle2 := (ofNat i + ofZ 1) / ofNat segments * Math_PI * ofZ 2 in
       let x1 := Math_cos angle1 * radius in
       let z1 := Math_sin angle1 * radius in
       let x2 := Math_cos angle2 * radius in
       let z2 := Math_sin angle2 * radius in
       let nx1 := Math_cos angle1 in
       let nz1 := Math_sin angle1 in
       let nx2 := Math_cos angle2 in
       let nz2 := Math_sin angle2 in
       let vertices :=
         push vertices
           (vertex (vec3 x1 (- halfHeight) z1) (vec3 nx1 o nz1) color
            ++ vertex (vec3 x2 (- halfHeight) z2) (vec3 nx2 o nz2) color
            ++ vertex (vec3 x1 halfHeight z1) (vec3 nx1 o nz1) color
            ++ vertex (vec3 x2 (- halfHeight) z2) (vec3 nx2 o nz2) color
            ++ vertex (vec3 x2 halfHeight z2) (vec3 nx2 o nz2) color
            ++ vertex (vec3 x1 halfHeight z1) (vec3 nx1 o nz1) color) in
       let vertices :=
         push vertices
           (vertex (vec3 o halfHeight o) (vec3 o (ofZ 1) o) color
            ++ vertex (vec3 x1 halfHeight z1) (vec3 o (ofZ 1) o) color
            ++ vertex (vec3 x2 halfHeight z2) (vec3 o (ofZ 1) o) color) in
       push vertices
         (vertex (vec3 o (- halfHeight) o) (vec3 o (- ofZ 1) o) color
          ++ vertex (vec3 x2 (- halfHeight) z2) (vec3 o (- ofZ 1) o) color
          ++ vertex (vec3 x1 (- halfHeight) z1) (vec3 o (- ofZ 1) o) color))
    (seq 0 segments) [].
End GeometryClass.
End Geometry.

(** ** The triangles of a mesh ([src/renderer.js])

    The pipeline of the renderer reads a vertex buffer by strides of nine
    numbers, the position at the offset 0, the normal at 3 and the colour at
    6, and draws a list of triangles: three vertices each. *)

Section Meshes.
Context {T : Type} `{Number T}.
Local Open Scope num_scope.

Record Vertex : Type := {
  v_position : Vec3 T;
  v_normal : Vec3 T;
  v_color : Vec3 T
}.

Fixpoint verticesOf (l : list T) : list Vertex :=
  match l with
  | px :: py :: pz :: nx :: ny :: nz :: r :: g :: b :: l' =>
      {| v_position := vec3 px py pz; v_normal := vec3 nx ny nz;
         v_color := vec3 r g b |} :: verticesOf l'
  | _ => []
  end.

Fixpoint trianglesOf (l : list Vertex) : list (Vertex * Vertex * Vertex) :=
  match l with
  | a :: b :: c :: l' => (a, b, c) :: trianglesOf l'
  | _ => []
  end.

(** The vector normal to a triangle, towards the side from which its
    vertices are seen counter-clockwise; its length is twice the area. *)
Definition facing (t : Vertex * Vertex * Vertex) : Vec3 T :=
  let '(a, b, c) := t in
  cross3 (minus3 (v_position b) (v_position a))
         (minus3 (v_position c) (v_position a)).
End Meshes.
Arguments Vertex : clear implicits.

Section MeshLists.
Context {T : Type}.

(** The numbers of a list of vertices, and the vertices of a list of
    triangles. *)
Definition numbersOf (vs : list (Vertex T)) : list T :=
  flat_map
    (fun v => Geometry.vertex (v_position v) (v_normal v) (v_color v)) vs.

Definition cornersOf (ts : list (Vertex T * Vertex T * Vertex T))
  : list (Vertex T) :=
  flat_map (fun t => let '(a, b, c) := t in [a; b; c]) ts.

Definition mkVertex (p n color : Vec3 T) : Vertex T :=
  {| v_position := p; v_normal := n; v_color := color |}.
End MeshLists.

Section MeshParts.
Context {T : Type} `{Number T} `{Trig T}.
Local Open Scope num_scope.

Definition triangle (a b c : Vertex T) : Vertex T * Vertex T * Vertex T :=
  (a, b, c).

(** The four triangles of a segment of [createCylinder], between the
    angles [angle1] and [angle2]: two of the side, one of each cap. *)
Definition cylinderSegment (radius height angle1 angle2 : T)
    (color : Vec3 T) : list (Vertex T * Vertex T * Vertex T) :=
  let hh := height / ofZ 2 in
  let o := ofZ 0 in
  let p1 y := vec3 (Math_cos angle1 * radius) y (Math_sin angle1 * radius) in
  let p2 y := vec3 (Math_cos angle2 * radius) y (Math_sin angle2 * radius) in
  let n1 := vec3 (Math_cos angle1) o (Math_sin angle1) in
  let n2 := vec3 (Math_cos angle2) o (Math_sin angle2) in
  let up := vec3 o (ofZ 1) o in
  let down := vec3 o (- ofZ 1) o in
  [ triangle (mkVertex (p1 (- hh)) n1 color) (mkVertex (p2 (- hh)) n2 color)
      (mkVertex (p1 hh) n1 color);
    triangle (mkVertex (p2 (- hh)) n2 color) (mkVertex (p2 hh) n2 color)
      (mkVertex (p1 hh) n1 color);
    triangle (mkVertex (vec3 o hh o) up color) (mkVertex (p1 hh) up color)
      (mkVertex (p2 hh) up color);
    triangle (mkVertex (vec3 o (- hh) o) down color)
      (mkVertex (p2 (- hh)) down color) (mkVertex (p1 (- hh)) down color) ].

(** The two triangles of a quad of [createSphere], between the angles
    [theta1] and [theta2] from the pole and [phi1] and [phi2] around the
    axis. *)
Definition sphereQuad (radius theta1 theta2 phi1 phi2 : T) (color : Vec3 T)
  : list (Vertex T * Vertex T * Vertex T) :=
  let v theta phi :=
    mkVertex (Geometry.spherePoint radius theta phi)
      (Geometry.normalize (Geometry.spherePoint radius theta phi)) color in
  [ triangle (v theta1 phi1) (v theta2 phi1) (v theta1 phi2);
    triangle (v theta1 phi2) (v theta2 phi1) (v theta2 phi2) ].
End MeshParts.

(** * Properties *)

Unset Implicit Arguments.
Local Open Scope R_scope.

(** ** Comparisons of exact numbers *)

Lemma Rltb_true (a b : R) : Rltb a b = true <-> a < b.
Proof. unfold Rltb; destruct (Rlt_dec a b); split; intros; easy. Qed.

Lemma Rltb_false (a b : R) : Rltb a b = false <-> ~ a < b.
Proof. unfold Rltb; destruct (Rlt_dec a b); split; intros; easy. Qed.

Lemma Rleb_true (a b : R) : Rleb a b = true <-> a <= b.
Proof. unfold Rleb; destruct (Rle_dec a b); split; intros; easy. Qed.

Lemma Rleb_false (a b : R) : Rleb a b = false <-> ~ a <= b.
Proof. unfold Rleb; destruct (Rle_dec a b); split; intros; easy. Qed.

Lemma Reqb_true (a b : R) : Reqb a b = true <-> a = b.
Proof. unfold Reqb; destruct (Req_dec_T a b); split; intros; easy. Qed.

Lemma Reqb_false (a b : R) : Reqb a b = false <-> a <> b.
Proof. unfold Reqb; destruct (Req_dec_T a b); split; intros; easy. Qed.

(** ** Comparisons of binary64 numbers *)

Lemma SFcompare_Lt_swap (x y : spec_float) :
  SFcompare x y = Some Lt -> SFcompare y x = Some Gt.
Proof.
  destruct x as [sx | sx | | sx mx ex], y as [sy | sy | | sy my ey]; cbn;
    try discriminate;
    try (destruct sx; discriminate || reflexivity);
    try (destruct sy; discriminate || reflexivity);
    try (destruct sx, sy; discriminate || reflexivity).
  rewrite (Z.compare_antisym ex ey).
  change (PosDef.Pos.compare_cont Eq my mx) with (Pos.compare my mx).
  change (PosDef.Pos.compare_cont Eq mx my) with (Pos.compare mx my).
  rewrite (Pos.compare_antisym mx my).
  destruct sx, sy, (ex ?= ey)%Z, (mx ?= my)%positive; cbn; intros E;
    try discriminate E; reflexivity.
Qed.


Lemma SFcompare_Eq_zero (x : spec_float) (s : bool) :
  SFcompare x (S754_zero s) = Some Eq -> SFcompare (S754_zero s) x = Some Eq.
Proof.
  destruct x as [sx | sx | | sx mx ex]; cbn; try discriminate;
    try reflexivity; destruct sx; discriminate.
Qed.

(** [a < b] excludes [b < a] and [b <= a]. *)
Lemma float_lt_swap (a b : float) :
  PrimFloat.ltb a b = true ->
  PrimFloat.ltb b a = false /\ PrimFloat.leb b a = false.
Proof.
  rewrite (ltb_spec a b), (ltb_spec b a), (leb_spec b a).
  unfold SFltb, SFleb.
  destruct (SFcompare (Prim2SF a) (Prim2SF b)) as [[]|] eqn:E;
    try discriminate.
  intros _. now rewrite (SFcompare_Lt_swap _ _ E).
Qed.

(** A number equal to zero ([0] or [-0]) is not above zero. *)
Lemma float_zero_not_positive (a : float) :
  PrimFloat.eqb a 0 = true -> PrimFloat.ltb 0 a = false.
Proof.
  rewrite (eqb_spec a 0), (ltb_spec 0 a). unfold SFeqb, SFltb.
  change (Prim2SF 0) with (S754_zero false).
  destruct (SFcompare (Prim2SF a) (S754_zero false)) as [[]|] eqn:E;
    try discriminate.
  intros _. now rewrite (SFcompare_Eq_zero _ _ E).
Qed.


(** ** Vectors, in exact arithmetic *)

Lemma dot3_self_nonneg (u : Vec3 R) : 0 <= dot3 u u.
Proof. unfold dot3; cbn. nra. Qed.

Lemma norm3_sq (u : Vec3 R) : norm3 u * norm3 u = dot3 u u.
Proof. unfold norm3; cbn. apply sqrt_sqrt, dot3_self_nonneg. Qed.

Lemma norm3_nonneg (u : Vec3 R) : 0 <= norm3 u.
Proof. apply sqrt_pos. Qed.

Lemma dot3_scale (k : R) (u : Vec3 R) :
  dot3 (scale3 k u) (scale3 k u) = k * k * dot3 u u.
Proof. unfold dot3, scale3; cbn. ring. Qed.

Lemma norm3_scale (k : R) (u : Vec3 R) :
  0 <= k -> norm3 (scale3 k u) = k * norm3 u.
Proof.
  intros Hk. unfold norm3; cbn [Math_sqrt RNumber]. rewrite dot3_scale.
  rewrite sqrt_mult by (try apply dot3_self_nonneg; nra).
  now rewrite sqrt_square.
Qed.

Lemma over3_scale (u : Vec3 R) (k : R) : over3 u k = scale3 (/ k) u.
Proof. unfold over3, scale3; cbn. f_equal; unfold Rdiv; ring. Qed.

(** A vector divided by its length is a unit vector. *)
Lemma unit_normal (u : Vec3 R) :
  0 < norm3 u -> dot3 (over3 u (norm3 u)) (over3 u (norm3 u)) = 1.
Proof.
  intros Hd. rewrite over3_scale, dot3_scale, <- norm3_sq. field. lra.
Qed.

(** Reflection about a unit vector: the normal part is scaled by
    [1 - 2 * e], the rest is kept. *)
Lemma reflect_normal (e : R) (v n : Vec3 R) :
  dot3 n n = 1 ->
  normalPart (minus3 v (scale3 (2 * e * dot3 v n) n)) n
  = (1 - 2 * e) * normalPart v n.
Proof.
  intros Hn. unfold normalPart.
  replace (dot3 (minus3 v (scale3 (2 * e * dot3 v n) n)) n)
    with (dot3 v n - 2 * e * dot3 v n * dot3 n n)
    by (unfold dot3, minus3, scale3; cbn; ring).
  rewrite Hn. ring.
Qed.

Lemma reflect_tangential (e : R) (v n : Vec3 R) :
  dot3 n n = 1 ->
  tangentialPart (minus3 v (scale3 (2 * e * dot3 v n) n)) n
  = tangentialPart v n.
Proof.
  intros Hn. unfold tangentialPart.
  replace (dot3 (minus3 v (scale3 (2 * e * dot3 v n) n)) n)
    with (dot3 v n - 2 * e * dot3 v n * dot3 n n)
    by (unfold dot3, minus3, scale3; cbn; ring).
  rewrite Hn. unfold minus3, scale3; cbn. f_equal; ring.
Qed.

(** ** The three resolvers on a penetrating ball

    Each resolver, when its test finds a penetration at a positive distance,
    answers with [respond] at its own normal and depth and calls the
    callback of the ball. *)

Lemma sphere_hit (this : PhysicsFields R) (ball pin : PhysicsBody R) :
  0 < sphereDistance ball pin < radius ball + radius pin ->
  Physics.sphereVsSphere this ball pin
  = (respond this ball (sphereNormal ball pin)
       (radius ball + radius pin - sphereDistance ball pin),
     Physics.callOnCollision ball pin).
Proof.
  intros [H0 H1].
  unfold Physics.sphereVsSphere, respond, sphereNormal.
  unfold sphereDistance, norm3, dot3, minus3, plus3, scale3, over3 in *.
  cbn -[Rltb] in *.
  set (d := R_sqrt.sqrt _) in *.
  apply Rltb_true in H0, H1. rewrite H0, H1. cbn.
  unfold setVelocity, setPosition; cbn.
  f_equal. f_equal; f_equal; unfold Rdiv; ring.
Qed.

Lemma cylinder_hit (this : PhysicsFields R) (ball cylinder : PhysicsBody R) :
  0 < cylinderDistance ball cylinder < radius ball + radius cylinder ->
  inBand ball cylinder ->
  Physics.sphereVsCylinder this ball cylinder
  = (respond this ball (cylinderNormal ball cylinder)
       (radius ball + radius cylinder - cylinderDistance ball cylinder),
     Physics.callOnCollision ball cylinder).
Proof.
  intros [H0 H1] [B0 B1].
  unfold Physics.sphereVsCylinder, respond, cylinderNormal.
  unfold cylinderDistance, bandLow, bandHigh, dot3, minus3, plus3, scale3 in *.
  cbn -[Rltb Rleb] in *.
  set (d := R_sqrt.sqrt _) in *.
  apply Rltb_true in H0, H1. apply Rleb_true in B0, B1.
  rewrite H0, H1, B0, B1. cbn.
  unfold setVelocity, setPosition; cbn.
  f_equal. f_equal; f_equal; unfold Rdiv; ring.
Qed.

Lemma box_hit (this : PhysicsFields R) (ball box : PhysicsBody R)
    (bmin bmax : Vec3 R) :
  min box = Some bmin -> max box = Some bmax ->
  0 < boxDistance ball bmin bmax < radius ball ->
  Physics.sphereVsBox this ball box
  = Some (respond this ball (boxNormal ball bmin bmax)
            (radius ball - boxDistance ball bmin bmax),
          Physics.callOnCollision ball box).
Proof.
  intros Hmin Hmax [H0 H1].
  unfold Physics.sphereVsBox, respond, boxNormal. rewrite Hmin, Hmax.
  unfold boxDistance, closestPoint, norm3, dot3, minus3, plus3, scale3,
    over3 in *.
  cbn -[Rltb] in *.
  set (d := R_sqrt.sqrt _) in *.
  apply Rltb_true in H0, H1. rewrite H0, H1. cbn.
  unfold setVelocity, setPosition; cbn.
  f_equal. f_equal. f_equal; f_equal; unfold Rdiv; ring.
Qed.

(** The three normals are unit vectors. *)

Lemma sphereNormal_unit (ball pin : PhysicsBody R) :
  0 < sphereDistance ball pin ->
  dot3 (sphereNormal ball pin) (sphereNormal ball pin) = 1.
Proof. apply unit_normal. Qed.

Lemma cylinderDistance_sq (ball cylinder : PhysicsBody R) :
  cylinderDistance ball cylinder * cylinderDistance ball cylinder
  = (at0 (position ball) - at0 (position cylinder))
    * (at0 (position ball) - at0 (position cylinder))
    + (at2 (position ball) - at2 (position cylinder))
      * (at2 (position ball) - at2 (position cylinder)).
Proof.
  unfold cylinderDistance; cbn. apply sqrt_sqrt.
  apply Rplus_le_le_0_compat; apply Rle_0_sqr.
Qed.

Lemma cylinderNormal_unit (ball cylinder : PhysicsBody R) :
  0 < cylinderDistance ball cylinder ->
  dot3 (cylinderNormal ball cylinder) (cylinderNormal ball cylinder) = 1.
Proof.
  intros Hd. pose proof (cylinderDistance_sq ball cylinder) as Hsq.
  unfold cylinderNormal, dot3; cbn -[cylinderDistance].
  set (d := cylinderDistance ball cylinder) in *.
  set (dx := at0 (position ball) - at0 (position cylinder)) in *.
  set (dz := at2 (position ball) - at2 (position cylinder)) in *.
  replace (dx / d * (dx / d) + 0 * 0 + dz / d * (dz / d))
    with ((dx * dx + dz * dz) / (d * d)) by (field; lra).
  rewrite <- Hsq. field. lra.
Qed.

Lemma boxNormal_unit (ball : PhysicsBody R) (bmin bmax : Vec3 R) :
  0 < boxDistance ball bmin bmax ->
  dot3 (boxNormal ball bmin bmax) (boxNormal ball bmin bmax) = 1.
Proof. apply unit_normal. Qed.

(** The response moves the ball by exactly [depth]. *)
Lemma respond_displacement (this : PhysicsFields R) (ball : PhysicsBody R)
    (n : Vec3 R) (depth : R) :
  dot3 n n = 1 -> 0 <= depth ->
  norm3 (minus3 (position (respond this ball n depth)) (position ball)) = depth.
Proof.
  intros Hn Hd. cbn [respond position setVelocity setPosition].
  replace (minus3 (plus3 (position ball) (scale3 depth n)) (position ball))
    with (scale3 depth n)
    by (unfold minus3, plus3, scale3; cbn; f_equal; ring).
  rewrite norm3_scale by assumption.
  unfold norm3; cbn [Math_sqrt RNumber]. rewrite Hn, sqrt_1. ring.
Qed.

Lemma respond_moves (this : PhysicsFields R) (ball : PhysicsBody R)
    (n : Vec3 R) (depth : R) :
  dot3 n n = 1 -> 0 < depth ->
  position (respond this ball n depth) <> position ball.
Proof.
  intros Hn Hd E.
  pose proof (respond_displacement this ball n depth Hn (Rlt_le _ _ Hd)) as D.
  rewrite E in D.
  replace (minus3 (position ball) (position ball))
    with (scale3 0 (position ball)) in D
    by (unfold minus3, scale3; cbn; f_equal; ring).
  rewrite norm3_scale in D; lra.
Qed.

Lemma respond_velocity_differs (this : PhysicsFields R) (ball : PhysicsBody R)
    (n : Vec3 R) (depth : R) :
  dot3 n n = 1 -> restitution this <> 0 -> dot3 (velocity ball) n <> 0 ->
  velocity (respond this ball n depth) <> velocity ball.
Proof.
  intros Hn He Hv E.
  pose proof (reflect_normal (restitution this) (velocity ball) n Hn) as N.
  cbn [respond velocity setVelocity setPosition ofZ RNumber mul] in E.
  rewrite E in N. unfold normalPart in N.
  assert (2 * restitution this * dot3 (velocity ball) n = 0) by lra.
  assert (restitution this * dot3 (velocity ball) n <> 0)
    by (apply Rmult_integral_contrapositive; tauto).
  lra.
Qed.

(** ** Evaluation on the sample objects *)

Ltac sqrt_is q :=
  match goal with
  | |- context [R_sqrt.sqrt ?X] =>
      replace X with (q * q) by (cbn; lra);
      rewrite (sqrt_square q) by lra
  end.

Ltac eval_minmax :=
  unfold Rmax, Rmin; repeat (destruct (Rle_dec _ _); try lra).

Lemma fallingBall_distance : sphereDistance fallingBall unitPin = 1.
Proof. unfold sphereDistance, norm3, dot3, minus3. cbn. now sqrt_is 1. Qed.

Lemma risingBall_distance : sphereDistance risingBall unitPin = 1.
Proof. exact fallingBall_distance. Qed.

Lemma sideBall_distance : cylinderDistance sideBall unitCylinder = 1.
Proof. unfold cylinderDistance. cbn. now sqrt_is 1. Qed.

Lemma leavingBall_distance : cylinderDistance leavingBall unitCylinder = 1.
Proof. exact sideBall_distance. Qed.

Lemma highBall_distance : cylinderDistance highBall unitCylinder = 1.
Proof. exact sideBall_distance. Qed.

Lemma floor_closest (y : R) :
  closestPoint (vec3 0 y 0) floorMin floorMax = vec3 0 (Rmax (-1) (Rmin y 0)) 0.
Proof. unfold closestPoint; cbn. f_equal; eval_minmax. Qed.

Lemma landingBall_distance : boxDistance landingBall floorMin floorMax = 1 / 4.
Proof.
  unfold boxDistance. cbn [landingBall sampleBody position].
  rewrite floor_closest.
  replace (Rmax (-1) (Rmin (1 / 4) 0)) with 0 by eval_minmax.
  unfold norm3, dot3, minus3. cbn. now sqrt_is (1 / 4).
Qed.

Lemma bouncingBall_distance :
  boxDistance bouncingBall floorMin floorMax = 1 / 4.
Proof. exact landingBall_distance. Qed.

Lemma sunkBall_distance : boxDistance sunkBall floorMin floorMax = 0.
Proof.
  unfold boxDistance. cbn [sunkBall sampleBody position].
  rewrite floor_closest.
  replace (Rmax (-1) (Rmin (-1 / 2) 0)) with (-1 / 2) by eval_minmax.
  unfold norm3, dot3, minus3. cbn. now sqrt_is 0.
Qed.


(** ** The effect of one collision check on the store *)

Lemma update_heap_same (h : ref -> PhysicsBody R) (r : ref)
    (b : PhysicsBody R) :
  update_heap h r b r = b.
Proof. unfold update_heap. now rewrite Nat.eqb_refl. Qed.

Lemma update_heap_other (h : ref -> PhysicsBody R) (r r' : ref)
    (b : PhysicsBody R) :
  r' <> r -> update_heap h r b r' = h r'.
Proof.
  intros Hr. unfold update_heap.
  destruct (Nat.eqb r' r) eqn:E; [apply Nat.eqb_eq in E; easy | easy].
Qed.

(** A check that does not throw stores the ball the resolver returns and
    changes no other object. *)
Lemma collide_store (s : State R) (body staticBody : ref)
    (ball' : PhysicsBody R) (cs : list (Call R)) :
  Physics.checkCollision (physics s) (heap s body) (heap s staticBody)
  = Some (ball', cs) ->
  exists s',
    Physics.collide body staticBody s = Some (tt, s')
    /\ heap s' body = ball'
    /\ (forall other, other <> body -> heap s' other = heap s other)
    /\ calls s' = cs ++ calls s
    /\ physics s' = physics s /\ machine s' = machine s
    /\ draws s' = draws s.
Proof.
  intros E. unfold Physics.collide, bind, get. rewrite E.
  eexists. split; [reflexivity|]. cbn.
  split; [apply update_heap_same|].
  split; [intros; now apply update_heap_other|]. easy.
Qed.

(** ** C4: separation of a ball from a static sphere *)

Lemma sphere_separated (this : PhysicsFields R) (ball pin : PhysicsBody R) :
  0 < sphereDistance ball pin < radius ball + radius pin ->
  sphereDistance
    (respond this ball (sphereNormal ball pin)
       (radius ball + radius pin - sphereDistance ball pin)) pin
  = radius ball + radius pin.
Proof.
  intros [H0 H1].
  unfold sphereDistance at 1. cbn [respond position setVelocity setPosition].
  unfold sphereNormal. rewrite over3_scale.
  set (d := sphereDistance ball pin) in *.
  set (u := minus3 (position ball) (position pin)).
  assert (Hu : norm3 u = d) by reflexivity.
  clearbody d.
  assert (E : minus3 (plus3 (position ball)
                        (scale3 (radius ball + radius pin - d)
                           (scale3 (/ d) u)))
                (position pin)
              = scale3 ((radius ball + radius pin) / d) u).
  { unfold u, minus3, plus3, scale3; cbn. f_equal; field; lra. }
  rewrite E, norm3_scale.
  - rewrite Hu. field. lra.
  - apply Rlt_le, Rdiv_lt_0_compat; lra.
Qed.

(** C4.  A ball that overlaps a static sphere at a centre distance [d] with
    [0 < d < rBall + rObstacle] is moved by one call of [sphereVsSphere] along
    the unit contact normal by exactly the depth [rBall + rObstacle - d], so
    that the centre distance becomes [rBall + rObstacle]; the radius of the
    ball is kept, and in the store the check writes the ball and no other
    object. *)
Theorem sphereVsSphere_separation
    (this : PhysicsFields R) (ball pin : PhysicsBody R) :
  0 < sphereDistance ball pin < radius ball + radius pin ->
  let depth := radius ball + radius pin - sphereDistance ball pin in
  let ball' := fst (Physics.sphereVsSphere this ball pin) in
  position ball' = plus3 (position ball) (scale3 depth (sphereNormal ball pin))
  /\ norm3 (sphereNormal ball pin) = 1
  /\ norm3 (minus3 (position ball') (position ball)) = depth
  /\ sphereDistance ball' pin = radius ball + radius pin
  /\ radius ball' = radius ball
  /\ forall (s : State R) (body staticBody other : ref),
       physics s = this -> heap s body = ball -> heap s staticBody = pin ->
       type pin = "sphere"%string -> other <> body ->
       exists s',
         Physics.collide body staticBody s = Some (tt, s')
         /\ heap s' body = ball'
         /\ heap s' other = heap s other.
Proof.
  intros H depth ball'.
  assert (Hn : dot3 (sphereNormal ball pin) (sphereNormal ball pin) = 1)
    by (apply sphereNormal_unit; lra).
  subst ball'. rewrite (sphere_hit this ball pin H). cbn [fst].
  repeat split.
  - unfold norm3. rewrite Hn. apply sqrt_1.
  - apply respond_displacement; [assumption | unfold depth; lra].
  - now apply sphere_separated.
  - intros s body staticBody other Hp Hb Hs Ht Ho.
    destruct (collide_store s body staticBody
                (respond this ball (sphereNormal ball pin) depth)
                (Physics.callOnCollision ball pin)) as (s' & E & Hb' & Hfr & _).
    + unfold Physics.checkCollision. rewrite Hp, Hb, Hs, Ht. cbn [String.eqb].
      rewrite (sphere_hit this ball pin H). reflexivity.
    + exists s'. repeat split; auto.
Qed.

Lemma sphereVsSphere_separation_witness :
  0 < sphereDistance fallingBall unitPin
      < radius fallingBall + radius unitPin
  /\ sphereDistance
       (fst (Physics.sphereVsSphere Physics.constructor fallingBall unitPin))
       unitPin
     = radius fallingBall + radius unitPin.
Proof.
  assert (H : 0 < sphereDistance fallingBall unitPin
              < radius fallingBall + radius unitPin)
    by (rewrite fallingBall_distance; cbn; lra).
  split; [exact H|].
  exact (proj1 (proj2 (proj2 (proj2
    (sphereVsSphere_separation Physics.constructor fallingBall unitPin H))))).
Defined.

(** ** The velocity after a resolved collision *)

Lemma respond_normal (this : PhysicsFields R) (ball : PhysicsBody R)
    (n : Vec3 R) (depth : R) :
  dot3 n n = 1 ->
  normalPart (velocity (respond this ball n depth)) n
  = (1 - 2 * restitution this) * normalPart (velocity ball) n
  /\ tangentialPart (velocity (respond this ball n depth)) n
     = tangentialPart (velocity ball) n.
Proof.
  intros Hn. cbn [respond velocity setVelocity setPosition]. split.
  - now apply reflect_normal.
  - now apply reflect_tangential.
Qed.

Lemma fallingBall_normal : sphereNormal fallingBall unitPin = vec3 0 1 0.
Proof.
  unfold sphereNormal. rewrite fallingBall_distance.
  unfold over3, minus3; cbn. f_equal; field.
Qed.

Lemma sideBall_normal : cylinderNormal sideBall unitCylinder = vec3 1 0 0.
Proof.
  unfold cylinderNormal. rewrite sideBall_distance.
  cbn. f_equal; field.
Qed.

Lemma landingBall_normal : boxNormal landingBall floorMin floorMax = vec3 0 1 0.
Proof.
  unfold boxNormal. rewrite landingBall_distance.
  cbn [landingBall sampleBody position]. rewrite floor_closest.
  replace (Rmax (-1) (Rmin (1 / 4) 0)) with 0 by eval_minmax.
  unfold over3, minus3; cbn. f_equal; field.
Qed.

Lemma fallingBall_hits :
  0 < sphereDistance fallingBall unitPin < radius fallingBall + radius unitPin.
Proof. rewrite fallingBall_distance; cbn; lra. Qed.

Lemma sideBall_hits :
  0 < cylinderDistance sideBall unitCylinder
    < radius sideBall + radius unitCylinder.
Proof. rewrite sideBall_distance; cbn; lra. Qed.

Lemma sideBall_inBand : inBand sideBall unitCylinder.
Proof. unfold inBand; cbn; lra. Qed.

Lemma landingBall_hits :
  0 < boxDistance landingBall floorMin floorMax < radius landingBall.
Proof. rewrite landingBall_distance; cbn; lra. Qed.

(** What the code computes, in exact arithmetic.  For every collision
    resolved by [sphereVsSphere], [sphereVsCylinder] or [sphereVsBox] (a
    penetration at a positive distance), the velocity after the call is the
    velocity before it with the component along the contact normal
    multiplied by [1 - 2 * restitution] and the tangential component
    unchanged. *)
Theorem collision_velocity_response
    (this : PhysicsFields R) (ball obstacle : PhysicsBody R) :
  (0 < sphereDistance ball obstacle < radius ball + radius obstacle ->
   let n := sphereNormal ball obstacle in
   let ball' := fst (Physics.sphereVsSphere this ball obstacle) in
   normalPart (velocity ball') n
   = (1 - 2 * restitution this) * normalPart (velocity ball) n
   /\ tangentialPart (velocity ball') n = tangentialPart (velocity ball) n)
  /\ (0 < cylinderDistance ball obstacle < radius ball + radius obstacle ->
      inBand ball obstacle ->
      let n := cylinderNormal ball obstacle in
      let ball' := fst (Physics.sphereVsCylinder this ball obstacle) in
      normalPart (velocity ball') n
      = (1 - 2 * restitution this) * normalPart (velocity ball) n
      /\ tangentialPart (velocity ball') n = tangentialPart (velocity ball) n)
  /\ (forall bmin bmax : Vec3 R,
        min obstacle = Some bmin -> max obstacle = Some bmax ->
        0 < boxDistance ball bmin bmax < radius ball ->
        exists result,
          Physics.sphereVsBox this ball obstacle = Some result
          /\ let n := boxNormal ball bmin bmax in
             let ball' := fst result in
             normalPart (velocity ball') n
             = (1 - 2 * restitution this) * normalPart (velocity ball) n
             /\ tangentialPart (velocity ball') n
                = tangentialPart (velocity ball) n).
Proof.
  split; [|split].
  - intros Hd n ball'. subst ball'. rewrite (sphere_hit this ball obstacle Hd).
    apply respond_normal, sphereNormal_unit; lra.
  - intros Hd Hb n ball'. subst ball'.
    rewrite (cylinder_hit this ball obstacle Hd Hb).
    apply respond_normal, cylinderNormal_unit; lra.
  - intros bmin bmax Hmin Hmax Hd. eexists. split.
    + apply (box_hit this ball obstacle bmin bmax Hmin Hmax Hd).
    + apply respond_normal, boxNormal_unit; lra.
Qed.

Lemma collision_velocity_response_witness :
  (0 < sphereDistance fallingBall unitPin
     < radius fallingBall + radius unitPin
   /\ normalPart
        (velocity (fst (Physics.sphereVsSphere Physics.constructor
                          fallingBall unitPin)))
        (sphereNormal fallingBall unitPin)
      = (1 - 2 * restitution Physics.constructor)
        * normalPart (velocity fallingBall) (sphereNormal fallingBall unitPin))
  /\ (0 < cylinderDistance sideBall unitCylinder
        < radius sideBall + radius unitCylinder
      /\ inBand sideBall unitCylinder
      /\ normalPart
           (velocity (fst (Physics.sphereVsCylinder Physics.constructor
                             sideBall unitCylinder)))
           (cylinderNormal sideBall unitCylinder)
         = (1 - 2 * restitution Physics.constructor)
           * normalPart (velocity sideBall)
               (cylinderNormal sideBall unitCylinder))
  /\ (0 < boxDistance landingBall floorMin floorMax < radius landingBall
      /\ exists result,
           Physics.sphereVsBox Physics.constructor landingBall floorBox
           = Some result
           /\ normalPart (velocity (fst result))
                (boxNormal landingBall floorMin floorMax)
              = (1 - 2 * restitution Physics.constructor)
                * normalPart (velocity landingBall)
                    (boxNormal landingBall floorMin floorMax)).
Proof.
  split; [|split].
  - split; [exact fallingBall_hits|].
    exact (proj1 (proj1 (collision_velocity_response Physics.constructor
                           fallingBall unitPin) fallingBall_hits)).
  - split; [exact sideBall_hits|]. split; [exact sideBall_inBand|].
    exact (proj1 (proj1 (proj2 (collision_velocity_response
                                  Physics.constructor sideBall unitCylinder))
                    sideBall_hits sideBall_inBand)).
  - split; [exact landingBall_hits|].
    destruct (proj2 (proj2 (collision_velocity_response Physics.constructor
                              landingBall floorBox))
                floorMin floorMax eq_refl eq_refl landingBall_hits)
      as (result & E & N & _).
    exists result. split; [exact E | exact N].
Defined.

(** With the restitution of the constructor (0.6), a ball that meets a
    static sphere at normal velocity -1 leaves with normal velocity 1/5, not
    [-0.6 * -1 = 3/5]. *)
Lemma collision_velocity_counterexample :
  0 < sphereDistance fallingBall unitPin < radius fallingBall + radius unitPin
  /\ normalPart (velocity fallingBall) (sphereNormal fallingBall unitPin) = -1
  /\ normalPart
       (velocity (fst (Physics.sphereVsSphere Physics.constructor
                         fallingBall unitPin)))
       (sphereNormal fallingBall unitPin) = 1 / 5
  /\ normalPart
       (velocity (fst (Physics.sphereVsSphere Physics.constructor
                         fallingBall unitPin)))
       (sphereNormal fallingBall unitPin)
     <> - restitution Physics.constructor
        * normalPart (velocity fallingBall) (sphereNormal fallingBall unitPin).
Proof.
  assert (Hv : normalPart (velocity fallingBall)
                 (sphereNormal fallingBall unitPin) = -1)
    by (rewrite fallingBall_normal; unfold normalPart, dot3; cbn; lra).
  assert (Hv' : normalPart
       (velocity (fst (Physics.sphereVsSphere Physics.constructor
                         fallingBall unitPin)))
       (sphereNormal fallingBall unitPin) = 1 / 5).
  { rewrite (sphere_hit _ _ _ fallingBall_hits). cbn [fst].
    rewrite (proj1 (respond_normal Physics.constructor fallingBall _ _
                      (sphereNormal_unit _ _ (proj1 fallingBall_hits)))).
    rewrite Hv. cbn. lra. }
  split; [exact fallingBall_hits|]. split; [exact Hv|]. split; [exact Hv'|].
  rewrite Hv', Hv. cbn. lra.
Qed.

(** ** C10: no approaching-contact precondition *)

Lemma respond_any_direction (this : PhysicsFields R) (ball : PhysicsBody R)
    (n : Vec3 R) (depth : R) :
  dot3 n n = 1 -> 0 < depth -> 0 < normalPart (velocity ball) n ->
  let ball' := respond this ball n depth in
  position ball' = plus3 (position ball) (scale3 depth n)
  /\ position ball' <> position ball
  /\ velocity ball'
     = minus3 (velocity ball)
         (scale3 (2 * restitution this * dot3 (velocity ball) n) n)
  /\ (restitution this <> 0 -> velocity ball' <> velocity ball).
Proof.
  intros Hn Hd Hv ball'. subst ball'.
  split; [reflexivity|]. split; [now apply respond_moves|].
  split; [reflexivity|].
  intros He. apply respond_velocity_differs; auto.
  unfold normalPart in Hv. lra.
Qed.

Lemma risingBall_normal : sphereNormal risingBall unitPin = vec3 0 1 0.
Proof. exact fallingBall_normal. Qed.

Lemma leavingBall_normal : cylinderNormal leavingBall unitCylinder = vec3 1 0 0.
Proof. exact sideBall_normal. Qed.

Lemma bouncingBall_normal :
  boxNormal bouncingBall floorMin floorMax = vec3 0 1 0.
Proof. exact landingBall_normal. Qed.

Lemma risingBall_leaves :
  0 < normalPart (velocity risingBall) (sphereNormal risingBall unitPin).
Proof. rewrite risingBall_normal. unfold normalPart, dot3; cbn; lra. Qed.

Lemma leavingBall_leaves :
  0 < normalPart (velocity leavingBall)
        (cylinderNormal leavingBall unitCylinder).
Proof. rewrite leavingBall_normal. unfold normalPart, dot3; cbn; lra. Qed.

Lemma bouncingBall_leaves :
  0 < normalPart (velocity bouncingBall)
        (boxNormal bouncingBall floorMin floorMax).
Proof. rewrite bouncingBall_normal. unfold normalPart, dot3; cbn; lra. Qed.

Section AnyDirection.
Context {T : Type} `{Number T}.
Local Open Scope num_scope.

Lemma sphere_resolves (this : PhysicsFields T) (ball pin : PhysicsBody T) :
  (sphereDistance ball pin <? radius ball + radius pin)
  && (sphereDistance ball pin >? ofZ 0) = true ->
  Physics.sphereVsSphere this ball pin
  = (setVelocity
       (setPosition ball
          (separated (position ball) (sphereNormal ball pin)
             (radius ball + radius pin - sphereDistance ball pin)))
       (reflected this (velocity ball) (sphereNormal ball pin)),
     Physics.callOnCollision ball pin).
Proof.
  intros Hg. unfold Physics.sphereVsSphere.
  change (Math_sqrt _) with (sphereDistance ball pin).
  rewrite Hg. reflexivity.
Qed.

Lemma cylinder_resolves (this : PhysicsFields T)
    (ball cylinder : PhysicsBody T) :
  (cylinderDistance ball cylinder <? radius ball + radius cylinder)
  && ((at1 (position ball) >=? bandLow cylinder)
      && (at1 (position ball) <=? bandHigh cylinder))
  && (cylinderDistance ball cylinder >? ofZ 0) = true ->
  Physics.sphereVsCylinder this ball cylinder
  = (setVelocity
       (setPosition ball
          (separatedXZ (position ball) (cylinderNormal ball cylinder)
             (radius ball + radius cylinder
              - cylinderDistance ball cylinder)))
       (reflectedXZ this (velocity ball) (cylinderNormal ball cylinder)),
     Physics.callOnCollision ball cylinder).
Proof.
  intros Hg. unfold Physics.sphereVsCylinder.
  change (Math_sqrt _) with (cylinderDistance ball cylinder).
  unfold bandLow, bandHigh in Hg. rewrite Hg. reflexivity.
Qed.

Lemma box_resolves (this : PhysicsFields T) (ball box : PhysicsBody T)
    (bmin bmax : Vec3 T) :
  min box = Some bmin -> max box = Some bmax ->
  (boxDistance ball bmin bmax <? radius ball)
  && (boxDistance ball bmin bmax >? ofZ 0) = true ->
  Physics.sphereVsBox this ball box
  = Some (setVelocity
            (setPosition ball
               (separated (position ball) (boxNormal ball bmin bmax)
                  (radius ball - boxDistance ball bmin bmax)))
            (reflected this (velocity ball) (boxNormal ball bmin bmax)),
          Physics.callOnCollision ball box).
Proof.
  intros Hmin Hmax Hg. unfold Physics.sphereVsBox. rewrite Hmin, Hmax.
  change (Math_sqrt _) with (boxDistance ball bmin bmax).
  rewrite Hg. reflexivity.
Qed.
End AnyDirection.

(** C10, as the code has it.  No resolver tests the direction of motion.
    On every number type, a resolver that detects a penetration adds
    [n * overlap] to the position and takes [2 * dot * n * restitution] from
    the velocity and calls the collision callback, whatever the sign of
    [dot].  In exact arithmetic a penetrating ball that is already moving
    away from the obstacle (positive velocity along the contact normal) is
    thereby displaced by the penetration depth along the normal, and its
    velocity is changed as long as the restitution is not zero. *)
Theorem resolvers_ignore_direction :
  (forall (T : Type) (N : Number T) (this : PhysicsFields T)
          (ball obstacle : PhysicsBody T),
      ((sphereDistance ball obstacle <? radius ball + radius obstacle)
       && (sphereDistance ball obstacle >? ofZ 0) = true ->
       Physics.sphereVsSphere this ball obstacle
       = (setVelocity
            (setPosition ball
               (separated (position ball) (sphereNormal ball obstacle)
                  (radius ball + radius obstacle
                   - sphereDistance ball obstacle)))
            (reflected this (velocity ball) (sphereNormal ball obstacle)),
          Physics.callOnCollision ball obstacle))%num
      /\ ((cylinderDistance ball obstacle <? radius ball + radius obstacle)
          && ((at1 (position ball) >=? bandLow obstacle)
              && (at1 (position ball) <=? bandHigh obstacle))
          && (cylinderDistance ball obstacle >? ofZ 0) = true ->
          Physics.sphereVsCylinder this ball obstacle
          = (setVelocity
               (setPosition ball
                  (separatedXZ (position ball)
                     (cylinderNormal ball obstacle)
                     (radius ball + radius obstacle
                      - cylinderDistance ball obstacle)))
               (reflectedXZ this (velocity ball)
                  (cylinderNormal ball obstacle)),
             Physics.callOnCollision ball obstacle))%num
      /\ (forall bmin bmax : Vec3 T,
            min obstacle = Some bmin -> max obstacle = Some bmax ->
            (boxDistance ball bmin bmax <? radius ball)
            && (boxDistance ball bmin bmax >? ofZ 0) = true ->
            Physics.sphereVsBox this ball obstacle
            = Some (setVelocity
                      (setPosition ball
                         (separated (position ball)
                            (boxNormal ball bmin bmax)
                            (radius ball - boxDistance ball bmin bmax)))
                      (reflected this (velocity ball)
                         (boxNormal ball bmin bmax)),
                    Physics.callOnCollision ball obstacle))%num)
  /\ (forall (this : PhysicsFields R) (ball obstacle : PhysicsBody R),
  (0 < sphereDistance ball obstacle < radius ball + radius obstacle ->
   0 < normalPart (velocity ball) (sphereNormal ball obstacle) ->
   let n := sphereNormal ball obstacle in
   let depth := radius ball + radius obstacle - sphereDistance ball obstacle in
   let ball' := fst (Physics.sphereVsSphere this ball obstacle) in
   position ball' = plus3 (position ball) (scale3 depth n)
   /\ position ball' <> position ball
   /\ velocity ball'
      = minus3 (velocity ball)
          (scale3 (2 * restitution this * dot3 (velocity ball) n) n)
   /\ (restitution this <> 0 -> velocity ball' <> velocity ball))
  /\ (0 < cylinderDistance ball obstacle < radius ball + radius obstacle ->
      inBand ball obstacle ->
      0 < normalPart (velocity ball) (cylinderNormal ball obstacle) ->
      let n := cylinderNormal ball obstacle in
      let depth :=
        radius ball + radius obstacle - cylinderDistance ball obstacle in
      let ball' := fst (Physics.sphereVsCylinder this ball obstacle) in
      position ball' = plus3 (position ball) (scale3 depth n)
      /\ position ball' <> position ball
      /\ velocity ball'
         = minus3 (velocity ball)
             (scale3 (2 * restitution this * dot3 (velocity ball) n) n)
      /\ (restitution this <> 0 -> velocity ball' <> velocity ball))
  /\ (forall bmin bmax : Vec3 R,
        min obstacle = Some bmin -> max obstacle = Some bmax ->
        0 < boxDistance ball bmin bmax < radius ball ->
        0 < normalPart (velocity ball) (boxNormal ball bmin bmax) ->
        exists result,
          Physics.sphereVsBox this ball obstacle = Some result
          /\ let n := boxNormal ball bmin bmax in
             let depth := radius ball - boxDistance ball bmin bmax in
             let ball' := fst result in
             position ball' = plus3 (position ball) (scale3 depth n)
             /\ position ball' <> position ball
             /\ velocity ball'
                = minus3 (velocity ball)
                    (scale3 (2 * restitution this * dot3 (velocity ball) n) n)
             /\ (restitution this <> 0 -> velocity ball' <> velocity ball))).
Proof.
  split.
  - intros T N this ball obstacle. split; [|split].
    + apply sphere_resolves.
    + apply cylinder_resolves.
    + apply box_resolves.
  - intros this ball obstacle. split; [|split].
    + intros Hd Hv n depth ball'. subst ball'.
      rewrite (sphere_hit this ball obstacle Hd).
      apply respond_any_direction; [apply sphereNormal_unit| |assumption];
        unfold depth; lra.
    + intros Hd Hb Hv n depth ball'. subst ball'.
      rewrite (cylinder_hit this ball obstacle Hd Hb).
      apply respond_any_direction; [apply cylinderNormal_unit| |assumption];
        unfold depth; lra.
    + intros bmin bmax Hmin Hmax Hd Hv. eexists. split.
      * apply (box_hit this ball obstacle bmin bmax Hmin Hmax Hd).
      * apply respond_any_direction; [apply boxNormal_unit| |assumption]; lra.
Qed.

Lemma resolvers_ignore_direction_witness :
  (0 < normalPart (velocity risingBall) (sphereNormal risingBall unitPin)
   /\ position (fst (Physics.sphereVsSphere Physics.constructor
                       risingBall unitPin))
      <> position risingBall)
  /\ (0 < normalPart (velocity leavingBall)
            (cylinderNormal leavingBall unitCylinder)
      /\ position (fst (Physics.sphereVsCylinder Physics.constructor
                          leavingBall unitCylinder))
         <> position leavingBall)
  /\ (0 < normalPart (velocity bouncingBall)
            (boxNormal bouncingBall floorMin floorMax)
      /\ exists result,
           Physics.sphereVsBox Physics.constructor bouncingBall floorBox
           = Some result
           /\ position (fst result) <> position bouncingBall)
  /\ velocity (fst (Physics.sphereVsCylinder Physics.constructor
                      awayBall64 gamePin64))
     = reflectedXZ Physics.constructor (velocity awayBall64)
         (cylinderNormal awayBall64 gamePin64).
Proof.
  split; [|split; [|split]].
  - split; [exact risingBall_leaves|].
    exact (proj1 (proj2 (proj1 (proj2 resolvers_ignore_direction
                                  Physics.constructor risingBall unitPin)
                           fallingBall_hits risingBall_leaves))).
  - split; [exact leavingBall_leaves|].
    exact (proj1 (proj2 (proj1 (proj2 (proj2 resolvers_ignore_direction
                                         Physics.constructor leavingBall
                                         unitCylinder))
                           sideBall_hits sideBall_inBand leavingBall_leaves))).
  - split; [exact bouncingBall_leaves|].
    destruct (proj2 (proj2 (proj2 resolvers_ignore_direction
                              Physics.constructor bouncingBall floorBox))
                floorMin floorMax eq_refl eq_refl landingBall_hits
                bouncingBall_leaves)
      as (result & E & _ & N & _).
    exists result. split; [exact E | exact N].
  - assert (Hg : ((cylinderDistance awayBall64 gamePin64
                   <? radius awayBall64 + radius gamePin64)
                  && ((at1 (position awayBall64) >=? bandLow gamePin64)
                      && (at1 (position awayBall64) <=? bandHigh gamePin64))
                  && (cylinderDistance awayBall64 gamePin64 >? ofZ 0))%num
                 = true) by (vm_compute; reflexivity).
    rewrite (proj1 (proj2 (proj1 resolvers_ignore_direction float FloatNumber
                             Physics.constructor awayBall64 gamePin64)) Hg).
    reflexivity.
Defined.

(** C10 as stated fails on the numbers of the program: for a pin of the
    game at [x = -2.3] and a ball at [x = -2.5999999999999996] that moves
    away from it, [sphereVsCylinder] detects the penetration (the distance
    0.29999999999999982 is below the sum 0.3 of the radii), changes the
    velocity from -2 to 0.39999999999999991 and calls the callback, but the
    separation is lost in the rounding of the sum: the ball is not
    displaced. *)
Lemma resolvers_ignore_direction_counterexample :
  (PrimFloat.ltb 0 (cylinderDistance awayBall64 gamePin64)
   && PrimFloat.ltb (cylinderDistance awayBall64 gamePin64)
        (radius awayBall64 + radius gamePin64)
   && PrimFloat.leb (bandLow gamePin64) (at1 (position awayBall64))
   && PrimFloat.leb (at1 (position awayBall64)) (bandHigh gamePin64)
   && PrimFloat.ltb 0
        (normalPart (velocity awayBall64)
           (cylinderNormal awayBall64 gamePin64)))%float = true
  /\ position (fst (Physics.sphereVsCylinder Physics.constructor
                      awayBall64 gamePin64))
     = position awayBall64
  /\ velocity awayBall64 = vec3 (-2)%float 0%float 0%float
  /\ velocity (fst (Physics.sphereVsCylinder Physics.constructor
                      awayBall64 gamePin64))
     = vec3 0x1.9999999999998p-2%float 0%float 0%float
  /\ snd (Physics.sphereVsCylinder Physics.constructor awayBall64 gamePin64)
     = [CallOnCollision 1%nat gamePin64].
Proof. vm_compute. repeat split. Qed.

(** ** Configurations that the resolvers skip

    These hold for every instance of the number interface: the hypothesis
    is the outcome of a test of the code. *)

Section Skipped.
Context {T : Type} `{Number T}.
Local Open Scope num_scope.

Lemma sphere_skip (this : PhysicsFields T) (ball pin : PhysicsBody T) :
  (sphereDistance ball pin >? ofZ 0) = false ->
  Physics.sphereVsSphere this ball pin = (ball, []).
Proof.
  intros H0. unfold Physics.sphereVsSphere.
  change (Math_sqrt _) with (sphereDistance ball pin).
  now rewrite H0, andb_false_r.
Qed.

Lemma cylinder_skip (this : PhysicsFields T) (ball cylinder : PhysicsBody T) :
  (cylinderDistance ball cylinder >? ofZ 0) = false ->
  Physics.sphereVsCylinder this ball cylinder = (ball, []).
Proof.
  intros H0. unfold Physics.sphereVsCylinder.
  change (Math_sqrt _) with (cylinderDistance ball cylinder).
  now rewrite H0, andb_false_r.
Qed.

Lemma cylinder_outside_band (this : PhysicsFields T)
    (ball cylinder : PhysicsBody T) :
  (at1 (position ball) >=? bandLow cylinder)
  && (at1 (position ball) <=? bandHigh cylinder) = false ->
  Physics.sphereVsCylinder this ball cylinder = (ball, []).
Proof.
  intros Hb. unfold Physics.sphereVsCylinder.
  change (at1 (position cylinder) - height cylinder / ofZ 2)
    with (bandLow cylinder).
  change (at1 (position cylinder) + height cylinder / ofZ 2)
    with (bandHigh cylinder).
  now rewrite Hb, andb_false_r.
Qed.

Lemma cylinder_keeps_vertical (this : PhysicsFields T)
    (ball cylinder : PhysicsBody T) :
  at1 (velocity (fst (Physics.sphereVsCylinder this ball cylinder)))
  = at1 (velocity ball)
  /\ at1 (position (fst (Physics.sphereVsCylinder this ball cylinder)))
     = at1 (position ball).
Proof.
  unfold Physics.sphereVsCylinder.
  match goal with |- context [if ?c then _ else _] => destruct c end;
    cbn; split; reflexivity.
Qed.

Lemma box_recover (this : PhysicsFields T) (ball box : PhysicsBody T)
    (bmin bmax : Vec3 T) :
  min box = Some bmin -> max box = Some bmax ->
  (boxDistance ball bmin bmax >? ofZ 0) = false ->
  (boxDistance ball bmin bmax =? ofZ 0) = true ->
  Physics.sphereVsBox this ball box = Some (recover this ball, []).
Proof.
  intros Hmin Hmax H0 Hz. unfold Physics.sphereVsBox. rewrite Hmin, Hmax.
  change (Math_sqrt _) with (boxDistance ball bmin bmax).
  now rewrite H0, andb_false_r, Hz.
Qed.


(** A check whose resolver returns the ball as it was leaves every object
    and the record of calls as they were. *)
Lemma collide_skip (s : State T) (body staticBody : ref) :
  Physics.checkCollision (physics s) (heap s body) (heap s staticBody)
  = Some (heap s body, []) ->
  exists s',
    Physics.collide body staticBody s = Some (tt, s')
    /\ (forall r, heap s' r = heap s r)
    /\ calls s' = calls s.
Proof.
  intros E. unfold Physics.collide, bind, get. rewrite E.
  eexists. split; [reflexivity|]. cbn. split; [|reflexivity].
  intros r. unfold update_heap.
  destruct (Nat.eqb r body) eqn:Er; [|reflexivity].
  apply Nat.eqb_eq in Er. now subst r.
Qed.
End Skipped.

(** ** C8: a ball at distance zero *)

Lemma sphere_zero (this : PhysicsFields R) (ball pin : PhysicsBody R) :
  sphereDistance ball pin = 0 ->
  Physics.sphereVsSphere this ball pin = (ball, []).
Proof.
  intros H0. apply sphere_skip. rewrite H0. apply Rltb_false. cbn. lra.
Qed.

Lemma cylinder_zero (this : PhysicsFields R) (ball cylinder : PhysicsBody R) :
  cylinderDistance ball cylinder = 0 ->
  Physics.sphereVsCylinder this ball cylinder = (ball, []).
Proof.
  intros H0. apply cylinder_skip. rewrite H0. apply Rltb_false. cbn. lra.
Qed.

Lemma coincident_sphere (ball pin : PhysicsBody R) :
  position ball = position pin -> sphereDistance ball pin = 0.
Proof.
  intros E. unfold sphereDistance, norm3, dot3, minus3. rewrite E. cbn.
  now sqrt_is 0.
Qed.

Lemma coincident_cylinder (ball cylinder : PhysicsBody R) :
  at0 (position ball) = at0 (position cylinder) ->
  at2 (position ball) = at2 (position cylinder) ->
  cylinderDistance ball cylinder = 0.
Proof.
  intros E0 E2. unfold cylinderDistance. rewrite E0, E2. cbn. now sqrt_is 0.
Qed.

(** C8.  When the distance is zero (the centre of the ball on the centre of
    the sphere, or on the axis of the cylinder), [sphereVsSphere] and
    [sphereVsCylinder] return the ball as it was and call no callback, and in
    the store the check leaves every object and the record of calls
    unchanged; this in exact arithmetic, and on binary64 for a distance that
    [=== 0]. *)
Theorem zero_distance_skipped :
  (forall (this : PhysicsFields R) (ball obstacle : PhysicsBody R),
      (sphereDistance ball obstacle = 0 ->
       Physics.sphereVsSphere this ball obstacle = (ball, []))
      /\ (cylinderDistance ball obstacle = 0 ->
          Physics.sphereVsCylinder this ball obstacle = (ball, []))
      /\ (forall (s : State R) (body staticBody : ref),
            physics s = this -> heap s body = ball ->
            heap s staticBody = obstacle ->
            (type obstacle = "sphere"%string
             /\ sphereDistance ball obstacle = 0)
            \/ (type obstacle = "cylinder"%string
                /\ cylinderDistance ball obstacle = 0) ->
            exists s',
              Physics.collide body staticBody s = Some (tt, s')
              /\ (forall r, heap s' r = heap s r)
              /\ calls s' = calls s))
  /\ (forall (this : PhysicsFields float) (ball obstacle : PhysicsBody float),
        (PrimFloat.eqb (sphereDistance ball obstacle) 0 = true ->
         Physics.sphereVsSphere this ball obstacle = (ball, []))
        /\ (PrimFloat.eqb (cylinderDistance ball obstacle) 0 = true ->
            Physics.sphereVsCylinder this ball obstacle = (ball, []))).
Proof.
  split.
  - intros this ball obstacle.
    split; [apply sphere_zero|]. split; [apply cylinder_zero|].
    intros s body staticBody Hp Hb Hs Hz.
    apply collide_skip. unfold Physics.checkCollision.
    rewrite Hp, Hb, Hs.
    destruct Hz as [[Ht H0] | [Ht H0]]; rewrite Ht;
      cbn [String.eqb Ascii.eqb Bool.eqb].
    + now rewrite sphere_zero.
    + now rewrite cylinder_zero.
  - intros this ball obstacle. split; intros Hz.
    + apply sphere_skip. now apply float_zero_not_positive.
    + apply cylinder_skip. now apply float_zero_not_positive.
Qed.

Lemma zero_distance_skipped_witness :
  (sphereDistance centredBall unitPin = 0
   /\ Physics.sphereVsSphere Physics.constructor centredBall unitPin
      = (centredBall, []))
  /\ (cylinderDistance centredBall unitCylinder = 0
      /\ Physics.sphereVsCylinder Physics.constructor centredBall unitCylinder
         = (centredBall, [])).
Proof.
  assert (H1 : sphereDistance centredBall unitPin = 0)
    by (now apply coincident_sphere).
  assert (H2 : cylinderDistance centredBall unitCylinder = 0)
    by (now apply coincident_cylinder).
  split; split; try assumption.
  - exact (proj1 (proj1 zero_distance_skipped Physics.constructor
                    centredBall unitPin) H1).
  - exact (proj1 (proj2 (proj1 zero_distance_skipped Physics.constructor
                           centredBall unitCylinder)) H2).
Defined.

(** ** C9: a ball whose centre is inside a box *)

Lemma box_inside (this : PhysicsFields R) (ball box : PhysicsBody R)
    (bmin bmax : Vec3 R) :
  min box = Some bmin -> max box = Some bmax ->
  boxDistance ball bmin bmax = 0 ->
  Physics.sphereVsBox this ball box = Some (recover this ball, []).
Proof.
  intros Hmin Hmax H0. apply (box_recover this ball box bmin bmax Hmin Hmax).
  - rewrite H0. apply Rltb_false. cbn. lra.
  - rewrite H0. now apply Reqb_true.
Qed.

(** A centre within the bounds of the box is at distance zero from it. *)
Lemma inside_box_distance (ball : PhysicsBody R) (bmin bmax : Vec3 R) :
  at0 bmin <= at0 (position ball) <= at0 bmax ->
  at1 bmin <= at1 (position ball) <= at1 bmax ->
  at2 bmin <= at2 (position ball) <= at2 bmax ->
  boxDistance ball bmin bmax = 0.
Proof.
  intros H0 H1 H2. unfold boxDistance, closestPoint.
    cbn [Math_max Math_min RNumber].
  rewrite (Rmin_left (at0 (position ball))), (Rmin_left (at1 (position ball))),
    (Rmin_left (at2 (position ball))) by lra.
  rewrite !Rmax_right by lra.
  unfold norm3, dot3, minus3. cbn. now sqrt_is 0.
Qed.




(** ** C6: the cylinder check, the vertical velocity and the height band *)

Lemma highBall_above : bandHigh unitCylinder < at1 (position highBall).
Proof. cbn; lra. Qed.

(** C6.  [sphereVsCylinder] never changes the vertical velocity of the
    ball, whatever its input and whatever the arithmetic; and when the
    height of the ball is outside the band
    [[cylinder.y - h/2, cylinder.y + h/2]] the call returns the ball as it was
    and calls no callback, even if the ball overlaps the circle of the
    cylinder: in exact arithmetic and on binary64. *)
Theorem sphereVsCylinder_frame :
  (forall (T : Type) (N : Number T) (this : PhysicsFields T)
          (ball cylinder : PhysicsBody T),
      at1 (velocity (fst (Physics.sphereVsCylinder this ball cylinder)))
      = at1 (velocity ball))
  /\ (forall (this : PhysicsFields R) (ball cylinder : PhysicsBody R),
        at1 (position ball) < at1 (position cylinder) - height cylinder / 2
        \/ at1 (position cylinder) + height cylinder / 2
           < at1 (position ball) ->
        Physics.sphereVsCylinder this ball cylinder = (ball, []))
  /\ (forall (this : PhysicsFields float) (ball cylinder : PhysicsBody float),
        PrimFloat.ltb (at1 (position ball)) (bandLow cylinder) = true
        \/ PrimFloat.ltb (bandHigh cylinder) (at1 (position ball)) = true ->
        Physics.sphereVsCylinder this ball cylinder = (ball, [])).
Proof.
  split; [|split].
  - intros. apply cylinder_keeps_vertical.
  - intros this ball cylinder Hout. apply cylinder_outside_band.
    unfold bandLow, bandHigh. cbn -[Rleb]. apply andb_false_iff.
    destruct Hout as [Hlow | Hhigh]; [left | right]; apply Rleb_false; lra.
  - intros this ball cylinder Hout. apply cylinder_outside_band.
    apply andb_false_iff.
    destruct Hout as [Hlow | Hhigh]; [left | right];
      now apply float_lt_swap.
Qed.

Lemma sphereVsCylinder_frame_witness :
  cylinderDistance highBall unitCylinder
    < radius highBall + radius unitCylinder
  /\ at1 (position unitCylinder) + height unitCylinder / 2
     < at1 (position highBall)
  /\ Physics.sphereVsCylinder Physics.constructor highBall unitCylinder
     = (highBall, []).
Proof.
  split; [rewrite highBall_distance; cbn; lra|].
  split; [exact highBall_above|].
  exact (proj1 (proj2 sphereVsCylinder_frame) Physics.constructor highBall
           unitCylinder (or_intror highBall_above)).
Defined.

(** ** The clamped step of [Physics.update] *)

(** Below the cap the step is [deltaTime] itself. *)
Lemma update_small_step (deltaTime : R) (s : State R) :
  deltaTime <= 1 / 60 ->
  Physics.update deltaTime s
  = forEach (bodies (physics s)) (Physics.updateBody deltaTime) s.
Proof.
  intros Hdt. unfold Physics.update. cbn [Math_min RNumber ofZ div].
  now rewrite Rmin_left by lra.
Qed.

(** The falling ball after one call with a ten-second frame: one step of
    1/60 of gravity and of motion. *)
Lemma dropState_step :
  exists s',
    Physics.update 10 dropState = Some (tt, s')
    /\ at1 (velocity (heap s' 0%nat)) = -1 + -15 * (1 / 60)
    /\ at1 (position (heap s' 0%nat)) = 1 + (-1 + -15 * (1 / 60)) * (1 / 60).
Proof.
  unfold Physics.update, dropState. cbn -[Rltb Rmin].
  rewrite Rmin_right by lra. cbn -[Rltb].
  unfold Physics.updateBody, Physics.moveBody, Physics.perturb, bind, load, get,
    store, ret. cbn -[Rltb].
  replace (Rltb (1 / 10) (Rabs (-1 + - (15) * (1 / 60)))) with true.
  - rewrite orb_true_r. eexists. split; [reflexivity|]. cbn. split; lra.
  - symmetry. apply Rltb_true. rewrite Rabs_left; lra.
Qed.

(** ** C7: the random perturbation *)

(** The body of the loop of [update]: nothing for a static body; otherwise
    the perturbation comes after integration and collision resolution. *)
Lemma updateBody_static (fixedDelta : R) (body : ref) (s : State R) :
  isStatic (heap s body) = true ->
  Physics.updateBody fixedDelta body s = Some (tt, s).
Proof.
  intros Hs. unfold Physics.updateBody, bind, load. now rewrite Hs.
Qed.

Lemma updateBody_moving (fixedDelta : R) (body : ref) (s s1 : State R) :
  isStatic (heap s body) = false ->
  Physics.moveBody fixedDelta body s = Some (tt, s1) ->
  Physics.updateBody fixedDelta body s = Physics.perturb body s1.
Proof.
  intros Hs Hm. unfold Physics.updateBody, bind, load. rewrite Hs.
  now rewrite Hm.
Qed.

Lemma perturb_fires (body : ref) (s : State R) :
  1 / 10 < Rabs (at0 (velocity (heap s body)))
  \/ 1 / 10 < Rabs (at1 (velocity (heap s body))) ->
  exists s',
    Physics.perturb body s = Some (tt, s')
    /\ heap s' body
       = setVelocity (heap s body)
           (vec3 (at0 (velocity (heap s body))
                  + (entropy s (draws s) - 1 / 2) * (1 / 10))
                 (at1 (velocity (heap s body)))
                 (at2 (velocity (heap s body))))
    /\ draws s' = S (draws s).
Proof.
  intros Hc. unfold Physics.perturb, bind, load.
  cbn -[Rltb].
  replace (Rltb (1 / 10) (Rabs (at0 (velocity (heap s body))))
           || Rltb (1 / 10) (Rabs (at1 (velocity (heap s body)))))%bool
    with true.
  - eexists. split; [reflexivity|]. cbn. split; [|reflexivity].
    rewrite update_heap_same. unfold setVelocity; cbn.
    f_equal. f_equal. lra.
  - symmetry. apply orb_true_iff.
    destruct Hc; [left | right]; now apply Rltb_true.
Qed.

Lemma perturb_skips (body : ref) (s : State R) :
  Rabs (at0 (velocity (heap s body))) <= 1 / 10 ->
  Rabs (at1 (velocity (heap s body))) <= 1 / 10 ->
  Physics.perturb body s = Some (tt, s).
Proof.
  intros H0 H1. unfold Physics.perturb, bind, load.
  cbn -[Rltb].
  replace (Rltb (1 / 10) (Rabs (at0 (velocity (heap s body))))) with false
    by (symmetry; apply Rltb_false; lra).
  replace (Rltb (1 / 10) (Rabs (at1 (velocity (heap s body))))) with false
    by (symmetry; apply Rltb_false; lra).
  reflexivity.
Qed.

(** After integration and collision resolution of a body that is not
    static, the perturbation is added to [v_x] exactly when [|v_x| > 0.1] or
    [|v_y| > 0.1]. *)
Lemma perturb_after_move
    (fixedDelta : R) (body : ref) (s s1 : State R) :
  isStatic (heap s body) = false ->
  Physics.moveBody fixedDelta body s = Some (tt, s1) ->
  let b := heap s1 body in
  let r := entropy s1 (draws s1) in
  exists s',
    Physics.updateBody fixedDelta body s = Some (tt, s')
    /\ (1 / 10 < Rabs (at0 (velocity b)) \/ 1 / 10 < Rabs (at1 (velocity b)) ->
        heap s' body
        = setVelocity b
            (vec3 (at0 (velocity b) + (r - 1 / 2) * (1 / 10))
                  (at1 (velocity b)) (at2 (velocity b)))
        /\ draws s' = S (draws s1)
        /\ (0 <= r < 1 ->
            -1 / 20 <= at0 (velocity (heap s' body)) - at0 (velocity b)
            < 1 / 20))
    /\ (Rabs (at0 (velocity b)) <= 1 / 10 ->
        Rabs (at1 (velocity b)) <= 1 / 10 -> s' = s1).
Proof.
  intros Hs Hm b r.
  rewrite (updateBody_moving fixedDelta body s s1 Hs Hm).
  destruct (Rlt_dec (1 / 10) (Rabs (at0 (velocity b)))) as [H0 | H0];
    [|destruct (Rlt_dec (1 / 10) (Rabs (at1 (velocity b)))) as [H1 | H1]].
  - destruct (perturb_fires body s1 (or_introl H0)) as (s' & E & Hb & Hd).
    exists s'. split; [exact E|]. split.
    + intros _. split; [exact Hb|]. split; [exact Hd|].
      intros Hr. rewrite Hb. cbn. fold b r. lra.
    + intros; lra.
  - destruct (perturb_fires body s1 (or_intror H1)) as (s' & E & Hb & Hd).
    exists s'. split; [exact E|]. split.
    + intros _. split; [exact Hb|]. split; [exact Hd|].
      intros Hr. rewrite Hb. cbn. fold b r. lra.
    + intros; lra.
  - exists s1. split; [apply perturb_skips; fold b; lra|]. split.
    + intros [H | H]; contradiction.
    + reflexivity.
Qed.

(** C7, as the code has it.  In the body of the loop of [update], a static
    body is skipped; for any other body, with [b] its state after integration
    and collision resolution: when [|v_x| > 0.1] or [|v_y| > 0.1] (the
    vertical velocity, not only the horizontal one) one value [r] of
    [Math.random()] is drawn and [(r - 0.5) * 0.1], which lies in
    [[-0.05, 0.05)], is added to [v_x]; when both are at most 0.1 nothing is
    drawn and the state is left as it is. *)
Theorem perturbation_rule (fixedDelta : R) (body : ref) (s : State R) :
  (isStatic (heap s body) = true ->
   Physics.updateBody fixedDelta body s = Some (tt, s))
  /\ (isStatic (heap s body) = false ->
      forall s1 : State R,
        Physics.moveBody fixedDelta body s = Some (tt, s1) ->
        let b := heap s1 body in
        let r := entropy s1 (draws s1) in
        exists s',
          Physics.updateBody fixedDelta body s = Some (tt, s')
          /\ (1 / 10 < Rabs (at0 (velocity b))
              \/ 1 / 10 < Rabs (at1 (velocity b)) ->
              heap s' body
              = setVelocity b
                  (vec3 (at0 (velocity b) + (r - 1 / 2) * (1 / 10))
                        (at1 (velocity b)) (at2 (velocity b)))
              /\ draws s' = S (draws s1)
              /\ (0 <= r < 1 ->
                  -1 / 20 <= at0 (velocity (heap s' body)) - at0 (velocity b)
                  < 1 / 20))
          /\ (Rabs (at0 (velocity b)) <= 1 / 10 ->
              Rabs (at1 (velocity b)) <= 1 / 10 -> s' = s1)).
Proof.
  split.
  - apply updateBody_static.
  - intros Hs s1 Hm. exact (perturb_after_move fixedDelta body s s1 Hs Hm).
Qed.

(** The falling ball of [dropState] after integration (no static body to
    meet): no horizontal velocity, vertical velocity -5/4. *)
Lemma dropState_moved :
  exists s1,
    Physics.moveBody (1 / 60) 0%nat dropState = Some (tt, s1)
    /\ at0 (velocity (heap s1 0%nat)) = 0
    /\ at1 (velocity (heap s1 0%nat)) = -5 / 4
    /\ at2 (velocity (heap s1 0%nat)) = 0
    /\ entropy s1 (draws s1) = 9 / 10.
Proof.
  eexists. split; [unfold Physics.moveBody, dropState; cbn; reflexivity|].
  cbn. repeat split; lra.
Qed.

Lemma perturbation_rule_witness :
  isStatic (heap dropState 0%nat) = false
  /\ exists s1 s',
       Physics.moveBody (1 / 60) 0%nat dropState = Some (tt, s1)
       /\ Physics.updateBody (1 / 60) 0%nat dropState = Some (tt, s')
       /\ draws s' = S (draws s1).
Proof.
  split; [reflexivity|].
  destruct dropState_moved as (s1 & Hm & H0 & H1 & H2 & Hr).
  destruct (proj2 (perturbation_rule (1 / 60) 0%nat dropState) eq_refl s1 Hm)
    as (s' & E & Hfire & _).
  exists s1, s'. split; [exact Hm|]. split; [exact E|].
  apply Hfire. right. rewrite H1. rewrite Rabs_left; lra.
Defined.

(** C7 as stated fails: after integration the falling ball has no horizontal
    velocity at all (so a horizontal speed below any threshold), and [update]
    still adds a perturbation, [(0.9 - 0.5) * 0.1 = 1/25], to its [v_x],
    because its vertical speed is above 0.1. *)
Lemma perturbation_counterexample :
  exists s1 s',
    Physics.moveBody (1 / 60) 0%nat dropState = Some (tt, s1)
    /\ at0 (velocity (heap s1 0%nat)) = 0
    /\ at2 (velocity (heap s1 0%nat)) = 0
    /\ Physics.update (1 / 60) dropState = Some (tt, s')
    /\ at0 (velocity (heap s' 0%nat)) = 1 / 25
    /\ draws s' = 1%nat.
Proof.
  destruct dropState_moved as (s1 & Hm & H0 & H1 & H2 & Hr).
  destruct (perturb_fires 0%nat s1) as (s' & E & Hb & Hd).
  { right. rewrite H1. rewrite Rabs_left; lra. }
  exists s1, s'. split; [exact Hm|]. split; [exact H0|]. split; [exact H2|].
  split.
  - rewrite update_small_step by lra.
    change (bodies (physics dropState)) with [0%nat].
    cbn [forEach]. unfold bind at 1.
    rewrite (updateBody_moving (1 / 60) 0%nat dropState s1 eq_refl Hm), E.
    reflexivity.
  - split.
    + rewrite Hb. cbn. rewrite H0, Hr. lra.
    + rewrite Hd.
      unfold Physics.moveBody, dropState in Hm; cbn in Hm.
      injection Hm as <-. reflexivity.
Qed.

(** ** C3: a ball scores at most once

    The lemmas of this section hold for every instance of the number
    interface: they depend on the control flow only. *)

Section Lifecycle.
Context {T : Type} `{Number T}.
Local Open Scope nat_scope.

Lemma quiet_refl (s : State T) : quiet s s.
Proof. repeat split. Qed.

Lemma quiet_trans (s1 s2 s3 : State T) :
  quiet s1 s2 -> quiet s2 s3 -> quiet s1 s3.
Proof.
  intros (A & B & C) (A' & B' & C'). split; [congruence|]. split; [congruence|].
  intros id. now rewrite C', C.
Qed.

Lemma scoreCount_app id (l1 l2 : list (Call T)) :
  scoreCount id (l1 ++ l2) = scoreCount id l1 + scoreCount id l2.
Proof.
  induction l1 as [|c l1 IH]; [reflexivity|].
  destruct c; cbn; rewrite IH; lia.
Qed.

Lemma forEach_quiet {A} (f : A -> @M T unit) (l : list A) :
  (forall a (s s' : State T), f a s = Some (tt, s') -> quiet s s') ->
  forall s s' : State T, forEach l f s = Some (tt, s') -> quiet s s'.
Proof.
  intros Hf. induction l as [|a l IH]; intros s s' E.
  - cbn in E. injection E as <-. apply quiet_refl.
  - cbn in E. unfold bind in E. destruct (f a s) as [[[] s1]|] eqn:E1;
      [|discriminate].
    eapply quiet_trans; [eapply Hf; eassumption | eapply IH; eassumption].
Qed.

Lemma callOnCollision_quiet id (b o : PhysicsBody T) :
  scoreCount id (Physics.callOnCollision b o) = 0.
Proof. unfold Physics.callOnCollision. now destruct (onCollision b). Qed.

Lemma checkCollision_quiet this (b o b' : PhysicsBody T) cs id :
  Physics.checkCollision this b o = Some (b', cs) -> scoreCount id cs = 0.
Proof.
  unfold Physics.checkCollision, Physics.sphereVsSphere,
    Physics.sphereVsCylinder, Physics.sphereVsBox.
  intros E.
  repeat match type of E with
  | context [if ?c then _ else _] => destruct c
  | context [match ?c with Some _ => _ | None => _ end] => destruct c
  end; try discriminate; injection E as <- <-; try reflexivity;
    apply callOnCollision_quiet.
Qed.

Lemma collide_quiet body staticBody (s s' : State T) :
  Physics.collide body staticBody s = Some (tt, s') -> quiet s s'.
Proof.
  unfold Physics.collide, bind, get. 
  destruct (Physics.checkCollision _ _ _) as [[b' cs]|] eqn:E; [|discriminate].
  cbn. intros [= <-]. cbn. split; [reflexivity|]. split; [reflexivity|].
  intros id. cbn. rewrite scoreCount_app.
    now rewrite (checkCollision_quiet _ _ _ _ _ id E).
Qed.

Lemma perturb_quiet body (s s' : State T) :
  Physics.perturb body s = Some (tt, s') -> quiet s s'.
Proof.
  unfold Physics.perturb, bind, load.
  match goal with |- context [if ?c then _ else _] => destruct c end;
  cbn; intros [= <-]; repeat split.
Qed.

Lemma moveBody_quiet fd body (s s' : State T) :
  Physics.moveBody fd body s = Some (tt, s') -> quiet s s'.
Proof.
  unfold Physics.moveBody, bind, load, get, store. cbn.
  intros E. apply forEach_quiet in E.
  - destruct E as (A & B & C). repeat split; auto.
  - intros a s1 s2. apply collide_quiet.
Qed.

Lemma updateBody_quiet fd body (s s' : State T) :
  Physics.updateBody fd body s = Some (tt, s') -> quiet s s'.
Proof.
  unfold Physics.updateBody, bind, load.
  destruct (isStatic (heap s body)).
  - intros [= <-]. apply quiet_refl.
  - destruct (Physics.moveBody fd body s) as [[[] s1]|] eqn:E; [|discriminate].
    intros E'. eapply quiet_trans; [eapply moveBody_quiet |
      eapply perturb_quiet]; eassumption.
Qed.

Lemma physics_update_quiet dt (s s' : State T) :
  Physics.update dt s = Some (tt, s') -> quiet s s'.
Proof.
  unfold Physics.update, bind, get. apply forEach_quiet.
  intros a s1 s2. apply updateBody_quiet.
Qed.

(** *** Lists of balls *)

Lemma setNth_length {A} i (v : A) l :
  List.length (PachinkoMachine.setNth i v l) = List.length l.
Proof.
  revert i; induction l as [|a l IH]; intros [|i]; cbn; auto.
Qed.

Lemma setNth_map {A B} (f : A -> B) i v a (l : list A) :
  nth_error l i = Some a -> f v = f a ->
  map f (PachinkoMachine.setNth i v l) = map f l.
Proof.
  revert i; induction l as [|x l IH]; intros [|i]; cbn; try discriminate.
  - intros [= ->] ->. reflexivity.
  - intros E Ef. now rewrite (IH i E Ef).
Qed.

Lemma setNth_In {A} i (v : A) l b :
  In b (PachinkoMachine.setNth i v l) -> b = v \/ In b l.
Proof.
  revert i; induction l as [|x l IH]; intros [|i]; cbn; auto.
  - intros [<-|Hin]; auto.
  - intros [<-|Hin]; auto. destruct (IH i Hin); auto.
Qed.

(** With distinct keys, the only element of the updated list with the key
    of the updated place is the new element. *)
Lemma setNth_key {A} (f : A -> nat) i v a (l : list A) b :
  NoDup (map f l) -> nth_error l i = Some a -> f v = f a ->
  In b (PachinkoMachine.setNth i v l) -> f b = f a -> b = v.
Proof.
  revert i; induction l as [|x l IH]; intros [|i]; cbn; try discriminate.
  - intros Hnd [= ->] Hv [<-|Hin] Hb; [reflexivity|].
    inversion Hnd as [|? ? Hnot _]; subst. exfalso. apply Hnot.
    rewrite <- Hb. now apply in_map.
  - intros Hnd E Hv [<-|Hin] Hb.
    + inversion Hnd as [|? ? Hnot _]; subst. exfalso. apply Hnot.
      rewrite Hb. apply in_map. eapply nth_error_In; eassumption.
    + inversion Hnd; subst. eapply IH; eassumption.
Qed.

Lemma splice1_In {A} i (l : list A) b :
  In b (PachinkoMachine.splice1 i l) -> In b l.
Proof.
  revert i; induction l as [|x l IH]; intros [|i]; cbn; auto.
  intros [<-|Hin]; [now left | right; now apply (IH i)].
Qed.

Lemma splice1_length {A} i (l : list A) :
  (i < List.length l)%nat ->
  S (List.length (PachinkoMachine.splice1 i l)) = List.length l.
Proof.
  revert i; induction l as [|x l IH]; intros [|i]; cbn; try lia.
  intros Hi. rewrite IH; lia.
Qed.

Lemma splice1_NoDup {A} (f : A -> nat) i (l : list A) :
  NoDup (map f l) -> NoDup (map f (PachinkoMachine.splice1 i l)).
Proof.
  revert i; induction l as [|x l IH]; intros [|i]; cbn; auto.
  - intros Hnd. now inversion Hnd.
  - intros Hnd. inversion Hnd as [|? ? Hnot Hnd']; subst. constructor.
    + intros Hin. apply Hnot. apply in_map_iff in Hin as (b & Hb & Hin).
      apply in_map_iff. exists b. split; [exact Hb|]. eapply splice1_In;
        eassumption.
    + now apply IH.
Qed.

Lemma quiet_scoredOnce (s s' : State T) :
  quiet s s' -> scoredOnce s -> scoredOnce s'.
Proof.
  intros (Hm & Hn & Hc) (I1 & I2 & I3 & I4). unfold scoredOnce.
  rewrite Hm, Hn. repeat split.
  - exact I1.
  - exact I2.
  - intros id. rewrite Hc. apply I3.
  - rewrite Hc in H0. now apply I4.
  - rewrite Hc in H0. now apply I4.
Qed.

Lemma checkScore_effect i ball (s : State T) :
  exists s',
    PachinkoMachine.checkScore i ball s = Some (tt, s')
    /\ nextBall s' = nextBall s
    /\ ((machine s' = machine s /\ calls s' = calls s)
        \/ (scored ball = false
            /\ balls (machine s')
               = PachinkoMachine.setNth i (markScored ball) (balls (machine s))
            /\ (calls s' = calls s
                \/ exists h pts,
                     calls s' = CallOnScore h (ballId ball) pts :: calls s))).
Proof.
  unfold PachinkoMachine.checkScore, bind, load, get.
  destruct (scored ball) eqn:Es; cbn [negb andb].
  - eexists. split; [reflexivity|]. split; [reflexivity|]. left. split;
      reflexivity.
  - match goal with |- context [if ?c then _ else _] => destruct c end.
    + destruct (PachinkoMachine.firstSlot _ _) as [slot|].
      * destruct (onScore ball) as [h|] eqn:Eh.
        -- eexists. split; [reflexivity|]. split; [reflexivity|]. right.
           split; [reflexivity|]. split; [cbn; unfold markScored;
             now rewrite Eh|].
           right. eexists _, _. reflexivity.
        -- eexists. split; [reflexivity|]. split; [reflexivity|]. right.
           split; [reflexivity|]. split; [cbn; unfold markScored;
             now rewrite Eh|].
           left. reflexivity.
      * eexists. split; [reflexivity|]. split; [reflexivity|]. left. split;
          reflexivity.
    + eexists. split; [reflexivity|]. split; [reflexivity|]. left. split;
        reflexivity.
Qed.

Lemma checkScore_scoredOnce i ball (s s' : State T) :
  nth_error (balls (machine s)) i = Some ball ->
  scoredOnce s ->
  PachinkoMachine.checkScore i ball s = Some (tt, s') ->
  scoredOnce s'
  /\ List.length (balls (machine s')) = List.length (balls (machine s)).
Proof.
  intros Hnth (I1 & I2 & I3 & I4) E.
  destruct (checkScore_effect i ball s) as (s1 & E1 & Hn & Hcase).
  rewrite E in E1. injection E1 as <-.
  assert (Hin : In ball (balls (machine s))) by (eapply nth_error_In;
    eassumption).
  destruct Hcase as [[Hm Hc] | (Hs & Hb & Hc)].
  - split; [|now rewrite Hm]. unfold scoredOnce. rewrite Hm, Hn, Hc. auto.
  - split; [|rewrite Hb; apply setNth_length].
    assert (Hzero : scoreCount (ballId ball) (calls s) = 0%nat).
    { destruct (scoreCount (ballId ball) (calls s)) eqn:Ec; [reflexivity|].
      destruct (I4 (ballId ball)) as [_ Hall]; [lia|].
      rewrite (Hall ball Hin eq_refl) in Hs. discriminate. }
    assert (Hids : map ballId (balls (machine s'))
                   = map ballId (balls (machine s))).
    { rewrite Hb. now apply setNth_map with (a := ball). }
    assert (Hmem : forall b, In b (balls (machine s')) ->
              b = markScored ball
              \/ (In b (balls (machine s)) /\ ballId b <> ballId ball)).
    { intros b Hb'. rewrite Hb in Hb'.
      destruct (Nat.eq_dec (ballId b) (ballId ball)) as [Heq|Hne].
      - left. eapply (setNth_key ballId); try eassumption; reflexivity.
      - right. apply setNth_In in Hb' as [->|Hb']; [exfalso; apply Hne;
          reflexivity | auto]. }
    unfold scoredOnce. rewrite Hids, Hn. split; [exact I1|]. split.
    { intros b Hb'. destruct (Hmem b Hb') as [->|[Hb'' _]];
        [exact (I2 ball Hin) | now apply I2]. }
    assert (Hcount : forall id,
              scoreCount id (calls s') = scoreCount id (calls s)
              \/ (id = ballId ball /\ scoreCount id (calls s') = 1%nat)).
    { intros id. destruct Hc as [-> | (h & pts & ->)]; [now left|].
      cbn. destruct (Nat.eqb (ballId ball) id) eqn:Eid.
      - apply Nat.eqb_eq in Eid. subst id. right. split; [reflexivity|]. lia.
      - left. reflexivity. }
    split.
    { intros id. destruct (Hcount id) as [-> | [_ ->]]; [apply I3 | lia]. }
    intros id Hid.
    destruct (Nat.eq_dec id (ballId ball)) as [->|Hne].
    + split; [now apply I2|]. intros b Hb' Hidb.
      destruct (Hmem b Hb') as [->|[_ Hneq]]; [reflexivity | contradiction].
    + destruct (Hcount id) as [Hsame | [Heq _]]; [|contradiction].
      rewrite Hsame in Hid. destruct (I4 id Hid) as [Hlt Hall].
      split; [exact Hlt|]. intros b Hb' Hidb.
      destruct (Hmem b Hb') as [->|[Hb'' _]]; [reflexivity | now apply Hall].
Qed.

Lemma checkRemove_effect i ball (s : State T) :
  exists s',
    PachinkoMachine.checkRemove i ball s = Some (tt, s')
    /\ nextBall s' = nextBall s /\ calls s' = calls s
    /\ (balls (machine s') = balls (machine s)
        \/ balls (machine s') = PachinkoMachine.splice1 i (balls (machine s))).
Proof.
  unfold PachinkoMachine.checkRemove, bind, load.
  match goal with |- context [if ?c then _ else _] => destruct c end.
  - eexists. split; [reflexivity|]. cbn. auto.
  - eexists. split; [reflexivity|]. cbn. auto.
Qed.

Lemma checkRemove_scoredOnce i ball (s s' : State T) :
  (i < List.length (balls (machine s)))%nat ->
  scoredOnce s ->
  PachinkoMachine.checkRemove i ball s = Some (tt, s') ->
  scoredOnce s' /\ (i <= List.length (balls (machine s')))%nat.
Proof.
  intros Hi (I1 & I2 & I3 & I4) E.
  destruct (checkRemove_effect i ball s) as (s1 & E1 & Hn & Hc & Hcase).
  rewrite E in E1. injection E1 as <-.
  unfold scoredOnce. rewrite Hn, Hc.
  destruct Hcase as [-> | ->].
  - split; [auto | lia].
  - split.
    + split; [now apply splice1_NoDup|]. split.
      { intros b Hb. apply I2. eapply splice1_In; eassumption. }
      split; [exact I3|].
      intros id Hid. destruct (I4 id Hid) as [Hlt Hall]. split; [exact Hlt|].
      intros b Hb. apply Hall. eapply splice1_In; eassumption.
    + pose proof (splice1_length i (balls (machine s)) Hi). lia.
Qed.

Lemma updateBall_scoredOnce i (s s' : State T) :
  (i < List.length (balls (machine s)))%nat ->
  scoredOnce s ->
  PachinkoMachine.updateBall i s = Some (tt, s') ->
  scoredOnce s' /\ (i <= List.length (balls (machine s')))%nat.
Proof.
  intros Hi Hinv. unfold PachinkoMachine.updateBall, bind, get.
  destruct (nth_error (balls (machine s)) i) as [ball|] eqn:Hnth;
    [|discriminate].
  destruct (PachinkoMachine.checkScore i ball s) as [[[] s1]|] eqn:E1;
    [|discriminate].
  intros E2.
  destruct (checkScore_scoredOnce i ball s s1 Hnth Hinv E1) as [Hinv1 Hlen].
  apply (checkRemove_scoredOnce i ball s1 s'); [lia | assumption | assumption].
Qed.

Lemma updateFrom_scoredOnce n : forall (s s' : State T),
  (n <= List.length (balls (machine s)))%nat ->
  scoredOnce s ->
  PachinkoMachine.updateFrom n s = Some (tt, s') ->
  scoredOnce s'.
Proof.
  induction n as [|i IH]; intros s s' Hn Hinv E.
  - cbn in E. injection E as <-. exact Hinv.
  - cbn in E. unfold bind in E.
    destruct (PachinkoMachine.updateBall i s) as [[[] s1]|] eqn:E1;
      [|discriminate].
    destruct (updateBall_scoredOnce i s s1) as [Hinv1 Hlen]; [lia |
      assumption | assumption |].
    apply (IH s1 s'); assumption.
Qed.

Lemma machine_update_scoredOnce dt (s s' : State T) :
  scoredOnce s -> PachinkoMachine.update dt s = Some (tt, s') -> scoredOnce s'.
Proof.
  intros Hinv. unfold PachinkoMachine.update, bind, get.
  apply updateFrom_scoredOnce; [lia | assumption].
Qed.

Lemma launchBall_effect power (s : State T) :
  exists s',
    PachinkoMachine.launchBall power s = Some (nextBall s, s')
    /\ nextBall s' = S (nextBall s) /\ calls s' = calls s
    /\ exists r h,
         balls (machine s')
         = balls (machine s)
           ++ [{| ballId := nextBall s; body := r; scored := false;
                  onScore := h |}].
Proof.
  eexists. split; [unfold PachinkoMachine.launchBall; cbn; reflexivity|].
  cbn. split; [reflexivity|]. split; [reflexivity|]. eexists _, _. reflexivity.
Qed.

Lemma launchBall_scoredOnce power (s s' : State T) id :
  scoredOnce s -> PachinkoMachine.launchBall power s = Some (id, s') ->
  scoredOnce s'.
Proof.
  intros (I1 & I2 & I3 & I4) E.
  destruct (launchBall_effect power s) as (s1 & E1 & Hn & Hc & r & h & Hb).
  rewrite E in E1. injection E1 as _ <-.
  unfold scoredOnce. rewrite Hn, Hc, Hb. split.
  { rewrite map_app. cbn. apply NoDup_app; [exact I1 | repeat constructor;
      easy |].
    intros a Ha [<-|[]].
    apply in_map_iff in Ha as (b & Hid & Hin). apply I2 in Hin. lia. }
  split.
  { intros b Hin. apply in_app_or in Hin as [Hin | [<- | []]];
      [apply I2 in Hin; lia | cbn; lia]. }
  split; [exact I3|].
  intros id' Hid. destruct (I4 id' Hid) as [Hlt Hall]. split; [lia|].
  intros b Hin Hidb. apply in_app_or in Hin as [Hin | [<- | []]];
    [now apply Hall|].
  cbn in Hidb. lia.
Qed.

Lemma setOnScore_scoredOnce id h (s s' : State T) :
  scoredOnce s -> PachinkoMachine.setOnScore id h s = Some (tt, s') ->
  scoredOnce s'.
Proof.
  intros (I1 & I2 & I3 & I4). unfold PachinkoMachine.setOnScore. intros [= <-].
  set (g := fun b : Ball => if Nat.eqb (ballId b) id
                     then {| ballId := ballId b; body := body b;
                             scored := scored b; onScore := h |}
                     else b).
  assert (Hg : forall b, ballId (g b) = ballId b /\ scored (g b) = scored b).
  { intros b. unfold g. destruct (Nat.eqb (ballId b) id); auto. }
  unfold scoredOnce. cbn. fold g. split.
  { rewrite map_map. rewrite (map_ext _ ballId); [exact I1 | apply Hg]. }
  split.
  { intros b Hin. apply in_map_iff in Hin as (b0 & <- & Hin).
    rewrite (proj1 (Hg b0)). now apply I2. }
  split; [exact I3|].
  intros id' Hid. destruct (I4 id' Hid) as [Hlt Hall]. split; [exact Hlt|].
  intros b Hin Hidb. apply in_map_iff in Hin as (b0 & <- & Hin).
  rewrite (proj2 (Hg b0)). apply Hall; [exact Hin|].
    now rewrite <- (proj1 (Hg b0)).
Qed.

Lemma removeBody_quiet r (s s' : State T) :
  Physics.removeBody r s = Some (tt, s') -> quiet s s'.
Proof. unfold Physics.removeBody. intros [= <-]. repeat split. Qed.

Lemma reset_scoredOnce (s s' : State T) :
  scoredOnce s -> PachinkoMachine.reset s = Some (tt, s') -> scoredOnce s'.
Proof.
  intros Hinv. unfold PachinkoMachine.reset, bind, get.
  destruct (forEach _ _ s) as [[[] s1]|] eqn:E; [|discriminate].
  intros [= <-].
  apply forEach_quiet in E; [|intros a s2 s3; apply removeBody_quiet].
  apply (quiet_scoredOnce _ _ E) in Hinv. destruct Hinv as (I1 & I2 & I3 & I4).
  unfold scoredOnce. cbn. split; [constructor|]. split; [easy|]. split;
    [exact I3|].
  intros id Hid. split; [now apply I4 | easy].
Qed.

Lemma perform_scoredOnce (a : Action) (s s' : State T) :
  scoredOnce s -> perform a s = Some (tt, s') -> scoredOnce s'.
Proof.
  intros Hinv. destruct a as [power | id h | dt | dt |]; cbn [perform].
  - unfold bind.
      destruct (PachinkoMachine.launchBall power s) as [[id s1]|] eqn:E;
      [|discriminate].
    intros [= <-]. eapply launchBall_scoredOnce; eassumption.
  - now apply setOnScore_scoredOnce.
  - intros E. apply physics_update_quiet in E. eapply quiet_scoredOnce;
      eassumption.
  - now apply machine_update_scoredOnce.
  - now apply reset_scoredOnce.
Qed.

Lemma run_scoredOnce (l : list Action) : forall (s s' : State T),
  scoredOnce s -> run l s = Some (tt, s') -> scoredOnce s'.
Proof.
  induction l as [|a l IH]; intros s s' Hinv E.
  - cbn in E. injection E as <-. exact Hinv.
  - cbn in E. unfold bind in E.
    destruct (perform a s) as [[[] s1]|] eqn:E1; [|discriminate].
    eapply IH; [eapply perform_scoredOnce|]; eassumption.
Qed.

Lemma fresh_scoredOnce (s : State T) :
  balls (machine s) = [] -> calls s = [] -> scoredOnce s.
Proof.
  intros Hb Hc. unfold scoredOnce. rewrite Hb, Hc. cbn.
  split; [constructor|]. split; [easy|]. split; [lia|]. lia.
Qed.
End Lifecycle.

(** [PachinkoMachine.update] never throws. *)
Section UpdateTotal.
Context {T : Type} `{Number T}.
Local Open Scope nat_scope.

Lemma updateBall_total (i : nat) (s : State T) :
  i < List.length (balls (machine s)) ->
  exists s',
    PachinkoMachine.updateBall i s = Some (tt, s')
    /\ i <= List.length (balls (machine s')).
Proof.
  intros Hi. unfold PachinkoMachine.updateBall, bind, get.
  destruct (nth_error (balls (machine s)) i) as [ball|] eqn:Hnth;
    [|apply nth_error_None in Hnth; lia].
  destruct (checkScore_effect i ball s) as (s1 & E1 & _ & Hcase). rewrite E1.
  assert (Hlen : List.length (balls (machine s1))
                 = List.length (balls (machine s))).
  { destruct Hcase as [[-> _] | (_ & -> & _)];
      [reflexivity | apply setNth_length]. }
  destruct (checkRemove_effect i ball s1) as (s2 & E2 & _ & _ & Hcase2).
  exists s2. split; [exact E2|].
  destruct Hcase2 as [-> | ->]; [lia|].
  pose proof (splice1_length i (balls (machine s1))). lia.
Qed.

Lemma updateFrom_total (n : nat) : forall s : State T,
  n <= List.length (balls (machine s)) ->
  exists s', PachinkoMachine.updateFrom n s = Some (tt, s').
Proof.
  induction n as [|i IH]; intros s Hn.
  - exists s. reflexivity.
  - destruct (updateBall_total i s) as (s1 & E1 & Hlen); [lia|].
    destruct (IH s1 Hlen) as (s' & E').
    exists s'. cbn. unfold bind. now rewrite E1.
Qed.

Lemma machine_update_total (deltaTime : T) (s : State T) :
  exists s', PachinkoMachine.update deltaTime s = Some (tt, s').
Proof.
  unfold PachinkoMachine.update, bind, get. apply updateFrom_total. lia.
Qed.
End UpdateTotal.

(** C3.  From a state with no ball in play and no call made yet (such as
    the board after set-up), over any sequence of launches, assignments of the
    score callback, physics steps, lifecycle updates and resets, the score
    callback is called at most once for each ball: no update calls it again
    for a ball that has scored, however long the ball stays below the scoring
    altitude, and one update calls it at most once per ball.  This holds
    for every instance of the number interface. *)
Theorem score_at_most_once
    (T : Type) (N : Number T) (l : list (@Action T)) (s s' : State T) :
  balls (machine s) = [] -> calls s = [] ->
  run l s = Some (tt, s') ->
  forall id, (scoreCount id (calls s') <= 1)%nat.
Proof.
  intros Hb Hc E.
  apply (run_scoredOnce l s s' (fresh_scoredOnce s Hb Hc) E).
Qed.

(** On binary64, the ball of [game] scores during the first 200 frames. *)
Lemma game_scores :
  option_map (fun r => scoreCount 0 (calls (snd r))) (run (game 200) board)
  = Some 1%nat.
Proof. vm_compute. reflexivity. Qed.

Lemma score_at_most_once_witness :
  balls (machine board) = [] /\ calls board = []
  /\ exists s',
       run (game 200) board = Some (tt, s')
       /\ scoreCount 0 (calls s') = 1%nat
       /\ forall id, (scoreCount id (calls s') <= 1)%nat.
Proof.
  assert (Hb : balls (machine board) = []) by (vm_compute; reflexivity).
  assert (Hc : calls board = []) by (vm_compute; reflexivity).
  split; [exact Hb|]. split; [exact Hc|].
  pose proof game_scores as Hg.
  destruct (run (game 200) board) as [[[] s']|] eqn:E; [|discriminate].
  exists s'. split; [reflexivity|]. split.
  - cbn in Hg. now injection Hg.
  - exact (score_at_most_once float FloatNumber (game 200) board s' Hb Hc E).
Defined.

(** ** C2: the slots of the board *)

(** The bounds of slot [i] of a machine of width [w]. *)
Lemma slot_bounds (w : R) (i : nat) :
  minX (PachinkoMachine.slotAt w i) = - w / 2 + IZR (Z.of_nat i) * (w / 7)
  /\ maxX (PachinkoMachine.slotAt w i)
     = - w / 2 + (IZR (Z.of_nat i) + 1) * (w / 7).
Proof. unfold PachinkoMachine.slotAt. cbn. split; field. Qed.

(** Each slot starts where the one before it ends. *)
Lemma slot_adjacent (w : R) (i : nat) :
  minX (PachinkoMachine.slotAt w (S i)) = maxX (PachinkoMachine.slotAt w i).
Proof.
  rewrite (proj1 (slot_bounds w (S i))), (proj2 (slot_bounds w i)).
  now rewrite Nat2Z.inj_succ, succ_IZR.
Qed.

Lemma createSlots_slots (s : State R) :
  exists s',
    PachinkoMachine.createSlots s = Some (tt, s')
    /\ slots (machine s')
       = slots (machine s)
         ++ map (PachinkoMachine.slotAt (width (machine s)))
              (seq 0 PachinkoMachine.numSlots)
    /\ width (machine s') = width (machine s).
Proof.
  eexists. split.
  - unfold PachinkoMachine.createSlots. cbn. reflexivity.
  - cbn. rewrite <- !app_assoc. cbn. auto.
Qed.

Lemma setup_slots (rnd : nat -> R) :
  exists s',
    setup (initial rnd) = Some (tt, s')
    /\ slots (machine s')
       = map (PachinkoMachine.slotAt 6) (seq 0 PachinkoMachine.numSlots)
    /\ balls (machine s') = [] /\ calls s' = [].
Proof.
  eexists. split.
  - unfold setup. cbn. reflexivity.
  - cbn. auto.
Qed.

Lemma firstSlot_hit (x : R) (s : Slot R) (l : list (Slot R)) :
  minX s <= x <= maxX s -> PachinkoMachine.firstSlot x (s :: l) = Some s.
Proof.
  intros [H0 H1]. cbn -[Rleb]. apply Rleb_true in H0, H1. now rewrite H0, H1.
Qed.

Lemma firstSlot_miss (x : R) (s : Slot R) (l : list (Slot R)) :
  x < minX s \/ maxX s < x ->
  PachinkoMachine.firstSlot x (s :: l) = PachinkoMachine.firstSlot x l.
Proof.
  intros Hout. cbn -[Rleb].
  replace (Rleb (minX s) x && Rleb x (maxX s))%bool with false; [reflexivity|].
  symmetry. apply andb_false_iff.
  destruct Hout; [left | right]; apply Rleb_false; lra.
Qed.

Ltac slot_bounds_in_goal :=
  repeat match goal with
  | |- context [minX (PachinkoMachine.slotAt ?w ?i)] =>
      rewrite (proj1 (slot_bounds w i))
  | |- context [maxX (PachinkoMachine.slotAt ?w ?i)] =>
      rewrite (proj2 (slot_bounds w i))
  end; cbn [Z.of_nat Pos.of_succ_nat Pos.succ].

(** Either [x] is at most the right end of slot [i], which then is the
    first slot to hold it, or the scan passes slot [i]. *)
Ltac scan_slot w x i :=
  let H := fresh "Hscan" in
  destruct (Rle_dec x (maxX (PachinkoMachine.slotAt w i))) as [H | H];
  rewrite (proj2 (slot_bounds w i)) in H;
  cbn [Z.of_nat Pos.of_succ_nat Pos.succ] in H;
  [ exists i; split; [unfold PachinkoMachine.numSlots; lia|]; split;
    [ apply firstSlot_hit; slot_bounds_in_goal; lra
    | try (right; slot_bounds_in_goal; lra) ]
  | rewrite firstSlot_miss by (slot_bounds_in_goal; lra) ].

Lemma firstSlot_layout (w x : R) :
  0 < w -> - w / 2 <= x <= w / 2 ->
  exists i,
    (i < PachinkoMachine.numSlots)%nat
    /\ PachinkoMachine.firstSlot x
         (map (PachinkoMachine.slotAt w) (seq 0 PachinkoMachine.numSlots))
       = Some (PachinkoMachine.slotAt w i)
    /\ ((i = 0%nat /\ x = - w / 2)
        \/ minX (PachinkoMachine.slotAt w i) < x
           <= maxX (PachinkoMachine.slotAt w i)).
Proof.
  intros Hw Hx. cbn [PachinkoMachine.numSlots seq map].
  scan_slot w x 0%nat.
  { destruct (Req_dec_T x (- w / 2)); [left; auto | right].
    slot_bounds_in_goal. lra. }
  scan_slot w x 1%nat. scan_slot w x 2%nat. scan_slot w x 3%nat.
  scan_slot w x 4%nat. scan_slot w x 5%nat. scan_slot w x 6%nat.
  exfalso. lra.
Qed.

Lemma firstSlot_outside (w x : R) :
  0 < w -> x < - w / 2 \/ w / 2 < x ->
  PachinkoMachine.firstSlot x
    (map (PachinkoMachine.slotAt w) (seq 0 PachinkoMachine.numSlots))
  = None.
Proof.
  intros Hw Hx. cbn [PachinkoMachine.numSlots seq map].
  rewrite !firstSlot_miss by (slot_bounds_in_goal; lra).
  reflexivity.
Qed.

(** A point of two half-open slots is in one slot: the slots do not overlap. *)
Lemma half_open_disjoint (w x : R) (i j : nat) :
  0 < w ->
  minX (PachinkoMachine.slotAt w i) <= x < maxX (PachinkoMachine.slotAt w i) ->
  minX (PachinkoMachine.slotAt w j) <= x < maxX (PachinkoMachine.slotAt w j) ->
  j = i.
Proof.
  intros Hw. rewrite !(proj1 (slot_bounds w _)), !(proj2 (slot_bounds w _)).
  intros Hi Hj.
  assert (Hs : 0 < w / 7) by lra.
  assert (H1 : IZR (Z.of_nat i) < IZR (Z.of_nat j) + 1) by nra.
  assert (H2 : IZR (Z.of_nat j) < IZR (Z.of_nat i) + 1) by nra.
  rewrite <- plus_IZR in H1, H2. apply lt_IZR in H1, H2. lia.
Qed.

Lemma half_open_partition (w x : R) :
  0 < w -> - w / 2 <= x < w / 2 ->
  exists i,
    (i < PachinkoMachine.numSlots)%nat
    /\ minX (PachinkoMachine.slotAt w i) <= x
       < maxX (PachinkoMachine.slotAt w i)
    /\ forall j, (j < PachinkoMachine.numSlots)%nat ->
         minX (PachinkoMachine.slotAt w j) <= x
         < maxX (PachinkoMachine.slotAt w j) ->
         j = i.
Proof.
  intros Hw Hx.
  destruct (firstSlot_layout w x Hw) as (i & Hi & _ & Hin); [lra|].
  assert (Hex : exists k, (k < PachinkoMachine.numSlots)%nat
            /\ minX (PachinkoMachine.slotAt w k) <= x
               < maxX (PachinkoMachine.slotAt w k)).
  { destruct Hin as [[-> Hx0] | Hin].
    - exists 0%nat. split; [exact Hi|]. slot_bounds_in_goal. lra.
    - destruct (Rlt_dec x (maxX (PachinkoMachine.slotAt w i))) as [Hlt | Hge].
      + exists i. split; [exact Hi|]. lra.
      + assert (Hx' : x = maxX (PachinkoMachine.slotAt w i)) by lra.
        exists (S i). rewrite slot_adjacent.
        assert (Hi' : (S i < PachinkoMachine.numSlots)%nat).
        { destruct (Nat.eq_dec i 6) as [-> | Hne];
            [|unfold PachinkoMachine.numSlots in *; lia].
          exfalso. revert Hx'. slot_bounds_in_goal. lra. }
        split; [exact Hi'|]. split; [lra|].
        rewrite (proj2 (slot_bounds w (S i))), Nat2Z.inj_succ, succ_IZR.
        rewrite Hx', (proj2 (slot_bounds w i)). lra. }
  destruct Hex as (k & Hk & Hkx). exists k. split; [exact Hk|].
  split; [exact Hkx|].
  intros j _ Hjx. exact (half_open_disjoint w x k j Hw Hkx Hjx).
Qed.

(** The scoring check calls the score callback with the points of the first
    slot whose closed range holds the ball. *)
Lemma checkScore_fires (i : nat) (ball : Ball) (s : State R) (slot : Slot R)
    (h : handler) :
  scored ball = false -> onScore ball = Some h ->
  at1 (position (heap s (body ball))) < 1 / 2 ->
  PachinkoMachine.firstSlot (at0 (position (heap s (body ball))))
    (slots (machine s)) = Some slot ->
  exists s',
    PachinkoMachine.checkScore i ball s = Some (tt, s')
    /\ calls s' = CallOnScore h (ballId ball) (points slot) :: calls s.
Proof.
  intros Hs Hh Hy Hslot. unfold PachinkoMachine.checkScore, bind, load, get.
  rewrite Hs. cbn -[Rltb].
  replace (Rltb (at1 (position (heap s (body ball)))) (5 / 10)) with true
    by (symmetry; apply Rltb_true; lra).
  rewrite Hslot, Hh. eexists. split; reflexivity.
Qed.

Section FirstMatch.
Context {T : Type} `{Number T}.
Local Open Scope num_scope.

(** The scan stops at the first slot whose closed range holds [x]. *)
Lemma firstSlot_first (x : T) (l : list (Slot T)) :
  match PachinkoMachine.firstSlot x l with
  | Some slot =>
      exists l1 l2,
        l = l1 ++ slot :: l2 /\ inClosedRange x slot = true
        /\ forall s, In s l1 -> inClosedRange x s = false
  | None => forall s, In s l -> inClosedRange x s = false
  end.
Proof.
  induction l as [|a l IH]; [intros s []|].
  cbn [PachinkoMachine.firstSlot].
  fold (inClosedRange x a). destruct (inClosedRange x a) eqn:Ea.
  - exists [], l. split; [reflexivity|]. split; [exact Ea|]. intros s [].
  - destruct (PachinkoMachine.firstSlot x l) as [slot|].
    + destruct IH as (l1 & l2 & -> & Hs & Hl1).
      exists (a :: l1), l2. split; [reflexivity|]. split; [exact Hs|].
      intros s [<-|Hin]; [exact Ea | now apply Hl1].
    + intros s [<-|Hin]; [exact Ea | now apply IH].
Qed.

(** The scoring check of a ball that has not scored, below the scoring
    height: the ball scores for the slot that the scan finds, if any. *)
Lemma checkScore_first (i : nat) (ball : Ball) (s : State T) :
  scored ball = false ->
  (at1 (position (heap s (body ball))) <? dec 5 10) = true ->
  match
    PachinkoMachine.firstSlot (at0 (position (heap s (body ball))))
      (slots (machine s))
  with
  | Some slot =>
      exists s',
        PachinkoMachine.checkScore i ball s = Some (tt, s')
        /\ calls s'
           = match onScore ball with
             | Some h => [CallOnScore h (ballId ball) (points slot)]
             | None => []
             end ++ calls s
  | None => PachinkoMachine.checkScore i ball s = Some (tt, s)
  end.
Proof.
  intros Hs Hy. unfold PachinkoMachine.checkScore, bind, load, get.
  rewrite Hs, Hy. cbn [negb andb].
  destruct (PachinkoMachine.firstSlot _ _) as [slot|]; [|reflexivity].
  destruct (onScore ball); eexists; split; reflexivity.
Qed.
End FirstMatch.

(** C2, as the code has it.  On every number type the slot used for
    scoring is the first slot, in order, whose closed range [[minX, maxX]]
    holds [x], and an unscored ball below the scoring height scores for that
    slot, or for no slot when no closed range holds [x].  In exact
    arithmetic, for the slots that [createSlots] records on a machine of
    width [w]: every [x] with [-w/2 <= x < w/2] lies in exactly one
    half-open range [[minX, maxX)]; the slot used for scoring an [x] in
    [[-w/2, w/2]] is the slot with [minX < x <= maxX] (the first slot for
    [x = -w/2]), and an unscored ball at [x] below the scoring height gets
    the points of that slot; outside [[-w/2, w/2]] no slot is found. *)
Theorem slot_partition :
  (forall (T : Type) (N : Number T) (x : T) (l : list (Slot T)),
      match PachinkoMachine.firstSlot x l with
      | Some slot =>
          exists l1 l2,
            l = l1 ++ slot :: l2 /\ inClosedRange x slot = true
            /\ forall s, In s l1 -> inClosedRange x s = false
      | None => forall s, In s l -> inClosedRange x s = false
      end)
  /\ (forall (T : Type) (N : Number T) (i : nat) (ball : Ball)
             (s : State T),
        scored ball = false ->
        (at1 (position (heap s (body ball))) <? dec 5 10)%num = true ->
        match
          PachinkoMachine.firstSlot (at0 (position (heap s (body ball))))
            (slots (machine s))
        with
        | Some slot =>
            exists s',
              PachinkoMachine.checkScore i ball s = Some (tt, s')
              /\ calls s'
                 = match onScore ball with
                   | Some h => [CallOnScore h (ballId ball) (points slot)]
                   | None => []
                   end ++ calls s
        | None => PachinkoMachine.checkScore i ball s = Some (tt, s)
        end)
  /\ (forall (w x : R) (s : State R),
  0 < w -> width (machine s) = w -> slots (machine s) = [] ->
  exists s',
    PachinkoMachine.createSlots s = Some (tt, s')
    /\ slots (machine s')
       = map (PachinkoMachine.slotAt w) (seq 0 PachinkoMachine.numSlots)
    /\ (- w / 2 <= x < w / 2 ->
        exists i,
          (i < PachinkoMachine.numSlots)%nat
          /\ minX (PachinkoMachine.slotAt w i) <= x
             < maxX (PachinkoMachine.slotAt w i)
          /\ forall j, (j < PachinkoMachine.numSlots)%nat ->
               minX (PachinkoMachine.slotAt w j) <= x
               < maxX (PachinkoMachine.slotAt w j) ->
               j = i)
    /\ (- w / 2 <= x <= w / 2 ->
        exists i,
          (i < PachinkoMachine.numSlots)%nat
          /\ PachinkoMachine.firstSlot x (slots (machine s'))
             = Some (PachinkoMachine.slotAt w i)
          /\ ((i = 0%nat /\ x = - w / 2)
              \/ minX (PachinkoMachine.slotAt w i) < x
                 <= maxX (PachinkoMachine.slotAt w i))
          /\ forall (s1 : State R) (k : nat) (ball : Ball) (h : handler),
               slots (machine s1) = slots (machine s') ->
               scored ball = false -> onScore ball = Some h ->
               at1 (position (heap s1 (body ball))) < 1 / 2 ->
               at0 (position (heap s1 (body ball))) = x ->
               exists s2,
                 PachinkoMachine.checkScore k ball s1 = Some (tt, s2)
                 /\ calls s2
                    = CallOnScore h (ballId ball)
                        (points (PachinkoMachine.slotAt w i)) :: calls s1)
    /\ (x < - w / 2 \/ w / 2 < x ->
        PachinkoMachine.firstSlot x (slots (machine s')) = None)).
Proof.
  split; [|split].
  - intros T N x l. apply firstSlot_first.
  - intros T N i ball s. apply checkScore_first.
  - intros w x s Hw Hwidth Hempty.
    destruct (createSlots_slots s) as (s' & E & Hslots & _).
    rewrite Hempty, Hwidth in Hslots. cbn [app] in Hslots.
    exists s'. split; [exact E|]. split; [exact Hslots|]. rewrite Hslots.
    split; [now apply half_open_partition|]. split.
    + intros Hx.
      destruct (firstSlot_layout w x Hw Hx) as (i & Hi & Hfirst & Hin).
      exists i. split; [exact Hi|]. split; [exact Hfirst|].
      split; [exact Hin|].
      intros s1 k ball h Hs1 Hsc Hh Hy Hx1.
      apply checkScore_fires; try assumption.
      now rewrite Hx1, Hs1.
    + now apply firstSlot_outside.
Qed.

Lemma slot_partition_witness :
  0 < 6 /\ width (machine (initial (fun _ => 1 / 2))) = 6
  /\ slots (machine (initial (fun _ : nat => 1 / 2))) = []
  /\ exists s',
       PachinkoMachine.createSlots (initial (fun _ => 1 / 2)) = Some (tt, s')
       /\ exists i,
            (i < PachinkoMachine.numSlots)%nat
            /\ PachinkoMachine.firstSlot 0 (slots (machine s'))
               = Some (PachinkoMachine.slotAt 6 i).
Proof.
  assert (H6 : 0 < 6) by lra.
  assert (Hw : width (machine (initial (fun _ : nat => 1 / 2))) = 6)
    by reflexivity.
  assert (He : slots (machine (initial (fun _ : nat => 1 / 2))) = [])
    by reflexivity.
  split; [exact H6|]. split; [exact Hw|]. split; [exact He|].
  destruct (proj2 (proj2 slot_partition) 6 0 (initial (fun _ => 1 / 2))
              H6 Hw He)
    as (s' & E & _ & _ & Hclosed & _).
  exists s'. split; [exact E|].
  destruct Hclosed as (i & Hi & Hfirst & _); [lra|].
  exists i. split; [exact Hi | exact Hfirst].
Defined.

(** C2 as stated fails on the board that the program builds (binary64,
    width 6).  At [x = 1.2857142857142854], the bound that the fifth and the
    sixth slot share, [x] is in the half-open range of the sixth slot (50
    points) and of no other, yet the ball scores for the fifth slot (100
    points), whose closed range ends at [x].  Moreover the bounds as rounded
    do not tile the span: [x = 0.42857142857142816] is in no range and scores
    for no slot, and [x = -1.285714285714286] is in the half-open ranges of
    the second and of the third slot. *)
Lemma slot_partition_counterexample :
  map (fun slot => (minX slot, maxX slot, points slot))
    (slots (machine board))
  = [((-3)%float, (-0x1.124924924924ap+1)%float, 10%Z);
     ((-0x1.1249249249249p+1)%float, (-0x1.4924924924925p+0)%float, 50%Z);
     ((-0x1.4924924924926p+0)%float, (-0x1.b6db6db6db6e1p-2)%float, 100%Z);
     ((-0x1.b6db6db6db6e3p-2)%float, 0x1.b6db6db6db6d3p-2%float, 500%Z);
     (0x1.b6db6db6db6d5p-2%float, 0x1.4924924924923p+0%float, 100%Z);
     (0x1.4924924924923p+0%float, 0x1.1249249249248p+1%float, 50%Z);
     (0x1.1249249249248p+1%float, 0x1.7fffffffffffep+1%float, 10%Z)]
  /\ map (fun x =>
            (PrimFloat.leb (-3) x && PrimFloat.ltb x 3,
             map (inHalfOpenRange x) (slots (machine board)),
             option_map (@points float)
               (PachinkoMachine.firstSlot x (slots (machine board)))))
       [0x1.4924924924923p+0%float; 0x1.b6db6db6db6d4p-2%float;
        (-0x1.4924924924926p+0)%float]
     = [(true, [false; false; false; false; false; true; false],
         Some 100%Z);
        (true, [false; false; false; false; false; false; false], None);
        (true, [false; true; true; false; false; false; false],
         Some 50%Z)].
Proof. vm_compute. split; reflexivity. Qed.

(** In exact arithmetic, on the board of width 6, [x = -15/7] is in the
    half-open range of the second slot (50 points) and not in that of the
    first, yet the scan finds the first slot (10 points), whose closed range
    ends at [x]. *)
Lemma shared_bound_exact :
  exists s',
    setup (initial (fun _ => 1 / 2)) = Some (tt, s')
    /\ - width (machine s') / 2 <= -15 / 7 < width (machine s') / 2
    /\ nth_error (slots (machine s')) 0 = Some (PachinkoMachine.slotAt 6 0)
    /\ nth_error (slots (machine s')) 1 = Some (PachinkoMachine.slotAt 6 1)
    /\ minX (PachinkoMachine.slotAt 6 1) <= -15 / 7
       < maxX (PachinkoMachine.slotAt 6 1)
    /\ ~ (minX (PachinkoMachine.slotAt 6 0) <= -15 / 7
          < maxX (PachinkoMachine.slotAt 6 0))
    /\ PachinkoMachine.firstSlot (-15 / 7) (slots (machine s'))
       = Some (PachinkoMachine.slotAt 6 0)
    /\ points (PachinkoMachine.slotAt 6 0) = 10%Z
    /\ points (PachinkoMachine.slotAt 6 1) = 50%Z.
Proof.
  eexists. split; [unfold setup; cbn; reflexivity|].
  cbn [machine slots width setMachine PachinkoMachine.setSlots
       PachinkoMachine.constructor initial].
  split; [cbn; lra|]. split; [reflexivity|]. split; [reflexivity|].
  split; [slot_bounds_in_goal; lra|].
  split; [slot_bounds_in_goal; lra|].
  split; [|split; reflexivity].
  cbn [app]. apply firstSlot_hit. slot_bounds_in_goal. lra.
Qed.

(** On binary64 the recorded bounds have gaps: the double between the right
    end of the fourth slot and the left end of the fifth, and 3 itself, are
    inside the board and in no slot, closed or half-open. *)
Lemma board_slot_gaps :
  map (fun x =>
         (PrimFloat.leb (-3) x && PrimFloat.leb x 3,
          option_map (@points float)
            (PachinkoMachine.firstSlot x (slots (machine board)))))
      [0x1.b6db6db6db6d4p-2%float; 3%float]
  = [(true, None); (true, None)].
Proof. vm_compute. reflexivity. Qed.


(** ** Runs on binary64

    The counterexamples above, run on the numbers of the program. *)

(** The falling ball leaves the static sphere with the normal velocity
    0.19999999999999996, not 0.6. *)
Lemma binary64_reflection :
  velocity (fst (Physics.sphereVsSphere Physics.constructor
                   fallingBall64 unitPin64))
  = vec3 0%float 0x1.9999999999998p-3%float 0%float
  /\ position (fst (Physics.sphereVsSphere Physics.constructor
                      fallingBall64 unitPin64))
     = vec3 0%float 1.5%float 0%float
  /\ PrimFloat.eqb 0x1.9999999999998p-3 (dec 6 10) = false.
Proof. vm_compute. repeat split. Qed.

(** The falling ball, with no horizontal velocity after integration, is
    perturbed by [update]. *)
Lemma binary64_perturbation :
  option_map (fun r => velocity (heap (snd r) 0%nat))
    (Physics.moveBody (dec 1 60) 0%nat dropState64)
  = Some (vec3 0%float (-1.25)%float 0%float)
  /\ option_map (fun r => (velocity (heap (snd r) 0%nat), draws (snd r)))
       (Physics.update (dec 1 60) dropState64)
     = Some (vec3 0x1.47ae147ae147cp-5%float (-1.25)%float 0%float, 1%nat).
Proof. vm_compute. split; reflexivity. Qed.

(** A ball inside the floor with no vertical velocity is raised and keeps a
    vertical velocity of zero. *)
Lemma binary64_containment :
  option_map (fun r => (position (fst r), velocity (fst r)))
    (Physics.sphereVsBox Physics.constructor restingBall64 floorBox64)
  = Some (vec3 0%float 0%float 0%float, vec3 1%float 0%float 0%float).
Proof. vm_compute. reflexivity. Qed.

(** ** C1: the restitution of a resolved collision *)

(** C1.  The resolvers do not leave the normal velocity
    [-restitution * v_n].  On binary64, with the restitution of the
    constructor (0.6, its bounce factor), a ball of the game that meets a
    pin of the game at the normal velocity -2 leaves it at the normal
    velocity 0.39999999999999991, that is [(1 - 2 * 0.6) * -2] in absolute
    value, where [restitution * 2] is 1.2.  In exact arithmetic the falling
    ball meets the static sphere with the normal velocity -1 and leaves it
    with the normal velocity 1/5, where [-restitution * v_n] is 3/5; on
    binary64 the velocity after that call is 0.19999999999999996.  The other
    path of [sphereVsBox], for a centre inside the box, does keep the
    fraction [restitution] of the speed: the ball that sinks at the vertical
    velocity -2 leaves with [|-2| * 0.6 = 6/5]. *)
Theorem collision_velocity_divergence :
  (PrimFloat.ltb 0 (cylinderDistance towardBall64 gamePin64)
   && PrimFloat.ltb (cylinderDistance towardBall64 gamePin64)
        (PrimFloat.add (radius towardBall64) (radius gamePin64))
   && PrimFloat.leb (bandLow gamePin64) (at1 (position towardBall64))
   && PrimFloat.leb (at1 (position towardBall64)) (bandHigh gamePin64)
   = true
   /\ cylinderNormal towardBall64 gamePin64
      = vec3 (-1)%float 0%float 0%float
   /\ velocity towardBall64 = vec3 2%float 0%float 0%float
   /\ velocity (fst (Physics.sphereVsCylinder Physics.constructor
                       towardBall64 gamePin64))
      = vec3 (-0x1.9999999999998p-2)%float 0%float 0%float
   /\ PrimFloat.mul (restitution Physics.constructor) 2
      = 0x1.3333333333333p+0%float)
  /\ (0 < sphereDistance fallingBall unitPin
        < radius fallingBall + radius unitPin
      /\ normalPart (velocity fallingBall) (sphereNormal fallingBall unitPin)
         = -1
      /\ normalPart
           (velocity (fst (Physics.sphereVsSphere Physics.constructor
                             fallingBall unitPin)))
           (sphereNormal fallingBall unitPin) = 1 / 5
      /\ - restitution Physics.constructor
         * normalPart (velocity fallingBall)
             (sphereNormal fallingBall unitPin)
         = 3 / 5)
  /\ (velocity (fst (Physics.sphereVsSphere Physics.constructor
                       fallingBall64 unitPin64))
      = vec3 0%float 0x1.9999999999998p-3%float 0%float
      /\ PrimFloat.eqb 0x1.9999999999998p-3 (dec 6 10) = false)
  /\ (at1 (velocity sunkBall) = -2
      /\ option_map (fun r => at1 (velocity (fst r)))
           (Physics.sphereVsBox Physics.constructor sunkBall floorBox)
         = Some (6 / 5)).
Proof.
  split; [|split; [|split]].
  - vm_compute. repeat split.
  - destruct collision_velocity_counterexample as (Hd & Hv & Hv' & _).
    split; [exact Hd|]. split; [exact Hv|]. split; [exact Hv'|].
    rewrite Hv. cbn. lra.
  - destruct binary64_reflection as (V & _ & E). split; assumption.
  - split; [reflexivity|].
    rewrite (box_inside Physics.constructor sunkBall floorBox floorMin
               floorMax eq_refl eq_refl sunkBall_distance).
    cbn [option_map fst recover velocity setVelocity setPosition at1].
    f_equal. cbn. rewrite Rabs_left by lra. lra.
Qed.

Section Frame.
Context {T : Type} `{Number T}.
Local Open Scope nat_scope.

Lemma sameShape_refl (b : PhysicsBody T) : sameShape b b.
Proof. repeat split. Qed.

Lemma sameShape_trans (b1 b2 b3 : PhysicsBody T) :
  sameShape b1 b2 -> sameShape b2 b3 -> sameShape b1 b3.
Proof.
  unfold sameShape. intros (A1 & A2 & A3 & A4 & A5 & A6 & A7 & A8)
    (B1 & B2 & B3 & B4 & B5 & B6 & B7 & B8).
  repeat split; congruence.
Qed.

Lemma sameShape_boxOk (b b' : PhysicsBody T) :
  sameShape b b' -> boxOk b' = boxOk b.
Proof.
  intros (_ & _ & _ & Ht & _ & Hmin & Hmax & _).
  unfold boxOk, hasCorners. now rewrite Ht, Hmin, Hmax.
Qed.

Lemma physFrame_refl (s : State T) : physFrame s s.
Proof. repeat split. Qed.

Lemma physFrame_trans (s1 s2 s3 : State T) :
  physFrame s1 s2 -> physFrame s2 s3 -> physFrame s1 s3.
Proof.
  intros (A1 & A2 & A3 & A4 & A5 & A6) (B1 & B2 & B3 & B4 & B5 & B6).
  unfold physFrame. repeat split; try congruence;
    apply (sameShape_trans _ _ _ (A6 r) (B6 r)).
Qed.

Lemma heap_at_same (h : ref -> PhysicsBody T) (r : ref) (b : PhysicsBody T) :
  update_heap h r b r = b.
Proof. unfold update_heap. now rewrite Nat.eqb_refl. Qed.

Lemma heap_at_other (h : ref -> PhysicsBody T) (r r' : ref)
    (b : PhysicsBody T) :
  r' <> r -> update_heap h r b r' = h r'.
Proof.
  intros Hne. unfold update_heap.
  destruct (Nat.eqb r' r) eqn:E; [apply Nat.eqb_eq in E; contradiction|].
  reflexivity.
Qed.

(** A store that keeps the shape of the object. *)
Lemma store_frame (body : ref) (b : PhysicsBody T) (s s' : State T) :
  sameShape (heap s body) b ->
  store body b s = Some (tt, s') ->
  physFrame s s' /\ calls s' = calls s /\ draws s' = draws s
  /\ heap s' body = b
  /\ forall r, r <> body -> heap s' r = heap s r.
Proof.
  intros Hb [= <-]. cbn. split; [|split; [reflexivity|split; [reflexivity|]]].
  - unfold physFrame. cbn. repeat split; try reflexivity;
      unfold update_heap; destruct (Nat.eqb r body) eqn:E;
      try reflexivity; apply Nat.eqb_eq in E; subst r; apply Hb.
  - split; [apply heap_at_same|]. intros r Hr. now apply heap_at_other.
Qed.

Lemma checkCollision_shape this (b o b' : PhysicsBody T) cs :
  Physics.checkCollision this b o = Some (b', cs) -> sameShape b b'.
Proof.
  unfold Physics.checkCollision, Physics.sphereVsSphere,
    Physics.sphereVsCylinder, Physics.sphereVsBox.
  intros E.
  repeat match type of E with
  | context [if ?c then _ else _] => destruct c
  | context [match ?c with Some _ => _ | None => _ end] => destruct c
  end; try discriminate; injection E as <- <-; repeat split.
Qed.

Lemma collide_frame body staticBody (s s' : State T) :
  Physics.collide body staticBody s = Some (tt, s') ->
  physFrame s s' /\ draws s' = draws s
  /\ forall r, r <> body -> heap s' r = heap s r.
Proof.
  unfold Physics.collide, bind, get.
  destruct (Physics.checkCollision _ _ _) as [[b' cs]|] eqn:E; [|discriminate].
  apply checkCollision_shape in E.
  cbn. intros [= <-]. cbn. split; [|split; [reflexivity|]].
  - unfold physFrame. cbn. repeat split; try reflexivity;
      unfold update_heap; destruct (Nat.eqb r body) eqn:Er;
      try reflexivity; apply Nat.eqb_eq in Er; subst r; apply E.
  - intros r Hr. now apply heap_at_other.
Qed.

Lemma forEach_collide_frame body l : forall (s s' : State T),
  forEach l (Physics.collide body) s = Some (tt, s') ->
  physFrame s s' /\ draws s' = draws s
  /\ forall r, r <> body -> heap s' r = heap s r.
Proof.
  induction l as [|a l IH]; intros s s' E.
  - cbn in E. injection E as <-. split; [apply physFrame_refl|]. auto.
  - cbn in E. unfold bind in E.
    destruct (Physics.collide body a s) as [[[] s1]|] eqn:E1; [|discriminate].
    apply collide_frame in E1 as (F1 & D1 & O1).
    apply IH in E as (F2 & D2 & O2).
    split; [eapply physFrame_trans; eassumption|]. split; [congruence|].
    intros r Hr. rewrite (O2 r Hr). now apply O1.
Qed.

Lemma integrate_shape this fd (b : PhysicsBody T) :
  sameShape b (Physics.integrate this fd b).
Proof. repeat split. Qed.

Lemma moveBody_frame fd body (s s' : State T) :
  Physics.moveBody fd body s = Some (tt, s') ->
  physFrame s s' /\ draws s' = draws s
  /\ forall r, r <> body -> heap s' r = heap s r.
Proof.
  unfold Physics.moveBody, bind, load, get.
  destruct (store body _ s) as [[[] s1]|] eqn:E1; [|discriminate].
  apply store_frame in E1 as (F1 & _ & D1 & _ & O1);
    [|apply integrate_shape].
  replace (staticBodies (physics s)) with (staticBodies (physics s1))
    by (now rewrite (proj1 F1)).
  intros E. apply forEach_collide_frame in E as (F2 & D2 & O2).
  split; [eapply physFrame_trans; eassumption|]. split; [congruence|].
  intros r Hr. rewrite (O2 r Hr). now apply O1.
Qed.

Lemma perturb_frame body (s s' : State T) :
  Physics.perturb body s = Some (tt, s') ->
  physFrame s s' /\ (draws s <= draws s' <= S (draws s))
  /\ forall r, r <> body -> heap s' r = heap s r.
Proof.
  unfold Physics.perturb, bind, load.
  match goal with |- context [if ?c then _ else _] => destruct c end.
  - cbn. intros [= <-]. cbn. split; [|split; [lia|]].
    + unfold physFrame. cbn. repeat split; try reflexivity;
        unfold update_heap; destruct (Nat.eqb r body) eqn:Er;
        try reflexivity; apply Nat.eqb_eq in Er; subst r; reflexivity.
    + intros r Hr. now apply heap_at_other.
  - intros [= <-]. split; [apply physFrame_refl|]. split; [lia|]. auto.
Qed.

Lemma updateBody_frame fd body (s s' : State T) :
  Physics.updateBody fd body s = Some (tt, s') ->
  physFrame s s' /\ (draws s <= draws s' <= S (draws s))
  /\ (forall r, r <> body -> heap s' r = heap s r)
  /\ (isStatic (heap s body) = true -> s' = s).
Proof.
  unfold Physics.updateBody, bind, load.
  destruct (isStatic (heap s body)) eqn:Es.
  - intros [= <-]. split; [apply physFrame_refl|]. split; [lia|]. auto.
  - destruct (Physics.moveBody fd body s) as [[[] s1]|] eqn:E1; [|discriminate].
    intros E2. apply moveBody_frame in E1 as (F1 & D1 & O1).
    apply perturb_frame in E2 as (F2 & D2 & O2).
    split; [eapply physFrame_trans; eassumption|]. split; [lia|].
    split; [|discriminate].
    intros r Hr. rewrite (O2 r Hr). now apply O1.
Qed.

Lemma forEach_updateBody_frame fd l : forall (s s' : State T),
  forEach l (Physics.updateBody fd) s = Some (tt, s') ->
  physFrame s s'
  /\ (draws s <= draws s' <= draws s + List.length l)
  /\ (forall r, ~ In r l \/ isStatic (heap s r) = true ->
        heap s' r = heap s r).
Proof.
  induction l as [|a l IH]; intros s s' E.
  - cbn in E. injection E as <-. split; [apply physFrame_refl|].
    split; [cbn; lia|]. auto.
  - cbn in E. unfold bind in E.
    destruct (Physics.updateBody fd a s) as [[[] s1]|] eqn:E1; [|discriminate].
    apply updateBody_frame in E1 as (F1 & D1 & O1 & S1).
    apply IH in E as (F2 & D2 & O2).
    split; [eapply physFrame_trans; eassumption|]. split; [cbn; lia|].
    intros r Hr.
    assert (H1 : heap s1 r = heap s r).
    { destruct Hr as [Hr | Hr].
      - apply O1. intros ->. apply Hr. now left.
      - destruct (Nat.eq_dec r a) as [-> | Hne]; [|now apply O1].
        now rewrite (S1 Hr). }
    rewrite <- H1. apply O2. destruct Hr as [Hr | Hr].
    + left. intros Hin. apply Hr. now right.
    + right. now rewrite H1.
Qed.
End Frame.

Section Throws.
Context {T : Type} `{Number T}.
Local Open Scope nat_scope.

Lemma physFrame_boxOk (s s' : State T) (r : ref) :
  physFrame s s' -> boxOk (heap s' r) = boxOk (heap s r).
Proof. intros F. apply sameShape_boxOk, F. Qed.

Lemma physFrame_badBox (s s' : State T) (l : list ref) :
  physFrame s s' -> existsb (badBox s') l = existsb (badBox s) l.
Proof.
  intros F. induction l as [|a l IH]; [reflexivity|]. cbn.
  unfold badBox at 1 3. now rewrite (physFrame_boxOk s s' a F), IH.
Qed.

Lemma physFrame_moving (s s' : State T) (l : list ref) :
  physFrame s s' -> existsb (moving s') l = existsb (moving s) l.
Proof.
  intros F. induction l as [|a l IH]; [reflexivity|]. cbn.
  unfold moving at 1 3.
  destruct F as (_ & _ & _ & _ & _ & F). destruct (F a) as (_ & _ & -> & _).
  now rewrite IH.
Qed.

Lemma checkCollision_result this (b o : PhysicsBody T) :
  Physics.checkCollision this b o = None <-> boxOk o = false.
Proof.
  unfold Physics.checkCollision, boxOk, hasCorners, Physics.sphereVsBox.
  destruct (String.eqb (type o) "sphere") eqn:Es.
  - apply String.eqb_eq in Es. rewrite Es. cbn. split; discriminate.
  - destruct (String.eqb (type o) "box") eqn:Eb; cbn.
    + destruct (min o), (max o); cbn; split; try discriminate; try reflexivity.
      repeat match goal with |- context [if ?c then _ else _] => destruct c end;
        discriminate.
    + destruct (String.eqb (type o) "cylinder"); split; discriminate.
Qed.

Lemma collide_result body staticBody (s : State T) :
  Physics.collide body staticBody s = None <-> badBox s staticBody = true.
Proof.
  unfold Physics.collide, bind, get, badBox.
  destruct (Physics.checkCollision _ _ _) as [[b' cs]|] eqn:E.
  - cbn. split; [discriminate|]. intros Hb. apply negb_true_iff in Hb.
    apply (proj2 (checkCollision_result (physics s) (heap s body) _)) in Hb.
    congruence.
  - apply checkCollision_result in E. rewrite E. split; reflexivity.
Qed.

Lemma forEach_collide_result body l : forall s : State T,
  forEach l (Physics.collide body) s = None <-> existsb (badBox s) l = true.
Proof.
  induction l as [|a l IH]; intros s.
  - cbn. split; discriminate.
  - cbn. unfold bind.
    destruct (Physics.collide body a s) as [[[] s1]|] eqn:E1.
    + assert (Ha : badBox s a = false).
      { destruct (badBox s a) eqn:Ha; [|reflexivity].
        apply (proj2 (collide_result body a s)) in Ha. congruence. }
      rewrite Ha. cbn. apply collide_frame in E1 as (F1 & _).
      rewrite <- (physFrame_badBox s s1 l F1). apply IH.
    + apply collide_result in E1. rewrite E1. split; reflexivity.
Qed.

Lemma moveBody_result fd body (s : State T) :
  Physics.moveBody fd body s = None
  <-> existsb (badBox s) (staticBodies (physics s)) = true.
Proof.
  unfold Physics.moveBody, bind, load, get.
  destruct (store body _ s) as [[[] s1]|] eqn:E1; [|discriminate].
  apply store_frame in E1 as (F1 & _); [|apply integrate_shape].
  rewrite <- (physFrame_badBox s s1 _ F1). apply forEach_collide_result.
Qed.

Lemma perturb_total body (s : State T) :
  exists s', Physics.perturb body s = Some (tt, s').
Proof.
  unfold Physics.perturb, bind, load.
  match goal with |- context [if ?c then _ else _] => destruct c end;
    eexists; reflexivity.
Qed.

Lemma updateBody_result fd body (s : State T) :
  Physics.updateBody fd body s = None
  <-> moving s body
      && existsb (badBox s) (staticBodies (physics s)) = true.
Proof.
  unfold Physics.updateBody, bind, load, moving.
  destruct (isStatic (heap s body)); cbn [negb andb]; [split; discriminate|].
  destruct (Physics.moveBody fd body s) as [[[] s1]|] eqn:E1.
  - destruct (perturb_total body s1) as (s2 & E2). rewrite E2.
    split; [discriminate|]. intros Hb.
    apply (proj2 (moveBody_result fd body s)) in Hb. congruence.
  - apply moveBody_result in E1. rewrite E1. split; reflexivity.
Qed.

Lemma forEach_updateBody_result fd l : forall s : State T,
  forEach l (Physics.updateBody fd) s = None
  <-> existsb (moving s) l
      && existsb (badBox s) (staticBodies (physics s)) = true.
Proof.
  induction l as [|a l IH]; intros s.
  - cbn. split; discriminate.
  - cbn [forEach existsb]. unfold bind.
    destruct (Physics.updateBody fd a s) as [[[] s1]|] eqn:E1.
    + assert (Ha : moving s a
                   && existsb (badBox s) (staticBodies (physics s)) = false).
      { destruct (moving s a && _) eqn:Ha; [|reflexivity].
        apply (proj2 (updateBody_result fd a s)) in Ha. congruence. }
      apply updateBody_frame in E1 as (F1 & _).
      rewrite IH. rewrite (physFrame_moving s s1 l F1).
      rewrite (proj1 F1). rewrite (physFrame_badBox s s1 _ F1).
      destruct (moving s a); cbn in *; [rewrite Ha, !andb_false_r|];
        reflexivity.
    + apply updateBody_result in E1.
      apply andb_true_iff in E1 as [-> ->]. cbn. split; reflexivity.
Qed.
End Throws.

Section Ballistic.
Context {T : Type} `{Number T}.
Local Open Scope num_scope.

Lemma sameShape_pinLike (b b' : PhysicsBody T) :
  sameShape b b' -> pinLike b' = pinLike b.
Proof.
  intros (_ & _ & _ & Ht & _). unfold pinLike. now rewrite Ht.
Qed.

Lemma physFrame_pinLike (s s' : State T) (l : list ref) :
  physFrame s s' ->
  forallb (fun r => pinLike (heap s' r)) l
  = forallb (fun r => pinLike (heap s r)) l.
Proof.
  intros F. induction l as [|a l IH]; [reflexivity|]. cbn.
  rewrite IH. f_equal. apply sameShape_pinLike, F.
Qed.

Lemma checkCollision_vertical this (b o b' : PhysicsBody T) cs :
  pinLike o = true ->
  Physics.checkCollision this b o = Some (b', cs) ->
  at1 (velocity b') = at1 (velocity b)
  /\ at1 (position b') = at1 (position b).
Proof.
  unfold pinLike, Physics.checkCollision. intros Hp.
  apply andb_true_iff in Hp as [Hs Hb].
  apply negb_true_iff in Hs, Hb. rewrite Hs, Hb.
  destruct (String.eqb (type o) "cylinder").
  - intros [= E]. pose proof (cylinder_keeps_vertical this b o) as K.
    rewrite E in K. exact K.
  - intros [= <- _]. split; reflexivity.
Qed.

Lemma collide_vertical body staticBody (s s' : State T) :
  pinLike (heap s staticBody) = true ->
  Physics.collide body staticBody s = Some (tt, s') ->
  at1 (velocity (heap s' body)) = at1 (velocity (heap s body))
  /\ at1 (position (heap s' body)) = at1 (position (heap s body)).
Proof.
  intros Hp. unfold Physics.collide, bind, get.
  destruct (Physics.checkCollision _ _ _) as [[b' cs]|] eqn:E; [|discriminate].
  apply (checkCollision_vertical _ _ _ _ _ Hp) in E.
  cbn. intros [= <-]. cbn. now rewrite heap_at_same.
Qed.

Lemma forEach_collide_vertical body l : forall (s s' : State T),
  forallb (fun r => pinLike (heap s r)) l = true ->
  forEach l (Physics.collide body) s = Some (tt, s') ->
  at1 (velocity (heap s' body)) = at1 (velocity (heap s body))
  /\ at1 (position (heap s' body)) = at1 (position (heap s body)).
Proof.
  induction l as [|a l IH]; intros s s' Hl E.
  - cbn in E. injection E as <-. split; reflexivity.
  - cbn in E, Hl. unfold bind in E. apply andb_true_iff in Hl as [Ha Hl].
    destruct (Physics.collide body a s) as [[[] s1]|] eqn:E1; [|discriminate].
    destruct (collide_vertical _ _ _ _ Ha E1) as [V1 P1].
    apply collide_frame in E1 as (F1 & _).
    rewrite <- (physFrame_pinLike s s1 l F1) in Hl.
    destruct (IH s1 s' Hl E) as [V2 P2]. split; congruence.
Qed.

Lemma moveBody_vertical fd body (s s' : State T) :
  forallb (fun r => pinLike (heap s r)) (staticBodies (physics s)) = true ->
  Physics.moveBody fd body s = Some (tt, s') ->
  at1 (velocity (heap s' body))
  = at1 (velocity (heap s body)) + gravity (physics s) * fd
  /\ at1 (position (heap s' body))
     = at1 (position (heap s body))
       + (at1 (velocity (heap s body)) + gravity (physics s) * fd) * fd.
Proof.
  intros Hl. unfold Physics.moveBody, bind, load, get.
  destruct (store body _ s) as [[[] s1]|] eqn:E1; [|discriminate].
  apply store_frame in E1 as (F1 & _ & _ & Hb & _); [|apply integrate_shape].
  rewrite <- (physFrame_pinLike s s1 _ F1) in Hl.
  intros E. destruct (forEach_collide_vertical _ _ _ _ Hl E) as [V P].
  rewrite V, P, Hb. split; reflexivity.
Qed.

Lemma perturb_vertical body (s s' : State T) :
  Physics.perturb body s = Some (tt, s') ->
  at1 (velocity (heap s' body)) = at1 (velocity (heap s body))
  /\ at1 (position (heap s' body)) = at1 (position (heap s body)).
Proof.
  unfold Physics.perturb, bind, load.
  match goal with |- context [if ?c then _ else _] => destruct c end.
  - cbn. intros [= <-]. cbn. now rewrite heap_at_same.
  - intros [= <-]. split; reflexivity.
Qed.

Lemma updateBody_vertical fd body (s s' : State T) :
  forallb (fun r => pinLike (heap s r)) (staticBodies (physics s)) = true ->
  isStatic (heap s body) = false ->
  Physics.updateBody fd body s = Some (tt, s') ->
  at1 (velocity (heap s' body))
  = at1 (velocity (heap s body)) + gravity (physics s) * fd
  /\ at1 (position (heap s' body))
     = at1 (position (heap s body))
       + (at1 (velocity (heap s body)) + gravity (physics s) * fd) * fd.
Proof.
  intros Hl Hs. unfold Physics.updateBody, bind, load. rewrite Hs.
  destruct (Physics.moveBody fd body s) as [[[] s1]|] eqn:E1; [|discriminate].
  intros E2. destruct (moveBody_vertical _ _ _ _ Hl E1) as [V1 P1].
  destruct (perturb_vertical _ _ _ E2) as [V2 P2]. split; congruence.
Qed.

Lemma forEach_updateBody_vertical fd body l : forall (s s' : State T),
  forallb (fun r => pinLike (heap s r)) (staticBodies (physics s)) = true ->
  NoDup l -> In body l -> isStatic (heap s body) = false ->
  forEach l (Physics.updateBody fd) s = Some (tt, s') ->
  at1 (velocity (heap s' body))
  = at1 (velocity (heap s body)) + gravity (physics s) * fd
  /\ at1 (position (heap s' body))
     = at1 (position (heap s body))
       + (at1 (velocity (heap s body)) + gravity (physics s) * fd) * fd.
Proof.
  induction l as [|a l IH]; intros s s' Hl Hnd Hin Hs E; [destruct Hin|].
  cbn in E. unfold bind in E.
  destruct (Physics.updateBody fd a s) as [[[] s1]|] eqn:E1; [|discriminate].
  inversion Hnd as [|? ? Hnot Hnd']; subst.
  destruct (Nat.eq_dec a body) as [-> | Hne].
  - destruct (updateBody_vertical _ _ _ _ Hl Hs E1) as [V P].
    apply forEach_updateBody_frame in E as (_ & _ & O).
    rewrite (O body (or_introl Hnot)). split; assumption.
  - destruct Hin as [Heq | Hin]; [contradiction|].
    apply updateBody_frame in E1 as (F1 & _ & O1 & _).
    assert (Hb : heap s1 body = heap s body) by (apply O1; congruence).
    rewrite <- (physFrame_pinLike s s1 _ F1) in Hl.
    rewrite <- (proj1 F1) in Hl.
    rewrite <- Hb in Hs.
    destruct (IH s1 s' Hl Hnd' Hin Hs E) as [V P].
    rewrite V, P, Hb, (proj1 F1). split; reflexivity.
Qed.
End Ballistic.

(** ** C5: the step of the integration *)

Section FreeFlight.
Context {T : Type} `{Number T}.
Local Open Scope num_scope.




End FreeFlight.



Section Lists.
Context {A B : Type}.

Lemma removeFirst_absent (x : ref) (l : list ref) :
  ~ In x l -> Physics.removeFirst x l = l.
Proof.
  induction l as [|a l IH]; [reflexivity|]. cbn. intros Hn.
  destruct (Nat.eqb a x) eqn:E.
  - apply Nat.eqb_eq in E. exfalso. apply Hn. now left.
  - rewrite IH; [reflexivity|]. intros Hin. apply Hn. now right.
Qed.

Lemma removeFirst_first (x : ref) (l1 l2 : list ref) :
  ~ In x l1 -> Physics.removeFirst x (l1 ++ x :: l2) = l1 ++ l2.
Proof.
  induction l1 as [|a l1 IH]; cbn; intros Hn.
  - now rewrite Nat.eqb_refl.
  - destruct (Nat.eqb a x) eqn:E.
    + apply Nat.eqb_eq in E. exfalso. apply Hn. now left.
    + rewrite IH; [reflexivity|]. intros Hin. apply Hn. now right.
Qed.

Lemma removeFirst_In (x r : ref) (l : list ref) :
  In r (Physics.removeFirst x l) -> In r l.
Proof.
  induction l as [|a l IH]; cbn; [easy|].
  destruct (Nat.eqb a x); [now right|]. intros [<-|Hin]; [now left|].
  right. now apply IH.
Qed.

Lemma removeFirst_count (x r : ref) (l : list ref) :
  count_occ Nat.eq_dec (Physics.removeFirst x l) r
  = if Nat.eqb r x then Nat.pred (count_occ Nat.eq_dec l r)
    else count_occ Nat.eq_dec l r.
Proof.
  induction l as [|a l IH]; cbn.
  - now destruct (Nat.eqb r x).
  - destruct (Nat.eqb a x) eqn:Ea.
    + apply Nat.eqb_eq in Ea. subst a.
      destruct (Nat.eq_dec x r) as [->|Hne].
      * now rewrite Nat.eqb_refl.
      * destruct (Nat.eqb r x) eqn:Er; [|reflexivity].
        apply Nat.eqb_eq in Er. congruence.
    + cbn. rewrite IH. destruct (Nat.eq_dec a r) as [->|Hne];
        [|reflexivity].
      now rewrite Ea.
Qed.

(** With distinct keys, removing the key of place [i] removes place [i]. *)
Lemma removeFirst_splice1 (f : A -> ref) (i : nat) (a : A) (l : list A) :
  NoDup (map f l) -> nth_error l i = Some a ->
  Physics.removeFirst (f a) (map f l) = map f (PachinkoMachine.splice1 i l).
Proof.
  revert i; induction l as [|x l IH]; intros [|i]; cbn; try discriminate.
  - intros _ [= ->]. now rewrite Nat.eqb_refl.
  - intros Hnd E. inversion Hnd as [|? ? Hnot Hnd']; subst.
    destruct (Nat.eqb (f x) (f a)) eqn:Ex.
    + apply Nat.eqb_eq in Ex. exfalso. apply Hnot. rewrite Ex.
      apply in_map. eapply nth_error_In; eassumption.
    + now rewrite (IH i Hnd' E).
Qed.

Lemma setNth_nth (i : nat) (v a : A) (l : list A) :
  nth_error l i = Some a ->
  nth_error (PachinkoMachine.setNth i v l) i = Some v.
Proof.
  revert i; induction l as [|x l IH]; intros [|i]; cbn; try discriminate;
    auto.
Qed.

Lemma setNth_firstn (i : nat) (v : A) (l : list A) :
  firstn i (PachinkoMachine.setNth i v l) = firstn i l.
Proof.
  revert i; induction l as [|x l IH]; intros [|i]; cbn; auto.
  now rewrite IH.
Qed.

Lemma setNth_skipn (i : nat) (v : A) (l : list A) :
  skipn (S i) (PachinkoMachine.setNth i v l) = skipn (S i) l.
Proof.
  revert i; induction l as [|x l IH]; intros [|i]; cbn; auto.
  apply IH.
Qed.

Lemma splice1_firstn (i : nat) (l : list A) :
  firstn i (PachinkoMachine.splice1 i l) = firstn i l.
Proof.
  revert i; induction l as [|x l IH]; intros [|i]; cbn; auto.
  now rewrite IH.
Qed.

Lemma splice1_skipn (i : nat) (l : list A) :
  skipn i (PachinkoMachine.splice1 i l) = skipn (S i) l.
Proof.
  revert i; induction l as [|x l IH]; intros [|i]; cbn; auto.
Qed.

Lemma skipn_nth (i : nat) (a : A) (l : list A) :
  nth_error l i = Some a -> skipn i l = a :: skipn (S i) l.
Proof.
  revert i; induction l as [|x l IH]; intros [|i]; cbn; try discriminate.
  - now intros [= ->].
  - intros E. now rewrite (IH i E).
Qed.

Lemma firstn_nth (i : nat) (a : A) (l : list A) :
  nth_error l i = Some a -> firstn (S i) l = firstn i l ++ [a].
Proof.
  revert i; induction l as [|x l IH]; intros [|i]; cbn; try discriminate.
  - now intros [= ->].
  - intros E. now rewrite <- (IH i E).
Qed.
End Lists.

Section MachineEffects.
Context {T : Type} `{Number T}.
Local Open Scope nat_scope.

Lemma machineFrame_refl (s : State T) : machineFrame s s.
Proof. repeat split. Qed.

Lemma machineFrame_trans (s1 s2 s3 : State T) :
  machineFrame s1 s2 -> machineFrame s2 s3 -> machineFrame s1 s3.
Proof.
  unfold machineFrame.
  intros (A1 & A2 & A3 & A4 & A5 & A6 & A7 & A8 & A9 & A10 & A11 & A12)
    (B1 & B2 & B3 & B4 & B5 & B6 & B7 & B8 & B9 & B10 & B11 & B12).
  repeat split; congruence.
Qed.

Lemma machineFrame_keeps (s s' : State T) (b : Ball) :
  machineFrame s s' -> keeps s' b = keeps s b.
Proof. intros (Hh & _). unfold keeps. now rewrite Hh. Qed.

Lemma machineFrame_ready (s s' : State T) :
  machineFrame s s' -> ready s' = ready s.
Proof.
  intros (Hh & Hn & Hs & _). unfold ready. now rewrite Hh, Hn, Hs.
Qed.

Lemma setNth_same {A} (i : nat) (a : A) (l : list A) :
  nth_error l i = Some a -> PachinkoMachine.setNth i a l = l.
Proof.
  revert i; induction l as [|x l IH]; intros [|i]; cbn; try discriminate.
  - now intros [= ->].
  - intros E. now rewrite (IH i E).
Qed.

Lemma splice1_setNth {A} (i : nat) (v : A) (l : list A) :
  PachinkoMachine.splice1 i (PachinkoMachine.setNth i v l)
  = PachinkoMachine.splice1 i l.
Proof.
  revert i; induction l as [|x l IH]; intros [|i]; cbn; auto.
  now rewrite IH.
Qed.

Lemma firstSlot_In (x : T) (l : list (Slot T)) (slot : Slot T) :
  PachinkoMachine.firstSlot x l = Some slot -> In slot l.
Proof.
  induction l as [|a l IH]; cbn; [discriminate|].
  match goal with |- context [if ?c then _ else _] => destruct c end.
  - intros [= ->]. now left.
  - intros E. right. now apply IH.
Qed.

(** The scoring check: the ball object of place [i] is marked, and the
    callback, if any, is called with the points of a slot of the machine. *)
Lemma checkScore_store i ball (s : State T) :
  exists s',
    PachinkoMachine.checkScore i ball s = Some (tt, s')
    /\ machineFrame s s' /\ physics s' = physics s
    /\ nextBall s' = nextBall s
    /\ ((balls (machine s') = balls (machine s) /\ calls s' = calls s)
        \/ (scored ball = false
            /\ balls (machine s')
               = PachinkoMachine.setNth i (markScored ball) (balls (machine s))
            /\ exists slot,
                 In slot (slots (machine s))
                 /\ calls s'
                    = match onScore ball with
                      | Some h =>
                          CallOnScore h (ballId ball) (points slot) :: calls s
                      | None => calls s
                      end)).
Proof.
  unfold PachinkoMachine.checkScore, bind, load, get.
  destruct (scored ball) eqn:Es; cbn [negb andb].
  - eexists. split; [reflexivity|]. split; [apply machineFrame_refl|].
    split; [reflexivity|]. split; [reflexivity|]. left. split; reflexivity.
  - match goal with |- context [if ?c then _ else _] => destruct c end.
    + destruct (PachinkoMachine.firstSlot _ _) as [slot|] eqn:Ef.
      * apply firstSlot_In in Ef.
        destruct (onScore ball) as [h|] eqn:Eh.
        -- eexists. split; [reflexivity|]. split; [repeat split|].
           split; [reflexivity|]. split; [reflexivity|]. right.
           split; [reflexivity|]. split; [cbn; unfold markScored;
             now rewrite Eh|].
           exists slot. split; [exact Ef | reflexivity].
        -- eexists. split; [reflexivity|]. split; [repeat split|].
           split; [reflexivity|]. split; [reflexivity|]. right.
           split; [reflexivity|]. split; [cbn; unfold markScored;
             now rewrite Eh|].
           exists slot. split; [exact Ef | reflexivity].
      * eexists. split; [reflexivity|]. split; [apply machineFrame_refl|].
        split; [reflexivity|]. split; [reflexivity|]. left.
        split; reflexivity.
    + eexists. split; [reflexivity|]. split; [apply machineFrame_refl|].
      split; [reflexivity|]. split; [reflexivity|]. left. split; reflexivity.
Qed.

(** The removal check: a ball below -2 leaves both arrays. *)
Lemma checkRemove_store i ball (s : State T) :
  exists s',
    PachinkoMachine.checkRemove i ball s = Some (tt, s')
    /\ machineFrame s s' /\ calls s' = calls s /\ nextBall s' = nextBall s
    /\ ((keeps s ball = true
         /\ balls (machine s') = balls (machine s)
         /\ bodies (physics s') = bodies (physics s))
        \/ (keeps s ball = false
            /\ balls (machine s')
               = PachinkoMachine.splice1 i (balls (machine s))
            /\ bodies (physics s')
               = Physics.removeFirst (body ball) (bodies (physics s)))).
Proof.
  unfold PachinkoMachine.checkRemove, bind, load, keeps.
  match goal with |- context [if ?c then _ else _] => destruct c end.
  - eexists. split; [reflexivity|]. split; [repeat split|].
    split; [reflexivity|]. split; [reflexivity|]. right. cbn. auto.
  - eexists. split; [reflexivity|]. split; [apply machineFrame_refl|].
    split; [reflexivity|]. split; [reflexivity|]. left. cbn. auto.
Qed.

(** One iteration of the loop of [PachinkoMachine.update] at a place that
    holds a ball. *)
Lemma updateBall_store i ball (s : State T) :
  nth_error (balls (machine s)) i = Some ball ->
  exists s' ball',
    PachinkoMachine.updateBall i s = Some (tt, s')
    /\ machineFrame s s' /\ nextBall s' = nextBall s
    /\ (ball' = ball \/ ball' = markScored ball)
    /\ ((keeps s ball = true
         /\ balls (machine s')
            = PachinkoMachine.setNth i ball' (balls (machine s))
         /\ bodies (physics s') = bodies (physics s))
        \/ (keeps s ball = false
            /\ balls (machine s')
               = PachinkoMachine.splice1 i (balls (machine s))
            /\ bodies (physics s')
               = Physics.removeFirst (body ball) (bodies (physics s)))).
Proof.
  intros Hnth. unfold PachinkoMachine.updateBall, bind, get. rewrite Hnth.
  destruct (checkScore_store i ball s) as (s1 & E1 & F1 & P1 & N1 & C1).
  rewrite E1.
  destruct (checkRemove_store i ball s1) as (s2 & E2 & F2 & _ & N2 & C2).
  rewrite (machineFrame_keeps s s1 ball F1) in C2.
  exists s2.
  assert (Hb : exists ball',
             (ball' = ball \/ ball' = markScored ball)
             /\ balls (machine s1)
                = PachinkoMachine.setNth i ball' (balls (machine s))).
  { destruct C1 as [[-> _] | (_ & -> & _)].
    - exists ball. split; [now left|]. symmetry. now apply setNth_same.
    - exists (markScored ball). split; [now right | reflexivity]. }
  destruct Hb as (ball' & Hb' & Hb). exists ball'.
  split; [exact E2|]. split; [eapply machineFrame_trans; eassumption|].
  split; [congruence|]. split; [exact Hb'|].
  destruct C2 as [(K & B2 & R2) | (K & B2 & R2)].
  - left. split; [exact K|]. split; congruence.
  - right. split; [exact K|]. split; [|congruence].
    rewrite B2, Hb. apply splice1_setNth.
Qed.

(** The iterations [n - 1], ..., [0]: of the first [n] balls those that
    are not below -2 stay, in order; the balls after them are not visited. *)
Lemma updateFrom_removes {B} (f : Ball -> B) n :
  (forall b, f (markScored b) = f b) ->
  forall s : State T,
    n <= List.length (balls (machine s)) ->
    exists s',
      PachinkoMachine.updateFrom n s = Some (tt, s')
      /\ machineFrame s s' /\ nextBall s' = nextBall s
      /\ map f (balls (machine s'))
         = map f (filter (keeps s) (firstn n (balls (machine s))))
           ++ map f (skipn n (balls (machine s)))
      /\ forall r, In r (bodies (physics s')) -> In r (bodies (physics s)).
Proof.
  intros Hf. induction n as [|i IH]; intros s Hn.
  - exists s. split; [reflexivity|]. split; [apply machineFrame_refl|].
    split; [reflexivity|]. split; [reflexivity|]. auto.
  - destruct (nth_error (balls (machine s)) i) as [ball|] eqn:Hnth;
      [|apply nth_error_None in Hnth; lia].
    destruct (updateBall_store i ball s Hnth)
      as (s1 & ball' & E1 & F1 & N1 & Hb' & C1).
    assert (Hfb : f ball' = f ball) by (destruct Hb' as [-> | ->]; auto).
    assert (Hlen : i <= List.length (balls (machine s1))).
    { destruct C1 as [(_ & -> & _) | (_ & -> & _)].
      - rewrite setNth_length. lia.
      - pose proof (splice1_length i (balls (machine s))). lia. }
    destruct (IH s1 Hlen) as (s' & E' & F' & N' & M' & R').
    exists s'. split.
    { cbn [PachinkoMachine.updateFrom]. unfold bind. now rewrite E1. }
    split; [eapply machineFrame_trans; eassumption|].
    split; [congruence|].
    rewrite (firstn_nth i ball _ Hnth), filter_app, map_app. cbn [filter].
    rewrite M'.
    rewrite (filter_ext (keeps s1) (keeps s)
               (fun b => machineFrame_keeps s s1 b F1)).
    destruct C1 as [(K & B1 & R1) | (K & B1 & R1)]; rewrite B1, K.
    + rewrite setNth_firstn.
      rewrite (skipn_nth i ball' _ (setNth_nth i ball' ball _ Hnth)).
      rewrite setNth_skipn. cbn. rewrite Hfb, <- app_assoc. cbn.
      split; [reflexivity|]. intros r Hr. rewrite <- R1. now apply R'.
    + rewrite splice1_firstn, splice1_skipn. cbn. rewrite app_nil_r.
      split; [reflexivity|]. intros r Hr. apply R' in Hr. rewrite R1 in Hr.
      eapply removeFirst_In; eassumption.
Qed.

Lemma machine_update_removes {B} (f : Ball -> B) dt (s : State T) :
  (forall b, f (markScored b) = f b) ->
  exists s',
    PachinkoMachine.update dt s = Some (tt, s')
    /\ machineFrame s s' /\ nextBall s' = nextBall s
    /\ map f (balls (machine s'))
       = map f (filter (keeps s) (balls (machine s)))
    /\ forall r, In r (bodies (physics s')) -> In r (bodies (physics s)).
Proof.
  intros Hf. unfold PachinkoMachine.update, bind, get.
  destruct (updateFrom_removes f (List.length (balls (machine s))) Hf s
              (le_n _)) as (s' & E & F & N & M & R).
  exists s'. rewrite firstn_all, skipn_all, app_nil_r in M. auto.
Qed.
End MachineEffects.

(** X1.  [PachinkoMachine.update] never throws and removes exactly the balls
    that have fallen below the height -2: the balls in play after the call
    are those that were at or above -2 ([keeps]), in the same order, with
    their identities and their bodies; every one of them is still at or
    above -2, no body is added to the simulated bodies, and the physics
    bodies, the static bodies and the slots are left as they were. *)
Theorem update_removes_fallen (T : Type) (N : Number T) (deltaTime : T)
    (s : State T) :
  exists s',
    PachinkoMachine.update deltaTime s = Some (tt, s')
    /\ heap s' = heap s
    /\ staticBodies (physics s') = staticBodies (physics s)
    /\ slots (machine s') = slots (machine s)
    /\ map ballId (balls (machine s'))
       = map ballId (filter (keeps s) (balls (machine s)))
    /\ map body (balls (machine s'))
       = map body (filter (keeps s) (balls (machine s)))
    /\ (forall b, In b (balls (machine s')) -> keeps s' b = true)
    /\ (forall r, In r (bodies (physics s')) -> In r (bodies (physics s))).
Proof.
  destruct (machine_update_removes
              (fun b => (ballId b, body b)) deltaTime s (fun b => eq_refl))
    as (s' & E & F & _ & M & R).
  exists s'. split; [exact E|]. split; [apply F|]. split; [apply F|].
  split; [apply F|].
  assert (Mi : map ballId (balls (machine s'))
               = map ballId (filter (keeps s) (balls (machine s)))).
  { apply (f_equal (map fst)) in M. now rewrite !map_map in M. }
  assert (Mb : map body (balls (machine s'))
               = map body (filter (keeps s) (balls (machine s)))).
  { apply (f_equal (map snd)) in M. now rewrite !map_map in M. }
  split; [exact Mi|]. split; [exact Mb|]. split; [|exact R].
  intros b Hb. rewrite (machineFrame_keeps s s' b F).
  apply (in_map body) in Hb. rewrite Mb in Hb.
  apply in_map_iff in Hb as (b0 & Hbody & Hin).
  apply filter_In in Hin as [_ K]. unfold keeps in *. now rewrite <- Hbody.
Qed.

Section Sync.
Context {T : Type} `{Number T}.
Local Open Scope nat_scope.

Lemma launchBall_store power (s : State T) :
  exists s',
    PachinkoMachine.launchBall power s = Some (nextBall s, s')
    /\ nextRef s' = S (nextRef s) /\ nextBall s' = S (nextBall s)
    /\ calls s' = calls s
    /\ staticBodies (physics s') = staticBodies (physics s)
    /\ bodies (physics s') = bodies (physics s) ++ [nextRef s]
    /\ balls (machine s')
       = balls (machine s)
         ++ [{| ballId := nextBall s; body := nextRef s; scored := false;
                onScore := None |}]
    /\ slots (machine s') = slots (machine s)
    /\ forall r, r <> nextRef s -> heap s' r = heap s r.
Proof.
  eexists. split; [unfold PachinkoMachine.launchBall; cbn; reflexivity|].
  cbn. repeat (split; [reflexivity|]).
  intros r Hr. now rewrite !heap_at_other.
Qed.

Lemma updateBall_inSync i (s s' : State T) :
  inSync s -> PachinkoMachine.updateBall i s = Some (tt, s') -> inSync s'.
Proof.
  intros (S1 & S2 & S3) E.
  destruct (nth_error (balls (machine s)) i) as [ball|] eqn:Hnth.
  - destruct (updateBall_store i ball s Hnth)
      as (s1 & ball' & E1 & F1 & _ & Hb' & C1).
    rewrite E in E1. injection E1 as <-.
    assert (Hfb : body ball' = body ball) by (destruct Hb' as [-> | ->]; auto).
    destruct F1 as (_ & Hn & _). unfold inSync. rewrite Hn.
    destruct C1 as [(_ & B1 & R1) | (_ & B1 & R1)]; rewrite B1, R1.
    + split; [|split; assumption].
      rewrite S1. symmetry. now apply setNth_map with (a := ball).
    + rewrite S1. rewrite S1 in S2, S3.
      rewrite (removeFirst_splice1 body i ball _ S2 Hnth).
      split; [reflexivity|]. split; [now apply splice1_NoDup|].
      intros r Hr. apply S3. apply in_map_iff in Hr as (b & <- & Hin).
      apply in_map. eapply splice1_In; eassumption.
  - unfold PachinkoMachine.updateBall, bind, get in E. rewrite Hnth in E.
    discriminate.
Qed.

Lemma updateFrom_inSync n : forall (s s' : State T),
  inSync s -> PachinkoMachine.updateFrom n s = Some (tt, s') -> inSync s'.
Proof.
  induction n as [|i IH]; intros s s' Hs E.
  - cbn in E. now injection E as <-.
  - cbn in E. unfold bind in E.
    destruct (PachinkoMachine.updateBall i s) as [[[] s1]|] eqn:E1;
      [|discriminate].
    eapply IH; [eapply updateBall_inSync|]; eassumption.
Qed.

Lemma launchBall_inSync power id (s s' : State T) :
  inSync s -> PachinkoMachine.launchBall power s = Some (id, s') -> inSync s'.
Proof.
  intros (S1 & S2 & S3) E.
  destruct (launchBall_store power s)
    as (s1 & E1 & Hr & _ & _ & _ & Hb & Hl & _).
  rewrite E in E1. injection E1 as _ <-.
  unfold inSync. rewrite Hr, Hb, Hl, map_app, S1. cbn.
  split; [reflexivity|]. rewrite <- S1. split.
  - apply NoDup_app; [exact S2 | repeat constructor; easy |].
    intros a Ha [<-|[]]. apply S3 in Ha. lia.
  - intros r Hin. apply in_app_or in Hin as [Hin | [<- | []]];
      [apply S3 in Hin; lia | lia].
Qed.

Lemma setOnScore_inSync id h (s s' : State T) :
  inSync s -> PachinkoMachine.setOnScore id h s = Some (tt, s') -> inSync s'.
Proof.
  intros (S1 & S2 & S3). unfold PachinkoMachine.setOnScore. intros [= <-].
  unfold inSync. cbn. split; [|split; assumption].
  rewrite map_map, S1. apply map_ext. intros b.
  now destruct (Nat.eqb (ballId b) id).
Qed.

Lemma physics_update_inSync dt (s s' : State T) :
  inSync s -> Physics.update dt s = Some (tt, s') -> inSync s'.
Proof.
  intros Hs E. unfold Physics.update, bind, get in E.
  apply forEach_updateBody_frame in E as ((Hp & Hm & Hn & _) & _).
  unfold inSync. now rewrite Hp, Hm, Hn.
Qed.

(** [reset]: one [removeBody] for each ball, then the array of balls is
    replaced. *)
Lemma removeBodies_store (l : list Ball) : forall s : State T,
  exists s',
    forEach l (fun ball => Physics.removeBody (body ball)) s = Some (tt, s')
    /\ machineFrame s s' /\ machine s' = machine s /\ calls s' = calls s
    /\ nextBall s' = nextBall s
    /\ bodies (physics s')
       = fold_left (fun acc ball => Physics.removeFirst (body ball) acc) l
           (bodies (physics s)).
Proof.
  induction l as [|a l IH]; intros s.
  - exists s. split; [reflexivity|]. split; [apply machineFrame_refl|].
    repeat split.
  - cbn [forEach]. unfold bind.
    unfold Physics.removeBody at 1.
    destruct (IH (setPhysics s
               (Physics.setBodies (physics s)
                  (Physics.removeFirst (body a) (bodies (physics s))))))
      as (s' & E & F & M & C & N & R).
    exists s'. split; [exact E|].
    split; [eapply machineFrame_trans; [|exact F]; repeat split|].
    split; [exact M|]. split; [exact C|]. split; [exact N|]. exact R.
Qed.

Lemma removeAll_self (l : list Ball) :
  fold_left (fun acc ball => Physics.removeFirst (body ball) acc) l
    (map body l) = [].
Proof.
  induction l as [|a l IH]; [reflexivity|]. cbn. now rewrite Nat.eqb_refl.
Qed.

Lemma removeAll_In (l : list Ball) (r : ref) : forall acc : list ref,
  In r (fold_left (fun acc ball => Physics.removeFirst (body ball) acc) l acc)
  -> In r acc.
Proof.
  induction l as [|a l IH]; intros acc; [easy|]. cbn. intros Hin.
  apply IH in Hin. eapply removeFirst_In; eassumption.
Qed.

Lemma reset_store (s : State T) :
  exists s',
    PachinkoMachine.reset s = Some (tt, s')
    /\ machineFrame s s' /\ calls s' = calls s /\ nextBall s' = nextBall s
    /\ balls (machine s') = []
    /\ bodies (physics s')
       = fold_left (fun acc ball => Physics.removeFirst (body ball) acc)
           (balls (machine s)) (bodies (physics s)).
Proof.
  unfold PachinkoMachine.reset, bind, get.
  destruct (removeBodies_store (balls (machine s)) s)
    as (s1 & E & F & M & C & N & R).
  rewrite E. eexists. split; [reflexivity|]. cbn.
  split; [|auto].
  eapply machineFrame_trans; [exact F|]. repeat split.
Qed.

Lemma reset_inSync (s s' : State T) :
  inSync s -> PachinkoMachine.reset s = Some (tt, s') -> inSync s'.
Proof.
  intros (S1 & S2 & S3) E.
  destruct (reset_store s) as (s1 & E1 & F & _ & _ & B & R).
  rewrite E in E1. injection E1 as <-.
  unfold inSync. rewrite B, R, S1, removeAll_self. cbn.
  split; [reflexivity|]. split; [constructor | easy].
Qed.

Lemma perform_inSync (a : Action) (s s' : State T) :
  inSync s -> perform a s = Some (tt, s') -> inSync s'.
Proof.
  intros Hs. destruct a as [power | id h | dt | dt |]; cbn [perform].
  - unfold bind.
    destruct (PachinkoMachine.launchBall power s) as [[id s1]|] eqn:E;
      [|discriminate].
    intros [= <-]. eapply launchBall_inSync; eassumption.
  - now apply setOnScore_inSync.
  - now apply physics_update_inSync.
  - unfold PachinkoMachine.update, bind, get. now apply updateFrom_inSync.
  - now apply reset_inSync.
Qed.

Lemma run_inSync (l : list Action) : forall (s s' : State T),
  inSync s -> run l s = Some (tt, s') -> inSync s'.
Proof.
  induction l as [|a l IH]; intros s s' Hs E.
  - cbn in E. now injection E as <-.
  - cbn in E. unfold bind in E.
    destruct (perform a s) as [[[] s1]|] eqn:E1; [|discriminate].
    eapply IH; [eapply perform_inSync|]; eassumption.
Qed.

Lemma fresh_inSync (s : State T) :
  bodies (physics s) = [] -> balls (machine s) = [] -> inSync s.
Proof.
  intros Hb Hl. unfold inSync. rewrite Hb, Hl. cbn.
  split; [reflexivity|]. split; [constructor | easy].
Qed.

(** *** Readiness *)

Lemma physFrame_ready (s s' : State T) : physFrame s s' -> ready s' = ready s.
Proof.
  intros F. unfold ready. rewrite (proj1 F).
  destruct F as (_ & _ & -> & _ & _ & F).
  induction (staticBodies (physics s)) as [|r l IH]; [reflexivity|].
  cbn [forallb]. now rewrite IH, (sameShape_boxOk _ _ (F r)).
Qed.

Lemma ready_badBox (s : State T) :
  ready s = true -> existsb (badBox s) (staticBodies (physics s)) = false.
Proof.
  unfold ready. induction (staticBodies (physics s)) as [|a l IH];
    [reflexivity|].
  cbn. intros Hr. apply andb_true_iff in Hr as [Ha Hl].
  apply andb_true_iff in Ha as [_ Ha]. unfold badBox at 1. rewrite Ha. cbn.
  now apply IH.
Qed.

Lemma physics_update_ready dt (s : State T) :
  ready s = true ->
  exists s', Physics.update dt s = Some (tt, s') /\ ready s' = true.
Proof.
  intros Hr. unfold Physics.update, bind, get.
  destruct (forEach _ _ s) as [[[] s']|] eqn:E.
  - exists s'. split; [reflexivity|].
    apply forEach_updateBody_frame in E as (F & _).
    now rewrite (physFrame_ready s s' F).
  - apply forEach_updateBody_result in E.
    rewrite (ready_badBox s Hr), andb_false_r in E. discriminate.
Qed.

Lemma launchBall_ready power (s : State T) :
  ready s = true ->
  exists s',
    PachinkoMachine.launchBall power s = Some (nextBall s, s')
    /\ ready s' = true.
Proof.
  intros Hr.
  destruct (launchBall_store power s)
    as (s' & E & Hn & _ & _ & Hs & _ & _ & _ & Hh).
  exists s'. split; [exact E|]. unfold ready in *. rewrite Hs, Hn.
  rewrite forallb_forall in *. intros r Hin. specialize (Hr r Hin).
  apply andb_true_iff in Hr as [Hlt Hok]. apply Nat.ltb_lt in Hlt.
  rewrite Hh by lia. rewrite Hok, andb_true_r. apply Nat.ltb_lt. lia.
Qed.

Lemma perform_ready (a : Action) (s : State T) :
  ready s = true ->
  exists s', perform a s = Some (tt, s') /\ ready s' = true.
Proof.
  intros Hr. destruct a as [power | id h | dt | dt |]; cbn [perform].
  - destruct (launchBall_ready power s Hr) as (s' & E & Hr').
    exists s'. unfold bind. rewrite E. auto.
  - eexists. split; [reflexivity|]. exact Hr.
  - now apply physics_update_ready.
  - destruct (machine_update_removes ballId dt s (fun b => eq_refl))
      as (s' & E & F & _).
    exists s'. split; [exact E|]. now rewrite (machineFrame_ready s s' F).
  - destruct (reset_store s) as (s' & E & F & _).
    exists s'. split; [exact E|]. now rewrite (machineFrame_ready s s' F).
Qed.

Lemma run_ready (l : list Action) : forall s : State T,
  ready s = true ->
  exists s', run l s = Some (tt, s') /\ ready s' = true.
Proof.
  induction l as [|a l IH]; intros s Hr.
  - exists s. split; [reflexivity | exact Hr].
  - destruct (perform_ready a s Hr) as (s1 & E1 & Hr1).
    destruct (IH s1 Hr1) as (s' & E' & Hr').
    exists s'. split; [|exact Hr']. cbn. unfold bind. now rewrite E1.
Qed.

Lemma setup_store (rnd : nat -> T) :
  exists s',
    setup (initial rnd) = Some (tt, s')
    /\ ready s' = true
    /\ List.length (staticBodies (physics s')) = 11
    /\ bodies (physics s') = [] /\ balls (machine s') = []
    /\ calls s' = []
    /\ slots (machine s')
       = map (PachinkoMachine.slotAt (ofZ 6)) (seq 0 PachinkoMachine.numSlots).
Proof.
  eexists. split; [vm_compute; reflexivity|].
  vm_compute. repeat split.
Qed.
End Sync.

Section GameProofs.
Context {T : Type} `{Number T}.
Local Open Scope Z_scope.
Local Arguments Z.add : simpl never.
Local Arguments Z.sub : simpl never.
Local Arguments Z.mul : simpl never.
Local Arguments Z.opp : simpl never.
Local Arguments Z.of_nat : simpl never.

Lemma unscored_app (l1 l2 : list Ball) :
  unscored (l1 ++ l2) = unscored l1 + unscored l2.
Proof. unfold unscored. rewrite filter_app, length_app. lia. Qed.

Lemma unscored_nonneg (l : list Ball) : 0 <= unscored l.
Proof. unfold unscored. lia. Qed.

Lemma unscored_length (l : list Ball) :
  unscored l <= Z.of_nat (List.length l).
Proof.
  unfold unscored. pose proof (filter_length_le (fun b => negb (scored b)) l).
  lia.
Qed.

Lemma unscored_cons (b : Ball) (l : list Ball) :
  unscored (b :: l) = (if scored b then 0 else 1) + unscored l.
Proof.
  unfold unscored. cbn [filter].
  destruct (scored b); cbn [negb List.length]; lia.
Qed.

Lemma unscored_setNth i ball (l : list Ball) :
  nth_error l i = Some ball -> scored ball = false ->
  unscored (PachinkoMachine.setNth i (markScored ball) l) = unscored l - 1.
Proof.
  revert i; induction l as [|x l IH]; intros [|i]; cbn [nth_error];
    try discriminate.
  - intros [= ->] Hs. cbn [PachinkoMachine.setNth].
    rewrite !unscored_cons. unfold markScored. cbn [scored]. rewrite Hs. lia.
  - intros E Hs. cbn [PachinkoMachine.setNth]. rewrite !unscored_cons.
    rewrite (IH i E Hs). lia.
Qed.

Lemma unscored_splice1 i (l : list Ball) :
  unscored (PachinkoMachine.splice1 i l) <= unscored l.
Proof.
  revert i; induction l as [|x l IH]; intros [|i];
    cbn [PachinkoMachine.splice1]; try lia.
  - rewrite unscored_cons. destruct (scored x); lia.
  - rewrite !unscored_cons. specialize (IH i). lia.
Qed.

Lemma splice1_shorter {A} i (l : list A) :
  (List.length (PachinkoMachine.splice1 i l) <= List.length l)%nat.
Proof.
  revert i; induction l as [|x l IH]; intros [|i]; cbn; try lia.
  specialize (IH i). lia.
Qed.

Lemma earned_app (l1 l2 : list (Call T)) :
  earned (l1 ++ l2) = earned l1 + earned l2.
Proof.
  induction l1 as [|c l1 IH]; [reflexivity|].
  destruct c; cbn; rewrite IH; lia.
Qed.

Lemma slotsPay_In (s : State T) (slot : Slot T) :
  slotsPay s = true -> In slot (slots (machine s)) -> 0 <= points slot <= 500.
Proof.
  unfold slotsPay. rewrite forallb_forall. intros Hs Hin.
  specialize (Hs slot Hin). apply andb_true_iff in Hs as [H0 H1].
  apply Z.leb_le in H0, H1. lia.
Qed.

Lemma machineFrame_slotsPay (s s' : State T) :
  machineFrame s s' -> slotsPay s' = slotsPay s.
Proof.
  intros (_ & _ & _ & _ & _ & _ & Hs & _). unfold slotsPay. now rewrite Hs.
Qed.

(** What one iteration of the loop of [PachinkoMachine.update] earns. *)
Lemma updateBall_earns i (s s' : State T) :
  slotsPay s = true ->
  PachinkoMachine.updateBall i s = Some (tt, s') ->
  machineFrame s s'
  /\ exists new,
       calls s' = new ++ calls s
       /\ 0 <= earned new
       /\ earned new + 500 * unscored (balls (machine s'))
          <= 500 * unscored (balls (machine s))
       /\ (List.length (balls (machine s'))
           <= List.length (balls (machine s)))%nat.
Proof.
  intros Hpay. unfold PachinkoMachine.updateBall, bind, get.
  destruct (nth_error (balls (machine s)) i) as [ball|] eqn:Hnth;
    [|discriminate].
  destruct (checkScore_store i ball s) as (s1 & E1 & F1 & _ & _ & C1).
  rewrite E1.
  destruct (checkRemove_store i ball s1) as (s2 & E2 & F2 & Hc2 & _ & C2).
  rewrite E2. intros [= <-].
  split; [eapply machineFrame_trans; eassumption|].
  assert (H1 : exists new,
             calls s1 = new ++ calls s
             /\ 0 <= earned new
             /\ earned new + 500 * unscored (balls (machine s1))
                <= 500 * unscored (balls (machine s))
             /\ List.length (balls (machine s1))
                = List.length (balls (machine s))).
  { destruct C1 as [[Hb Hc] | (Hs & Hb & slot & Hin & Hc)].
    - exists []. rewrite Hb, Hc. cbn [earned app].
      split; [reflexivity|]. split; [lia|]. split; [lia | reflexivity].
    - pose proof (slotsPay_In s slot Hpay Hin) as Hp.
      rewrite Hb, (unscored_setNth i ball _ Hnth Hs), setNth_length.
      destruct (onScore ball) as [h|].
      + exists [CallOnScore h (ballId ball) (points slot)].
        split; [exact Hc|]. cbn [earned].
        destruct (Nat.eqb h PachinkoGame.addScoreHandler);
          (split; [lia|]; split; [lia | reflexivity]).
      + exists []. split; [exact Hc|]. cbn [earned].
        split; [lia|]. split; [lia | reflexivity]. }
  destruct H1 as (new & Hc1 & Hn0 & Hn1 & Hl1).
  exists new. rewrite Hc2. split; [exact Hc1|]. split; [exact Hn0|].
  destruct C2 as [(_ & -> & _) | (_ & -> & _)].
  - split; [exact Hn1 | lia].
  - pose proof (unscored_splice1 i (balls (machine s1))).
    pose proof (splice1_shorter i (balls (machine s1))).
    split; lia.
Qed.

Lemma updateFrom_earns n : forall (s s' : State T),
  slotsPay s = true ->
  PachinkoMachine.updateFrom n s = Some (tt, s') ->
  machineFrame s s'
  /\ exists new,
       calls s' = new ++ calls s
       /\ 0 <= earned new
       /\ earned new + 500 * unscored (balls (machine s'))
          <= 500 * unscored (balls (machine s))
       /\ (List.length (balls (machine s'))
           <= List.length (balls (machine s)))%nat.
Proof.
  induction n as [|i IH]; intros s s' Hpay E.
  - cbn in E. injection E as <-. split; [apply machineFrame_refl|].
    exists []. cbn [earned app].
    split; [reflexivity|]. split; [lia|]. split; lia.
  - cbn in E. unfold bind in E.
    destruct (PachinkoMachine.updateBall i s) as [[[] s1]|] eqn:E1;
      [|discriminate].
    destruct (updateBall_earns i s s1 Hpay E1)
      as (F1 & new1 & Hc1 & A1 & B1 & L1).
    rewrite <- (machineFrame_slotsPay s s1 F1) in Hpay.
    destruct (IH s1 s' Hpay E) as (F2 & new2 & Hc2 & A2 & B2 & L2).
    split; [eapply machineFrame_trans; eassumption|].
    exists (new2 ++ new1). rewrite Hc2, Hc1, app_assoc, earned_app.
    split; [reflexivity|]. split; [lia|]. split; lia.
Qed.

Lemma callsSince_new (w1 w2 : State T) (new : list (Call T)) :
  calls w2 = new ++ calls w1 -> PachinkoGame.callsSince w1 w2 = new.
Proof.
  intros E. unfold PachinkoGame.callsSince. rewrite E, length_app.
  replace (List.length new + List.length (calls w1)
           - List.length (calls w1))%nat with (List.length new + 0)%nat
    by lia.
  rewrite firstn_app_2. cbn. apply app_nil_r.
Qed.

Lemma runCallbacks_effect (cs : list (Call T)) (g : Game T) :
  PachinkoGame.runCallbacks cs g
  = PachinkoGame.setScore g (score g + earned cs).
Proof.
  induction cs as [|c cs IH].
  - cbn. destruct g. unfold PachinkoGame.setScore. cbn; f_equal; lia.
  - cbn [PachinkoGame.runCallbacks fold_right].
    change (fold_right _ g cs) with (PachinkoGame.runCallbacks cs g).
    rewrite IH. destruct c as [h o | h b pts]; cbn [earned]; [reflexivity|].
    destruct (Nat.eqb h PachinkoGame.addScoreHandler).
    + unfold PachinkoGame.addScore, PachinkoGame.setScore. cbn; f_equal; lia.
    + unfold PachinkoGame.setScore. cbn; f_equal; lia.
Qed.

Lemma launchBall_fair power (g g' : Game T) :
  fair g -> PachinkoGame.launchBall power g = Some (tt, g') -> fair g'.
Proof.
  intros (B & S0 & S1 & L & P). unfold PachinkoGame.launchBall.
  destruct (ballsRemaining g <=? 0) eqn:Eb.
  - intros [= <-]. repeat split; auto; lia.
  - apply Z.leb_gt in Eb.
    destruct (launchBall_store power (world g))
      as (w1 & E1 & _ & _ & _ & _ & _ & Hb & Hs & _).
    rewrite E1. unfold PachinkoMachine.setOnScore. intros [= <-].
    unfold fair. cbn. rewrite Hb, map_app, unscored_app, length_app,
      length_map. cbn [map].
    assert (Hu : forall l : list Ball,
               unscored (map (fun b => if Nat.eqb (ballId b) (nextBall (world g))
                     then {| ballId := ballId b; body := body b;
                             scored := scored b;
                             onScore := Some PachinkoGame.addScoreHandler |}
                     else b) l) = unscored l).
    { induction l as [|x l IH]; [reflexivity|]. cbn [map].
      rewrite !unscored_cons, IH.
      now destruct (Nat.eqb (ballId x) (nextBall (world g))). }
    rewrite Hu. cbn [ballId]. rewrite Nat.eqb_refl.
    rewrite unscored_cons. cbn [scored length]. unfold unscored at 2. cbn.
    split; [lia|]. split; [exact S0|]. split; [lia|]. split; [lia|].
    unfold slotsPay in *. cbn. now rewrite Hs.
Qed.

Lemma update_fair dt (g g' : Game T) :
  fair g -> PachinkoGame.update dt g = Some (tt, g') -> fair g'.
Proof.
  intros Hg. unfold PachinkoGame.update.
  destruct (isRunning g); cbn [negb]; [|now intros [= <-]].
  set (g1 := if isCharging g then _ else g).
  assert (Hw : world g1 = world g /\ score g1 = score g
               /\ ballsRemaining g1 = ballsRemaining g).
  { unfold g1. destruct (isCharging g); auto. }
  destruct Hw as (Hw & Hsc & Hbr). clearbody g1.
  destruct Hg as (B & S0 & S1 & L & P).
  destruct (Physics.update dt (world g1)) as [[[] w1]|] eqn:E1;
    [|discriminate].
  destruct (PachinkoMachine.update dt w1) as [[[] w2]|] eqn:E2;
    [|discriminate].
  intros [= <-]. rewrite Hw in E1.
  unfold Physics.update, bind, get in E1.
  apply forEach_updateBody_frame in E1 as ((Hp1 & Hm1 & _) & _).
  unfold PachinkoMachine.update, bind, get in E2.
  assert (P1 : slotsPay w1 = true)
    by (unfold slotsPay in *; now rewrite Hm1).
  destruct (updateFrom_earns _ w1 w2 P1 E2) as (F2 & new & Hc & A & Bd & Ln).
  rewrite (callsSince_new w1 w2 new Hc), runCallbacks_effect.
  unfold fair. cbn. rewrite Hsc, Hbr, (machineFrame_slotsPay w1 w2 F2).
  rewrite Hm1 in Bd, Ln.
  split; [exact B|]. split; [lia|]. split; [lia|]. split; [lia | exact P1].
Qed.

Lemma resetGame_fair (g g' : Game T) :
  fair g -> PachinkoGame.resetGame g = Some (tt, g') -> fair g'.
Proof.
  intros (B & S0 & S1 & L & P). unfold PachinkoGame.resetGame.
  cbn [world PachinkoGame.setBallsRemaining PachinkoGame.setScore].
  destruct (reset_store (world g)) as (w1 & E & F & _ & _ & Hb & _).
  rewrite E. intros [= <-]. unfold fair.
  cbn [world score ballsRemaining PachinkoGame.setWorld
       PachinkoGame.setBallsRemaining PachinkoGame.setScore].
  rewrite Hb, (machineFrame_slotsPay _ _ F).
  change (unscored []) with 0. change (Z.of_nat (@List.length Ball [])) with 0.
  repeat split; auto; lia.
Qed.

Lemma handle_fair (e : PachinkoGame.Event) (g g' : Game T) :
  fair g -> PachinkoGame.handle e g = Some (tt, g') -> fair g'.
Proof.
  intros Hg. destruct e as [| code rep | code | t]; cbn [PachinkoGame.handle].
  - now apply launchBall_fair.
  - assert (Hs : forall g1, PachinkoGame.startCharging g = Some (tt, g1) ->
                   fair g1).
    { unfold PachinkoGame.startCharging.
      destruct (ballsRemaining g <=? 0); intros g1 [= <-]; exact Hg. }
    destruct (String.eqb code "Space" && negb (isCharging g) && negb rep).
    + destruct (PachinkoGame.startCharging g) as [[[] g1]|] eqn:E1;
        [|discriminate].
      specialize (Hs g1 eq_refl).
      destruct (String.eqb code "KeyR"); [now apply resetGame_fair|].
      now intros [= <-].
    + destruct (String.eqb code "KeyR"); [now apply resetGame_fair|].
      now intros [= <-].
  - destruct (String.eqb code "Space" && isCharging g);
      [|now intros [= <-]].
    unfold PachinkoGame.releaseBall.
    destruct (isCharging g); cbn [negb]; [|now intros [= <-]].
    destruct (PachinkoGame.launchBall _ _) as [[[] g1]|] eqn:E1;
      [|discriminate].
    intros [= <-]. apply launchBall_fair in E1; [exact E1 | exact Hg].
  - unfold PachinkoGame.gameLoop. apply update_fair. exact Hg.
Qed.

Lemma play_fair (es : list PachinkoGame.Event) : forall g g' : Game T,
  fair g -> PachinkoGame.play es g = Some (tt, g') -> fair g'.
Proof.
  induction es as [|e es IH]; intros g g' Hg E.
  - cbn in E. now injection E as <-.
  - cbn in E. destruct (PachinkoGame.handle e g) as [[[] g1]|] eqn:E1;
      [|discriminate].
    eapply IH; [eapply handle_fair|]; eassumption.
Qed.
End GameProofs.

(** X2.  [Physics.removeBody] never throws and removes the first
    occurrence of the body from the simulated bodies, and only that one: a
    body that is not simulated leaves the list as it is, a body that occurs
    several times occurs once less, and nothing else (the physics bodies,
    the machine, the callbacks called, the static bodies) changes. *)
Theorem removeBody_first_occurrence (T : Type) (N : Number T) (body : ref)
    (s : State T) :
  exists s',
    Physics.removeBody body s = Some (tt, s')
    /\ heap s' = heap s /\ machine s' = machine s /\ calls s' = calls s
    /\ staticBodies (physics s') = staticBodies (physics s)
    /\ (~ In body (bodies (physics s)) ->
        bodies (physics s') = bodies (physics s))
    /\ (forall l1 l2,
          bodies (physics s) = l1 ++ body :: l2 -> ~ In body l1 ->
          bodies (physics s') = l1 ++ l2)
    /\ (forall r,
          count_occ Nat.eq_dec (bodies (physics s')) r
          = if Nat.eqb r body
            then Nat.pred (count_occ Nat.eq_dec (bodies (physics s)) r)
            else count_occ Nat.eq_dec (bodies (physics s)) r).
Proof.
  eexists. split; [reflexivity|]. cbn.
  repeat (split; [reflexivity|]). split; [|split].
  - apply removeFirst_absent.
  - intros l1 l2 -> Hn. now apply removeFirst_first.
  - intros r. apply removeFirst_count.
Qed.

(** X3.  What [Physics.update] leaves alone, when it returns: the lists of
    simulated and static bodies, the machine and the objects created; of
    every body the radius, the mass, the flag [isStatic], the type, the
    callback, the corners and the height; and the whole of every body that
    is not simulated or that is static.  It calls [Math.random] at most once
    for each simulated body. *)
Theorem physics_update_frame (T : Type) (N : Number T) (deltaTime : T)
    (s s' : State T) :
  Physics.update deltaTime s = Some (tt, s') ->
  physics s' = physics s /\ machine s' = machine s
  /\ nextRef s' = nextRef s
  /\ (forall r, sameShape (heap s r) (heap s' r))
  /\ (forall r,
        ~ In r (bodies (physics s)) \/ isStatic (heap s r) = true ->
        heap s' r = heap s r)
  /\ (draws s <= draws s' <= draws s + List.length (bodies (physics s)))%nat.
Proof.
  unfold Physics.update, bind, get. intros E.
  apply forEach_updateBody_frame in E as ((Hp & Hm & Hn & _ & _ & Hs) & D & O).
  auto 10.
Qed.

Lemma launched_moves :
  exists s', Physics.update (dec 1 60) launched = Some (tt, s').
Proof. vm_compute. eexists. reflexivity. Qed.

Lemma physics_update_frame_witness :
  exists s',
    Physics.update (dec 1 60) launched = Some (tt, s')
    /\ physics s' = physics launched
    /\ forall r, sameShape (heap launched r) (heap s' r).
Proof.
  destruct launched_moves as (s' & E). exists s'. split; [exact E|].
  pose proof (physics_update_frame float FloatNumber _ _ _ E) as F.
  split; [apply F|]. apply F.
Defined.

(** X4.  [Physics.update] throws exactly when a simulated body is not
    static and a static body is a box that lacks one of its corners [min]
    and [max]: the collision check of [sphereVsBox] reads an element of
    [undefined]. *)
Theorem physics_update_throws (T : Type) (N : Number T) (deltaTime : T)
    (s : State T) :
  Physics.update deltaTime s = None
  <-> existsb (moving s) (bodies (physics s))
      && existsb (badBox s) (staticBodies (physics s)) = true.
Proof.
  unfold Physics.update, bind, get. apply forEach_updateBody_result.
Qed.

(** X5.  Among pins the vertical motion is free fall.  When no static body
    is a sphere or a box and the simulated bodies are distinct, one call of
    [Physics.update] that returns gives every simulated body that is not
    static exactly the vertical velocity [vy + gravity * fixedDelta] and the
    height [y + (vy + gravity * fixedDelta) * fixedDelta], [fixedDelta] being
    [Math.min(deltaTime, 1/60)]: the cylinders, the friction and the random
    perturbation act on the horizontal components only. *)
Theorem vertical_motion_among_pins (T : Type) (N : Number T) (deltaTime : T)
    (s s' : State T) (body : ref) :
  forallb (fun r => pinLike (heap s r)) (staticBodies (physics s)) = true ->
  NoDup (bodies (physics s)) -> In body (bodies (physics s)) ->
  isStatic (heap s body) = false ->
  Physics.update deltaTime s = Some (tt, s') ->
  let fixedDelta := Math_min deltaTime (ofZ 1 / ofZ 60)%num in
  at1 (velocity (heap s' body))
  = (at1 (velocity (heap s body)) + gravity (physics s) * fixedDelta)%num
  /\ at1 (position (heap s' body))
     = (at1 (position (heap s body))
        + (at1 (velocity (heap s body)) + gravity (physics s) * fixedDelta)
          * fixedDelta)%num.
Proof.
  intros Hl Hnd Hin Hs E. unfold Physics.update, bind, get in E.
  exact (forEach_updateBody_vertical _ body _ s s' Hl Hnd Hin Hs E).
Qed.

Lemma pinState64_moves :
  exists s', Physics.update (dec 1 60) pinState64 = Some (tt, s').
Proof. vm_compute. eexists. reflexivity. Qed.

Lemma vertical_motion_among_pins_witness :
  exists s',
    Physics.update (dec 1 60) pinState64 = Some (tt, s')
    /\ at1 (velocity (heap s' 0%nat))
       = (at1 (velocity (heap pinState64 0%nat))
          + gravity (physics pinState64)
            * Math_min (dec 1 60) (ofZ 1 / ofZ 60))%num.
Proof.
  destruct pinState64_moves as (s' & E). exists s'. split; [exact E|].
  assert (Hl : forallb (fun r => pinLike (heap pinState64 r))
                 (staticBodies (physics pinState64)) = true)
    by (vm_compute; reflexivity).
  assert (Hnd : NoDup (bodies (physics pinState64)))
    by (repeat constructor; intros []).
  assert (Hin : In 0%nat (bodies (physics pinState64))) by (now left).
  assert (Hs : isStatic (heap pinState64 0%nat) = false) by reflexivity.
  exact (proj1 (vertical_motion_among_pins float FloatNumber _ _ _ _
                  Hl Hnd Hin Hs E)).
Defined.

(** X6.  The defaults of the constructor of [PhysicsBody]: whatever the
    options, the radius, the mass and the height of the new body are truthy
    (not zero in exact arithmetic; neither zero nor NaN on binary64), its
    type is not the empty string, it has no collision callback, and it has
    both corners or none, both exactly when the options give both. *)
Theorem constructed_body :
  (forall options : Options R,
     let b := newPhysicsBody options in
     radius b <> 0 /\ mass b <> 0 /\ height b <> 0)
  /\ (forall options : Options float,
        let b := newPhysicsBody options in
        truthy (radius b) = true /\ truthy (mass b) = true
        /\ truthy (height b) = true)
  /\ (forall (T : Type) (N : Number T) (options : Options T),
        let b := newPhysicsBody options in
        type b <> EmptyString /\ onCollision b = None
        /\ (min b = None <-> max b = None)
        /\ hasCorners b
           = match o_min options, o_max options with
             | Some _, Some _ => true
             | _, _ => false
             end).
Proof.
  split; [|split].
  - intros options b.
    assert (Hor : forall o d, d <> 0 -> orNumber o d <> 0).
    { intros [v|] d Hd; cbn; [|exact Hd].
      unfold truthy. cbn. destruct (Reqb v 0) eqn:E.
      - now rewrite andb_false_r.
      - apply Reqb_false in E.
        replace (Reqb v v) with true by (symmetry; now apply Reqb_true).
        exact E. }
    unfold b; cbn; repeat split; apply Hor; cbn; lra.
  - intros options b.
    assert (Hor : forall (o : option float) d,
               truthy d = true -> truthy (orNumber o d) = true).
    { intros [v|] d Hd; cbn; [|exact Hd].
      destruct (truthy v) eqn:E; [exact E | exact Hd]. }
    unfold b; cbn; repeat split; apply Hor; vm_compute; reflexivity.
  - intros T N options b. unfold b, hasCorners. cbn.
    split.
    { destruct (o_type options) as [t|]; [|discriminate].
      destruct (String.eqb t EmptyString) eqn:E; [discriminate|].
      now apply String.eqb_neq in E. }
    split; [reflexivity|].
    destruct (o_min options), (o_max options); repeat split; congruence.
Qed.

(** X7.  The ball that [PachinkoMachine.launchBall] launches, in exact
    arithmetic, for a power between 0 and 1 and a [Math.random()] in
    [[0, 1)]: the call returns, draws one random number and appends one body
    and one ball that has not scored; the body is a sphere of radius 0.18
    that is not static, at [(width / 2 - 0.5, height - 0.5, 0)]; its velocity
    is to the left, between -8.5 and -1.5 horizontally, and upwards, between
    1.5 and 4.5, with no component in depth. *)
Theorem launchBall_velocity (power : R) (s : State R) :
  0 <= power <= 1 -> 0 <= entropy s (draws s) < 1 ->
  exists s',
    PachinkoMachine.launchBall power s = Some (nextBall s, s')
    /\ draws s' = S (draws s)
    /\ bodies (physics s') = bodies (physics s) ++ [nextRef s]
    /\ balls (machine s')
       = balls (machine s)
         ++ [{| ballId := nextBall s; body := nextRef s; scored := false;
                onScore := None |}]
    /\ let b := heap s' (nextRef s) in
       position b
       = vec3 (width (machine s) / 2 - 5 / 10) (mheight (machine s) - 5 / 10) 0
       /\ radius b = 18 / 100 /\ isStatic b = false
       /\ type b = "sphere"%string
       /\ at0 (velocity b)
          = - (5 + power * 10) * (5 / 10) + (entropy s (draws s) - 5 / 10) * 2
       /\ at1 (velocity b) = (5 + power * 10) * (3 / 10)
       /\ at2 (velocity b) = 0
       /\ - (17 / 2) <= at0 (velocity b) < - (3 / 2)
       /\ 3 / 2 <= at1 (velocity b) <= 9 / 2.
Proof.
  intros Hp Hr. eexists.
  split; [unfold PachinkoMachine.launchBall; cbn; reflexivity|].
  cbn -[Reqb]. rewrite !heap_at_same. cbn -[Reqb].
  split; [reflexivity|]. split; [reflexivity|]. split; [reflexivity|].
  split; [reflexivity|]. split.
  { unfold orNumber, truthy. cbn -[Reqb].
    replace (Reqb (18 / 100) (18 / 100)) with true
      by (symmetry; now apply Reqb_true).
    replace (Reqb (18 / 100) 0) with false
      by (symmetry; apply Reqb_false; lra).
    reflexivity. }
  split; [reflexivity|]. split; [reflexivity|]. split; [reflexivity|].
  split; [reflexivity|]. split; [reflexivity|]. split; lra.
Qed.

Lemma launchBall_velocity_witness :
  exists s',
    PachinkoMachine.launchBall (1 / 2) bare = Some (0%nat, s')
    /\ at1 (velocity (heap s' 0%nat)) = (5 + 1 / 2 * 10) * (3 / 10).
Proof.
  assert (Hp : 0 <= 1 / 2 <= 1) by lra.
  assert (Hr : 0 <= entropy bare (draws bare) < 1) by (cbn; lra).
  destruct (launchBall_velocity (1 / 2) bare Hp Hr) as (s' & E & _ & _ & _ & B).
  exists s'. split; [exact E|]. apply B.
Defined.

(** X8.  The simulated bodies are the bodies of the balls in play.  From a
    state without simulated bodies and without balls, after any sequence of
    launches, assignments of score callbacks, physics updates, machine
    updates and resets that returns, the simulated bodies of the engine are
    the bodies of the balls of the machine, in the same order, and no body
    occurs twice. *)
Theorem bodies_follow_balls (T : Type) (N : Number T)
    (l : list (@Action T)) (s s' : State T) :
  bodies (physics s) = [] -> balls (machine s) = [] ->
  run l s = Some (tt, s') ->
  bodies (physics s') = map body (balls (machine s'))
  /\ NoDup (bodies (physics s')).
Proof.
  intros Hb Hl E.
  destruct (run_inSync l s s' (fresh_inSync s Hb Hl) E) as (S1 & S2 & _).
  split; [exact S1 | exact S2].
Qed.

Lemma game_runs :
  exists s', run (game 200) board = Some (tt, s').
Proof.
  pose proof game_scores as Hg.
  destruct (run (game 200) board) as [[[] s']|]; [|discriminate].
  now exists s'.
Qed.

Lemma bodies_follow_balls_witness :
  exists s',
    run (game 200) board = Some (tt, s')
    /\ bodies (physics s') = map body (balls (machine s')).
Proof.
  assert (Hb : bodies (physics board) = []) by (vm_compute; reflexivity).
  assert (Hl : balls (machine board) = []) by (vm_compute; reflexivity).
  destruct game_runs as (s' & E). exists s'. split; [exact E|].
  exact (proj1 (bodies_follow_balls float FloatNumber _ _ _ Hb Hl E)).
Defined.

(** X9.  [PachinkoMachine.reset] never throws and leaves no ball in play; it
    adds no simulated body, and leaves none when the simulated bodies were
    those of the balls; the physics bodies, the callbacks called, the next
    ball identity, the static bodies and the slots are as they were, and a
    second reset changes nothing. *)
Theorem reset_clears_balls (T : Type) (N : Number T) (s : State T) :
  exists s',
    PachinkoMachine.reset s = Some (tt, s')
    /\ balls (machine s') = []
    /\ heap s' = heap s /\ calls s' = calls s /\ nextBall s' = nextBall s
    /\ staticBodies (physics s') = staticBodies (physics s)
    /\ slots (machine s') = slots (machine s)
    /\ (forall r, In r (bodies (physics s')) -> In r (bodies (physics s)))
    /\ (bodies (physics s) = map body (balls (machine s)) ->
        bodies (physics s') = [])
    /\ PachinkoMachine.reset s' = Some (tt, s').
Proof.
  destruct (reset_store s) as (s' & E & F & C & Nb & B & R).
  exists s'. split; [exact E|]. split; [exact B|]. split; [apply F|].
  split; [exact C|]. split; [exact Nb|]. split; [apply F|]. split; [apply F|].
  split; [|split].
  - intros r. rewrite R. apply removeAll_In.
  - intros Hs. rewrite R, Hs. apply removeAll_self.
  - unfold PachinkoMachine.reset, bind, get. rewrite B. cbn.
    destruct s' as [h n p m nb e d c]. destruct m as [w mh dp bl sl].
    cbn in B. subst bl. reflexivity.
Qed.

(** X10.  The program never throws once it is set up properly.  From a
    state in which every static body is an object created so far and every
    static box has both its corners ([ready]), any sequence of launches,
    assignments of score callbacks, physics updates, machine updates and
    resets returns, and leaves such a state. *)
Theorem run_never_throws (T : Type) (N : Number T) (l : list (@Action T))
    (s : State T) :
  ready s = true ->
  exists s', run l s = Some (tt, s') /\ ready s' = true.
Proof. apply run_ready. Qed.

Lemma run_never_throws_witness :
  exists s', run (game 3) board = Some (tt, s') /\ ready s' = true.
Proof.
  assert (Hr : ready board = true) by (vm_compute; reflexivity).
  exact (run_never_throws float FloatNumber (game 3) board Hr).
Defined.

(** X11.  The set-up of the machine ([createFrame] and [createSlots]) on the
    machine of the constructor never throws; it registers eleven static
    bodies, every one a box with both corners ([ready]), adds no simulated
    body and no ball, calls no callback, and lays out the seven slots of a
    machine of the width 6, whose points are between 0 and 500. *)
Theorem setup_is_ready (T : Type) (N : Number T) (rnd : nat -> T) :
  exists s',
    setup (initial rnd) = Some (tt, s')
    /\ ready s' = true
    /\ List.length (staticBodies (physics s')) = 11%nat
    /\ bodies (physics s') = [] /\ balls (machine s') = []
    /\ calls s' = []
    /\ slots (machine s')
       = map (PachinkoMachine.slotAt (ofZ 6)) (seq 0 PachinkoMachine.numSlots)
    /\ slotsPay s' = true.
Proof.
  destruct (setup_store rnd) as (s' & E & R & L & B & Bl & C & Sl).
  exists s'. repeat (split; [assumption|]).
  unfold slotsPay. rewrite Sl. reflexivity.
Qed.

Section GameTotal.
Context {T : Type} `{Number T}.

Lemma game_launchBall_ready power (g : Game T) :
  ready (world g) = true ->
  exists g',
    PachinkoGame.launchBall power g = Some (tt, g')
    /\ ready (world g') = true.
Proof.
  intros Hr. unfold PachinkoGame.launchBall.
  destruct (ballsRemaining g <=? 0)%Z; [now exists g|].
  destruct (launchBall_ready power (world g) Hr) as (w1 & E & Hr1).
  rewrite E. eexists. split; [reflexivity|]. exact Hr1.
Qed.

Lemma game_update_ready dt (g : Game T) :
  ready (world g) = true ->
  exists g',
    PachinkoGame.update dt g = Some (tt, g') /\ ready (world g') = true.
Proof.
  intros Hr. unfold PachinkoGame.update.
  destruct (isRunning g); cbn [negb]; [|now exists g].
  set (g1 := if isCharging g then _ else g).
  assert (Hw : world g1 = world g) by (unfold g1; now destruct (isCharging g)).
  clearbody g1. rewrite Hw.
  destruct (physics_update_ready dt (world g) Hr) as (w1 & E1 & Hr1).
  rewrite E1.
  destruct (machine_update_removes ballId dt w1 (fun b => eq_refl))
    as (w2 & E2 & F2 & _).
  rewrite E2. eexists. split; [reflexivity|].
  rewrite runCallbacks_effect. cbn.
  now rewrite (machineFrame_ready w1 w2 F2).
Qed.

Lemma game_resetGame_ready (g : Game T) :
  ready (world g) = true ->
  exists g',
    PachinkoGame.resetGame g = Some (tt, g') /\ ready (world g') = true.
Proof.
  intros Hr. unfold PachinkoGame.resetGame.
  cbn [world PachinkoGame.setBallsRemaining PachinkoGame.setScore].
  destruct (reset_store (world g)) as (w1 & E & F & _).
  rewrite E. eexists. split; [reflexivity|]. cbn.
  now rewrite (machineFrame_ready _ _ F).
Qed.

Lemma handle_ready (e : PachinkoGame.Event) (g : Game T) :
  ready (world g) = true ->
  exists g',
    PachinkoGame.handle e g = Some (tt, g') /\ ready (world g') = true.
Proof.
  intros Hr. destruct e as [| code rep | code | t]; cbn [PachinkoGame.handle].
  - now apply game_launchBall_ready.
  - assert (Hs : exists g1, PachinkoGame.startCharging g = Some (tt, g1)
                   /\ ready (world g1) = true).
    { unfold PachinkoGame.startCharging.
      destruct (ballsRemaining g <=? 0)%Z; eexists; split; try reflexivity;
        exact Hr. }
    destruct (String.eqb code "Space" && negb (isCharging g) && negb rep).
    + destruct Hs as (g1 & -> & Hr1).
      destruct (String.eqb code "KeyR");
        [now apply game_resetGame_ready | now exists g1].
    + destruct (String.eqb code "KeyR");
        [now apply game_resetGame_ready | now exists g].
  - destruct (String.eqb code "Space" && isCharging g); [|now exists g].
    unfold PachinkoGame.releaseBall.
    destruct (isCharging g); cbn [negb]; [|now exists g].
    destruct (game_launchBall_ready (launchPower g)
                (PachinkoGame.setIsCharging g false) Hr) as (g1 & -> & Hr1).
    eexists. split; [reflexivity|]. exact Hr1.
  - unfold PachinkoGame.gameLoop. now apply game_update_ready.
Qed.

Lemma play_ready (es : list PachinkoGame.Event) : forall g : Game T,
  ready (world g) = true ->
  exists g', PachinkoGame.play es g = Some (tt, g').
Proof.
  induction es as [|e es IH]; intros g Hr.
  - now exists g.
  - destruct (handle_ready e g Hr) as (g1 & E1 & Hr1).
    destruct (IH g1 Hr1) as (g' & E'). exists g'. cbn. now rewrite E1.
Qed.

Lemma started_fair (g : Game T) :
  score g = 0%Z -> ballsRemaining g = 10%Z ->
  balls (machine (world g)) = [] -> slotsPay (world g) = true -> fair g.
Proof.
  intros Hs Hb Hl Hp. unfold fair. rewrite Hs, Hb, Hl, Hp. cbn.
  repeat split; lia.
Qed.
End GameTotal.

(** X12.  The game is total and the score is bounded.  From a game with
    the score 0 and ten balls, around a machine that is set up ([ready], no
    ball in play, slots of at most 500 points), any sequence of clicks, key
    presses, key releases and animation frames returns; afterwards between
    0 and 10 balls remain, the score is between 0 and 500 for each ball
    launched since the last reset, and at most that many balls are in
    play. *)
Theorem game_score_bound (T : Type) (N : Number T)
    (es : list (@PachinkoGame.Event T)) (g : Game T) :
  score g = 0%Z -> ballsRemaining g = 10%Z ->
  balls (machine (world g)) = [] ->
  slotsPay (world g) = true -> ready (world g) = true ->
  exists g',
    PachinkoGame.play es g = Some (tt, g')
    /\ (0 <= ballsRemaining g' <= 10)%Z
    /\ (0 <= score g' <= 500 * (10 - ballsRemaining g'))%Z
    /\ (Z.of_nat (List.length (balls (machine (world g'))))
        <= 10 - ballsRemaining g')%Z.
Proof.
  intros Hs Hb Hl Hp Hr.
  destruct (play_ready es g Hr) as (g' & E). exists g'. split; [exact E|].
  destruct (play_fair es g g' (started_fair g Hs Hb Hl Hp) E)
    as (B & S0 & S1 & L & _).
  pose proof (unscored_nonneg (balls (machine (world g')))).
  repeat split; lia.
Qed.

Lemma session_score :
  option_map (fun r => (score (snd r), ballsRemaining (snd r)))
    (PachinkoGame.play (session 100) (PachinkoGame.started board (ofZ 0)))
  = Some (600%Z, 8%Z).
Proof. vm_compute. reflexivity. Qed.

Lemma game_score_bound_witness :
  exists g',
    PachinkoGame.play (session 100) (PachinkoGame.started board (ofZ 0))
    = Some (tt, g')
    /\ (0 <= score g' <= 500 * (10 - ballsRemaining g'))%Z.
Proof.
  assert (Hl : balls (machine board) = []) by (vm_compute; reflexivity).
  assert (Hp : slotsPay board = true) by (vm_compute; reflexivity).
  assert (Hr : ready board = true) by (vm_compute; reflexivity).
  destruct (game_score_bound float FloatNumber (session 100)
              (PachinkoGame.started board (ofZ 0)) eq_refl eq_refl Hl Hp Hr)
    as (g' & E & _ & S & _).
  exists g'. split; [exact E | exact S].
Defined.

(** Launch power *)
Section Power.

Lemma launchBall_power power (g g' : Game R) :
  PachinkoGame.launchBall power g = Some (tt, g') ->
  launchPower g' = launchPower g /\ lastTime g' = lastTime g.
Proof.
  unfold PachinkoGame.launchBall.
  destruct (ballsRemaining g <=? 0)%Z; [now intros [= <-]|].
  destruct (PachinkoMachine.launchBall _ _) as [[ball w1]|]; [|discriminate].
  unfold PachinkoMachine.setOnScore. now intros [= <-].
Qed.

Lemma handle_power (e : PachinkoGame.Event) (g g' : Game R) :
  PachinkoGame.handle e g = Some (tt, g') ->
  lastTime g'
  = match e with
    | PachinkoGame.AnimationFrame t => t
    | _ => lastTime g
    end
  /\ (launchPower g <= 1 -> launchPower g' <= 1)
  /\ (match e with
      | PachinkoGame.AnimationFrame t => lastTime g <= t
      | _ => True
      end -> 0 <= launchPower g -> 0 <= launchPower g').
Proof.
  destruct e as [| code rep | code | t]; cbn [PachinkoGame.handle].
  - intros E. apply launchBall_power in E as [-> ->]. auto.
  - assert (Hs : forall g1, PachinkoGame.startCharging g = Some (tt, g1) ->
               lastTime g1 = lastTime g
               /\ (launchPower g <= 1 -> launchPower g1 <= 1)
               /\ (0 <= launchPower g -> 0 <= launchPower g1)).
    { unfold PachinkoGame.startCharging.
      destruct (ballsRemaining g <=? 0)%Z; intros g1 [= <-]; cbn;
        repeat split; auto; lra. }
    assert (Hr : forall g1 g2 : Game R,
               PachinkoGame.resetGame g1 = Some (tt, g2) ->
               lastTime g2 = lastTime g1 /\ launchPower g2 = launchPower g1).
    { intros g1 g2. unfold PachinkoGame.resetGame.
      destruct (PachinkoMachine.reset _) as [[[] w1]|]; [|discriminate].
      now intros [= <-]. }
    destruct (String.eqb code "Space" && negb (isCharging g) && negb rep).
    + destruct (PachinkoGame.startCharging g) as [[[] g1]|] eqn:E1;
        [|discriminate].
      destruct (Hs g1 eq_refl) as (L1 & P1 & Q1).
      destruct (String.eqb code "KeyR").
      * intros E. apply Hr in E as [-> ->]. auto.
      * intros [= <-]. auto.
    + destruct (String.eqb code "KeyR").
      * intros E. apply Hr in E as [-> ->]. auto.
      * intros [= <-]. auto.
  - destruct (String.eqb code "Space" && isCharging g);
      [|intros [= <-]; auto].
    unfold PachinkoGame.releaseBall.
    destruct (isCharging g); cbn [negb]; [|intros [= <-]; auto].
    destruct (PachinkoGame.launchBall _ _) as [[[] g1]|] eqn:E1;
      [|discriminate].
    apply launchBall_power in E1 as [_ L1].
    intros [= <-]. cbn. rewrite L1. cbn. repeat split; auto; lra.
  - unfold PachinkoGame.gameLoop, PachinkoGame.update.
    cbn [isRunning isCharging PachinkoGame.setLastTime launchPower lastTime].
    destruct (isRunning g); cbn [negb]; [|intros [= <-]; cbn; auto].
    destruct (isCharging g).
    + cbn [world PachinkoGame.setLaunchPower].
      destruct (Physics.update _ _) as [[[] w1]|]; [|discriminate].
      destruct (PachinkoMachine.update _ _) as [[[] w2]|]; [|discriminate].
      intros [= <-]. rewrite runCallbacks_effect.
      cbn [lastTime launchPower PachinkoGame.setScore PachinkoGame.setWorld
           PachinkoGame.setLaunchPower Math_min RNumber ofZ add sub mul div
           dec].
      split; [reflexivity|]. split.
      * intros _. apply Rmin_l.
      * intros Ht H0. apply Rmin_glb; [lra|].
        assert (0 <= Rmin ((t - lastTime g) / 1000) (1 / 10))
          by (apply Rmin_glb; lra).
        lra.
    + destruct (Physics.update _ _) as [[[] w1]|]; [|discriminate].
      destruct (PachinkoMachine.update _ _) as [[[] w2]|]; [|discriminate].
      intros [= <-]. rewrite runCallbacks_effect. cbn. auto.
Qed.

Lemma play_power (es : list PachinkoGame.Event) : forall g g' : Game R,
  PachinkoGame.play es g = Some (tt, g') ->
  (launchPower g <= 1 -> launchPower g' <= 1)
  /\ (timely (lastTime g) es -> 0 <= launchPower g -> 0 <= launchPower g').
Proof.
  induction es as [|e es IH]; intros g g' E.
  - cbn in E. injection E as <-. auto.
  - cbn in E. destruct (PachinkoGame.handle e g) as [[[] g1]|] eqn:E1;
      [|discriminate].
    destruct (handle_power e g g1 E1) as (L1 & P1 & Q1).
    destruct (IH g1 g' E) as (P2 & Q2). split; [auto|].
    intros Ht H0. apply Q2.
    + rewrite L1. destruct e; cbn in Ht; try exact Ht. apply Ht.
    + apply Q1; [|exact H0]. destruct e; cbn in Ht; auto. apply Ht.
Qed.
End Power.

(** X13.  The launch power stays a fraction, in exact arithmetic.  From a
    launch power between 0 and 1, after any sequence of events that returns
    the launch power is at most 1; it is at least 0 when the times of the
    animation frames do not decrease. *)
Theorem launch_power_bounded (es : list (@PachinkoGame.Event R))
    (g g' : Game R) :
  0 <= launchPower g <= 1 ->
  PachinkoGame.play es g = Some (tt, g') ->
  launchPower g' <= 1
  /\ (timely (lastTime g) es -> 0 <= launchPower g').
Proof.
  intros [H0 H1] E. destruct (play_power es g g' E) as (P & Q).
  split; [auto|]. intros Ht. auto.
Qed.

(** ** The speed of the ball across a collision check *)

Lemma respond_speed (this : PhysicsFields R) (ball : PhysicsBody R)
    (n : Vec3 R) (depth : R) :
  dot3 n n = 1 ->
  dot3 (velocity (respond this ball n depth))
       (velocity (respond this ball n depth))
  = dot3 (velocity ball) (velocity ball)
    - 4 * restitution this * (1 - restitution this)
      * (dot3 (velocity ball) n * dot3 (velocity ball) n).
Proof.
  intros Hn. cbn [respond velocity setVelocity setPosition ofZ RNumber mul].
  set (v := velocity ball). set (e := restitution this).
  replace (dot3 (minus3 v (scale3 (2 * e * dot3 v n) n))
                (minus3 v (scale3 (2 * e * dot3 v n) n)))
    with (dot3 v v - 4 * e * (dot3 v n * dot3 v n)
          + 4 * e * e * (dot3 v n * dot3 v n) * dot3 n n)
    by (unfold dot3, minus3, scale3; cbn; ring).
  rewrite Hn. ring.
Qed.

Lemma respond_slower (this : PhysicsFields R) (ball : PhysicsBody R)
    (n : Vec3 R) (depth : R) :
  0 <= restitution this <= 1 -> dot3 n n = 1 ->
  dot3 (velocity (respond this ball n depth))
       (velocity (respond this ball n depth))
  <= dot3 (velocity ball) (velocity ball).
Proof.
  intros He Hn. rewrite (respond_speed this ball n depth Hn).
  assert (0 <= restitution this * (1 - restitution this)) by nra.
  assert (0 <= dot3 (velocity ball) n * dot3 (velocity ball) n) by nra.
  nra.
Qed.

Lemma recover_slower (this : PhysicsFields R) (ball : PhysicsBody R) :
  0 <= restitution this <= 1 ->
  dot3 (velocity (recover this ball)) (velocity (recover this ball))
  <= dot3 (velocity ball) (velocity ball).
Proof.
  intros He. unfold recover, dot3. cbn.
  set (vy := at1 (velocity ball)).
  assert (Rabs vy * Rabs vy = vy * vy).
  { unfold Rabs. destruct (Rcase_abs vy); ring. }
  assert (0 <= vy * vy) by nra.
  assert (Rabs vy * restitution this * (Rabs vy * restitution this)
          = vy * vy * (restitution this * restitution this)) by nra.
  assert (restitution this * restitution this <= 1) by nra.
  nra.
Qed.

(** What each resolver answers, in exact arithmetic. *)
Lemma sphere_cases (this : PhysicsFields R) (ball pin : PhysicsBody R) :
  Physics.sphereVsSphere this ball pin = (ball, [])
  \/ (0 < sphereDistance ball pin < radius ball + radius pin
      /\ Physics.sphereVsSphere this ball pin
         = (respond this ball (sphereNormal ball pin)
              (radius ball + radius pin - sphereDistance ball pin),
            Physics.callOnCollision ball pin)).
Proof.
  destruct (Rlt_dec 0 (sphereDistance ball pin)) as [H0|H0].
  - destruct (Rlt_dec (sphereDistance ball pin) (radius ball + radius pin))
      as [H1|H1].
    + right. split; [lra|]. apply sphere_hit. lra.
    + left. unfold Physics.sphereVsSphere.
      change (Math_sqrt _) with (sphereDistance ball pin).
      apply Rltb_false in H1. cbn [ltb add RNumber]. now rewrite H1.
  - left. apply sphere_skip. now apply Rltb_false.
Qed.

Lemma cylinder_cases (this : PhysicsFields R) (ball cylinder : PhysicsBody R) :
  Physics.sphereVsCylinder this ball cylinder = (ball, [])
  \/ (0 < cylinderDistance ball cylinder < radius ball + radius cylinder
      /\ inBand ball cylinder
      /\ Physics.sphereVsCylinder this ball cylinder
         = (respond this ball (cylinderNormal ball cylinder)
              (radius ball + radius cylinder - cylinderDistance ball cylinder),
            Physics.callOnCollision ball cylinder)).
Proof.
  destruct (Rlt_dec 0 (cylinderDistance ball cylinder)) as [H0|H0].
  - destruct (Rlt_dec (cylinderDistance ball cylinder)
                (radius ball + radius cylinder)) as [H1|H1].
    + destruct (Rle_dec (bandLow cylinder) (at1 (position ball))) as [B0|B0].
      * destruct (Rle_dec (at1 (position ball)) (bandHigh cylinder))
          as [B1|B1].
        -- right. split; [lra|]. split; [split; assumption|].
           apply cylinder_hit; [lra | split; assumption].
        -- left. apply cylinder_outside_band. apply andb_false_iff. right.
           now apply Rleb_false.
      * left. apply cylinder_outside_band. apply andb_false_iff. left.
        now apply Rleb_false.
    + left. unfold Physics.sphereVsCylinder.
      change (Math_sqrt _) with (cylinderDistance ball cylinder).
      apply Rltb_false in H1. cbn [ltb add RNumber]. now rewrite H1.
  - left. apply cylinder_skip. now apply Rltb_false.
Qed.

Lemma box_cases (this : PhysicsFields R) (ball box : PhysicsBody R)
    (bmin bmax : Vec3 R) :
  min box = Some bmin -> max box = Some bmax ->
  Physics.sphereVsBox this ball box = Some (ball, [])
  \/ (boxDistance ball bmin bmax = 0
      /\ Physics.sphereVsBox this ball box = Some (recover this ball, []))
  \/ (0 < boxDistance ball bmin bmax < radius ball
      /\ Physics.sphereVsBox this ball box
         = Some (respond this ball (boxNormal ball bmin bmax)
                   (radius ball - boxDistance ball bmin bmax),
                 Physics.callOnCollision ball box)).
Proof.
  intros Hmin Hmax.
  destruct (Rlt_dec 0 (boxDistance ball bmin bmax)) as [H0|H0].
  - destruct (Rlt_dec (boxDistance ball bmin bmax) (radius ball)) as [H1|H1].
    + right. right. split; [lra|]. apply box_hit; [assumption.. | lra].
    + left. unfold Physics.sphereVsBox. rewrite Hmin, Hmax.
      change (Math_sqrt _) with (boxDistance ball bmin bmax).
      apply Rltb_false in H1. cbn [ltb eqb ofZ RNumber]. rewrite H1.
      cbn [andb].
      replace (Reqb (boxDistance ball bmin bmax) 0) with false; [reflexivity|].
      symmetry. apply Reqb_false. lra.
  - right. left.
    assert (Hz : boxDistance ball bmin bmax = 0).
    { pose proof (norm3_nonneg
        (minus3 (position ball) (closestPoint (position ball) bmin bmax))).
      unfold boxDistance in *. lra. }
    split; [exact Hz|]. now apply box_inside with (bmin := bmin) (bmax := bmax).
Qed.

Lemma checkCollision_slower (this : PhysicsFields R)
    (ball obstacle ball' : PhysicsBody R) (cs : list (Call R)) :
  0 <= restitution this <= 1 ->
  Physics.checkCollision this ball obstacle = Some (ball', cs) ->
  dot3 (velocity ball') (velocity ball') <= dot3 (velocity ball) (velocity ball).
Proof.
  intros He. unfold Physics.checkCollision.
  destruct (String.eqb (type obstacle) "sphere").
  { destruct (sphere_cases this ball obstacle) as [-> | ([H0 H1] & ->)];
      intros [= <- _]; [apply Rle_refl|].
    apply respond_slower; [exact He | now apply sphereNormal_unit]. }
  destruct (String.eqb (type obstacle) "box").
  { destruct (min obstacle) as [bmin|] eqn:Hmin;
      [|unfold Physics.sphereVsBox; rewrite Hmin; discriminate].
    destruct (max obstacle) as [bmax|] eqn:Hmax;
      [|unfold Physics.sphereVsBox; rewrite Hmin, Hmax; discriminate].
    destruct (box_cases this ball obstacle bmin bmax Hmin Hmax)
      as [-> | [(_ & ->) | ([H0 H1] & ->)]]; intros [= <- _].
    - apply Rle_refl.
    - now apply recover_slower.
    - apply respond_slower; [exact He | now apply boxNormal_unit]. }
  destruct (String.eqb (type obstacle) "cylinder").
  { destruct (cylinder_cases this ball obstacle)
      as [-> | ([H0 H1] & _ & ->)]; intros [= <- _]; [apply Rle_refl|].
    apply respond_slower; [exact He | now apply cylinderNormal_unit]. }
  intros [= <- _]. apply Rle_refl.
Qed.

(** X14.  No collision check speeds the ball up.  In exact arithmetic and
    for a restitution between 0 and 1 (0.6 in the constructor), whatever
    the obstacle, the speed of the ball after [checkCollision] is at most its
    speed before; after a resolved contact with a sphere, of unit normal
    [n], the square of the speed has lost [4 e (1 - e) (v . n)^2]. *)
Theorem collision_never_speeds_up (this : PhysicsFields R)
    (ball obstacle ball' : PhysicsBody R) (cs : list (Call R)) :
  0 <= restitution this <= 1 ->
  Physics.checkCollision this ball obstacle = Some (ball', cs) ->
  norm3 (velocity ball') <= norm3 (velocity ball)
  /\ (0 < sphereDistance ball obstacle < radius ball + radius obstacle ->
      type obstacle = "sphere"%string ->
      dot3 (velocity ball') (velocity ball')
      = dot3 (velocity ball) (velocity ball)
        - 4 * restitution this * (1 - restitution this)
          * (dot3 (velocity ball) (sphereNormal ball obstacle)
             * dot3 (velocity ball) (sphereNormal ball obstacle))).
Proof.
  intros He E. split.
  - unfold norm3. cbn [Math_sqrt RNumber]. apply sqrt_le_1_alt.
    now apply (checkCollision_slower this ball obstacle ball' cs).
  - intros H Ht. unfold Physics.checkCollision in E. rewrite Ht in E.
    cbn [String.eqb Ascii.eqb Bool.eqb] in E.
    rewrite (sphere_hit this ball obstacle H) in E. injection E as <- _.
    apply respond_speed. apply sphereNormal_unit. lra.
Qed.

Lemma fallingBall_checked :
  exists ball' cs,
    Physics.checkCollision Physics.constructor fallingBall unitPin
    = Some (ball', cs).
Proof.
  unfold Physics.checkCollision. cbn [type unitPin sampleBody String.eqb].
  cbn [Ascii.eqb Bool.eqb]. eexists _, _.
  rewrite (sphere_hit _ _ _ fallingBall_hits). reflexivity.
Qed.

Lemma collision_never_speeds_up_witness :
  exists ball' cs,
    Physics.checkCollision Physics.constructor fallingBall unitPin
    = Some (ball', cs)
    /\ norm3 (velocity ball') <= norm3 (velocity fallingBall).
Proof.
  assert (He : 0 <= restitution (@Physics.constructor R _) <= 1)
    by (cbn; lra).
  destruct fallingBall_checked as (ball' & cs & E).
  exists ball', cs. split; [exact E|].
  exact (proj1 (collision_never_speeds_up _ _ _ _ _ He E)).
Defined.

(** ** The ball after a resolved contact with a cylinder or a box *)

Lemma cylinder_separated (this : PhysicsFields R)
    (ball cylinder : PhysicsBody R) :
  0 < cylinderDistance ball cylinder < radius ball + radius cylinder ->
  cylinderDistance
    (respond this ball (cylinderNormal ball cylinder)
       (radius ball + radius cylinder - cylinderDistance ball cylinder))
    cylinder
  = radius ball + radius cylinder.
Proof.
  intros [H0 H1]. pose proof (cylinderDistance_sq ball cylinder) as Hsq.
  unfold cylinderDistance at 1.
  cbn [respond position setVelocity setPosition plus3 scale3 cylinderNormal
       at0 at1 at2 add sub mul div Math_sqrt RNumber].
  set (d := cylinderDistance ball cylinder) in *.
  set (dx := at0 (position ball) - at0 (position cylinder)) in *.
  set (dz := at2 (position ball) - at2 (position cylinder)) in *.
  set (m := radius ball + radius cylinder) in *.
  clearbody d.
  replace (at0 (position ball) + (m - d) * (dx / d)
           - at0 (position cylinder)) with (m / d * dx)
    by (unfold dx; field; lra).
  replace (at2 (position ball) + (m - d) * (dz / d)
           - at2 (position cylinder)) with (m / d * dz)
    by (unfold dz; field; lra).
  replace (m / d * dx * (m / d * dx) + m / d * dz * (m / d * dz))
    with (m * m) by (rewrite <- (Rmult_1_r (m * m));
      replace 1 with ((dx * dx + dz * dz) / (d * d))
        by (rewrite <- Hsq; field; lra); field; lra).
  apply sqrt_square. lra.
Qed.

(** A point moved away from its closest point of a box, along the line
    that joins them, keeps its closest point. *)
Lemma clamp_ray (lo hi x k : R) :
  lo <= hi -> 0 <= k ->
  Rmax lo (Rmin (x + k * (x - Rmax lo (Rmin x hi))) hi)
  = Rmax lo (Rmin x hi).
Proof.
  intros Hlh Hk.
  destruct (Rlt_dec x lo) as [Hl|Hl].
  - rewrite (Rmin_left x hi) by lra. rewrite (Rmax_left lo x) by lra.
    assert (k * (x - lo) <= 0) by nra.
    rewrite Rmin_left by lra. apply Rmax_left. lra.
  - destruct (Rlt_dec hi x) as [Hh|Hh].
    + rewrite (Rmin_right x hi) by lra. rewrite (Rmax_right lo hi) by lra.
      assert (0 <= k * (x - hi)) by nra.
      rewrite Rmin_right by lra. apply Rmax_right. lra.
    + rewrite (Rmin_left x hi) by lra. rewrite (Rmax_right lo x) by lra.
      replace (x + k * (x - x)) with x by ring.
      rewrite Rmin_left by lra. apply Rmax_right. lra.
Qed.

Lemma box_closest_kept (this : PhysicsFields R) (ball : PhysicsBody R)
    (bmin bmax : Vec3 R) :
  at0 bmin <= at0 bmax -> at1 bmin <= at1 bmax -> at2 bmin <= at2 bmax ->
  0 < boxDistance ball bmin bmax < radius ball ->
  closestPoint
    (position (respond this ball (boxNormal ball bmin bmax)
                 (radius ball - boxDistance ball bmin bmax))) bmin bmax
  = closestPoint (position ball) bmin bmax.
Proof.
  intros B0 B1 B2 [H0 H1].
  cbn [respond position setVelocity setPosition].
  unfold boxNormal. set (d := boxDistance ball bmin bmax) in *. clearbody d.
  assert (Hk : 0 <= (radius ball - d) / d)
    by (apply Rlt_le, Rdiv_lt_0_compat; lra).
  unfold closestPoint, plus3, scale3, over3, minus3.
  cbn [at0 at1 at2 add sub mul div Math_max Math_min RNumber].
  f_equal.
  - rewrite <- (clamp_ray (at0 bmin) (at0 bmax) (at0 (position ball)) _ B0 Hk)
      at 2.
    f_equal. f_equal. field. lra.
  - rewrite <- (clamp_ray (at1 bmin) (at1 bmax) (at1 (position ball)) _ B1 Hk)
      at 2.
    f_equal. f_equal. field. lra.
  - rewrite <- (clamp_ray (at2 bmin) (at2 bmax) (at2 (position ball)) _ B2 Hk)
      at 2.
    f_equal. f_equal. field. lra.
Qed.

Lemma box_separated (this : PhysicsFields R) (ball : PhysicsBody R)
    (bmin bmax : Vec3 R) :
  at0 bmin <= at0 bmax -> at1 bmin <= at1 bmax -> at2 bmin <= at2 bmax ->
  0 < boxDistance ball bmin bmax < radius ball ->
  boxDistance
    (respond this ball (boxNormal ball bmin bmax)
       (radius ball - boxDistance ball bmin bmax)) bmin bmax
  = radius ball.
Proof.
  intros B0 B1 B2 H. unfold boxDistance at 1.
  rewrite (box_closest_kept this ball bmin bmax B0 B1 B2 H).
  destruct H as [H0 H1].
  cbn [respond position setVelocity setPosition].
  unfold boxNormal. rewrite over3_scale.
  set (d := boxDistance ball bmin bmax) in *.
  set (u := minus3 (position ball) (closestPoint (position ball) bmin bmax)).
  assert (Hu : norm3 u = d) by reflexivity.
  clearbody d.
  assert (E : minus3 (plus3 (position ball)
                        (scale3 (radius ball - d) (scale3 (/ d) u)))
                (closestPoint (position ball) bmin bmax)
              = scale3 (radius ball / d) u).
  { unfold u, minus3, plus3, scale3; cbn. f_equal; field; lra. }
  rewrite E, norm3_scale.
  - rewrite Hu. field. lra.
  - apply Rlt_le, Rdiv_lt_0_compat; lra.
Qed.

(** X15.  A resolved contact leaves the ball touching the obstacle, in
    exact arithmetic.  After [sphereVsCylinder] has resolved a penetration,
    the horizontal distance of the ball from the axis is the sum of the
    radii and its height is unchanged; after [sphereVsBox] has resolved a
    penetration of a box with [min <= max], the point of the box closest to
    the ball is the same as before and its distance is the radius of the
    ball. *)
Theorem contact_leaves_tangent (this : PhysicsFields R) :
  (forall ball cylinder : PhysicsBody R,
      0 < cylinderDistance ball cylinder < radius ball + radius cylinder ->
      inBand ball cylinder ->
      let ball' := fst (Physics.sphereVsCylinder this ball cylinder) in
      cylinderDistance ball' cylinder = radius ball + radius cylinder
      /\ at1 (position ball') = at1 (position ball)
      /\ radius ball' = radius ball)
  /\ (forall (ball box : PhysicsBody R) (bmin bmax : Vec3 R),
        min box = Some bmin -> max box = Some bmax ->
        at0 bmin <= at0 bmax -> at1 bmin <= at1 bmax ->
        at2 bmin <= at2 bmax ->
        0 < boxDistance ball bmin bmax < radius ball ->
        exists ball' cs,
          Physics.sphereVsBox this ball box = Some (ball', cs)
          /\ closestPoint (position ball') bmin bmax
             = closestPoint (position ball) bmin bmax
          /\ boxDistance ball' bmin bmax = radius ball
          /\ radius ball' = radius ball).
Proof.
  split.
  - intros ball cylinder H Hb ball'. subst ball'.
    rewrite (cylinder_hit this ball cylinder H Hb). cbn [fst].
    split; [now apply cylinder_separated|]. split; [|reflexivity].
    cbn [respond position setVelocity setPosition plus3 scale3 cylinderNormal
         at1 add mul ofZ RNumber]. ring.
  - intros ball box bmin bmax Hmin Hmax B0 B1 B2 H.
    eexists _, _.
    split; [exact (box_hit this ball box bmin bmax Hmin Hmax H)|].
    split; [now apply box_closest_kept|]. split; [now apply box_separated|].
    reflexivity.
Qed.

Lemma contact_leaves_tangent_witness :
  cylinderDistance
    (fst (Physics.sphereVsCylinder Physics.constructor sideBall unitCylinder))
    unitCylinder
  = radius sideBall + radius unitCylinder
  /\ exists ball' cs,
       Physics.sphereVsBox Physics.constructor landingBall floorBox
       = Some (ball', cs)
       /\ boxDistance ball' floorMin floorMax = radius landingBall.
Proof.
  split.
  - exact (proj1 (proj1 (contact_leaves_tangent Physics.constructor)
                    sideBall unitCylinder sideBall_hits sideBall_inBand)).
  - assert (B0 : at0 floorMin <= at0 floorMax) by (cbn; lra).
    assert (B1 : at1 floorMin <= at1 floorMax) by (cbn; lra).
    assert (B2 : at2 floorMin <= at2 floorMax) by (cbn; lra).
    destruct (proj2 (contact_leaves_tangent Physics.constructor)
                landingBall floorBox floorMin floorMax eq_refl eq_refl
                B0 B1 B2 landingBall_hits) as (ball' & cs & E & _ & D & _).
    exists ball', cs. split; [exact E | exact D].
Defined.

(** ** Frames in which the machine has nothing to do *)

Lemma updateFrom_idle (n : nat) (s : State R) :
  (forall b, In b (balls (machine s)) ->
     (scored b = true \/ 1 / 2 <= at1 (position (heap s (body b))))
     /\ -2 <= at1 (position (heap s (body b)))) ->
  (n <= List.length (balls (machine s)))%nat ->
  PachinkoMachine.updateFrom n s = Some (tt, s).
Proof.
  intros Hall. induction n as [|i IH]; intros Hn; [reflexivity|].
  cbn [PachinkoMachine.updateFrom]. unfold bind.
  assert (E : PachinkoMachine.updateBall i s = Some (tt, s)).
  { unfold PachinkoMachine.updateBall, bind, get.
    destruct (nth_error (balls (machine s)) i) as [ball|] eqn:Hnth;
      [|apply nth_error_None in Hnth; lia].
    destruct (Hall ball (nth_error_In _ _ Hnth)) as [Hs Hy].
    assert (E1 : PachinkoMachine.checkScore i ball s = Some (tt, s)).
    { unfold PachinkoMachine.checkScore, bind, load.
      destruct Hs as [-> | Hs]; [reflexivity|].
      cbn [ltb dec ofZ div RNumber].
      replace (Rltb (at1 (position (heap s (body ball)))) (5 / 10))
        with false by (symmetry; apply Rltb_false; lra).
      now rewrite andb_false_r. }
    rewrite E1. unfold PachinkoMachine.checkRemove, bind, load.
    cbn [ltb neg ofZ RNumber].
    replace (Rltb (at1 (position (heap s (body ball)))) (Ropp 2))
      with false by (symmetry; apply Rltb_false; lra).
    reflexivity. }
  rewrite E. apply IH. lia.
Qed.

(** X16.  [PachinkoMachine.update] leaves the game logic as it is and calls
    no callback as long as every ball in play is at or above the height -2
    and has either scored already or is at or above the scoring height 1/2
    (in exact arithmetic): the bodies of the physics engine, the lists of
    simulated and of static bodies, the balls with their [scored] flags and
    callbacks, the slots and the random stream are after the call what they
    were before it.  This is all that [State] holds; the model matrices of
    the balls, which the same loop writes anew at every call, are no part of
    it and are not covered. *)
Theorem update_idle (deltaTime : R) (s : State R) :
  (forall b, In b (balls (machine s)) ->
     (scored b = true \/ 1 / 2 <= at1 (position (heap s (body b))))
     /\ -2 <= at1 (position (heap s (body b)))) ->
  PachinkoMachine.update deltaTime s = Some (tt, s).
Proof.
  intros Hall. unfold PachinkoMachine.update, bind, get.
  now apply updateFrom_idle.
Qed.

Lemma update_idle_witness :
  PachinkoMachine.update (1 / 60) hovering = Some (tt, hovering).
Proof.
  apply update_idle. intros b [<- | []]. cbn. split; [right|]; lra.
Defined.

Lemma charging_plays :
  exists g',
    PachinkoGame.play charging (PachinkoGame.started bare 1000)
    = Some (tt, g').
Proof. eexists. cbn. reflexivity. Qed.

Lemma launch_power_bounded_witness :
  exists g',
    PachinkoGame.play charging (PachinkoGame.started bare 1000)
    = Some (tt, g')
    /\ 0 <= launchPower g' <= 1.
Proof.
  assert (H : 0 <= launchPower (PachinkoGame.started bare 1000) <= 1)
    by (cbn; lra).
  assert (Ht : timely (lastTime (PachinkoGame.started bare 1000)) charging)
    by (cbn; lra).
  destruct charging_plays as (g' & E). exists g'. split; [exact E|].
  destruct (launch_power_bounded charging _ g' H E) as [P Q].
  split; [exact (Q Ht) | exact P].
Defined.

(** ** Arrays: what a function body leaves in the arrays *)

Section ArraysProofs.
Context {T : Type} `{Number T}.
Local Open Scope nat_scope.

Lemma written_extend (h hk : Arrays T) (out : ref) (k : nat) (v : T)
    (spec : nat -> T) :
  (forall r j, hk r j = written h out k spec r j) ->
  v = spec k ->
  forall r j, setAt hk out k v r j = written h out (S k) spec r j.
Proof.
  intros Hk Hv r j. unfold setAt. rewrite Hk. unfold written.
  destruct (Nat.eqb r out); cbn [andb]; [|reflexivity].
  destruct (Nat.eqb j k) eqn:E.
  - apply Nat.eqb_eq in E. subst j.
    replace (k <? S k) with true by (symmetry; apply Nat.ltb_lt; lia).
    exact Hv.
  - apply Nat.eqb_neq in E.
    destruct (j <? k) eqn:E1.
    + apply Nat.ltb_lt in E1.
      replace (j <? S k) with true by (symmetry; apply Nat.ltb_lt; lia).
      reflexivity.
    + apply Nat.ltb_ge in E1.
      replace (j <? S k) with false by (symmetry; apply Nat.ltb_ge; lia).
      reflexivity.
Qed.

Lemma written_start (h : Arrays T) (out : ref) (spec : nat -> T) :
  forall r j, h r j = written h out 0 spec r j.
Proof. intros r j. unfold written. now rewrite andb_false_r. Qed.

(** An element that has not been written yet. *)
Lemma written_not_yet (h : Arrays T) (out : ref) (k : nat)
    (spec : nat -> T) (r : ref) (j : nat) :
  Nat.ltb j k = false -> written h out k spec r j = h r j.
Proof. intros E. unfold written. now rewrite E, andb_false_r. Qed.

Lemma written_other (h : Arrays T) (out : ref) (k : nat)
    (spec : nat -> T) (r : ref) (j : nat) :
  r <> out -> written h out k spec r j = h r j.
Proof.
  intros Hr. unfold written. now rewrite (proj2 (Nat.eqb_neq r out) Hr).
Qed.

Lemma local_step {A} (e : Arrays T -> A) (k : A -> Code T) (h : Arrays T) :
  local e k h = k (e h) h.
Proof. reflexivity. Qed.

Lemma assign_step (out : ref) (i : nat) (e : Arrays T -> T) (k : Code T)
    (h : Arrays T) :
  assign out i e k h = k (setAt h out i (e h)).
Proof. reflexivity. Qed.

Lemma written_same (h : Arrays T) (out : ref) (k : nat)
    (spec : nat -> T) (j : nat) :
  Nat.ltb j k = true -> written h out k spec out j = spec j.
Proof. intros E. unfold written. now rewrite Nat.eqb_refl, E. Qed.
End ArraysProofs.

(** One statement of a function body: the fact about the arrays so far
    becomes the fact about the arrays after the statement.  [tac] proves
    that the value assigned is the value expected. *)
Ltac step_local :=
  lazymatch goal with
  | |- forall r j, local (fun _ => ?v) ?k ?hk r j = _ =>
      let x := fresh "x" in
      rewrite (local_step (fun _ => v) k hk);
      set (x := (fun _ : Arrays _ => v) hk); cbv beta
  | R : forall r j, ?hk r j = written ?h0 ?out _ ?spec r j
    |- forall r j, local ?e ?k ?hk r j = written ?h0 ?out ?n ?spec r j =>
      rewrite (local_step e k hk); cbv beta;
      rewrite ?R; rewrite ?written_not_yet by reflexivity
  end.

Ltac step_assign tac :=
  lazymatch goal with
  | R : forall r j, ?hk r j = written ?h0 ?out ?i ?spec r j
    |- forall r j,
         assign ?out ?i ?e ?k ?hk r j = written ?h0 ?out ?n ?spec r j =>
      let h' := fresh "h" in
      let R' := fresh "R" in
      rewrite (assign_step out i e k hk);
      set (h' := setAt hk out i (e hk));
      assert (R' : forall r j, h' r j = written h0 out (S i) spec r j)
        by (apply (written_extend h0 hk out i (e hk) spec R); cbv beta;
            rewrite ?R; tac);
      clearbody h'; clear R; try clear hk
  end.

(** The start: the arrays [h] under a name of their own, with the fact that
    nothing has been written. *)
Ltac start_body h out spec :=
  let R := fresh "R" in
  let hk := fresh "h" in
  pose proof (written_start h out spec) as R;
  pose (hk := h);
  change (forall r j, hk r j = written h out 0 spec r j) in R;
  lazymatch goal with
  | |- forall r j, ?f h r j = ?rhs =>
      change (forall r j, f hk r j = rhs)
  end;
  clearbody hk.

Ltac finish_body :=
  lazymatch goal with
  | R : forall r j, ?hk r j = written ?h0 ?out _ ?spec r j
    |- forall r j, done ?hk r j = _ => exact R
  end.

Section InPlace.
Context {T : Type} `{Number T}.
Local Open Scope nat_scope.

Lemma identity_result (out : ref) (h : Arrays T) :
  forall r i, mat4.identity out h r i = written h out 16 identityMatrix r i.
Proof.
  start_body h out (@identityMatrix T _).
  unfold mat4.identity.
  do 16 step_assign ltac:(reflexivity).
  finish_body.
Qed.

Lemma translate_result (out a v : ref) (h : Arrays T) :
  forall r i,
  mat4.translate out a v h r i
  = written h out 16 (translated (h a) (vectorAt (h v))) r i.
Proof.
  set (spec := translated (h a) (vectorAt (h v))).
  start_body h out spec.
  unfold mat4.translate.
  do 3 step_local.
  do 16 step_assign ltac:(
    unfold written; subst spec;
    cbn [Nat.ltb Nat.leb andb translated Nat.sub at0 at1 at2 vectorAt];
    rewrite ?andb_true_r, ?andb_false_r; destruct (Nat.eqb a out) eqn:Ea;
    [apply Nat.eqb_eq in Ea; subst a|]; reflexivity).
  finish_body.
Qed.

Lemma multiply_result (out a b : ref) (h : Arrays T) :
  forall r i,
  mat4.multiply out a b h r i = written h out 16 (product (h a) (h b)) r i.
Proof.
  set (spec := product (h a) (h b)).
  start_body h out spec.
  unfold mat4.multiply.
  do 20 step_local.
  do 4 step_assign ltac:(subst spec; reflexivity).
  do 4 step_local.
  do 4 step_assign ltac:(subst spec; reflexivity).
  do 4 step_local.
  do 4 step_assign ltac:(subst spec; reflexivity).
  do 4 step_local.
  do 4 step_assign ltac:(subst spec; reflexivity).
  finish_body.
Qed.
End InPlace.

Section MathResults.
Context {T : Type} `{Number T}.
Local Open Scope nat_scope.

Lemma lookAt_result (out eye center up : ref) (h : Arrays T) :
  forall r i,
  mat4.lookAt out eye center up h r i
  = written h out 16
      (viewOf (vectorAt (h eye)) (vectorAt (h center)) (vectorAt (h up))) r i.
Proof.
  set (spec := viewOf (vectorAt (h eye)) (vectorAt (h center))
                 (vectorAt (h up))).
  start_body h out spec.
  unfold mat4.lookAt.
  do 32 step_local.
  do 16 step_assign ltac:(subst spec; reflexivity).
  finish_body.
Qed.

Lemma perspective_result `{Trig T} (out : ref) (fovy aspect near far : T)
    (h : Arrays T) :
  forall r i,
  mat4.perspective out fovy aspect near far h r i
  = written h out 16
      (projectionOf (ofZ 1 / Math_tan (fovy / ofZ 2))%num aspect near far) r i.
Proof.
  set (spec := projectionOf (ofZ 1 / Math_tan (fovy / ofZ 2))%num
                 aspect near far).
  start_body h out spec.
  unfold mat4.perspective.
  step_local.
  do 16 step_assign ltac:(subst spec; reflexivity).
  finish_body.
Qed.
End MathResults.

Section Vec3Results.
Context {T : Type} `{Number T}.
Local Open Scope nat_scope.

Lemma normalize_result (out a : ref) (h : Arrays T) :
  let len := vec3.length a h in
  forall r i,
  vec3.normalize out a h r i
  = if (len >? ofZ 0)%num
    then written h out 3 (fun j => (h a j / len)%num) r i
    else h r i.
Proof.
  intros len. unfold vec3.normalize. rewrite local_step. cbv beta.
  change (Math_sqrt _) with len.
  destruct (len >? ofZ 0)%num; [|reflexivity].
  set (spec := fun j => (h a j / len)%num).
  start_body h out spec.
  do 3 step_assign ltac:(
    rewrite ?written_not_yet by reflexivity; subst spec; reflexivity).
  finish_body.
Qed.

Lemma cross_result (out a b : ref) (h : Arrays T) :
  out <> a -> out <> b ->
  forall r i,
  vec3.cross out a b h r i
  = written h out 3 (arrayOf (cross3 (vectorAt (h a)) (vectorAt (h b)))) r i.
Proof.
  intros Ha Hb.
  set (spec := arrayOf (cross3 (vectorAt (h a)) (vectorAt (h b)))).
  start_body h out spec.
  unfold vec3.cross.
  do 3 step_assign ltac:(
    rewrite ?written_other by congruence; subst spec; reflexivity).
  finish_body.
Qed.
End Vec3Results.

(** ** Matrices, in exact arithmetic *)

Lemma product_assoc (a b c : nat -> R) (i : nat) :
  (i < 16)%nat -> product (product a b) c i = product a (product b c) i.
Proof.
  intros Hi.
  do 16 (destruct i as [|i]; [unfold product; cbn; ring|]). lia.
Qed.

Lemma product_identity_right (a : nat -> R) (i : nat) :
  (i < 16)%nat -> product a identityMatrix i = a i.
Proof.
  intros Hi.
  do 16 (destruct i as [|i]; [unfold product; cbn; ring|]). lia.
Qed.

Lemma product_identity_left (a : nat -> R) (i : nat) :
  (i < 16)%nat -> product identityMatrix a i = a i.
Proof.
  intros Hi.
  do 16 (destruct i as [|i]; [unfold product; cbn; ring|]). lia.
Qed.

Lemma translated_product (a : nat -> R) (v : Vec3 R) (i : nat) :
  (i < 16)%nat -> translated a v i = product a (translation v) i.
Proof.
  intros Hi.
  do 16 (destruct i as [|i]; [unfold product, translated; cbn; ring|]). lia.
Qed.

Lemma transform_product (a b : nat -> R) (p : Vec3 R) :
  b 3%nat = 0 -> b 7%nat = 0 -> b 11%nat = 0 -> b 15%nat = 1 ->
  transformPoint (product a b) p = transformPoint a (transformPoint b p).
Proof.
  intros B3 B7 B11 B15. unfold transformPoint, product. cbn.
  rewrite B3, B7, B11, B15. f_equal; ring.
Qed.

(** ** The view of [lookAt], in exact arithmetic *)

Lemma cross3_orthogonal (u v : Vec3 R) :
  dot3 (cross3 u v) u = 0 /\ dot3 (cross3 u v) v = 0.
Proof. unfold dot3, cross3; cbn; split; ring. Qed.

(** The square of the length of a cross product. *)
Lemma cross3_norm (u v : Vec3 R) :
  dot3 (cross3 u v) (cross3 u v)
  = dot3 u u * dot3 v v - dot3 u v * dot3 u v.
Proof. unfold dot3, cross3; cbn; ring. Qed.

Lemma truthy_nonzero (x : R) : truthy x = true <-> x <> 0.
Proof.
  unfold truthy. cbn [eqb ofZ RNumber].
  replace (Reqb x x) with true by (symmetry; now apply Reqb_true).
  cbn [andb]. rewrite negb_true_iff. apply Reqb_false.
Qed.

(** [normalizeIf] keeps the direction: the result is a multiple of the
    vector. *)
Lemma normalizeIf_multiple (len : R) (v : Vec3 R) :
  exists k, mat4.normalizeIf len v = scale3 k v.
Proof.
  unfold mat4.normalizeIf. destruct (truthy len).
  - exists (1 / len). unfold scale3; cbn. f_equal; ring.
  - exists 1. unfold scale3; cbn. destruct v; cbn. f_equal; ring.
Qed.

(** With the length of the vector, not zero, the result is a unit
    vector. *)
Lemma normalizeIf_unit (v : Vec3 R) :
  norm3 v <> 0 -> dot3 (mat4.normalizeIf (norm3 v) v)
                    (mat4.normalizeIf (norm3 v) v) = 1.
Proof.
  intros Hn. unfold mat4.normalizeIf.
  rewrite (proj2 (truthy_nonzero (norm3 v)) Hn).
  replace (vec3 (at0 v * (ofZ 1 / norm3 v))%num (at1 v * (ofZ 1 / norm3 v))%num
             (at2 v * (ofZ 1 / norm3 v))%num)
    with (scale3 (/ norm3 v) v)
    by (unfold scale3; cbn; f_equal; field; exact Hn).
  rewrite dot3_scale, <- norm3_sq. field. exact Hn.
Qed.

Lemma zAxis_scaled (e c : Vec3 R) :
  zAxis e c = scale3 (/ norm3 (minus3 e c)) (minus3 e c).
Proof.
  unfold zAxis, scale3, norm3, dot3. cbn.
  f_equal; unfold Rdiv; ring.
Qed.

Lemma zAxis_unit (e c : Vec3 R) :
  0 < norm3 (minus3 e c) -> dot3 (zAxis e c) (zAxis e c) = 1.
Proof.
  intros Hd. rewrite zAxis_scaled, dot3_scale, <- norm3_sq. field. lra.
Qed.

Lemma xAxis_norm (e c u : Vec3 R) :
  xAxis e c u
  = mat4.normalizeIf (norm3 (cross3 u (zAxis e c))) (cross3 u (zAxis e c)).
Proof. reflexivity. Qed.

Lemma yAxis_norm (e c u : Vec3 R) :
  yAxis e c u
  = mat4.normalizeIf (norm3 (cross3 (zAxis e c) (xAxis e c u)))
      (cross3 (zAxis e c) (xAxis e c u)).
Proof. reflexivity. Qed.

Lemma dot3_scale_left (k : R) (u v : Vec3 R) :
  dot3 (scale3 k u) v = k * dot3 u v.
Proof. unfold dot3, scale3; cbn; ring. Qed.

Lemma dot3_comm (u v : Vec3 R) : dot3 u v = dot3 v u.
Proof. unfold dot3; cbn; ring. Qed.

Lemma xAxis_orthogonal (e c u : Vec3 R) :
  dot3 (xAxis e c u) (zAxis e c) = 0.
Proof.
  rewrite xAxis_norm.
  destruct (normalizeIf_multiple (norm3 (cross3 u (zAxis e c)))
              (cross3 u (zAxis e c))) as (k & ->).
  rewrite dot3_scale_left, (proj2 (cross3_orthogonal _ _)). ring.
Qed.

Lemma yAxis_orthogonal (e c u : Vec3 R) :
  dot3 (yAxis e c u) (zAxis e c) = 0
  /\ dot3 (yAxis e c u) (xAxis e c u) = 0.
Proof.
  rewrite yAxis_norm.
  destruct (normalizeIf_multiple
              (norm3 (cross3 (zAxis e c) (xAxis e c u)))
              (cross3 (zAxis e c) (xAxis e c u))) as (k & ->).
  rewrite !dot3_scale_left.
  rewrite (proj1 (cross3_orthogonal _ _)), (proj2 (cross3_orthogonal _ _)).
  split; ring.
Qed.

(** The view sends the eye to the origin. *)
Lemma view_eye (e c u : Vec3 R) :
  transformPoint (viewOf e c u) e = vec3 0 0 0
  /\ forall p, transformW (viewOf e c u) p = 1.
Proof.
  split.
  - unfold transformPoint, viewOf. cbn. f_equal; ring.
  - intros p. unfold transformW, viewOf. cbn. ring.
Qed.

(** The view sends the centre to the point of the axis [-z] at the
    distance of the eye. *)
Lemma view_center (e c u : Vec3 R) :
  0 < norm3 (minus3 e c) ->
  transformPoint (viewOf e c u) c = vec3 0 0 (- norm3 (minus3 e c)).
Proof.
  intros Hd.
  pose proof (xAxis_orthogonal e c u) as Hx.
  pose proof (proj1 (yAxis_orthogonal e c u)) as Hy.
  pose proof (zAxis_unit e c Hd) as Hz.
  rewrite zAxis_scaled in Hx, Hy.
  rewrite dot3_comm, dot3_scale_left in Hx, Hy.
  assert (Hx' : dot3 (minus3 e c) (xAxis e c u) = 0).
  { apply Rmult_integral in Hx as [Hx|Hx]; [|exact Hx].
    exfalso. apply Rinv_neq_0_compat in Hx; [exact Hx | lra]. }
  assert (Hy' : dot3 (minus3 e c) (yAxis e c u) = 0).
  { apply Rmult_integral in Hy as [Hy|Hy]; [|exact Hy].
    exfalso. apply Rinv_neq_0_compat in Hy; [exact Hy | lra]. }
  assert (Hz' : dot3 (minus3 e c) (zAxis e c) = norm3 (minus3 e c)).
  { rewrite zAxis_scaled, dot3_comm, dot3_scale_left, <- norm3_sq.
    field. lra. }
  clear Hx Hy Hz. set (d := norm3 (minus3 e c)) in *. clearbody d.
  unfold transformPoint, viewOf.
  cbn [at0 at1 at2 add sub mul neg ofZ RNumber].
  unfold dot3, minus3 in Hx', Hy', Hz'.
  cbn [at0 at1 at2 add sub mul RNumber] in Hx', Hy', Hz'.
  f_equal.
  - rewrite <- Ropp_0, <- Hx'. ring.
  - rewrite <- Ropp_0, <- Hy'. ring.
  - rewrite <- Hz'. ring.
Qed.

(** The axes of the view are orthogonal, and unit vectors when the
    direction [up] is not along the line of sight. *)
Lemma view_orthonormal (e c u : Vec3 R) :
  0 < norm3 (minus3 e c) ->
  norm3 (cross3 u (zAxis e c)) <> 0 ->
  dot3 (xAxis e c u) (xAxis e c u) = 1
  /\ dot3 (yAxis e c u) (yAxis e c u) = 1
  /\ dot3 (zAxis e c) (zAxis e c) = 1.
Proof.
  intros Hd Hu.
  pose proof (zAxis_unit e c Hd) as Hz.
  assert (Hx : dot3 (xAxis e c u) (xAxis e c u) = 1)
    by (rewrite xAxis_norm; now apply normalizeIf_unit).
  split; [exact Hx|]. split; [|exact Hz].
  rewrite yAxis_norm. apply normalizeIf_unit.
  assert (Hc : dot3 (cross3 (zAxis e c) (xAxis e c u))
                    (cross3 (zAxis e c) (xAxis e c u)) = 1).
  { rewrite cross3_norm, Hz, Hx.
    rewrite (dot3_comm (zAxis e c)), (xAxis_orthogonal e c u). ring. }
  unfold norm3. cbn [Math_sqrt RNumber]. rewrite Hc, sqrt_1. lra.
Qed.

(** ** The functions of [mat4] and [vec3], for their callers *)

Lemma axis_view (e c u : Vec3 R) :
  axis (viewOf e c u) 0 = xAxis e c u
  /\ axis (viewOf e c u) 1 = yAxis e c u
  /\ axis (viewOf e c u) 2 = zAxis e c.
Proof.
  unfold axis, viewOf. cbn [Nat.add].
  repeat split; match goal with |- _ = ?x => now destruct x end.
Qed.

Lemma axis_ext {T} (m m' : nat -> T) (k : nat) :
  (k < 4)%nat -> (forall i, (i < 16)%nat -> m i = m' i) ->
  axis m k = axis m' k.
Proof.
  intros Hk E. unfold axis. rewrite !E by lia. reflexivity.
Qed.

Lemma transformPoint_ext (m m' : nat -> R) (p : Vec3 R) :
  (forall i, (i < 16)%nat -> m i = m' i) ->
  transformPoint m p = transformPoint m' p.
Proof.
  intros E. unfold transformPoint. rewrite !E by lia. reflexivity.
Qed.

Lemma transformW_ext (m m' : nat -> R) (p : Vec3 R) :
  (forall i, (i < 16)%nat -> m i = m' i) ->
  transformW m p = transformW m' p.
Proof.
  intros E. unfold transformW. rewrite !E by lia. reflexivity.
Qed.

Lemma product_ext {T} `{Number T} (a a' b b' : nat -> T) (i : nat) :
  (forall j, (j < 16)%nat -> a j = a' j) ->
  (forall j, (j < 16)%nat -> b j = b' j) ->
  (i < 16)%nat -> product a b i = product a' b' i.
Proof.
  intros Ha Hb Hi.
  do 16 (destruct i as [|i];
         [unfold product; cbn [Nat.div Nat.modulo Nat.divmod fst snd Nat.add
                               Nat.mul Nat.sub];
          rewrite !Ha, !Hb by lia; reflexivity|]).
  lia.
Qed.

Lemma written_beyond {T} (h : Arrays T) (out : ref) (k : nat)
    (spec : nat -> T) (r : ref) (j : nat) :
  r <> out \/ (k <= j)%nat -> written h out k spec r j = h r j.
Proof.
  intros [Hr|Hj].
  - now apply written_other.
  - apply written_not_yet. now apply Nat.ltb_ge.
Qed.

Lemma transform_translated (a : nat -> R) (v p : Vec3 R) :
  transformPoint (translated a v) p = transformPoint a (plus3 p v).
Proof.
  unfold transformPoint, translated, plus3.
  cbn [at0 at1 at2 Nat.sub add mul RNumber]. f_equal; ring.
Qed.

Lemma norm3_zero (u : Vec3 R) : norm3 u = 0 -> u = vec3 0 0 0.
Proof.
  intros Hn. pose proof (norm3_sq u) as Hs. rewrite Hn in Hs.
  destruct u as [x y z]. unfold dot3 in Hs.
  cbn [at0 at1 at2 add mul RNumber] in Hs.
  f_equal; nra.
Qed.

Lemma norm3_apart (e c : Vec3 R) : e <> c -> 0 < norm3 (minus3 e c).
Proof.
  intros Hne. destruct (norm3_nonneg (minus3 e c)) as [Hp|Hz]; [exact Hp|].
  exfalso. apply Hne. symmetry in Hz. apply norm3_zero in Hz.
  destruct e as [x y z], c as [x' y' z']. unfold minus3 in Hz.
  cbn [at0 at1 at2 sub RNumber] in Hz. injection Hz as H0 H1 H2.
  f_equal; lra.
Qed.

Lemma cross3_scale_right (k : R) (u v : Vec3 R) :
  cross3 u (scale3 k v) = scale3 k (cross3 u v).
Proof.
  unfold cross3, scale3. cbn [at0 at1 at2 sub mul RNumber]. f_equal; ring.
Qed.

Lemma up_across (e c u : Vec3 R) :
  e <> c -> cross3 u (minus3 e c) <> vec3 0 0 0 ->
  norm3 (cross3 u (zAxis e c)) <> 0.
Proof.
  intros Hne Hu Hn. apply norm3_zero in Hn.
  pose proof (norm3_apart e c Hne) as Hd.
  rewrite zAxis_scaled, cross3_scale_right in Hn.
  apply Hu. destruct (cross3 u (minus3 e c)) as [x y z].
  unfold scale3 in Hn. cbn [at0 at1 at2 mul RNumber] in Hn.
  injection Hn as H0 H1 H2.
  assert (Hi : / norm3 (minus3 e c) <> 0) by (apply Rinv_neq_0_compat; lra).
  f_equal.
  - apply Rmult_integral in H0 as [H0|H0]; [contradiction | exact H0].
  - apply Rmult_integral in H1 as [H1|H1]; [contradiction | exact H1].
  - apply Rmult_integral in H2 as [H2|H2]; [contradiction | exact H2].
Qed.

(** X17.  In exact arithmetic [mat4.multiply(out, a, b)] leaves in [out]
    the product of the matrices [a] and [b] as they were at the call, also
    when [out] is [a] or [b] or both; it changes nothing else, in any
    array. *)
Theorem multiply_in_place :
  forall (out a b : ref) (h : Arrays R),
  (forall i, (i < 16)%nat ->
     mat4.multiply out a b h out i = product (h a) (h b) i)
  /\ (forall r i, r <> out \/ (16 <= i)%nat ->
        mat4.multiply out a b h r i = h r i).
Proof.
  intros out a b h. split.
  - intros i Hi. rewrite multiply_result.
    apply written_same. now apply Nat.ltb_lt.
  - intros r i Hr. rewrite multiply_result. now apply written_beyond.
Qed.

Lemma multiply_twice_left (out t a b c : ref) (h : Arrays R) (i : nat) :
  t <> c -> (i < 16)%nat ->
  mat4.multiply out t c (mat4.multiply t a b h) out i
  = product (product (h a) (h b)) (h c) i.
Proof.
  intros Htc Hi. rewrite multiply_result, written_same
    by (now apply Nat.ltb_lt).
  apply product_ext; [| |exact Hi]; intros j Hj; rewrite multiply_result.
  - apply written_same. now apply Nat.ltb_lt.
  - apply written_other. congruence.
Qed.

Lemma multiply_twice_right (out t a b c : ref) (h : Arrays R) (i : nat) :
  t <> a -> (i < 16)%nat ->
  mat4.multiply out a t (mat4.multiply t b c h) out i
  = product (h a) (product (h b) (h c)) i.
Proof.
  intros Hta Hi. rewrite multiply_result, written_same
    by (now apply Nat.ltb_lt).
  apply product_ext; [| |exact Hi]; intros j Hj; rewrite multiply_result.
  - apply written_other. congruence.
  - apply written_same. now apply Nat.ltb_lt.
Qed.

(** X18.  In exact arithmetic [mat4.multiply] is associative: with a scratch
    matrix [t] that is neither [a] nor [c], multiplying [a] by [b] into
    [t] and then [t] by [c] leaves in [out] the same sixteen elements as
    multiplying [b] by [c] into [t] and then [a] by [t]. *)
Theorem multiply_associative :
  forall (out t a b c : ref) (h : Arrays R) (i : nat),
  t <> a -> t <> c -> (i < 16)%nat ->
  mat4.multiply out t c (mat4.multiply t a b h) out i
  = mat4.multiply out a t (mat4.multiply t b c h) out i.
Proof.
  intros out t a b c h i Hta Htc Hi.
  rewrite multiply_twice_left, multiply_twice_right by assumption.
  now apply product_assoc.
Qed.

(** X19.  In exact arithmetic the matrix that [mat4.multiply(out, a, b)]
    leaves in [out] transforms a point as [b] and then [a] do, when the
    fourth row of [b] is [(0, 0, 0, 1)], as in the matrices of
    [identity], [translate] and [lookAt]. *)
Theorem multiply_composes :
  forall (out a b : ref) (h : Arrays R) (p : Vec3 R),
  h b 3%nat = 0 -> h b 7%nat = 0 -> h b 11%nat = 0 -> h b 15%nat = 1 ->
  transformPoint (mat4.multiply out a b h out) p
  = transformPoint (h a) (transformPoint (h b) p).
Proof.
  intros out a b h p B3 B7 B11 B15.
  rewrite <- (transform_product (h a) (h b) p B3 B7 B11 B15).
  apply transformPoint_ext. intros i Hi.
  rewrite multiply_result. apply written_same. now apply Nat.ltb_lt.
Qed.

(** X20.  [mat4.translate(out, a, v)] leaves in [out] the product of [a] and
    the translation by [v], also when [out] is [a] (as
    [mat4.translate(m, m, v)] in [src/pachinko.js]) or [v]: the matrix that
    moves a point by [v] and then applies [a].  It changes nothing else. *)
Theorem translate_in_place :
  forall (out a v : ref) (h : Arrays R),
  (forall i, (i < 16)%nat ->
     mat4.translate out a v h out i
     = product (h a) (translation (vectorAt (h v))) i)
  /\ (forall p,
        transformPoint (mat4.translate out a v h out) p
        = transformPoint (h a) (plus3 p (vectorAt (h v))))
  /\ (forall r i, r <> out \/ (16 <= i)%nat ->
        mat4.translate out a v h r i = h r i).
Proof.
  intros out a v h.
  assert (E : forall i, (i < 16)%nat ->
            mat4.translate out a v h out i
            = translated (h a) (vectorAt (h v)) i).
  { intros i Hi. rewrite translate_result.
    apply written_same. now apply Nat.ltb_lt. }
  split; [|split].
  - intros i Hi. rewrite (E i Hi). now apply translated_product.
  - intros p. rewrite <- transform_translated.
    now apply transformPoint_ext.
  - intros r i Hr. rewrite translate_result. now apply written_beyond.
Qed.

(** X21.  The model matrix of a ball ([PachinkoMachine.update]):
    [mat4.identity(m)] and then [mat4.translate(m, m, position)] leave in
    [m] the translation by [position], which moves every point of the mesh
    by the position of the body, whatever [m] held before.  Nothing else
    changes. *)
Theorem model_matrix_is_translation :
  forall (m position : ref) (h : Arrays R),
  m <> position ->
  let h' := mat4.translate m m position (mat4.identity m h) in
  (forall i, (i < 16)%nat -> h' m i = translation (vectorAt (h position)) i)
  /\ (forall p, transformPoint (h' m) p = plus3 p (vectorAt (h position)))
  /\ (forall r i, r <> m \/ (16 <= i)%nat -> h' r i = h r i).
Proof.
  intros m position h Hm h'.
  assert (Hp : vectorAt (mat4.identity m h position)
               = vectorAt (h position)).
  { unfold vectorAt. rewrite !identity_result.
    rewrite !written_other by congruence. reflexivity. }
  assert (E : forall i, (i < 16)%nat ->
                h' m i = translation (vectorAt (h position)) i).
  { intros i Hi. subst h'. rewrite translate_result.
    rewrite written_same by (now apply Nat.ltb_lt). rewrite Hp.
    rewrite translated_product by exact Hi.
    rewrite (product_ext _ identityMatrix _
               (translation (vectorAt (h position))) i); try assumption.
    - now apply product_identity_left.
    - intros j Hj. rewrite identity_result.
      apply written_same. now apply Nat.ltb_lt.
    - reflexivity. }
  split; [exact E|]. split.
  - intros p. rewrite (transformPoint_ext _ _ p E).
    unfold transformPoint, translation, plus3, identityMatrix.
    destruct p as [x y z], (vectorAt (h position)) as [vx vy vz].
    cbn [at0 at1 at2 add mul ofZ RNumber]. f_equal; ring.
  - intros r i Hr. subst h'. rewrite translate_result.
    rewrite written_beyond by exact Hr.
    rewrite identity_result. now apply written_beyond.
Qed.

(** X22.  In exact arithmetic, for an eye that is not the centre and a
    direction [up] that is not along the line of sight,
    [mat4.lookAt(out, eye, center, up)] leaves in [out] a rigid view: it
    sends the eye to the origin and the centre to the point of the axis
    [-z] at the distance of the eye, its fourth row is [(0, 0, 0, 1)], and
    its three axes are unit vectors orthogonal to each other.  This holds
    also when [out] is one of the three vectors. *)
Theorem lookAt_is_rigid_view :
  forall (out eye center up : ref) (h : Arrays R),
  let e := vectorAt (h eye) in
  let c := vectorAt (h center) in
  let u := vectorAt (h up) in
  e <> c -> cross3 u (minus3 e c) <> vec3 0 0 0 ->
  let v := mat4.lookAt out eye center up h out in
  transformPoint v e = vec3 0 0 0
  /\ transformPoint v c = vec3 0 0 (- norm3 (minus3 e c))
  /\ (forall p, transformW v p = 1)
  /\ dot3 (axis v 0) (axis v 0) = 1 /\ dot3 (axis v 1) (axis v 1) = 1
  /\ dot3 (axis v 2) (axis v 2) = 1 /\ dot3 (axis v 0) (axis v 1) = 0
  /\ dot3 (axis v 0) (axis v 2) = 0 /\ dot3 (axis v 1) (axis v 2) = 0.
Proof.
  intros out eye center up h e c u Hne Hup v.
  assert (Hv : forall i, (i < 16)%nat -> v i = viewOf e c u i).
  { intros i Hi. subst v. rewrite lookAt_result.
    apply written_same. now apply Nat.ltb_lt. }
  pose proof (norm3_apart e c Hne) as Hd.
  pose proof (up_across e c u Hne Hup) as Hu.
  rewrite (transformPoint_ext v _ e Hv), (transformPoint_ext v _ c Hv).
  rewrite (axis_ext v _ 0 ltac:(lia) Hv), (axis_ext v _ 1 ltac:(lia) Hv),
    (axis_ext v _ 2 ltac:(lia) Hv).
  destruct (axis_view e c u) as (-> & -> & ->).
  destruct (view_eye e c u) as [He Hw].
  destruct (view_orthonormal e c u Hd Hu) as (Hx & Hy & Hz).
  destruct (yAxis_orthogonal e c u) as [Hyz Hyx].
  split; [exact He|]. split; [now apply view_center|].
  split; [intros p; rewrite (transformW_ext v _ p Hv); apply Hw|].
  repeat (split; [assumption|]).
  split; [rewrite dot3_comm; exact Hyx|].
  split; [apply xAxis_orthogonal | exact Hyz].
Qed.

(** X23.  In exact arithmetic, for [near] different from [far], the matrix of
    [mat4.perspective] gives every point its depth in front of the eye as
    fourth component, sends the points at the depth [near] to the depth
    [-w] and those at the depth [far] to the depth [w], and scales [x] by
    [f / aspect] and [y] by [f], [f] being [1 / tan(fovy / 2)]. *)
Theorem perspective_depth_range :
  forall (out : ref) (fovy aspect near far : R) (h : Arrays R) (x y : R),
  near <> far ->
  let m := mat4.perspective out fovy aspect near far h out in
  let f := 1 / tan (fovy / 2) in
  (forall p, transformW m p = - at2 p)
  /\ (forall p, at0 (transformPoint m p) = f / aspect * at0 p
                /\ at1 (transformPoint m p) = f * at1 p)
  /\ at2 (transformPoint m (vec3 x y (- near))) = - near
  /\ at2 (transformPoint m (vec3 x y (- far))) = far.
Proof.
  intros out fovy aspect near far h x y Hnf m f.
  assert (Hm : forall i, (i < 16)%nat ->
                 m i = projectionOf f aspect near far i).
  { intros i Hi. subst m. rewrite perspective_result.
    apply written_same. now apply Nat.ltb_lt. }
  split; [|split; [|split]].
  - intros p. rewrite (transformW_ext m _ p Hm).
    unfold transformW, projectionOf. cbn [neg ofZ mul add RNumber]. ring.
  - intros p. rewrite (transformPoint_ext m _ p Hm).
    unfold transformPoint, projectionOf.
    cbn [at0 at1 at2 neg ofZ mul add div RNumber]. split; ring.
  - rewrite (transformPoint_ext m _ _ Hm).
    unfold transformPoint, projectionOf.
    cbn [at0 at1 at2 neg ofZ mul add div sub RNumber]. field. lra.
  - rewrite (transformPoint_ext m _ _ Hm).
    unfold transformPoint, projectionOf.
    cbn [at0 at1 at2 neg ofZ mul add div sub RNumber]. field. lra.
Qed.

(** X24.  In exact arithmetic [vec3.normalize(out, a)] leaves in [out] the
    unit vector along [a], also when [out] is [a]; when [a] is the zero
    vector it changes nothing.  It never changes another array. *)
Theorem normalize_gives_unit :
  forall (out a : ref) (h : Arrays R),
  let v := vectorAt (h a) in
  let h' := vec3.normalize out a h in
  (v <> vec3 0 0 0 ->
     vectorAt (h' out) = scale3 (/ norm3 v) v
     /\ dot3 (vectorAt (h' out)) (vectorAt (h' out)) = 1)
  /\ (v = vec3 0 0 0 -> forall r i, h' r i = h r i)
  /\ (forall r i, r <> out \/ (3 <= i)%nat -> h' r i = h r i).
Proof.
  intros out a h v h'.
  pose proof (normalize_result out a h) as E. cbv zeta in E.
  change (vec3.length a h) with (norm3 v) in E.
  fold h' in E.
  split; [|split].
  - intros Hv.
    assert (Hn : 0 < norm3 v).
    { destruct (norm3_nonneg v) as [Hp|Hz]; [exact Hp|].
      symmetry in Hz. now apply norm3_zero in Hz. }
    assert (Hg : (norm3 v >? ofZ 0)%num = true).
    { cbn [ltb ofZ RNumber]. unfold Rltb.
      destruct (Rlt_dec 0 (norm3 v)); [reflexivity | contradiction]. }
    assert (Eo : vectorAt (h' out) = scale3 (/ norm3 v) v).
    { unfold vectorAt at 1. rewrite !E, Hg.
      rewrite !written_same by reflexivity.
      unfold scale3. subst v. unfold vectorAt.
      cbn [at0 at1 at2 mul div RNumber]. f_equal; unfold Rdiv; ring. }
    split; [exact Eo|].
    rewrite Eo, dot3_scale, <- norm3_sq. field. lra.
  - intros Hv r i. rewrite E.
    replace ((norm3 v >? ofZ 0)%num) with false; [reflexivity|].
    rewrite Hv. unfold norm3, dot3.
    cbn [at0 at1 at2 add mul ltb ofZ Math_sqrt RNumber].
    replace (0 * 0 + 0 * 0 + 0 * 0) with 0 by ring. rewrite sqrt_0.
    unfold Rltb. destruct (Rlt_dec 0 0); [lra | reflexivity].
  - intros r i Hr. rewrite E.
    destruct (norm3 v >? ofZ 0)%num; [|reflexivity].
    now apply written_beyond.
Qed.

(** X25.  In exact arithmetic [vec3.cross(out, a, b)], for an [out] that is
    neither [a] nor [b], leaves in [out] the cross product of [a] and [b],
    a vector orthogonal to both, and changes nothing else. *)
Theorem cross_out_of_place :
  forall (out a b : ref) (h : Arrays R),
  out <> a -> out <> b ->
  let h' := vec3.cross out a b h in
  vectorAt (h' out) = cross3 (vectorAt (h a)) (vectorAt (h b))
  /\ dot3 (vectorAt (h' out)) (vectorAt (h a)) = 0
  /\ dot3 (vectorAt (h' out)) (vectorAt (h b)) = 0
  /\ (forall r i, r <> out \/ (3 <= i)%nat -> h' r i = h r i).
Proof.
  intros out a b h Ha Hb h'.
  assert (Eo : vectorAt (h' out)
               = cross3 (vectorAt (h a)) (vectorAt (h b))).
  { unfold vectorAt at 1. subst h'. rewrite !cross_result by assumption.
    rewrite !written_same by reflexivity. reflexivity. }
  split; [exact Eo|]. rewrite Eo.
  split; [apply cross3_orthogonal|]. split; [apply cross3_orthogonal|].
  intros r i Hr. subst h'. rewrite cross_result by assumption.
  now apply written_beyond.
Qed.

Lemma multiply_associative_witness :
  mat4.multiply 5%nat 6%nat 3%nat (mat4.multiply 6%nat 3%nat 4%nat scene) 5%nat 12%nat
  = mat4.multiply 5%nat 3%nat 6%nat (mat4.multiply 6%nat 4%nat 3%nat scene) 5%nat 12%nat.
Proof.
  apply multiply_associative; [discriminate | discriminate | lia].
Defined.

Lemma multiply_composes_witness :
  transformPoint (mat4.multiply 3%nat 3%nat 3%nat scene 3%nat) (vec3 0 0 0)
  = transformPoint (scene 3%nat) (transformPoint (scene 3%nat) (vec3 0 0 0)).
Proof.
  apply multiply_composes; reflexivity.
Defined.

Lemma model_matrix_is_translation_witness :
  transformPoint
    (mat4.translate 3%nat 3%nat 0%nat (mat4.identity 3%nat scene) 3%nat) (vec3 1 1 1)
  = plus3 (vec3 1 1 1) (vectorAt (scene 0%nat)).
Proof.
  assert (Hm : 3%nat <> 0%nat) by discriminate.
  exact (proj1 (proj2 (model_matrix_is_translation 3%nat 0%nat scene Hm))
           (vec3 1 1 1)).
Defined.

Lemma lookAt_is_rigid_view_witness :
  transformPoint (mat4.lookAt 4%nat 0%nat 1%nat 2%nat scene 4%nat) (vectorAt (scene 1%nat))
  = vec3 0 0
      (- norm3 (minus3 (vectorAt (scene 0%nat)) (vectorAt (scene 1%nat)))).
Proof.
  assert (He : vectorAt (scene 0%nat) <> vectorAt (scene 1%nat)).
  { intros E. apply (f_equal at2) in E. cbn in E. lra. }
  assert (Hu : cross3 (vectorAt (scene 2%nat))
                 (minus3 (vectorAt (scene 0%nat)) (vectorAt (scene 1%nat)))
               <> vec3 0 0 0).
  { intros E. apply (f_equal at0) in E. cbn in E. lra. }
  exact (proj1 (proj2 (lookAt_is_rigid_view 4%nat 0%nat 1%nat 2%nat scene He Hu))).
Defined.

Lemma perspective_depth_range_witness :
  at2 (transformPoint
         (mat4.perspective 4%nat (PI / 4) (4 / 3) (1 / 10) 100 scene 4%nat)
         (vec3 0 0 (- 100)))
  = 100.
Proof.
  assert (Hn : 1 / 10 <> 100) by lra.
  exact (proj2 (proj2 (proj2
           (perspective_depth_range 4%nat (PI / 4) (4 / 3) (1 / 10) 100 scene
              0 0 Hn)))).
Defined.

Lemma cross_out_of_place_witness :
  vectorAt (vec3.cross 4%nat 0%nat 2%nat scene 4%nat)
  = cross3 (vectorAt (scene 0%nat)) (vectorAt (scene 2%nat)).
Proof.
  assert (Ha : 4%nat <> 0%nat) by discriminate.
  assert (Hb : 4%nat <> 2%nat) by discriminate.
  exact (proj1 (cross_out_of_place 4%nat 0%nat 2%nat scene Ha Hb)).
Defined.

(** ** The camera *)

Lemma clamp_between (lo hi x : R) :
  lo <= hi -> lo <= Rmax lo (Rmin hi x) <= hi.
Proof.
  intros Hl. split; [apply Rmax_l|].
  apply Rmax_lub; [exact Hl | apply Rmin_l].
Qed.

Lemma vectorAt_arrayOf (v : Vec3 R) : vectorAt (arrayOf v) = v.
Proof. now destruct v. Qed.

(** [updateMatrices] keeps the camera and the arrays that exist, except the
    two matrices; the view matrix becomes the view from the position of the
    camera. *)
Lemma updateMatrices_effect (s : Camera.State R) :
  let f := Camera.this s in
  let n := Camera.nextArray (Camera.memory s) in
  Camera.viewMatrix f <> Camera.projectionMatrix f ->
  (Camera.viewMatrix f < n)%nat -> (Camera.projectionMatrix f < n)%nat ->
  (Camera.target f < n)%nat ->
  Camera.target f <> Camera.viewMatrix f ->
  Camera.target f <> Camera.projectionMatrix f ->
  let s' := Camera.updateMatrices s in
  Camera.this s' = f
  /\ Camera.clientWidth s' = Camera.clientWidth s
  /\ Camera.clientHeight s' = Camera.clientHeight s
  /\ Camera.nextArray (Camera.memory s') = S (S n)
  /\ (forall i, Camera.arrays (Camera.memory s') (Camera.target f) i
                = Camera.arrays (Camera.memory s) (Camera.target f) i)
  /\ (forall i, (i < 16)%nat ->
        Camera.viewOfCamera s' i
        = viewOf (Camera.eyeOf s) (Camera.targetOf s) cameraUp i)
  /\ (forall i, (i < 16)%nat ->
        Camera.arrays (Camera.memory s') (Camera.projectionMatrix f) i
        = projectionOf (1 / tan (PI / 4 / 2))
            (Camera.clientWidth s / Camera.clientHeight s) (1 / 10) 100 i).
Proof.
  intros f n Hvp Hv Hp Ht Htv Htp s'.
  subst s'. unfold Camera.updateMatrices, Camera.getPosition, Camera.newArray.
  cbn [Camera.this Camera.memory Camera.clientWidth Camera.clientHeight
       Camera.setMemory Camera.setArrays Camera.arrays Camera.nextArray].
  fold f. fold n.
  repeat (split; [reflexivity|]).
  match goal with
  | |- context [mat4.lookAt _ _ _ _ ?h] => set (h2 := h)
  end.
  assert (H2t : forall i, h2 (Camera.target f) i
                          = Camera.arrays (Camera.memory s) (Camera.target f) i).
  { intros i. subst h2. cbv beta.
    rewrite (proj2 (Nat.eqb_neq (Camera.target f) (S n))) by lia.
    now rewrite (proj2 (Nat.eqb_neq (Camera.target f) n)) by lia. }
  assert (H2p : forall i, h2 n i
            = arrayOf (plus3 (Camera.targetOf s) (Camera.offset f)) i).
  { intros i. subst h2. cbv beta.
    rewrite (proj2 (Nat.eqb_neq n (S n))) by lia.
    rewrite Nat.eqb_refl. reflexivity. }
  assert (H2u : forall i, h2 (S n) i = arrayOf cameraUp i).
  { intros i. subst h2. cbv beta. rewrite Nat.eqb_refl. reflexivity. }
  split; [|split].
  - intros i. rewrite perspective_result, written_other by exact Htp.
    rewrite lookAt_result, written_other by exact Htv. apply H2t.
  - intros i Hi. unfold Camera.viewOfCamera.
    cbn [Camera.this Camera.memory Camera.setMemory Camera.setArrays
         Camera.arrays].
    fold f. rewrite perspective_result, written_other by exact Hvp.
    rewrite lookAt_result, written_same by (apply Nat.ltb_lt; exact Hi).
    replace (vectorAt (h2 n)) with (Camera.eyeOf s).
    2:{ unfold vectorAt. rewrite !H2p. reflexivity. }
    replace (vectorAt (h2 (Camera.target f))) with (Camera.targetOf s).
    2:{ unfold vectorAt. rewrite !H2t. reflexivity. }
    replace (vectorAt (h2 (S n))) with cameraUp.
    2:{ unfold vectorAt. rewrite !H2u. reflexivity. }
    reflexivity.
  - intros i Hi.
    rewrite perspective_result, written_same by (apply Nat.ltb_lt; exact Hi).
    reflexivity.
Qed.

Lemma steady_updateMatrices (s : Camera.State R) :
  let f := Camera.this s in
  let n := Camera.nextArray (Camera.memory s) in
  Camera.minRadius f = 5 -> Camera.maxRadius f = 30 ->
  Camera.minPhi f = - PI / 3 -> Camera.maxPhi f = PI / (25 / 10) ->
  5 <= Camera.radius f <= 30 ->
  - PI / 3 <= Camera.phi f <= PI / (25 / 10) ->
  Camera.viewMatrix f <> Camera.projectionMatrix f ->
  Camera.target f <> Camera.viewMatrix f ->
  Camera.target f <> Camera.projectionMatrix f ->
  (Camera.target f < n)%nat ->
  (Camera.viewMatrix f < n)%nat -> (Camera.projectionMatrix f < n)%nat ->
  steady (Camera.updateMatrices s).
Proof.
  intros f n H1 H2 H3 H4 H5 H6 Hvp Htv Htp Ht Hv Hp.
  destruct (updateMatrices_effect s Hvp Hv Hp Ht Htv Htp)
    as (Ef & _ & _ & En & Et & Ev & _).
  fold f in Ef, Et. fold n in En.
  unfold steady. rewrite Ef, En.
  repeat (split; [first [assumption | tauto | lia]|]).
  intros i Hi. rewrite (Ev i Hi).
  unfold Camera.eyeOf, Camera.targetOf. rewrite Ef.
  unfold vectorAt. fold f. now rewrite !Et.
Qed.

Lemma pi_limits : - PI / 3 <= 3 / 10 <= PI / (25 / 10).
Proof. pose proof PI2_1. lra. Qed.

Lemma steady_constructor (width height : R) (m : Camera.Memory R) :
  steady (Camera.constructor width height m).
Proof.
  unfold Camera.constructor, Camera.newArray.
  apply steady_updateMatrices;
    cbn [Camera.this Camera.memory Camera.minRadius Camera.maxRadius
         Camera.minPhi Camera.maxPhi Camera.radius Camera.phi
         Camera.viewMatrix Camera.projectionMatrix Camera.target
         Camera.nextArray];
    first [ reflexivity | lia | cbn; lra
          | unfold dec; cbn; exact pi_limits ].
Qed.

Lemma steady_perform (o : Camera.Op R) (s : Camera.State R) :
  steady s -> steady (Camera.perform o s).
Proof.
  intros (H1 & H2 & H3 & H4 & H5 & H6 & Hvp & Htv & Htp & Ht & Hv & Hp & Hw).
  destruct o as [dt dp|d|x y z| |w h]; cbn [Camera.perform].
  - unfold Camera.rotate.
    apply steady_updateMatrices;
      cbn [Camera.this Camera.memory Camera.setThis Camera.minRadius
           Camera.maxRadius Camera.minPhi Camera.maxPhi Camera.radius
           Camera.phi Camera.viewMatrix Camera.projectionMatrix Camera.target
           Camera.nextArray]; try assumption.
    rewrite H3, H4. cbn [Math_max Math_min RNumber].
    apply clamp_between. pose proof PI2_1. lra.
  - unfold Camera.zoom.
    apply steady_updateMatrices;
      cbn [Camera.this Camera.memory Camera.setThis Camera.minRadius
           Camera.maxRadius Camera.minPhi Camera.maxPhi Camera.radius
           Camera.phi Camera.viewMatrix Camera.projectionMatrix Camera.target
           Camera.nextArray]; try assumption.
    rewrite H1, H2. cbn [Math_max Math_min RNumber].
    apply clamp_between. lra.
  - unfold Camera.setTarget, Camera.newArray.
    apply steady_updateMatrices;
      cbn [Camera.this Camera.memory Camera.setThis Camera.setMemory
           Camera.minRadius
           Camera.maxRadius Camera.minPhi Camera.maxPhi Camera.radius
           Camera.phi Camera.viewMatrix Camera.projectionMatrix Camera.target
           Camera.nextArray]; try assumption; lia.
  - unfold Camera.getProjectionMatrix. cbn [snd].
    now apply steady_updateMatrices.
  - unfold steady.
    cbn [Camera.this Camera.memory].
    repeat (split; [assumption|]). exact Hw.
Qed.

Lemma steady_run (l : list (Camera.Op R)) (s : Camera.State R) :
  steady s -> steady (Camera.run l s).
Proof.
  revert s. induction l as [|o l IH]; intros s Hs; [exact Hs|].
  apply IH. now apply steady_perform.
Qed.

Lemma offset_norm (f : Camera.Fields R) :
  0 <= Camera.radius f -> norm3 (Camera.offset f) = Camera.radius f.
Proof.
  intros Hr. unfold norm3, dot3, Camera.offset.
  cbn [at0 at1 at2 add mul Math_sqrt Math_sin Math_cos RNumber RTrig].
  pose proof (sin2_cos2 (Camera.theta f)) as Ht.
  pose proof (sin2_cos2 (Camera.phi f)) as Hp.
  unfold Rsqr in Ht, Hp.
  set (r := Camera.radius f) in *.
  set (st := sin (Camera.theta f)) in *. set (ct := cos (Camera.theta f)) in *.
  set (sp := sin (Camera.phi f)) in *. set (cp := cos (Camera.phi f)) in *.
  replace (r * cp * st * (r * cp * st) + r * sp * (r * sp)
           + r * cp * ct * (r * cp * ct))
    with (r * r * (cp * cp * (st * st + ct * ct) + sp * sp)) by ring.
  rewrite Ht.
  replace (r * r * (cp * cp * 1 + sp * sp)) with (r * r * (sp * sp + cp * cp))
    by ring.
  rewrite Hp, Rmult_1_r. now apply sqrt_square.
Qed.

Lemma eye_minus_target (s : Camera.State R) :
  minus3 (Camera.eyeOf s) (Camera.targetOf s) = Camera.offset (Camera.this s).
Proof.
  unfold Camera.eyeOf, minus3, plus3.
  destruct (Camera.offset (Camera.this s)) as [x y z].
  cbn [at0 at1 at2 add sub RNumber]. f_equal; ring.
Qed.

(** The direction [up] is never along the line of sight: [phi] stays away
    from the poles. *)
Lemma up_not_along (s : Camera.State R) :
  0 < Camera.radius (Camera.this s) ->
  - (PI / 2) < Camera.phi (Camera.this s) < PI / 2 ->
  norm3 (cross3 cameraUp (zAxis (Camera.eyeOf s) (Camera.targetOf s))) <> 0.
Proof.
  intros Hr [Hp1 Hp2].
  rewrite zAxis_scaled, eye_minus_target, offset_norm by lra.
  pose proof (cos_gt_0 _ Hp1 Hp2) as Hc.
  pose proof (sin2_cos2 (Camera.theta (Camera.this s))) as Ht.
  unfold Rsqr in Ht.
  unfold norm3, dot3, cross3, cameraUp, scale3, Camera.offset.
  cbn [at0 at1 at2 add sub mul Math_sqrt Math_sin Math_cos RNumber RTrig].
  set (r := Camera.radius (Camera.this s)) in *.
  set (st := sin (Camera.theta (Camera.this s))) in *.
  set (ct := cos (Camera.theta (Camera.this s))) in *.
  set (cp := cos (Camera.phi (Camera.this s))) in *.
  set (sp := sin (Camera.phi (Camera.this s))) in *.
  clearbody r st ct cp sp.
  match goal with |- R_sqrt.sqrt ?e <> 0 => replace e with (cp * cp) end.
  - rewrite sqrt_square; lra.
  - transitivity (cp * cp * (st * st + ct * ct)); [rewrite Ht; ring|].
    field. lra.
Qed.

Lemma steady_phi (s : Camera.State R) :
  steady s ->
  - (PI / 2) < Camera.phi (Camera.this s) < PI / 2.
Proof.
  intros (_ & _ & _ & _ & _ & H6 & _).
  pose proof PI_RGT_0. lra.
Qed.

(** X26.  The limits of the camera hold whatever is done with it: after the
    constructor and any calls of [rotate], [zoom], [setTarget] and
    [getProjectionMatrix], and any changes of the size of the canvas, the
    radius is between 5 and 30 and the angle [phi] between [-PI / 3] and
    [PI / 2.5], so strictly between [-PI / 2] and [PI / 2]: the camera never
    looks along the direction [up]. *)
Theorem camera_within_limits :
  forall (width height : R) (m : Camera.Memory R) (ops : list (Camera.Op R)),
  let s := Camera.run ops (Camera.constructor width height m) in
  5 <= Camera.radius (Camera.this s) <= 30
  /\ - PI / 3 <= Camera.phi (Camera.this s) <= PI / (25 / 10)
  /\ - (PI / 2) < Camera.phi (Camera.this s) < PI / 2.
Proof.
  intros width height m ops s.
  assert (Hs : steady s)
    by (apply steady_run, steady_constructor).
  pose proof (steady_phi s Hs) as Hp.
  destruct Hs as (_ & _ & _ & _ & H5 & H6 & _).
  split; [exact H5|]. split; [exact H6 | exact Hp].
Qed.

(** X27.  The view matrix of the camera is always the rigid view from its
    position: after the constructor and any calls of its methods, the matrix
    sends the position of the camera ([getPosition]) to the origin and the
    target to the point at the distance [radius] on the axis [-z], its fourth
    row is [(0, 0, 0, 1)], and its three axes are unit vectors orthogonal to
    each other. *)
Theorem camera_view_is_rigid :
  forall (width height : R) (m : Camera.Memory R) (ops : list (Camera.Op R)),
  let s := Camera.run ops (Camera.constructor width height m) in
  let v := Camera.viewOfCamera s in
  transformPoint v (Camera.eyeOf s) = vec3 0 0 0
  /\ transformPoint v (Camera.targetOf s)
     = vec3 0 0 (- Camera.radius (Camera.this s))
  /\ (forall p, transformW v p = 1)
  /\ dot3 (axis v 0) (axis v 0) = 1 /\ dot3 (axis v 1) (axis v 1) = 1
  /\ dot3 (axis v 2) (axis v 2) = 1 /\ dot3 (axis v 0) (axis v 1) = 0
  /\ dot3 (axis v 0) (axis v 2) = 0 /\ dot3 (axis v 1) (axis v 2) = 0.
Proof.
  intros width height m ops s v.
  assert (Hs : steady s)
    by (apply steady_run, steady_constructor).
  pose proof (steady_phi s Hs) as Hp.
  destruct Hs as (_ & _ & _ & _ & H5 & _ & _ & _ & _ & _ & _ & _ & Hv).
  fold v in Hv.
  set (e := Camera.eyeOf s) in *. set (c := Camera.targetOf s) in *.
  assert (Hd : norm3 (minus3 e c) = Camera.radius (Camera.this s))
    by (subst e c; rewrite eye_minus_target; apply offset_norm; lra).
  assert (Hd' : 0 < norm3 (minus3 e c)) by lra.
  assert (Hu : norm3 (cross3 cameraUp (zAxis e c)) <> 0)
    by (apply up_not_along; [lra | exact Hp]).
  rewrite (transformPoint_ext v _ e Hv), (transformPoint_ext v _ c Hv).
  rewrite (axis_ext v _ 0 ltac:(lia) Hv), (axis_ext v _ 1 ltac:(lia) Hv),
    (axis_ext v _ 2 ltac:(lia) Hv).
  destruct (axis_view e c cameraUp) as (-> & -> & ->).
  destruct (view_eye e c cameraUp) as [He Hw].
  destruct (view_orthonormal e c cameraUp Hd' Hu) as (Hx & Hy & Hz).
  destruct (yAxis_orthogonal e c cameraUp) as [Hyz Hyx].
  split; [exact He|]. split; [rewrite <- Hd; now apply view_center|].
  split; [intros p; rewrite (transformW_ext v _ p Hv); apply Hw|].
  repeat (split; [assumption|]).
  split; [rewrite dot3_comm; exact Hyx|].
  split; [apply xAxis_orthogonal | exact Hyz].
Qed.

(** ** Meshes *)

Section MeshListsProofs.
Context {T : Type}.

Lemma verticesOf_numbers (vs : list (Vertex T)) (l : list T) :
  verticesOf (numbersOf vs ++ l) = vs ++ verticesOf l.
Proof.
  induction vs as [|v vs IH]; [reflexivity|].
  destruct v as [[px py pz] [nx ny nz] [r g b]].
  cbn [numbersOf flat_map Geometry.vertex v_position v_normal v_color
       at0 at1 at2 app verticesOf].
  fold (numbersOf vs). now rewrite IH.
Qed.

Lemma verticesOf_numbersOf (vs : list (Vertex T)) :
  verticesOf (numbersOf vs) = vs.
Proof.
  rewrite <- (app_nil_r (numbersOf vs)), verticesOf_numbers.
  apply app_nil_r.
Qed.

Lemma trianglesOf_corners (ts : list (Vertex T * Vertex T * Vertex T))
    (l : list (Vertex T)) :
  trianglesOf (cornersOf ts ++ l) = ts ++ trianglesOf l.
Proof.
  induction ts as [|[[a b] c] ts IH]; [reflexivity|].
  cbn [cornersOf flat_map app trianglesOf].
  fold (cornersOf ts). now rewrite IH.
Qed.

Lemma trianglesOf_cornersOf (ts : list (Vertex T * Vertex T * Vertex T)) :
  trianglesOf (cornersOf ts) = ts.
Proof.
  rewrite <- (app_nil_r (cornersOf ts)), trianglesOf_corners.
  apply app_nil_r.
Qed.

Lemma numbersOf_app (u v : list (Vertex T)) :
  numbersOf (u ++ v) = numbersOf u ++ numbersOf v.
Proof. apply flat_map_app. Qed.

Lemma cornersOf_app (u v : list (Vertex T * Vertex T * Vertex T)) :
  cornersOf (u ++ v) = cornersOf u ++ cornersOf v.
Proof. apply flat_map_app. Qed.

(** A loop that pushes [f x] for each [x]. *)
Lemma fold_push {X} (f : X -> list T) (l : list X) (acc : list T) :
  fold_left (fun vertices x => Geometry.push vertices (f x)) l acc
  = acc ++ flat_map f l.
Proof.
  revert acc. induction l as [|x l IH]; intros acc; cbn [fold_left flat_map].
  - now rewrite app_nil_r.
  - rewrite IH. unfold Geometry.push. now rewrite app_assoc.
Qed.

Lemma flat_map_flat_map {X Y Z} (f : X -> list Y) (g : Y -> list Z)
    (l : list X) :
  flat_map g (flat_map f l) = flat_map (fun x => flat_map g (f x)) l.
Proof.
  induction l as [|x l IH]; [reflexivity|].
  cbn [flat_map]. now rewrite flat_map_app, IH.
Qed.

Lemma flat_map_length_const {X Y} (f : X -> list Y) (l : list X) (k : nat) :
  (forall x, In x l -> List.length (f x) = k) ->
  List.length (flat_map f l) = (k * List.length l)%nat.
Proof.
  induction l as [|x l IH]; intros Hk; cbn [flat_map List.length]; [lia|].
  rewrite length_app, Hk by (now left).
  rewrite IH by (intros y Hy; apply Hk; now right). lia.
Qed.
End MeshListsProofs.

(** The twelve triangles of a box. *)
Lemma createBox_triangles (width height depth : R) (color : Vec3 R) :
  0 < width -> 0 < height -> 0 < depth ->
  exists ts,
    Geometry.createBox width height depth color = numbersOf (cornersOf ts)
    /\ List.length ts = 12%nat
    /\ Forall
         (fun t =>
            let '(a, b, c) := t in
            v_normal b = v_normal a /\ v_normal c = v_normal a
            /\ dot3 (v_normal a) (v_normal a) = 1
            /\ Forall
                 (fun v =>
                    Rabs (at0 (v_position v)) = width / 2
                    /\ Rabs (at1 (v_position v)) = height / 2
                    /\ Rabs (at2 (v_position v)) = depth / 2
                    /\ 0 < dot3 (v_position v) (v_normal v)
                    /\ v_color v = color)
                 [a; b; c]
            /\ exists k, 0 < k /\ facing t = scale3 k (v_normal a))
         ts.
Proof.
  intros Hwidth Hheight Hdepth.
  set (hw := width / 2). set (hh := height / 2). set (hd := depth / 2).
  set (f := fun p1 p2 p3 n =>
              (mkVertex p1 n color, mkVertex p2 n color, mkVertex p3 n color)).
  exists
    [ f (vec3 (- hw) (- hh) hd) (vec3 hw (- hh) hd) (vec3 hw hh hd)
        (vec3 0 0 1);
      f (vec3 (- hw) (- hh) hd) (vec3 hw hh hd) (vec3 (- hw) hh hd)
        (vec3 0 0 1);
      f (vec3 hw (- hh) (- hd)) (vec3 (- hw) (- hh) (- hd))
        (vec3 (- hw) hh (- hd)) (vec3 0 0 (Ropp 1));
      f (vec3 hw (- hh) (- hd)) (vec3 (- hw) hh (- hd)) (vec3 hw hh (- hd))
        (vec3 0 0 (Ropp 1));
      f (vec3 (- hw) hh hd) (vec3 hw hh hd) (vec3 hw hh (- hd)) (vec3 0 1 0);
      f (vec3 (- hw) hh hd) (vec3 hw hh (- hd)) (vec3 (- hw) hh (- hd))
        (vec3 0 1 0);
      f (vec3 (- hw) (- hh) (- hd)) (vec3 hw (- hh) (- hd))
        (vec3 hw (- hh) hd) (vec3 0 (Ropp 1) 0);
      f (vec3 (- hw) (- hh) (- hd)) (vec3 hw (- hh) hd)
        (vec3 (- hw) (- hh) hd) (vec3 0 (Ropp 1) 0);
      f (vec3 hw (- hh) hd) (vec3 hw (- hh) (- hd)) (vec3 hw hh (- hd))
        (vec3 1 0 0);
      f (vec3 hw (- hh) hd) (vec3 hw hh (- hd)) (vec3 hw hh hd) (vec3 1 0 0);
      f (vec3 (- hw) (- hh) (- hd)) (vec3 (- hw) (- hh) hd)
        (vec3 (- hw) hh hd) (vec3 (Ropp 1) 0 0);
      f (vec3 (- hw) (- hh) (- hd)) (vec3 (- hw) hh hd)
        (vec3 (- hw) hh (- hd)) (vec3 (Ropp 1) 0 0) ].
  split; [reflexivity|]. split; [reflexivity|].
  assert (Hw : Rabs hw = width / 2) by (apply Rabs_pos_eq; unfold hw; lra).
  assert (Hh : Rabs hh = height / 2) by (apply Rabs_pos_eq; unfold hh; lra).
  assert (Hd : Rabs hd = depth / 2) by (apply Rabs_pos_eq; unfold hd; lra).
  assert (Pw : 0 < hw) by (unfold hw; lra).
  assert (Ph : 0 < hh) by (unfold hh; lra).
  assert (Pd : 0 < hd) by (unfold hd; lra).
  assert (Pwh : 0 < width * height) by nra.
  assert (Pwd : 0 < width * depth) by nra.
  assert (Phd : 0 < height * depth) by nra.
  subst f.
  repeat (apply Forall_cons; [
    cbv beta iota; cbn [mkVertex v_position v_normal v_color at0 at1 at2];
    split; [reflexivity|]; split; [reflexivity|];
    split; [unfold dot3; cbn [at0 at1 at2 add mul RNumber]; ring|];
    split; [
      repeat (apply Forall_cons; [
        cbn [mkVertex v_position v_normal v_color at0 at1 at2];
        rewrite ?Rabs_Ropp, ?Hw, ?Hh, ?Hd;
        repeat split;
        first [ reflexivity
              | unfold dot3; cbn [at0 at1 at2 add mul RNumber]; lra ]|]);
      apply Forall_nil|];
    unfold facing, cross3, minus3, scale3;
    cbn [mkVertex v_position v_normal v_color at0 at1 at2 sub mul RNumber];
    first [ exists (width * height); split; [exact Pwh|];
            f_equal; unfold hw, hh, hd; field
          | exists (width * depth); split; [exact Pwd|];
            f_equal; unfold hw, hh, hd; field
          | exists (height * depth); split; [exact Phd|];
            f_equal; unfold hw, hh, hd; field ]
  |]).
  apply Forall_nil.
Qed.

(** X28.  The mesh of [Geometry.createBox], read as the renderer reads it
    (nine numbers for each vertex, three vertices for each triangle), for
    positive dimensions in exact arithmetic: twelve triangles; the three
    vertices of a triangle are corners of the box in the colour given and
    share a unit normal that points away from the centre; and the triangle
    faces the way of its normal: seen from outside the box its vertices are
    in counter-clockwise order. *)
Theorem box_faces_outward :
  forall (width height depth : R) (color : Vec3 R),
  0 < width -> 0 < height -> 0 < depth ->
  let triangles :=
    trianglesOf (verticesOf (Geometry.createBox width height depth color)) in
  List.length triangles = 12%nat
  /\ Forall
       (fun t =>
          let '(a, b, c) := t in
          v_normal b = v_normal a /\ v_normal c = v_normal a
          /\ dot3 (v_normal a) (v_normal a) = 1
          /\ Forall
               (fun v =>
                  Rabs (at0 (v_position v)) = width / 2
                  /\ Rabs (at1 (v_position v)) = height / 2
                  /\ Rabs (at2 (v_position v)) = depth / 2
                  /\ 0 < dot3 (v_position v) (v_normal v)
                  /\ v_color v = color)
               [a; b; c]
          /\ exists k, 0 < k /\ facing t = scale3 k (v_normal a))
       triangles.
Proof.
  intros width height depth color Hw Hh Hd triangles.
  destruct (createBox_triangles width height depth color Hw Hh Hd)
    as (ts & E & L & F).
  subst triangles. rewrite E, verticesOf_numbersOf, trianglesOf_cornersOf.
  split; [exact L | exact F].
Qed.

Lemma box_faces_outward_witness :
  List.length
    (trianglesOf
       (verticesOf (Geometry.createBox 6 10 (1 / 10) (vec3 1 1 1))))
  = 12%nat.
Proof.
  assert (Hw : 0 < 6) by lra.
  assert (Hh : 0 < 10) by lra.
  assert (Hd : 0 < 1 / 10) by lra.
  exact (proj1 (box_faces_outward 6 10 (1 / 10) (vec3 1 1 1) Hw Hh Hd)).
Defined.

Section Loops.
Context {T : Type}.

Lemma fold_push2 {X} (f g : X -> list T) (l : list X) (acc : list T) :
  fold_left
    (fun vertices x => Geometry.push (Geometry.push vertices (f x)) (g x))
    l acc
  = acc ++ flat_map (fun x => f x ++ g x) l.
Proof.
  revert acc. induction l as [|x l IH]; intros acc; cbn [fold_left flat_map].
  - now rewrite app_nil_r.
  - rewrite IH. unfold Geometry.push. now rewrite <- !app_assoc.
Qed.

Lemma fold_push3 {X} (f g h : X -> list T) (l : list X) (acc : list T) :
  fold_left
    (fun vertices x =>
       Geometry.push (Geometry.push (Geometry.push vertices (f x)) (g x))
         (h x))
    l acc
  = acc ++ flat_map (fun x => f x ++ g x ++ h x) l.
Proof.
  revert acc. induction l as [|x l IH]; intros acc; cbn [fold_left flat_map].
  - now rewrite app_nil_r.
  - rewrite IH. unfold Geometry.push. now rewrite <- !app_assoc.
Qed.

Lemma numbersOf_flat_map {X} (f : X -> list (Vertex T)) (l : list X) :
  numbersOf (flat_map f l) = flat_map (fun x => numbersOf (f x)) l.
Proof. apply flat_map_flat_map. Qed.

Lemma cornersOf_flat_map {X}
    (f : X -> list (Vertex T * Vertex T * Vertex T)) (l : list X) :
  cornersOf (flat_map f l) = flat_map (fun x => cornersOf (f x)) l.
Proof. apply flat_map_flat_map. Qed.

Lemma flat_map_same {X Y} (f g : X -> list Y) (l : list X) :
  (forall x, In x l -> f x = g x) -> flat_map f l = flat_map g l.
Proof.
  induction l as [|x l IH]; intros E; [reflexivity|].
  cbn [flat_map]. rewrite (E x) by (now left).
  rewrite IH by (intros y Hy; apply E; now right). reflexivity.
Qed.
End Loops.

(** [createCylinder] pushes the triangles of its segments. *)
Lemma createCylinder_triangles (radius height : R) (segments : nat)
    (color : Vec3 R) :
  Geometry.createCylinder radius height segments color
  = numbersOf
      (cornersOf
         (flat_map
            (fun i =>
               cylinderSegment radius height
                 (Geometry.ofNat i / Geometry.ofNat segments * PI * 2)
                 ((Geometry.ofNat i + 1) / Geometry.ofNat segments * PI * 2)
                 color)
            (seq 0 segments))).
Proof.
  unfold Geometry.createCylinder. cbv zeta.
  rewrite fold_push3, app_nil_l.
  rewrite cornersOf_flat_map, numbersOf_flat_map.
  apply flat_map_same. intros i _. reflexivity.
Qed.

Lemma ofNat_nonneg (n : nat) : 0 <= Geometry.ofNat n.
Proof.
  unfold Geometry.ofNat. cbn [ofZ RNumber]. apply IZR_le. lia.
Qed.

Lemma ofNat_le (m n : nat) :
  (m <= n)%nat -> Geometry.ofNat m <= Geometry.ofNat n.
Proof.
  intros Hmn. unfold Geometry.ofNat. cbn [ofZ RNumber]. apply IZR_le. lia.
Qed.

Lemma ofNat_succ (n : nat) : Geometry.ofNat (S n) = Geometry.ofNat n + 1.
Proof.
  unfold Geometry.ofNat. cbn [ofZ RNumber].
  rewrite Nat2Z.inj_succ, succ_IZR. reflexivity.
Qed.

(** The sine of a step of a turn [turn] in [n] steps. *)
Lemma sin_step (x n turn : R) :
  0 < turn -> turn < PI * n ->  0 < n ->
  sin ((x + 1) / n * turn) * cos (x / n * turn)
  - cos ((x + 1) / n * turn) * sin (x / n * turn) > 0.
Proof.
  intros Ht Hn Hp. rewrite <- sin_minus.
  replace ((x + 1) / n * turn - x / n * turn) with (turn / n)
    by (field; lra).
  apply sin_gt_0.
  - apply Rdiv_lt_0_compat; lra.
  - apply (Rmult_lt_reg_r n); [exact Hp|].
    replace (turn / n * n) with turn by (field; lra). exact Hn.
Qed.

Lemma cos2_sin2 (x : R) : cos x * cos x + sin x * sin x = 1.
Proof. pose proof (sin2_cos2 x) as E. unfold Rsqr in E. lra. Qed.

(** The triangles of a segment of a cylinder face inwards. *)
Lemma cylinderSegment_faces (radius height a1 a2 : R) (color : Vec3 R) :
  0 < radius -> 0 < height ->
  0 < sin a2 * cos a1 - cos a2 * sin a1 ->
  Forall
    (fun t =>
       let '(a, b, c) := t in
       Forall
         (fun v =>
            Rabs (at1 (v_position v)) = height / 2
            /\ (at0 (v_position v) * at0 (v_position v)
                + at2 (v_position v) * at2 (v_position v) = radius * radius
                \/ at0 (v_position v) = 0 /\ at2 (v_position v) = 0)
            /\ dot3 (v_normal v) (v_normal v) = 1
            /\ 0 < dot3 (v_position v) (v_normal v)
            /\ v_color v = color
            /\ dot3 (facing t) (v_normal v) < 0)
         [a; b; c])
    (cylinderSegment radius height a1 a2 color).
Proof.
  intros Hr Hh Hs.
  pose proof (cos2_sin2 a1) as E1. pose proof (cos2_sin2 a2) as E2.
  assert (Hp : Rabs (height / 2) = height / 2) by (apply Rabs_pos_eq; lra).
  assert (Hm : Rabs (- (height / 2)) = height / 2)
    by (rewrite Rabs_Ropp; exact Hp).
  unfold cylinderSegment, triangle. cbv zeta.
  cbn [neg ofZ div mul Math_cos Math_sin RNumber RTrig].
  set (s1 := sin a1) in *. set (c1 := cos a1) in *.
  set (s2 := sin a2) in *. set (c2 := cos a2) in *.
  clearbody s1 c1 s2 c2.
  assert (Hrh : 0 < radius * height * (s2 * c1 - c2 * s1))
    by (apply Rmult_lt_0_compat; [nra | exact Hs]).
  assert (Hrr : 0 < radius * radius * (s2 * c1 - c2 * s1))
    by (apply Rmult_lt_0_compat; [nra | exact Hs]).
  repeat (apply Forall_cons; [
    cbv beta iota;
    repeat (apply Forall_cons; [
      unfold facing, cross3, minus3, dot3;
      cbn [mkVertex v_position v_normal v_color at0 at1 at2
           add sub mul RNumber];
      split; [first [exact Hp | exact Hm]|];
      split; [first [ left; nra | right; split; reflexivity ]|];
      split; [nra|]; split; [nra|]; split; [reflexivity|];
      nra|]);
    apply Forall_nil|]).
  apply Forall_nil.
Qed.

Lemma Forall_flat_map_in {X Y} (P : Y -> Prop) (f : X -> list Y)
    (l : list X) :
  (forall x, In x l -> Forall P (f x)) -> Forall P (flat_map f l).
Proof.
  intros Hl. apply Forall_flat_map. apply Forall_forall. exact Hl.
Qed.

(** X29.  The mesh of [Geometry.createCylinder], read as the renderer reads
    it, for a positive radius and height and at least three segments, in
    exact arithmetic: four triangles for each segment; every vertex is at
    the height of a cap, on the axis or at the distance [radius] from it, in
    the colour given, with a unit normal that points away from the centre;
    and every triangle faces against the normals of its vertices: seen from
    outside the cylinder its vertices are in clockwise order, the opposite of
    the triangles of [createBox]. *)
Theorem cylinder_faces_inward :
  forall (radius height : R) (segments : nat) (color : Vec3 R),
  0 < radius -> 0 < height -> (3 <= segments)%nat ->
  let triangles :=
    trianglesOf
      (verticesOf (Geometry.createCylinder radius height segments color)) in
  List.length triangles = (4 * segments)%nat
  /\ Forall
       (fun t =>
          let '(a, b, c) := t in
          Forall
            (fun v =>
               Rabs (at1 (v_position v)) = height / 2
               /\ (at0 (v_position v) * at0 (v_position v)
                   + at2 (v_position v) * at2 (v_position v)
                   = radius * radius
                   \/ at0 (v_position v) = 0 /\ at2 (v_position v) = 0)
               /\ dot3 (v_normal v) (v_normal v) = 1
               /\ 0 < dot3 (v_position v) (v_normal v)
               /\ v_color v = color
               /\ dot3 (facing t) (v_normal v) < 0)
            [a; b; c])
       triangles.
Proof.
  intros radius height segments color Hr Hh Hn triangles.
  subst triangles.
  rewrite createCylinder_triangles, verticesOf_numbersOf,
    trianglesOf_cornersOf.
  split.
  - rewrite (flat_map_length_const _ _ 4), length_seq; [reflexivity|].
    intros i _. reflexivity.
  - apply Forall_flat_map_in. intros i _.
    apply cylinderSegment_faces; [exact Hr | exact Hh |].
    replace ((Geometry.ofNat i + 1) / Geometry.ofNat segments * PI * 2)
      with ((Geometry.ofNat i + 1) / Geometry.ofNat segments * (PI * 2))
      by ring.
    replace (Geometry.ofNat i / Geometry.ofNat segments * PI * 2)
      with (Geometry.ofNat i / Geometry.ofNat segments * (PI * 2))
      by ring.
    pose proof (ofNat_le 3 segments Hn) as H3.
    assert (E3 : Geometry.ofNat 3 = 3) by reflexivity.
    rewrite E3 in H3. pose proof PI_RGT_0.
    apply sin_step; nra.
Qed.

Lemma cylinder_faces_inward_witness :
  List.length
    (trianglesOf
       (verticesOf
          (Geometry.createCylinder (12 / 100) (4 / 10) 12 (vec3 1 1 1))))
  = 48%nat.
Proof.
  assert (Hr : 0 < 12 / 100) by lra.
  assert (Hh : 0 < 4 / 10) by lra.
  assert (Hn : (3 <= 12)%nat) by lia.
  exact (proj1 (cylinder_faces_inward (12 / 100) (4 / 10) 12 (vec3 1 1 1)
                  Hr Hh Hn)).
Defined.

Lemma fold_left_same {A X} (f g : A -> X -> A) (l : list X) (acc : A) :
  (forall a x, f a x = g a x) -> fold_left f l acc = fold_left g l acc.
Proof.
  intros E. revert acc.
  induction l as [|x l IH]; intros acc; [reflexivity|].
  cbn [fold_left]. now rewrite E, IH.
Qed.

(** [createSphere] pushes the triangles of its quads, ring after ring. *)
Lemma createSphere_triangles (radius : R) (segments rings : nat)
    (color : Vec3 R) :
  Geometry.createSphere radius segments rings color
  = numbersOf
      (cornersOf
         (flat_map
            (fun ring =>
               flat_map
                 (fun seg =>
                    sphereQuad radius
                      (Geometry.ofNat ring / Geometry.ofNat rings * PI)
                      ((Geometry.ofNat ring + 1) / Geometry.ofNat rings * PI)
                      (Geometry.ofNat seg / Geometry.ofNat segments * PI * 2)
                      ((Geometry.ofNat seg + 1) / Geometry.ofNat segments
                       * PI * 2)
                      color)
                 (seq 0 segments))
            (seq 0 rings))).
Proof.
  unfold Geometry.createSphere. cbv zeta.
  rewrite (fold_left_same _
             (fun vertices ring =>
                Geometry.push vertices
                  (numbersOf
                     (cornersOf
                        (flat_map
                           (fun seg =>
                              sphereQuad radius
                                (Geometry.ofNat ring / Geometry.ofNat rings
                                 * PI)
                                ((Geometry.ofNat ring + 1)
                                 / Geometry.ofNat rings * PI)
                                (Geometry.ofNat seg / Geometry.ofNat segments
                                 * PI * 2)
                                ((Geometry.ofNat seg + 1)
                                 / Geometry.ofNat segments * PI * 2)
                                color)
                           (seq 0 segments)))))).
  - rewrite fold_push, app_nil_l.
    now rewrite cornersOf_flat_map, numbersOf_flat_map.
  - intros vertices ring. rewrite fold_push2. unfold Geometry.push.
    f_equal. rewrite cornersOf_flat_map, numbersOf_flat_map.
    apply flat_map_same. intros seg _. reflexivity.
Qed.

Lemma spherePoint_normal (radius theta phi : R) :
  0 < radius ->
  Geometry.normalize (Geometry.spherePoint radius theta phi)
  = vec3 (sin theta * cos phi) (cos theta) (sin theta * sin phi).
Proof.
  intros Hr. unfold Geometry.normalize, Geometry.spherePoint.
  cbn [at0 at1 at2 add mul div Math_sqrt Math_sin Math_cos RNumber RTrig].
  pose proof (cos2_sin2 theta) as Et. pose proof (cos2_sin2 phi) as Ep.
  set (s := sin theta) in *. set (c := cos theta) in *.
  set (u := sin phi) in *. set (w := cos phi) in *.
  replace (radius * s * w * (radius * s * w) + radius * c * (radius * c)
           + radius * s * u * (radius * s * u))
    with (radius * radius * (s * s * (w * w + u * u) + c * c)) by ring.
  rewrite Ep.
  replace (radius * radius * (s * s * 1 + c * c))
    with (radius * radius * (c * c + s * s)) by ring.
  rewrite Et, Rmult_1_r, sqrt_square by lra.
  f_equal; field; lra.
Qed.

(** The triangles of a quad of a sphere face inwards. *)
Lemma sphereQuad_faces (radius theta1 theta2 phi1 phi2 : R)
    (color : Vec3 R) :
  0 < radius -> 0 <= sin theta1 -> 0 <= sin theta2 ->
  0 < sin theta2 * cos theta1 - cos theta2 * sin theta1 ->
  0 < sin phi2 * cos phi1 - cos phi2 * sin phi1 ->
  Forall
    (fun t =>
       let '(a, b, c) := t in
       Forall
         (fun v =>
            dot3 (v_position v) (v_position v) = radius * radius
            /\ v_position v = scale3 radius (v_normal v)
            /\ dot3 (v_normal v) (v_normal v) = 1
            /\ v_color v = color
            /\ dot3 (facing t) (v_normal v) <= 0
            /\ (dot3 (facing t) (v_normal v) < 0
                \/ at0 (v_position a) = 0 /\ at2 (v_position a) = 0
                \/ at0 (v_position b) = 0 /\ at2 (v_position b) = 0))
         [a; b; c])
    (sphereQuad radius theta1 theta2 phi1 phi2 color).
Proof.
  intros Hr Hs1 Hs2 HD HS.
  unfold sphereQuad, triangle. cbv zeta.
  rewrite !spherePoint_normal by exact Hr.
  unfold Geometry.spherePoint.
  cbn [mul Math_cos Math_sin RNumber RTrig].
  pose proof (cos2_sin2 theta1) as E1. pose proof (cos2_sin2 theta2) as E2.
  pose proof (cos2_sin2 phi1) as F1. pose proof (cos2_sin2 phi2) as F2.
  set (s1 := sin theta1) in *. set (c1 := cos theta1) in *.
  set (s2 := sin theta2) in *. set (c2 := cos theta2) in *.
  set (u1 := sin phi1) in *. set (w1 := cos phi1) in *.
  set (u2 := sin phi2) in *. set (w2 := cos phi2) in *.
  clearbody s1 c1 s2 c2 u1 w1 u2 w2.
  set (D := s2 * c1 - c2 * s1) in *. set (S := u2 * w1 - w2 * u1) in *.
  assert (Hrr : 0 < radius * radius) by nra.
  assert (HSD : 0 < S * D) by (apply Rmult_lt_0_compat; assumption).
  assert (Hk : 0 < radius * radius * (S * D))
    by (apply Rmult_lt_0_compat; assumption).
  assert (Hunit : forall s c u w : R,
            c * c + s * s = 1 -> w * w + u * u = 1 ->
            s * w * (s * w) + c * c + s * u * (s * u) = 1).
  { intros s c u w Hc Hw.
    replace (s * w * (s * w) + c * c + s * u * (s * u))
      with (s * s * (w * w + u * u) + c * c) by ring.
    rewrite Hw. lra. }
  assert (Hon : forall s c u w : R,
            c * c + s * s = 1 -> w * w + u * u = 1 ->
            radius * s * w * (radius * s * w) + radius * c * (radius * c)
            + radius * s * u * (radius * s * u) = radius * radius).
  { intros s c u w Hc Hw.
    replace (radius * s * w * (radius * s * w) + radius * c * (radius * c)
             + radius * s * u * (radius * s * u))
      with (radius * radius
            * (s * w * (s * w) + c * c + s * u * (s * u))) by ring.
    rewrite (Hunit s c u w Hc Hw). ring. }
  apply Forall_cons; [|apply Forall_cons; [|apply Forall_nil]].
  - (* the triangle at [theta1]: its value is [- r^2 s1 S D] *)
    cbv beta iota.
    assert (Hv : 0 <= s1 * (radius * radius * (S * D))) by nra.
    repeat (apply Forall_cons; [
      unfold facing, cross3, minus3, dot3, scale3;
      cbn [mkVertex v_position v_normal v_color at0 at1 at2
           add sub mul RNumber];
      split; [now apply Hon|];
      split; [f_equal; ring|];
      split; [now apply Hunit|];
      split; [reflexivity|];
      match goal with
      | |- ?e <= 0 /\ _ =>
          replace e with (- (s1 * (radius * radius * (S * D))))
            by (unfold D, S; ring)
      end;
      split; [lra|];
      destruct Hs1 as [Hs1|Hs1];
        [ left; nra
        | right; left; rewrite <- Hs1; split; ring ]|]).
    apply Forall_nil.
  - cbv beta iota.
    assert (Hv : 0 <= s2 * (radius * radius * (S * D))) by nra.
    repeat (apply Forall_cons; [
      unfold facing, cross3, minus3, dot3, scale3;
      cbn [mkVertex v_position v_normal v_color at0 at1 at2
           add sub mul RNumber];
      split; [now apply Hon|];
      split; [f_equal; ring|];
      split; [now apply Hunit|];
      split; [reflexivity|];
      match goal with
      | |- ?e <= 0 /\ _ =>
          replace e with (- (s2 * (radius * radius * (S * D))))
            by (unfold D, S; ring)
      end;
      split; [lra|];
      destruct Hs2 as [Hs2|Hs2];
        [ left; nra
        | right; right; rewrite <- Hs2; split; ring ]|]).
    apply Forall_nil.
Qed.

Lemma step_angle (i n : nat) :
  (i < n)%nat ->
  0 <= Geometry.ofNat i / Geometry.ofNat n * PI <= PI
  /\ 0 <= (Geometry.ofNat i + 1) / Geometry.ofNat n * PI <= PI.
Proof.
  intros Hi.
  pose proof (ofNat_nonneg i) as H0.
  pose proof (ofNat_le (S i) n Hi) as H1. rewrite ofNat_succ in H1.
  pose proof PI_RGT_0 as Hpi.
  assert (Hn : 0 < Geometry.ofNat n) by lra.
  assert (Hq : forall x, 0 <= x <= Geometry.ofNat n ->
                 0 <= x / Geometry.ofNat n * PI <= PI).
  { intros x [Hx0 Hx1].
    assert (0 <= x / Geometry.ofNat n <= 1).
    { split.
      - apply Rmult_le_pos; [exact Hx0|]. apply Rlt_le.
        now apply Rinv_0_lt_compat.
      - apply (Rmult_le_reg_r (Geometry.ofNat n)); [exact Hn|].
        replace (x / Geometry.ofNat n * Geometry.ofNat n) with x
          by (field; lra).
        lra. }
    nra. }
  split; apply Hq; lra.
Qed.

(** X30.  The mesh of [Geometry.createSphere], read as the renderer reads
    it, for a positive radius, at least three segments and at least two
    rings, in exact arithmetic: two triangles for each segment of each ring;
    every vertex is on the sphere of the radius given around the origin, in
    the colour given, and its normal is the unit vector from the centre to
    it; and no triangle faces the way of its normals: a triangle that has no
    vertex at a pole faces against them (seen from outside the sphere its
    vertices are in clockwise order, the opposite of the triangles of
    [createBox]). *)
Theorem sphere_faces_inward :
  forall (radius : R) (segments rings : nat) (color : Vec3 R),
  0 < radius -> (3 <= segments)%nat -> (2 <= rings)%nat ->
  let triangles :=
    trianglesOf
      (verticesOf (Geometry.createSphere radius segments rings color)) in
  List.length triangles = (2 * segments * rings)%nat
  /\ Forall
       (fun t =>
          let '(a, b, c) := t in
          Forall
            (fun v =>
               dot3 (v_position v) (v_position v) = radius * radius
               /\ v_position v = scale3 radius (v_normal v)
               /\ dot3 (v_normal v) (v_normal v) = 1
               /\ v_color v = color
               /\ dot3 (facing t) (v_normal v) <= 0
               /\ (dot3 (facing t) (v_normal v) < 0
                   \/ at0 (v_position a) = 0 /\ at2 (v_position a) = 0
                   \/ at0 (v_position b) = 0 /\ at2 (v_position b) = 0))
            [a; b; c])
       triangles.
Proof.
  intros radius segments rings color Hr Hseg Hrings triangles.
  subst triangles.
  rewrite createSphere_triangles, verticesOf_numbersOf,
    trianglesOf_cornersOf.
  split.
  - rewrite (flat_map_length_const _ _ (2 * segments)), length_seq;
      [reflexivity|].
    intros ring _.
    rewrite (flat_map_length_const _ _ 2), length_seq; [reflexivity|].
    intros seg _. reflexivity.
  - apply Forall_flat_map_in. intros ring Hring.
    apply Forall_flat_map_in. intros seg _.
    apply in_seq in Hring.
    destruct (step_angle ring rings ltac:(lia)) as [[A1 B1] [A2 B2]].
    pose proof (ofNat_le 3 segments Hseg) as H3.
    assert (E3 : Geometry.ofNat 3 = 3) by reflexivity.
    rewrite E3 in H3.
    pose proof (ofNat_le 2 rings Hrings) as H2.
    assert (E2 : Geometry.ofNat 2 = 2) by reflexivity.
    rewrite E2 in H2. pose proof PI_RGT_0.
    apply sphereQuad_faces.
    + exact Hr.
    + now apply sin_ge_0.
    + now apply sin_ge_0.
    + apply sin_step; nra.
    + replace ((Geometry.ofNat seg + 1) / Geometry.ofNat segments * PI * 2)
        with ((Geometry.ofNat seg + 1) / Geometry.ofNat segments * (PI * 2))
        by ring.
      replace (Geometry.ofNat seg / Geometry.ofNat segments * PI * 2)
        with (Geometry.ofNat seg / Geometry.ofNat segments * (PI * 2))
        by ring.
      apply sin_step; nra.
Qed.

Lemma sphere_faces_inward_witness :
  List.length
    (trianglesOf
       (verticesOf
          (Geometry.createSphere (18 / 100) 16 12 (vec3 1 1 1))))
  = 384%nat.
Proof.
  assert (Hr : 0 < 18 / 100) by lra.
  assert (Hs : (3 <= 16)%nat) by lia.
  assert (Hn : (2 <= 12)%nat) by lia.
  exact (proj1 (sphere_faces_inward (18 / 100) 16 12 (vec3 1 1 1) Hr Hs Hn)).
Defined.
